(* ===== verification/_CoqProject ===== *)
-Q . S2P
Prelude.v
Cxx.v
Transfer.v
Hex.v
Signal.v
Normalize.v
RuleInterface.v
LargeTransferRule.v
GovernanceRule.v
MintBurnRule.v
ApprovalRule.v
BridgeTransferRule.v
OracleUpdateRule.v
Dedup.v
Health.v
Dispatcher.v
PipelineInterface.v
Engine.v
Rules.v
EventSource.v
Json.v
Model.v
Rpc.v
Adapter.v
Database.v
RuleLoaders.v
BacktestConfig.v
Formatter.v
Security.v
Webhooks.v
Channels.v
Log.v
Metrics.v
CheckpointStore.v
Lifecycle.v
System.v
Drain.v
Latency.v
ServiceMachine.v
ServiceLiveness.v
ServiceFairness.v
ServiceRefinement.v
AppConfig.v
Backtest.v
App.v
Restart.v
Vitals.v
Service.v
EndToEnd.v
Programs.v
Lifetimes.v
Sharing.v
AppLifetimes.v
BacktestLifetimes.v
