(* ===== verification/Prelude.v ===== *)
(** * Risk Sentinel: verification library

    Risk Sentinel follows an EVM chain over JSON-RPC, turns the logs of its
    blocks into signals, evaluates customers' risk rules on them and sends the
    resulting alerts.  Three threads form a pipeline:

      node --JSON-RPC--> event source --ring buffer--> risk engine
           --queue--> alert dispatcher --> channels

    The application loads the rules from PostgreSQL before it starts them; a
    backtest runs the same pipeline over a fixed block range with rules from a
    YAML file.  A health server reports whether the threads make progress.

    ** Correspondence with the code

    (paths below [src/src] for .cpp files and [src/include/sentinel] for .hpp
    files)
    - Prelude: exceptions as values of [result], machine integers as [Z] with
      explicit wrapping ([u8], [u32], [u64]), byte arrays as [list Z], loops as
      [for_each], the hint database [sentinel].
    - Cxx: the parts of the C++ standard library the program relies on.
      Transfer: the callbacks that receive the body of an HTTP response.
    - Hex: [events/utils/hex.hpp].  [Signal]: [risk/signal.hpp],
      [events/RawLog.hpp] and [Alert].
    - Normalize: [events/normalize.cpp]; the uninitialised bytes the code can
      expose are an argument.
    - RuleInterface ([risk/rule_interface.hpp]): the class [IRiskRule] and the
      laws [RiskRuleLaws] every rule discharges; LargeTransferRule,
      GovernanceRule, MintBurnRule, ApprovalRule, BridgeTransferRule and
      OracleUpdateRule: [risk/rules/] and the [risk/*_config.hpp] headers.
    - Dedup: [risk/alert_deduplicator.cpp].  Health: [health/].
    - PipelineInterface: the ring buffer's class with its laws, and what a
      consumer of alerts offers to the engine.  The ring buffer is a
      third-party single-producer single-consumer queue.
    - Dispatcher: [risk/alert_dispatcher.cpp]; Engine: [risk/risk_engine.cpp].
      A thread is a sequence of [run_iteration]s, and whatever other threads do
      (push, dispatch, stop) is interleaved as atomic events: the theorems hold
      for every interleaving.
    - Rules: the six rules as one type of objects, [App::register_rules_], and
      the engine composed with the dispatcher.
    - EventSource: [events/EventSource.cpp], in a monad over a world (source,
      adapter, queue, clocks, what the consumer does between two retries); the
      class [ChainAdapter] is [chains/ChainAdapter.hpp].  The hypothesis [serves]
      is what the theorems ask of a node: from the moment it names a head, it
      answers for the blocks up to it with their logs, or not at all.
    - Json: what the code uses of the JSON library, as a class with documented
      laws.  Rpc: [rpc/JsonRpcClient.cpp] over a class [Network] for the HTTP
      library.  Adapter: [chains/], the two implementations of [ChainAdapter];
      its hypothesis [node_serves] is what the Ethereum JSON-RPC specification
      says of [eth_blockNumber] and [eth_getLogs], and log objects may have
      members beyond those of [RawLog].
      Model: [model.hpp] and [json.hpp].
    - Database: the class of the database client, the loaders' monad and tables.
      RuleLoaders: the [load_*] functions of [app/app.cpp].
      BacktestConfig: [backtest/backtest_config.cpp] over a class for YAML.
    - Formatter: [risk/alert_formatter.cpp].  Security: [security/crypto.cpp] and
      [admin/encrypt_secret.cpp], over a class [Evp] for OpenSSL.  Webhooks: the
      webhook channel and [App::load_webhook_channels_].  Channels: the console,
      file and Telegram channels, and the channels of the application as one
      instance of the dispatcher's [IAlertChannel].
    - Log: [log.cpp].  Metrics: [metrics/metrics.cpp], over a class for the
      Prometheus client.
    - CheckpointStore: [db_checkpoint_store.cpp] and [App::init_db_].
    - Lifecycle: [App::run] and [App::stop_orderly_] over a class [Process] of
      what the main thread sees of the others.  System: the instance of that
      class whose threads are the engine and the dispatcher of the files above,
      with the event source's pushes, interleaved in any way.  Drain: when that
      system drains.  Latency: how many steps of its threads an alert takes.
    - ServiceMachine: all the threads of the service as a transition system of
      atomic actions: [main] with its signal thread ([main.cpp]), [App::run],
      [request_stop], [start_threads_], [stop_orderly_], [join_threads_], the
      readiness file and the destructor, and the loops of the three workers,
      whose data is abstracted to counts.  ServiceLiveness: from which of its
      states the service can still end.  ServiceFairness: that it does under
      every fair schedule.  ServiceRefinement: the shutdown of System.v is a run
      of it.
    - AppConfig: what the service and the backtest share.  App:
      [App::init_modules_], [register_rules_] and the health server's start and
      inputs.  Restart: the lives of a service over one database.  Vitals: the
      readiness probe over the threads of System.v.  Service: the whole of
      [App::run].  Backtest: [backtest/backtest_app.cpp].  EndToEnd: the service
      from the blocks to the alerts.  Programs: [main.cpp].
    - Lifetimes: a machine in which the main thread makes and destroys objects
      and starts and joins threads, and a thread uses what it can reach.
      Sharing: the data members of the classes several threads reach, how each
      is protected and which methods use it.  AppLifetimes, BacktestLifetimes:
      the members, threads, construction, shutdown and destruction of [App]
      ([app/app.hpp]), with the health server, and of [BacktestApp].

    ** What the theorems show

    - Data: every 256-bit number is printed as its decimal numeral and read
      back; hexadecimal parsing is exact up to 64 bits and wraps beyond;
      [normalize] inverts the JSON-RPC rendering of a log, classifies topics by
      a table and always returns well-formed signals.
    - Rules: for each rule the exact list of alerts it raises, stated on numbers
      and addresses; the oracle rule refines a tracker of one price per feed,
      never overflows and keeps no state for other feeds.
    - Delivery: the deduplicator with its periodic cleanup refines the history
      of deliveries; the dispatcher keeps order and isolates channels that
      throw, and counts every attempt; the engine evaluates every queued signal
      once, in order, with exactly the interested rules; both end after stop
      only when drained; composed, no alert is lost between them.
    - Ingestion: over any sequence of polls and any failed calls of the node, the
      event source pushes the logs of the blocks its cursor passed, or passed
      since the head its cold start jumped to, exactly once, in order, when
      every log can be normalised; a backtest covers its range if the engine
      comes often enough, and otherwise is stuck on a full queue; the
      range-halving loop ends; the adapter over JSON-RPC discharges the
      hypothesis these theorems make of the chain.
    - Channels: the lines of a Telegram message; a webhook alert is posted once
      to every endpoint, signed where there is a secret; the file channel
      numbers its lines without gaps; no channel reports a failed delivery; a
      secret encrypted by the admin command is decrypted by the loader.
    - Whole programs: what the channels of the service have received in the end
      is what the rules say of the signals of a range of blocks, up to those the
      source pushed after the shutdown began; what the file of a backtest has
      received is what they say of its whole range; a shutdown that reports no timeout has lost nothing; it drains when
      the engine keeps working, and it ends in any case; the exit codes of the
      service and what can prevent its start; every life of a service over one
      database begins at the same block.
    - Threads: what holds in every reachable state of the service, under every
      schedule, and however writing or removing the readiness file fails; an exact characterisation of the states from which it cannot end
      any more, each of them reachable; when none of them arises; that every
      fair schedule ends or comes to one of them; two races of the shutdown; the
      readiness probe answers by when each thread last began a turn; in how many
      steps of the engine and the dispatcher what is queued has been delivered.
    - Objects, with the references that rules and channels hold into the
      application: wherever an exception leaves the start-up, no thread uses an
      object before it is made or after it is destroyed; two threads are never
      in one unsynchronised data member, but for two pairs of uses, which the
      theorem names and exhibits; in a backtest there is no exception.
    - Configuration: what the start-up builds; what the database loaders and the
      backtest file leave in the rule tables, for malformed input too, and that
      it is well formed; routing of each signal type; readiness answers.

    ** Bounds and fuel

    - [decimal_fuel] = 78 digits suffice for 256 bits; [print_base] uses the
      logarithm of its argument as fuel, always enough ([digits_go_fuel]).
    - [fetch_fuel] = 65: a range of at most 2^64 blocks is halved at most 64
      times before it reaches the minimum; [fetch_logs_terminates] proves that
      the fuel never runs out.
    - [push_retry] follows the schedule of the consumer, one entry for each
      attempt.  Beyond its end the consumer takes nothing: a push then succeeds
      if there is room and blocks forever if there is none, which is an outcome
      of its own ([push_retry_spec]).
    - The waiting loops of the shutdown take as fuel the number of turns of the
      loop: each turn takes at least a millisecond, so more than the timeout's
      milliseconds are always enough ([stop_orderly_ends]).
    - A state of ServiceMachine.v from which the service can end does so in at
      most [left] of it actions.
    - The programs of AppLifetimes.v and BacktestLifetimes.v are finite: their
      check is evaluated for every environment, every set of rules and every
      point at which an exception may leave them.
    - Loops of threads run for as many iterations as the theorem's event list
      has; no theorem assumes a particular number.

    ** What is not modelled, and the plan

    Log lines, sleeps and thread names have no effect on the modelled state.
    The HTTP server, libcurl, the JSON, YAML, PostgreSQL and metrics libraries
    and the ring buffer are parameters.  Memory ordering is not modelled: the
    atomics are read and written as single events.  In ServiceMachine.v the
    health server is left out, a poll of the event source pushes a number of
    logs, and an iteration of the engine, with the alerts it dispatches, is one
    action; AppLifetimes.v has the health server, and abstracts from what the
    calls do to which data members they use.  The forward declarations of the
    headers and the hash functions of the map keys (maps are finite maps here)
    have no model.  Nothing else is planned. *)
From Stdlib Require Export ZArith Lia ZifyBool.
From stdpp Require Export base list strings gmap sets fin_maps pretty option.

#[export] Set Default Goal Selector "!".
Global Open Scope Z_scope.

(** ** Exceptions and fallible code

    C++ exceptions become values: [exn] lists the classes of exception the
    modelled code throws or lets through, each with its [what()] string, and a
    function that may throw returns a [result]. *)
Inductive exn :=
  | RuntimeError (msg : string)
  | InvalidArgument (msg : string)
  | OutOfRange (msg : string)
  | LibraryError (msg : string)
  | NonStdException.

(** [e.what()]; an exception that is not a [std::exception] has no message. *)
Definition what (e : exn) : string :=
  match e with
  | RuntimeError m | InvalidArgument m | OutOfRange m | LibraryError m => m
  | NonStdException => ""
  end.

Inductive result (A : Type) :=
  | Ok (a : A)
  | Throw (e : exn).
Arguments Ok {A} a.
Arguments Throw {A} e.

#[export] Instance exn_eq_dec : EqDecision exn.
Proof. solve_decision. Defined.
#[export] Instance result_eq_dec `{EqDecision A} : EqDecision (result A).
Proof. solve_decision. Defined.

#[export] Instance result_ret : MRet result := @Ok.
#[export] Instance result_bind : MBind result := fun A B f m =>
  match m with Ok a => f a | Throw e => Throw e end.
#[export] Instance result_fmap : FMap result := fun A B f m =>
  match m with Ok a => Ok (f a) | Throw e => Throw e end.
#[export] Instance result_throw : MThrow exn result := @Throw.

Definition is_ok {A} (r : result A) : bool :=
  match r with Ok _ => true | Throw _ => false end.

Section ResultLemmas.
Context {A B : Type}.
Implicit Types (m : result A) (f : A -> result B).

Lemma bind_Ok_inv m f (y : B) :
  (m ≫= f) = Ok y <-> exists x, m = Ok x /\ f x = Ok y.
Proof. destruct m; cbn; naive_solver. Qed.

Lemma bind_Throw_inv m f e :
  (m ≫= f) = Throw e <-> m = Throw e \/ exists x, m = Ok x /\ f x = Throw e.
Proof. destruct m; cbn; naive_solver. Qed.

Lemma mapM_result_length f (l : list A) (k : list B) :
  mapM f l = Ok k -> length k = length l.
Proof.
  revert k; induction l as [|x l IH]; intros k; cbn.
  - intros [= <-]; done.
  - destruct (f x); cbn; [|done].
    destruct (mapM f l); cbn; [|done]. intros [= <-]; cbn; auto.
Qed.

Lemma mapM_result_Forall2 f (l : list A) (k : list B) :
  mapM f l = Ok k <-> Forall2 (fun x y => f x = Ok y) l k.
Proof.
  split.
  - revert k; induction l as [|x l IH]; intros k; cbn.
    + intros [= <-]; constructor.
    + destruct (f x) eqn:Hx; cbn; [|done].
      destruct (mapM f l); cbn; [|done]. intros [= <-]; auto.
  - induction 1 as [|x y l k Hx _ IH]; cbn; [done|].
    by rewrite Hx; cbn; rewrite IH.
Qed.
End ResultLemmas.

(** ** Machine integers

    An unsigned integer of width w is a [Z] and arithmetic on it wraps. *)
Definition u8 (x : Z) : Z := x mod 2 ^ 8.
Definition u32 (x : Z) : Z := x mod 2 ^ 32.
Definition u64 (x : Z) : Z := x mod 2 ^ 64.
Definition UINT64_MAX : Z := 2 ^ 64 - 1.

Definition is_u64 (x : Z) : Prop := 0 <= x < 2 ^ 64.
Definition is_byte (x : Z) : Prop := 0 <= x < 256.

#[export] Instance is_u64_dec x : Decision (is_u64 x).
Proof. unfold is_u64; apply _. Defined.
#[export] Instance is_byte_dec x : Decision (is_byte x).
Proof. unfold is_byte; apply _. Defined.

Lemma u8_bound x : is_byte (u8 x).
Proof. apply Z.mod_pos_bound; lia. Qed.
Lemma u8_id x : is_byte x -> u8 x = x.
Proof. apply Z.mod_small. Qed.
Lemma u32_id x : 0 <= x < 2 ^ 32 -> u32 x = x.
Proof. apply Z.mod_small. Qed.
Lemma u64_bound x : is_u64 (u64 x).
Proof. apply Z.mod_pos_bound; lia. Qed.
Lemma u64_id x : is_u64 x -> u64 x = x.
Proof. apply Z.mod_small. Qed.

Create HintDb sentinel.
#[export] Hint Resolve u8_bound u64_bound : sentinel.
#[export] Hint Rewrite u8_id u64_id u32_id using (unfold is_byte, is_u64 in *; lia) : ints.

(** Case analysis on the first [match]/[if] of the goal, keeping the equation. *)
Ltac case_match_eq :=
  match goal with
  | |- context [match ?x with _ => _ end] => destruct x eqn:?
  | H : context [match ?x with _ => _ end] |- _ => destruct x eqn:?
  end.

(** [invert_result]: take apart a chain of binds that returned normally. *)
Ltac invert_result :=
  repeat match goal with
  | H : (_ ≫= _) = Ok _ |- _ => apply bind_Ok_inv in H as (? & ? & ?)
  | H : Ok _ = Ok _ |- _ => injection H as H
  | H : Throw _ = Ok _ |- _ => discriminate H
  | H : (if ?b then Throw _ else _) = Ok _ |- _ => destruct b eqn:?; [discriminate H|]
  end; subst.

(** ** Byte sequences *)

(** The big-endian value of a byte array, most significant byte first. *)
Definition be_value (l : list Z) : Z := foldl (fun a b => a * 256 + b) 0 l.

(** [std::array<uint8_t, n>]. *)
Definition bytes_ok (n : nat) (l : list Z) : Prop :=
  length l = n /\ Forall is_byte l.

#[export] Instance bytes_ok_dec n l : Decision (bytes_ok n l).
Proof. unfold bytes_ok; apply _. Defined.

Definition zeros (n : nat) : list Z := replicate n 0.

Lemma foldl_horner (l : list Z) a :
  foldl (fun a b => a * 256 + b) a l = a * 256 ^ Z.of_nat (length l) + be_value l.
Proof.
  unfold be_value. revert a; induction l as [|b l IH]; intros a; cbn [foldl length].
  - cbn. lia.
  - rewrite IH, (IH (0 * 256 + b)), Nat2Z.inj_succ, Z.pow_succ_r by lia. lia.
Qed.

Lemma be_value_nil : be_value [] = 0.
Proof. done. Qed.

Lemma be_value_cons b l :
  be_value (b :: l) = b * 256 ^ Z.of_nat (length l) + be_value l.
Proof. unfold be_value at 1; cbn [foldl]. by rewrite foldl_horner. Qed.

Lemma be_value_app l1 l2 :
  be_value (l1 ++ l2) = be_value l1 * 256 ^ Z.of_nat (length l2) + be_value l2.
Proof. unfold be_value at 1. rewrite foldl_app. by rewrite foldl_horner. Qed.

Lemma be_value_bound l :
  Forall is_byte l -> 0 <= be_value l < 256 ^ Z.of_nat (length l).
Proof.
  induction 1 as [|b l Hb _ IH]; [cbn; lia|].
  rewrite be_value_cons. cbn [length].
  rewrite Nat2Z.inj_succ, Z.pow_succ_r by lia. unfold is_byte in Hb. nia.
Qed.

Lemma be_value_zeros n : be_value (zeros n) = 0.
Proof.
  unfold zeros. induction n as [|n IH]; [done|].
  rewrite replicate_S, be_value_cons, IH. lia.
Qed.

Lemma be_value_zero_iff l :
  Forall is_byte l -> be_value l = 0 <-> Forall (fun b => b = 0) l.
Proof.
  induction 1 as [|b l Hb Hl IH]; [done|].
  pose proof (be_value_bound l Hl).
  assert (0 < 256 ^ Z.of_nat (length l)) by (apply Z.pow_pos_nonneg; lia).
  rewrite be_value_cons, Forall_cons_iff. unfold is_byte in Hb. split.
  - intros Hv. assert (b = 0) by nia. split; [done|]. apply IH. nia.
  - intros [-> Hz%IH]. lia.
Qed.

Lemma be_value_inj l1 l2 :
  Forall is_byte l1 -> Forall is_byte l2 -> length l1 = length l2 ->
  be_value l1 = be_value l2 -> l1 = l2.
Proof.
  intros H1; revert l2; induction H1 as [|b l1 Hb H1 IH]; intros [|c l2] H2 Hlen Hv;
    try done.
  injection Hlen as Hlen. rewrite !be_value_cons, Hlen in Hv.
  apply Forall_cons_iff in H2 as [Hc H2].
  pose proof (be_value_bound l1 H1). pose proof (be_value_bound l2 H2).
  rewrite Hlen in *. unfold is_byte in Hb, Hc.
  assert (b = c) as -> by nia. f_equal. apply IH; [done|done|lia].
Qed.

Lemma zeros_length n : length (zeros n) = n.
Proof. apply length_replicate. Qed.
Lemma zeros_bytes n : bytes_ok n (zeros n).
Proof.
  split; [apply zeros_length|]. apply Forall_replicate. unfold is_byte; lia.
Qed.
#[export] Hint Resolve zeros_bytes : sentinel.

(** ** Bit operations as arithmetic *)

(** [a << n | b] adds when [b] fits below the shift. *)
Lemma lor_shiftl_add a b n :
  0 <= n -> 0 <= b < 2 ^ n -> Z.lor (Z.shiftl a n) b = a * 2 ^ n + b.
Proof.
  intros Hn Hb. rewrite <- Z.shiftl_mul_pow2 by done.
  assert (Z.land (Z.shiftl a n) b = 0) as Hland.
  { apply Z.bits_inj'. intros i Hi. rewrite Z.land_spec, Z.bits_0.
    destruct (Z.ltb_spec i n).
    - rewrite Z.shiftl_spec_low by lia. done.
    - assert (Z.testbit b i = false) as ->; [|by rewrite andb_false_r].
      destruct (Z.eqb_spec b 0) as [->|]; [apply Z.bits_0|].
      apply Z.bits_above_log2; [lia|].
      apply Z.lt_le_trans with n; [apply Z.log2_lt_pow2; lia|lia]. }
  rewrite <- Z.lxor_lor by done. symmetry. by apply Z.add_nocarry_lxor.
Qed.

(** Only the residue of the accumulator matters to [u64]. *)
Lemma u64_mul_add_mod a k d : u64 (u64 a * k + d) = u64 (a * k + d).
Proof.
  unfold u64. rewrite (Z.add_mod (a mod _ * k)), Z.mul_mod_idemp_l by lia.
  by rewrite <- Z.add_mod by lia.
Qed.

(** ** Loops that append to an output vector *)

Lemma sublist_Forall {A} (P : A -> Prop) (l k : list A) :
  l `sublist_of` k -> Forall P k -> Forall P l.
Proof. induction 1; rewrite ?Forall_cons_iff; naive_solver. Qed.

(** [for (const auto &x : l) body(x, out)]. *)
Definition for_each {A S} (body : A -> S -> S) (l : list A) (s : S) : S :=
  foldl (fun s x => body x s) s l.

Lemma for_each_cons {A S} (body : A -> S -> S) x l s :
  for_each body (x :: l) s = for_each body l (body x s).
Proof. done. Qed.

Lemma for_each_app {A S} (body : A -> S -> S) l1 l2 s :
  for_each body (l1 ++ l2) s = for_each body l2 (for_each body l1 s).
Proof. apply foldl_app. Qed.

(** A loop whose body pushes at most one element collects the results of the
    partial function the body computes. *)
Lemma for_each_push {A B} (body : A -> list B -> list B) (g : A -> option B) l out :
  (forall x out, body x out = out ++ option_list (g x)) ->
  for_each body l out = out ++ omap g l.
Proof.
  intros Hbody. revert out; induction l as [|x l IH]; intros out.
  - by rewrite app_nil_r.
  - rewrite for_each_cons, IH, Hbody, <- app_assoc. f_equal. cbn. by destruct (g x).
Qed.

(** An invariant of the body is an invariant of the loop. *)
Lemma for_each_inv {A S} (P : S -> Prop) (body : A -> S -> S) l s :
  (forall x s, x ∈ l -> P s -> P (body x s)) -> P s -> P (for_each body l s).
Proof.
  revert s; induction l as [|x l IH]; intros s Hbody Hs; [done|].
  rewrite for_each_cons. apply IH; [|apply Hbody; [left|done]].
  intros y t Hy. apply Hbody. by right.
Qed.

(** [guard b x]: the value pushed when the condition holds. *)
Definition when {B} (b : bool) (x : B) : option B := if b then Some x else None.

Lemma omap_when {A B} (p : A -> bool) (f : A -> B) (l : list A) :
  omap (fun x => when (p x) (f x)) l = f <$> filter p l.
Proof.
  induction l as [|x l IH]; [done|]. rewrite filter_cons. cbn [omap list_omap].
  rewrite IH. unfold when. destruct (p x); cbn; done.
Qed.

Lemma omap_none {A B} (f : A -> option B) l : (forall x, f x = None) -> omap f l = [].
Proof. intros Hf. induction l as [|x l IH]; [done|]. cbn. by rewrite Hf. Qed.

Lemma omap_ext_list {A B} (f g : A -> option B) (l : list A) :
  Forall (fun x => f x = g x) l -> omap f l = omap g l.
Proof. induction 1 as [|x l Hx _ IH]; [done|]. cbn. by rewrite Hx, IH. Qed.

Lemma omap_when_dec {A B} (P : A -> Prop) `{forall x, Decision (P x)} (f : A -> B) (l : list A) :
  omap (fun x => when (bool_decide (P x)) (f x)) l = f <$> filter P l.
Proof.
  induction l as [|x l IH]; [done|]. rewrite filter_cons. cbn [omap list_omap].
  rewrite IH. unfold when. case_bool_decide; case_decide; done.
Qed.

(** Closes a goal that is decided by evaluation. *)
Ltac decide_by_compute := apply (bool_decide_unpack _); vm_compute; exact I.
