(* ===== verification/Cxx.v ===== *)
(** * The C++ standard-library functions the program uses

    Printing and parsing of integers ([std::to_string], [std::format],
    [snprintf("%02x")], [std::stoull], [std::stoi]), [std::memcmp],
    [std::tolower] and string helpers, with the lemmas that relate the digits
    of a number to its value.  Numbers are printed and read in an arbitrary
    base so that the decimal and the hexadecimal code share one theory. *)
From S2P Require Import Prelude.
From Stdlib Require Import Ascii.

Open Scope Z_scope.

(** ** Characters *)

Definition char_code (c : ascii) : Z := Z.of_N (N_of_ascii c).
Definition char_of (z : Z) : ascii := ascii_of_N (Z.to_N z).

(** The newline character. *)
Definition nl : string := String "010" "".

Lemma char_code_bound c : 0 <= char_code c < 256.
Proof.
  unfold char_code. pose proof (N_ascii_bounded c). lia.
Qed.

Lemma char_code_of z : 0 <= z < 256 -> char_code (char_of z) = z.
Proof.
  intros Hz. unfold char_code, char_of. rewrite N_ascii_embedding; lia.
Qed.

Lemma char_of_code c : char_of (char_code c) = c.
Proof. unfold char_of, char_code. rewrite N2Z.id. apply ascii_N_embedding. Qed.

(** [c >= lo && c <= hi] on characters. *)
Definition char_between (lo hi c : ascii) : bool :=
  (char_code lo <=? char_code c) && (char_code c <=? char_code hi).

(** [std::tolower] in the C locale. *)
Definition tolower (c : ascii) : ascii :=
  if char_between "A" "Z" c then char_of (char_code c + 32) else c.

(** [std::transform(s.begin(), s.end(), s.begin(), ::tolower)]. *)
Fixpoint str_tolower (s : string) : string :=
  match s with
  | EmptyString => EmptyString
  | String c s' => String (tolower c) (str_tolower s')
  end.

(** [s.push_back(c)]. *)
Definition push_back (s : string) (c : ascii) : string := (s +:+ String c "")%stdpp.

(** [s.pop_back()] (the program only calls it on a non-empty string). *)
Fixpoint pop_back (s : string) : string :=
  match s with
  | EmptyString | String _ EmptyString => EmptyString
  | String c s' => String c (pop_back s')
  end.

(** [s.back()], when [s] is not empty. *)
Fixpoint str_back (s : string) : option ascii :=
  match s with
  | EmptyString => None
  | String c EmptyString => Some c
  | String _ s' => str_back s'
  end.

(** [s.empty()]. *)
Definition str_empty (s : string) : bool :=
  match s with EmptyString => true | _ => false end.

(** [s.substr(0, 2) == "0x"] together with the rest of the string. *)
Definition strip_0x (s : string) : option string :=
  match s with
  | String a (String b rest) =>
      if (Ascii.eqb a "0" && Ascii.eqb b "x")%char then Some rest else None
  | _ => None
  end.

Lemma strip_0x_Some s rest : strip_0x s = Some rest <-> s = ("0x" +:+ rest)%stdpp.
Proof.
  split.
  - destruct s as [|a [|b s]]; cbn; try done.
    destruct (Ascii.eqb_spec a "0"), (Ascii.eqb_spec b "x"); cbn; try done.
    by intros [= ->]; subst.
  - by intros ->.
Qed.

Lemma str_cons_app c s t : (String c s +:+ t = String c (s +:+ t))%stdpp.
Proof. done. Qed.

Lemma str_length_app s t :
  String.length (s +:+ t)%stdpp = (String.length s + String.length t)%nat.
Proof. induction s as [|c s IH]; [done|]. rewrite !str_cons_app; cbn; congruence. Qed.

Lemma str_app_assoc s t u : ((s +:+ t) +:+ u = s +:+ t +:+ u)%stdpp.
Proof. induction s as [|c s IH]; [done|]. rewrite !str_cons_app; cbn; congruence. Qed.

Lemma str_app_nil_r s : (s +:+ "" = s)%stdpp.
Proof. induction s as [|c s IH]; [done|]. rewrite !str_cons_app; cbn; congruence. Qed.

(** ** Reversal ([std::reverse]) *)
Lemma rev_app_app s t u :
  String.rev_app (s +:+ t)%stdpp u = String.rev_app t (String.rev_app s u).
Proof.
  revert u; induction s as [|c s IH]; intros u; [done|]. exact (IH (String c u)).
Qed.

Lemma rev_push_back s c : String.rev (push_back s c) = String c (String.rev s).
Proof. unfold String.rev, push_back. by rewrite rev_app_app. Qed.

(** ** Positional notation *)

(** The lower-case digit of [d], [0 <= d < 16]. *)
Definition digit_char (d : Z) : ascii :=
  if d <? 10 then char_of (48 + d) else char_of (87 + d).

(** The digits of [v] in [base] put in front of [acc]; [fuel] bounds their
    number. *)
Fixpoint digits_go (base : Z) (fuel : nat) (v : Z) (acc : string) : string :=
  match fuel with
  | O => acc
  | S fuel' =>
      if v <=? 0 then acc
      else digits_go base fuel' (v / base) (String (digit_char (v mod base)) acc)
  end.

Definition print_base (base v : Z) : string :=
  if v =? 0 then "0" else digits_go base (Z.to_nat (Z.log2 v + 1)) v "".

(** [std::to_string] on an unsigned integer. *)
Definition std_to_string (v : Z) : string := print_base 10 v.

(** [std::format("{:#x}", v)]. *)
Definition format_hex (v : Z) : string := ("0x" +:+ print_base 16 v)%stdpp.

(** [snprintf(buf, 3, "%02x", b)] on a byte; it is also what [std::setw(2)]
    with fill character 0 prints in hexadecimal. *)
Definition snprintf_02x (b : Z) : string :=
  String (digit_char (b / 16)) (String (digit_char (b mod 16)) "").

Definition digit_value (c : ascii) : option Z :=
  if char_between "0" "9" c then Some (char_code c - char_code "0")
  else if char_between "a" "f" c then Some (char_code c - char_code "a" + 10)
  else if char_between "A" "F" c then Some (char_code c - char_code "A" + 10)
  else None.

Definition base_digit (base : Z) (c : ascii) : option Z :=
  match digit_value c with
  | Some d => if d <? base then Some d else None
  | None => None
  end.

(** The value denoted by a string of digits read after a prefix of value [a];
    [None] when a character is not a digit of the base. *)
Fixpoint digits_value (base : Z) (a : Z) (s : string) : option Z :=
  match s with
  | EmptyString => Some a
  | String c s' =>
      match base_digit base c with
      | Some d => digits_value base (a * base + d) s'
      | None => None
      end
  end.

Definition decimal_value (s : string) : option Z := digits_value 10 0 s.
Definition hex_value (s : string) : option Z := digits_value 16 0 s.

Ltac split_digit d :=
  let H := fresh in
  assert (d = 0 \/ d = 1 \/ d = 2 \/ d = 3 \/ d = 4 \/ d = 5 \/ d = 6 \/ d = 7 \/
          d = 8 \/ d = 9 \/ d = 10 \/ d = 11 \/ d = 12 \/ d = 13 \/ d = 14 \/
          d = 15) as H by lia;
  repeat destruct H as [-> | H]; [..|subst d].

Lemma digit_value_char d : 0 <= d < 16 -> digit_value (digit_char d) = Some d.
Proof. intros Hd. split_digit d; reflexivity. Qed.

Lemma base_digit_char base d :
  0 <= d < base -> base <= 16 -> base_digit base (digit_char d) = Some d.
Proof.
  intros Hd Hb. unfold base_digit. rewrite digit_value_char by lia.
  by rewrite (proj2 (Z.ltb_lt d base)) by lia.
Qed.

Lemma digit_value_bound c d : digit_value c = Some d -> 0 <= d < 16.
Proof.
  unfold digit_value, char_between.
  change (char_code "0") with 48; change (char_code "9") with 57.
  change (char_code "a") with 97; change (char_code "f") with 102.
  change (char_code "A") with 65; change (char_code "F") with 70.
  repeat case_match; intros [= <-]; lia.
Qed.

Lemma base_digit_bound base c d : base_digit base c = Some d -> 0 <= d < base.
Proof.
  unfold base_digit. destruct (digit_value c) as [e|] eqn:He; [|done].
  apply digit_value_bound in He. case_match; intros [= <-]; lia.
Qed.

Section Positional.
Context (base : Z) (Hbase : 2 <= base <= 16).

Lemma digits_value_mono a s v :
  digits_value base a s = Some v -> 0 <= a -> a <= v.
Proof using Hbase.
  revert a; induction s as [|c s IH]; intros a; cbn; [by intros [= ->]|].
  destruct (base_digit base c) as [d|] eqn:Hd; [|done].
  apply base_digit_bound in Hd. intros Hv Ha. apply IH in Hv; nia.
Qed.

Lemma digits_value_app a s t :
  digits_value base a (s +:+ t)%stdpp =
  digits_value base a s ≫= fun b => digits_value base b t.
Proof.
  revert a; induction s as [|c s IH]; intros a; [done|].
  rewrite str_cons_app. cbn [digits_value]. destruct (base_digit base c); [apply IH|done].
Qed.

Lemma digits_value_print_go fuel v acc :
  0 <= v < base ^ Z.of_nat fuel ->
  digits_value base 0 (digits_go base fuel v acc) = digits_value base v acc.
Proof using Hbase.
  revert v acc; induction fuel as [|fuel IH]; intros v acc Hv.
  - cbn in Hv. by assert (v = 0) as -> by lia.
  - cbn [digits_go]. destruct (Z.leb_spec v 0).
    + by assert (v = 0) as -> by lia.
    + rewrite Nat2Z.inj_succ, Z.pow_succ_r in Hv by lia.
      pose proof (Z.mod_pos_bound v base ltac:(lia)).
      pose proof (Z.div_mod v base ltac:(lia)).
      rewrite IH.
      * cbn [digits_value]. rewrite base_digit_char by lia.
        f_equal. lia.
      * split; [apply Z.div_pos; lia|]. apply Z.div_lt_upper_bound; lia.
Qed.

(** The fuel of [print_base] is enough: reading back what it prints gives the
    number. *)
Lemma digits_value_print_base v :
  0 <= v -> digits_value base 0 (print_base base v) = Some v.
Proof using Hbase.
  intros Hv. unfold print_base. destruct (Z.eqb_spec v 0) as [->|Hne].
  { cbn [digits_value]. change "0"%char with (digit_char 0).
    by rewrite base_digit_char by lia. }
  rewrite digits_value_print_go; [done|].
  split; [done|]. rewrite Z2Nat.id by (pose proof (Z.log2_nonneg v); lia).
  apply Z.lt_le_trans with (2 ^ (Z.log2 v + 1)).
  - apply Z.log2_spec. lia.
  - apply Z.pow_le_mono_l. lia.
Qed.

Lemma print_base_inj v w :
  0 <= v -> 0 <= w -> print_base base v = print_base base w -> v = w.
Proof using Hbase.
  intros Hv Hw Heq. apply (f_equal (digits_value base 0)) in Heq.
  rewrite !digits_value_print_base in Heq by done. congruence.
Qed.

(** More fuel than the number of digits changes nothing. *)
Lemma digits_go_fuel f1 f2 v acc :
  v < base ^ Z.of_nat f1 -> v < base ^ Z.of_nat f2 ->
  digits_go base f1 v acc = digits_go base f2 v acc.
Proof using Hbase.
  revert f2 v acc; induction f1 as [|f1 IH]; intros f2 v acc H1 H2.
  - destruct f2; [done|]. cbn in *. by rewrite (proj2 (Z.leb_le v 0)) by lia.
  - destruct f2 as [|f2].
    + cbn in *. by rewrite (proj2 (Z.leb_le v 0)) by lia.
    + cbn [digits_go]. destruct (Z.leb_spec v 0); [done|].
      rewrite Nat2Z.inj_succ, Z.pow_succ_r in H1, H2 by lia.
      apply IH; apply Z.div_lt_upper_bound; lia.
Qed.
End Positional.

Lemma decimal_value_to_string v : 0 <= v -> decimal_value (std_to_string v) = Some v.
Proof. apply digits_value_print_base. lia. Qed.

Lemma std_to_string_inj v w :
  0 <= v -> 0 <= w -> std_to_string v = std_to_string w -> v = w.
Proof. apply print_base_inj. lia. Qed.

(** ** [std::memcmp] on two buffers of the same length *)
Fixpoint memcmp (a b : list Z) : comparison :=
  match a, b with
  | x :: a', y :: b' => match x ?= y with Eq => memcmp a' b' | c => c end
  | _, _ => Eq
  end.

Lemma memcmp_be_value a b :
  Forall is_byte a -> Forall is_byte b -> length a = length b ->
  memcmp a b = (be_value a ?= be_value b).
Proof.
  intros Ha; revert b; induction Ha as [|x a Hx Ha IH]; intros [|y b] Hb Hlen; try done.
  injection Hlen as Hlen. apply Forall_cons_iff in Hb as [Hy Hb].
  cbn [memcmp]. rewrite !be_value_cons, Hlen.
  pose proof (be_value_bound a Ha). pose proof (be_value_bound b Hb).
  rewrite Hlen in *. unfold is_byte in Hx, Hy.
  destruct (Z.compare_spec x y) as [->| |].
  - rewrite IH by done. symmetry. rewrite Z.add_compare_mono_l. done.
  - symmetry. apply Z.compare_lt_iff. nia.
  - symmetry. apply Z.compare_gt_iff. nia.
Qed.

(** ** Separators in strings *)

Fixpoint has_char (c : ascii) (s : string) : bool :=
  match s with
  | EmptyString => false
  | String x s' => Ascii.eqb x c || has_char c s'
  end.

(** Splitting at the first separator. *)
Lemma split_at_sep c s1 s2 t1 t2 :
  has_char c s1 = false -> has_char c s2 = false ->
  (s1 +:+ String c t1 = s2 +:+ String c t2)%stdpp -> s1 = s2 /\ t1 = t2.
Proof.
  revert s2; induction s1 as [|x s1 IH]; intros [|y s2]; cbn [has_char];
    rewrite ?str_cons_app; intros H1 H2.
  - by intros [= ->].
  - intros [= <- _]. by rewrite Ascii.eqb_refl in H2.
  - intros [= -> _]. by rewrite Ascii.eqb_refl in H1.
  - apply orb_false_iff in H1 as [_ H1], H2 as [_ H2]. intros [= -> H].
    by destruct (IH s2 H1 H2 H) as [-> ->].
Qed.

Lemma has_char_app c s t : has_char c (s +:+ t)%stdpp = has_char c s || has_char c t.
Proof.
  induction s as [|x s IH]; [done|]. rewrite str_cons_app. cbn [has_char].
  by rewrite IH, orb_assoc.
Qed.

Lemma print_base_not_sep base c v :
  0 < base -> (forall d, 0 <= d < base -> digit_char d <> c) ->
  has_char c (print_base base v) = false.
Proof.
  intros Hb Hc. unfold print_base. destruct (Z.eqb_spec v 0).
  { change "0" with (String (digit_char 0) ""). cbn [has_char]. rewrite orb_false_r.
    apply Ascii.eqb_neq, Hc. lia. }
  assert (forall f w acc, has_char c acc = false -> has_char c (digits_go base f w acc) = false)
    as Hgo; [|by apply Hgo].
  induction f as [|f IH]; intros w acc Hacc; [done|]. cbn [digits_go].
  case_match; [done|]. apply IH. cbn [has_char]. rewrite Hacc, orb_false_r.
  apply Ascii.eqb_neq, Hc, Z.mod_pos_bound. lia.
Qed.

Lemma digit_char_not_sep c v :
  (forall d, 0 <= d < 10 -> digit_char d <> c) -> 0 <= v ->
  has_char c (std_to_string v) = false.
Proof. intros Hc _. apply print_base_not_sep; [lia|done]. Qed.

Lemma to_string_no_bar v : 0 <= v -> has_char "|" (std_to_string v) = false.
Proof.
  intros Hv. apply digit_char_not_sep; [|done]. intros d Hd.
  assert (0 <= d < 16) as H by lia. clear Hd. split_digit d; discriminate.
Qed.

Lemma to_string_not_dash v : 0 <= v -> std_to_string v <> "-".
Proof.
  intros Hv Heq. pose proof (digit_char_not_sep "-" v) as H. rewrite Heq in H.
  enough (true = false) by done. apply H; [|done]. intros d Hd.
  assert (0 <= d < 16) as Hd' by lia. clear Hd. split_digit d; discriminate.
Qed.

(** [s.rfind(c)]: the parts of [s] before and after the last [c]. *)
Fixpoint rsplit_at (c : ascii) (s : string) : option (string * string) :=
  match s with
  | EmptyString => None
  | String x s' =>
      match rsplit_at c s' with
      | Some (h, t) => Some (String x h, t)
      | None => if Ascii.eqb x c then Some (EmptyString, s') else None
      end
  end.

Lemma rsplit_at_none c s : rsplit_at c s = None <-> has_char c s = false.
Proof.
  induction s as [|x s IH]; [done|]. cbn [rsplit_at has_char].
  destruct (rsplit_at c s) as [[h t]|]; destruct (Ascii.eqb x c), (has_char c s); cbn;
    naive_solver.
Qed.

Lemma rsplit_at_spec c s h t :
  rsplit_at c s = Some (h, t) <-> s = (h +:+ String c t)%stdpp /\ has_char c t = false.
Proof.
  assert (forall h t, has_char c (h +:+ String c t)%stdpp = true) as Hc.
  { intros h' t'. rewrite has_char_app. cbn [has_char].
    by rewrite Ascii.eqb_refl, orb_true_r. }
  revert h t; induction s as [|x s IH]; intros h t; cbn [rsplit_at].
  - split; [done|]. intros [H _]. by destruct h.
  - destruct (rsplit_at c s) as [[h' t']|] eqn:Hs.
    + destruct (proj1 (IH h' t') eq_refl) as [Heq Ht']. split.
      * intros [= <- <-]. by rewrite str_cons_app, <- Heq.
      * intros [H Ht]. destruct h as [|y h].
        -- injection H as -> H. subst s t. by rewrite Hc in Ht.
        -- rewrite str_cons_app in H. injection H as -> H.
           pose proof (proj2 (IH h t) (conj H Ht)) as E. by injection E as -> ->.
    + apply rsplit_at_none in Hs. split.
      * destruct (Ascii.eqb_spec x c) as [->|]; [|done]. by intros [= <- <-].
      * intros [H Ht]. destruct h as [|y h].
        -- injection H as -> ->. by rewrite Ascii.eqb_refl.
        -- rewrite str_cons_app in H. injection H as _ ->. by rewrite Hc in Hs.
Qed.

(** ** [std::stoull] and [std::stoi] *)

(** The longest prefix of digits: its value after a prefix of value [a], and
    whether at least one digit was read. *)
Fixpoint strto_digits (base : Z) (a : Z) (seen : bool) (s : string) : Z * bool :=
  match s with
  | EmptyString => (a, seen)
  | String c s' =>
      match base_digit base c with
      | Some d => strto_digits base (a * base + d) true s'
      | None => (a, seen)
      end
  end.

Fixpoint skip_space (s : string) : string :=
  match s with
  | String c s' => if stdpp.strings.Ascii.is_space c then skip_space s' else s
  | EmptyString => EmptyString
  end.

(** The optional sign: [true] for a minus sign. *)
Definition read_sign (s : string) : bool * string :=
  match s with
  | String c s' =>
      if Ascii.eqb c "-" then (true, s')
      else if Ascii.eqb c "+" then (false, s') else (false, s)
  | EmptyString => (false, s)
  end.

(** In base 16 a "0x" or "0X" followed by a digit is skipped. *)
Definition skip_0x (s : string) : string :=
  match s with
  | String z (String x (String c _ as s')) =>
      if (Ascii.eqb z "0" && (Ascii.eqb x "x" || Ascii.eqb x "X"))%char
      then match base_digit 16 c with Some _ => s' | None => s end
      else s
  | _ => s
  end.

(** [std::stoull(s, nullptr, 16)]; trailing characters are ignored. *)
Definition stoull16 (s : string) : result Z :=
  let '(neg, s1) := read_sign (skip_space s) in
  let '(v, seen) := strto_digits 16 0 false (skip_0x s1) in
  if negb seen then Throw (InvalidArgument "stoull")
  else if UINT64_MAX <? v then Throw (OutOfRange "stoull")
  else Ok (if neg then u64 (- v) else v).

(** [std::stoull(s)]. *)
Definition stoull10 (s : string) : result Z :=
  let '(neg, s1) := read_sign (skip_space s) in
  let '(v, seen) := strto_digits 10 0 false s1 in
  if negb seen then Throw (InvalidArgument "stoull")
  else if UINT64_MAX <? v then Throw (OutOfRange "stoull")
  else Ok (if neg then u64 (- v) else v).

(** [std::stoi(s)]; [int] has 32 bits. *)
Definition stoi (s : string) : result Z :=
  let '(neg, s1) := read_sign (skip_space s) in
  let '(v, seen) := strto_digits 10 0 false s1 in
  if negb seen then Throw (InvalidArgument "stoi")
  else
    let r := if neg then - v else v in
    if (r <? - 2 ^ 31) || (2 ^ 31 <=? r) then Throw (OutOfRange "stoi") else Ok r.

(** On a string of digits only, the prefix reader reads the whole value. *)
Lemma strto_digits_all base a seen s v :
  digits_value base a s = Some v ->
  strto_digits base a seen s = (v, seen || negb (str_empty s)).
Proof.
  revert a seen; induction s as [|c s IH]; intros a seen; cbn.
  - intros [= ->]. by rewrite orb_false_r.
  - destruct (base_digit base c); [|done]. intros Hv. rewrite (IH _ true Hv).
    cbn. by rewrite orb_true_r.
Qed.

(** A printed number reads back. *)
Lemma base_digit_not_lead base c d :
  base_digit base c = Some d ->
  stdpp.strings.Ascii.is_space c = false /\ Ascii.eqb c "-" = false /\ Ascii.eqb c "+" = false.
Proof.
  intros H. unfold base_digit in H. destruct (digit_value c) as [v|] eqn:Hv; [clear H|done].
  destruct c as [[] [] [] [] [] [] [] []]; first [done | discriminate Hv].
Qed.

Lemma stoi_to_string v : 0 <= v < 2 ^ 31 -> stoi (std_to_string v) = Ok v.
Proof.
  intros Hv. pose proof (decimal_value_to_string v ltac:(lia)) as Hd.
  destruct (std_to_string v) as [|c s] eqn:Hs.
  { injection Hd as <-. by vm_compute in Hs. }
  assert (exists d, base_digit 10 c = Some d) as [d Hc].
  { unfold decimal_value in Hd. cbn [digits_value] in Hd. destruct (base_digit 10 c); [eauto|done]. }
  destruct (base_digit_not_lead 10 c d Hc) as (H1 & H2 & H3).
  unfold stoi. cbn [skip_space]. rewrite H1. cbn [read_sign]. rewrite H2, H3.
  rewrite (strto_digits_all 10 0 false _ v Hd). cbn [orb negb str_empty].
  by rewrite (proj2 (Z.ltb_ge v (- 2 ^ 31))), (proj2 (Z.leb_gt (2 ^ 31) v)) by lia.
Qed.

Lemma skip_0x_digits a s v : digits_value 16 a s = Some v -> skip_0x s = s.
Proof.
  destruct s as [|z [|x [|c s]]]; try done. cbn [digits_value skip_0x].
  destruct (base_digit 16 z) as [d|]; [|done]. destruct (base_digit 16 x) as [d'|] eqn:Hx; [|done].
  intros _. destruct (Ascii.eqb_spec x "x") as [->|_]; [by vm_compute in Hx|].
  destruct (Ascii.eqb_spec x "X") as [->|_]; [by vm_compute in Hx|].
  by rewrite andb_false_r.
Qed.

Lemma stoull16_print v : 0 <= v < 2 ^ 64 -> stoull16 (print_base 16 v) = Ok v.
Proof.
  intros Hv. pose proof (digits_value_print_base 16 ltac:(lia) v ltac:(lia)) as Hd.
  destruct (print_base 16 v) as [|c s] eqn:Hs.
  { injection Hd as <-. by vm_compute in Hs. }
  assert (exists d, base_digit 16 c = Some d) as [d Hc].
  { cbn [digits_value] in Hd. destruct (base_digit 16 c); [eauto|done]. }
  destruct (base_digit_not_lead 16 c d Hc) as (H1 & H2 & H3).
  unfold stoull16. cbn [skip_space]. rewrite H1. cbn [read_sign]. rewrite H2, H3.
  rewrite (skip_0x_digits 0 _ v Hd), (strto_digits_all 16 0 false _ v Hd).
  cbn [orb negb str_empty]. unfold UINT64_MAX. by rewrite (proj2 (Z.ltb_ge (2 ^ 64 - 1) v)) by lia.
Qed.

(** What [std::stoull] returns on a string of digits is its value. *)
Lemma stoull16_value s v r :
  digits_value 16 0 s = Some v -> str_empty s = false -> stoull16 s = Ok r -> r = v.
Proof.
  intros Hd Hs. destruct s as [|c s]; [done|].
  assert (exists d, base_digit 16 c = Some d) as [d Hc].
  { cbn [digits_value] in Hd. destruct (base_digit 16 c); [eauto|done]. }
  destruct (base_digit_not_lead 16 c d Hc) as (H1 & H2 & H3).
  unfold stoull16. cbn [skip_space]. rewrite H1. cbn [read_sign]. rewrite H2, H3.
  rewrite (skip_0x_digits 0 _ v Hd), (strto_digits_all 16 0 false _ v Hd).
  cbn [orb negb str_empty]. case_match; congruence.
Qed.
