(* ===== verification/Transfer.v ===== *)
(** * Receiving a response

    The callbacks through which libcurl hands over a response: [write_callback]
    of [src/rpc/JsonRpcClient.cpp] and [string_write_cb] of
    [src/risk/webhook_alert_channel.cpp] (the Telegram channel has a copy).  The
    library calls them with successive pieces of the body and gives up when the
    number returned is not the size of the piece. *)
From S2P Require Import Prelude Cxx.

(** [str.append(ptr, n)] takes [n] characters; it throws when there is no memory
    for the result, here for more than [room] characters. *)
Definition append (room : nat) (str data : string) (n : Z) : result string :=
  if (room <? String.length str + Z.to_nat n)%nat then Throw (LibraryError "std::bad_alloc")
  else Ok (str +:+ String.substring 0 (Z.to_nat n) data)%stdpp.

(** The exception of [append] goes through. *)
Definition write_callback (room : nat) (data : string) (size nmemb : Z) (out : string)
    : result (string * Z) :=
  out ← append room out data (u64 (size * nmemb));
  Ok (out, u64 (size * nmemb)).

(** [userdata] may be null; the callback is [noexcept]. *)
Definition string_write_cb (room : nat) (data : string) (size nmemb : Z) (userdata : option string)
    : option string * Z :=
  match userdata with
  | None => (None, 0)
  | Some str =>
      let total := u64 (size * nmemb) in
      match append room str data total with
      | Ok str => (Some str, total)
      | Throw _ => (Some str, 0)
      end
  end.

(** * Facts *)

(** Pieces handed over one after the other, each as [size = 1] and its length,
    until one is not taken; the flag is whether all were. *)
Fixpoint receive_pieces (room : nat) (pieces : list string) (str : string) : string * bool :=
  match pieces with
  | [] => (str, true)
  | piece :: pieces =>
      let len := Z.of_nat (String.length piece) in
      match string_write_cb room piece 1 len (Some str) with
      | (Some str, taken) => if taken =? len then receive_pieces room pieces str else (str, false)
      | (None, _) => (str, false)
      end
  end.

Definition concat_pieces (pieces : list string) : string :=
  foldr (fun a b => a +:+ b)%stdpp "" pieces.

Definition short (piece : string) : Prop := Z.of_nat (String.length piece) < 2 ^ 64.

Lemma substring_all s : String.substring 0 (String.length s) s = s.
Proof. induction s as [|c s IH]; [done|]. cbn. by rewrite IH. Qed.

Lemma append_whole room str piece :
  short piece ->
  append room str piece (u64 (1 * Z.of_nat (String.length piece))) =
  if (room <? String.length (str +:+ piece)%stdpp)%nat then Throw (LibraryError "std::bad_alloc")
  else Ok (str +:+ piece)%stdpp.
Proof.
  intros Hs. unfold short in Hs. rewrite Z.mul_1_l, u64_id by (unfold is_u64; lia).
  unfold append. by rewrite Nat2Z.id, substring_all, str_length_app.
Qed.

(** Both callbacks take a piece whole or leave the string as it was. *)
Lemma write_callbacks_piece room str piece (n := Z.of_nat (String.length piece)) :
  short piece ->
  if (room <? String.length (str +:+ piece)%stdpp)%nat
  then write_callback room piece 1 n str = Throw (LibraryError "std::bad_alloc") /\
       string_write_cb room piece 1 n (Some str) = (Some str, 0)
  else write_callback room piece 1 n str = Ok ((str +:+ piece)%stdpp, n) /\
       string_write_cb room piece 1 n (Some str) = (Some (str +:+ piece)%stdpp, n).
Proof.
  intros Hs. unfold write_callback, string_write_cb, n. rewrite append_whole by done.
  destruct (_ <? _)%nat; [done|]. cbn [mbind result_bind]. unfold short in Hs.
  by rewrite Z.mul_1_l, u64_id by (unfold is_u64; lia).
Qed.

(** However a body that fits is cut into pieces, it is received whole. *)
Lemma receive_pieces_concat room pieces str :
  Forall short pieces -> (String.length (str +:+ concat_pieces pieces)%stdpp <= room)%nat ->
  receive_pieces room pieces str = ((str +:+ concat_pieces pieces)%stdpp, true).
Proof.
  intros Hs. revert str; induction Hs as [|piece pieces Hp _ IH]; intros str Hroom.
  - cbn. by rewrite str_app_nil_r.
  - cbn [receive_pieces concat_pieces foldr] in *. fold (concat_pieces pieces) in *.
    rewrite <- str_app_assoc in Hroom |- *.
    pose proof (write_callbacks_piece room str piece Hp) as Hcb.
    rewrite (proj2 (Nat.ltb_ge _ _)) in Hcb by (rewrite str_length_app in Hroom; lia).
    destruct Hcb as [_ ->]. rewrite Z.eqb_refl. by apply IH.
Qed.
