(* ===== verification/Hex.v ===== *)
(** * Hexadecimal and 256-bit helpers

    Model of [include/sentinel/events/utils/hex.hpp] and of the byte-to-hex
    loops of the rules and of [src/security/crypto.cpp].  A [std::array] of
    bytes is a [list Z] ([bytes_ok n]); [const uint8_t *] arguments point at an
    array of which the first 32 bytes are used.  Exceptions are [Throw]n values. *)
From S2P Require Import Prelude Cxx.
From Stdlib Require Import Ascii.

(** ** Nibbles *)

Definition hex_nibble (c : ascii) : result Z :=
  if char_between "0" "9" c then Ok (u8 (char_code c - char_code "0"))
  else if char_between "a" "f" c then Ok (u8 (char_code c - char_code "a" + 10))
  else if char_between "A" "F" c then Ok (u8 (char_code c - char_code "A" + 10))
  else Throw (RuntimeError "invalid hex character").

(** [const_hex_nibble] throws a string literal, not a [std::exception]. *)
Definition const_hex_nibble (c : ascii) : result Z :=
  if char_between "0" "9" c then Ok (u8 (char_code c - char_code "0"))
  else if char_between "a" "f" c then Ok (u8 (char_code c - char_code "a" + 10))
  else if char_between "A" "F" c then Ok (u8 (char_code c - char_code "A" + 10))
  else Throw NonStdException.

(** Two digits to a byte: [(nib(h) << 4) | nib(l)], stored in a [uint8_t]. *)
Definition byte_of_nibbles (hi lo : Z) : Z := u8 (Z.lor (Z.shiftl hi 4) lo).

(** [parse_topic_literal]: a compile-time conversion of a 66-character literal. *)
Fixpoint topic_bytes (n : nat) (s : string) : result (list Z) :=
  match n, s with
  | O, _ => Ok []
  | S n', String h (String l s') =>
      hi ← const_hex_nibble h; lo ← const_hex_nibble l;
      rest ← topic_bytes n' s';
      Ok (byte_of_nibbles hi lo :: rest)
  | S _, _ => Throw NonStdException
  end.

Definition parse_topic_literal (s : string) : result (list Z) :=
  if negb (String.length s =? 66)%nat then Throw NonStdException
  else match strip_0x s with
       | Some rest => topic_bytes 32 rest
       | None => Throw NonStdException
       end.

(** ** [parse_hex_uint64] *)

(** The loop body: [val = (val << 4) | hex_nibble(hex[i])] on [uint64_t]. *)
Fixpoint hex_u64_loop (val : Z) (s : string) : result Z :=
  match s with
  | EmptyString => Ok val
  | String c s' =>
      d ← hex_nibble c; hex_u64_loop (Z.lor (u64 (Z.shiftl val 4)) d) s'
  end.

Definition parse_hex_uint64 (hex : string) : result Z :=
  match strip_0x hex with
  | Some digits =>
      if (String.length hex <? 3)%nat then Throw (RuntimeError "invalid hex uint64")
      else hex_u64_loop 0 digits
  | None => Throw (RuntimeError "invalid hex uint64")
  end.

(** ** [parse_hex_bytes]

    [out] is the array before the call; the bytes after the parsed prefix keep
    their value.  Digits beyond the [N]th byte are not looked at. *)
Fixpoint hex_bytes_loop (s : string) (out : list Z) : result (list Z) :=
  match s, out with
  | String h (String l s'), _ :: out' =>
      hi ← hex_nibble h; lo ← hex_nibble l;
      rest ← hex_bytes_loop s' out';
      Ok (byte_of_nibbles hi lo :: rest)
  | _, _ => Ok out
  end.

Definition parse_hex_bytes (hex : string) (out : list Z) : result (list Z) :=
  match strip_0x hex with
  | None => Throw (RuntimeError "invalid hex bytes")
  | Some digits =>
      if negb (Nat.even (String.length digits))
      then Throw (RuntimeError "hex string has odd length")
      else hex_bytes_loop digits out
  end.

(** ** [validate_hex] *)
Fixpoint validate_hex_loop (s : string) : result unit :=
  match s with
  | EmptyString => Ok ()
  | String c s' => _ ← hex_nibble c; validate_hex_loop s'
  end.

Definition validate_hex (hex : string) : result unit :=
  match strip_0x hex with
  | None => Throw (RuntimeError "Expected 0x-prefixed hex string")
  | Some digits =>
      if negb (Nat.even (String.length digits))
      then Throw (RuntimeError "Hex string has odd length")
      else validate_hex_loop digits
  end.

Definition to_hex_quantity (value : Z) : string := format_hex value.

(** ** 256-bit big-endian integers *)

(** [result[31 - i] = (value >> (i * 8)) & 0xFF] for [i < 8]. *)
Definition to_be_256 (value : Z) : list Z :=
  zeros 24 ++ map (fun i => u8 (Z.land (Z.shiftr value (i * 8)) 255))
                [7; 6; 5; 4; 3; 2; 1; 0].

Definition greater_be_256 (lhs rhs : list Z) : bool :=
  match memcmp (take 32 lhs) (take 32 rhs) with Gt => true | _ => false end.

(** One pass of the long division by ten: [num = (remainder << 8) | buffer[i]]. *)
Fixpoint div10_pass (remainder : Z) (buffer : list Z) : list Z * Z :=
  match buffer with
  | [] => ([], remainder)
  | b :: bs =>
      let num := Z.lor (u32 (Z.shiftl remainder 8)) b in
      let '(bs', r) := div10_pass (num mod 10) bs in
      (u8 (num / 10) :: bs', r)
  end.

Definition all_zero (l : list Z) : bool := forallb (Z.eqb 0) l.

(** The [while (!is_zero)] loop; each pass appends a digit. *)
Fixpoint decimal_loop (fuel : nat) (buffer : list Z) (acc : string) : string :=
  match fuel with
  | O => acc
  | S fuel' =>
      let '(buffer', remainder) := div10_pass 0 buffer in
      let acc' := push_back acc (char_of (char_code "0" + remainder)) in
      if all_zero buffer' then acc' else decimal_loop fuel' buffer' acc'
  end.

(** A 256-bit number has at most 78 decimal digits. *)
Definition decimal_fuel : nat := 78.

Definition uint256_be_to_decimal (data : list Z) : string :=
  let buffer := take 32 data in
  if all_zero buffer then "0"
  else String.rev (decimal_loop decimal_fuel buffer "").

(** The inner loop of [decimal_to_be_256], from byte 31 down to byte 0:
    [val = result[i] * 10 + carry; result[i] = val & 0xFF; carry = val >> 8]. *)
Fixpoint mul10_add (carry : Z) (bytes : list Z) : list Z * Z :=
  match bytes with
  | [] => ([], carry)
  | b :: bs =>
      let '(bs', c) := mul10_add carry bs in
      let val := u32 (b * 10 + c) in
      (u8 (Z.land val 255) :: bs', Z.shiftr val 8)
  end.

Fixpoint decimal_digits_loop (res : list Z) (decimal : string) : result (list Z) :=
  match decimal with
  | EmptyString => Ok res
  | String c rest =>
      if (char_code c <? char_code "0") || (char_code "9" <? char_code c)
      then Throw (RuntimeError "invalid decimal digit")
      else
        let digit := u32 (char_code c - char_code "0") in
        let '(res', carry) := mul10_add digit res in
        if 0 <? carry
        then Throw (RuntimeError "decimal string too large for 256-bit int")
        else decimal_digits_loop res' rest
  end.

Definition decimal_to_be_256 (decimal : string) : result (list Z) :=
  decimal_digits_loop (zeros 32) decimal.

(** The big-endian accumulation loop of [normalize] and of the oracle rule:
    [acc = (acc << 8) | b] on [uint64_t]. *)
Definition be_u64 (bytes : list Z) : Z :=
  foldl (fun acc b => Z.lor (u64 (Z.shiftl acc 8)) b) 0 bytes.

(** ** Bytes to hexadecimal

    The [snprintf("%02x")] loop the rules repeat and [aggregator_to_hex] of the
    oracle rule; Security.v shows that [bytes_to_hex] of the crypto module agrees. *)
Fixpoint bytes_to_hex (data : list Z) : string :=
  match data with
  | [] => ""
  | b :: bs => (snprintf_02x b +:+ bytes_to_hex bs)%stdpp
  end.

Definition address_to_hex (addr : list Z) : string := ("0x" +:+ bytes_to_hex addr)%stdpp.

(** * Facts *)

Lemma hex_nibble_spec c :
  hex_nibble c = match digit_value c with
                 | Some d => Ok d
                 | None => Throw (RuntimeError "invalid hex character")
                 end.
Proof.
  destruct (digit_value c) as [d|] eqn:Hd.
  - pose proof (digit_value_bound c d Hd) as Hb.
    unfold hex_nibble, digit_value in *.
    repeat case_match; simplify_eq/=; rewrite ?u8_id; (done || (unfold is_byte; lia)).
  - unfold hex_nibble, digit_value in *. repeat case_match; done.
Qed.

Lemma hex_nibble_bound c d : hex_nibble c = Ok d -> 0 <= d < 16.
Proof.
  rewrite hex_nibble_spec. destruct (digit_value c) eqn:Hd; [|done].
  intros [= <-]. by apply digit_value_bound with c.
Qed.

Lemma hex_nibble_digit d : 0 <= d < 16 -> hex_nibble (digit_char d) = Ok d.
Proof. intros. by rewrite hex_nibble_spec, digit_value_char. Qed.

Lemma byte_of_nibbles_val hi lo :
  0 <= hi < 16 -> 0 <= lo < 16 -> byte_of_nibbles hi lo = hi * 16 + lo.
Proof.
  intros. unfold byte_of_nibbles. rewrite lor_shiftl_add by lia.
  change (2 ^ 4) with 16. apply u8_id. unfold is_byte. lia.
Qed.

Lemma base_digit_16 c : base_digit 16 c = digit_value c.
Proof.
  unfold base_digit. destruct (digit_value c) as [d|] eqn:Hd; [|done].
  apply digit_value_bound in Hd. by rewrite (proj2 (Z.ltb_lt d 16)) by lia.
Qed.

(** ** [parse_hex_uint64] *)

Lemma hex_u64_step a d :
  0 <= d < 16 -> Z.lor (u64 (Z.shiftl (u64 a) 4)) d = u64 (a * 16 + d).
Proof.
  intros Hd. rewrite Z.shiftl_mul_pow2 by lia. change (2 ^ 4) with 16.
  assert (u64 (u64 a * 16) = Z.shiftl (u64 a mod 2 ^ 60) 4) as ->.
  { rewrite Z.shiftl_mul_pow2 by lia. unfold u64 at 1.
    change (2 ^ 64) with (2 ^ 60 * 16). change (2 ^ 4) with 16.
    by rewrite Z.mul_mod_distr_r by lia. }
  rewrite lor_shiftl_add by lia. change (2 ^ 4) with 16.
  rewrite <- u64_mul_add_mod. unfold u64.
  set (x := a mod 2 ^ 64).
  pose proof (Z.mod_pos_bound x (2 ^ 60) ltac:(lia)).
  pose proof (Z.div_mod x (2 ^ 60) ltac:(lia)).
  apply Z.mod_unique with (x / 2 ^ 60); lia.
Qed.

Lemma hex_u64_loop_spec a s :
  hex_u64_loop (u64 a) s =
  match digits_value 16 a s with
  | Some v => Ok (u64 v)
  | None => Throw (RuntimeError "invalid hex character")
  end.
Proof.
  revert a; induction s as [|c s IH]; intros a; [done|].
  cbn [hex_u64_loop digits_value]. rewrite hex_nibble_spec, base_digit_16.
  destruct (digit_value c) as [d|] eqn:Hd; [|done].
  cbn. apply digit_value_bound in Hd. by rewrite hex_u64_step by lia.
Qed.

Lemma print_base_nonempty base v : 0 <= v -> str_empty (print_base base v) = false.
Proof.
  intros Hv0.
  unfold print_base. case_match; [done|].
  assert (forall f w acc, str_empty acc = false -> str_empty (digits_go base f w acc) = false)
    as Hgo.
  { induction f as [|f IH]; intros w acc Hacc; [done|]. cbn [digits_go].
    case_match; [done|]. by apply IH. }
  destruct (Z.to_nat (Z.log2 v + 1)) as [|f] eqn:Hf; [pose proof (Z.log2_nonneg v); lia|].
  cbn [digits_go]. case_match; [lia|by apply Hgo].
Qed.

Lemma parse_hex_uint64_digits ds :
  str_empty ds = false ->
  parse_hex_uint64 ("0x" +:+ ds)%stdpp =
  match hex_value ds with
  | Some v => Ok (u64 v)
  | None => Throw (RuntimeError "invalid hex character")
  end.
Proof.
  intros Hne. unfold parse_hex_uint64.
  rewrite (proj2 (strip_0x_Some _ _) eq_refl), str_length_app.
  destruct ds as [|c ds]; [done|]. cbn [String.length Nat.add Nat.ltb Nat.leb].
  apply (hex_u64_loop_spec 0).
Qed.

Lemma parse_hex_uint64_print v :
  is_u64 v -> parse_hex_uint64 (to_hex_quantity v) = Ok v.
Proof.
  intros Hv. unfold to_hex_quantity, format_hex.
  rewrite parse_hex_uint64_digits by (apply print_base_nonempty, Hv).
  unfold hex_value. rewrite digits_value_print_base by (unfold is_u64 in Hv; lia).
  by rewrite u64_id.
Qed.

(** ** [parse_hex_bytes] *)

Lemma hex_bytes_loop_ok s out out' :
  hex_bytes_loop s out = Ok out' ->
  length out' = length out /\ (Forall is_byte out -> Forall is_byte out').
Proof.
  revert s out'; induction out as [|b out IH]; intros s out'.
  { destruct s as [|h [|l s]]; cbn; intros [= <-]; done. }
  destruct s as [|h [|l s]]; cbn [hex_bytes_loop]; try (intros [= <-]; done).
  intros H; invert_result. edestruct IH as [Hlen Hb]; [eassumption|].
  split; [cbn; congruence|]. intros [_ Hf]%Forall_cons_iff.
  constructor; [apply u8_bound|]. by apply Hb.
Qed.

Lemma parse_hex_bytes_ok n hex out out' :
  parse_hex_bytes hex out = Ok out' -> bytes_ok n out -> bytes_ok n out'.
Proof.
  unfold parse_hex_bytes. repeat case_match; try done.
  intros [Hlen Hb]%hex_bytes_loop_ok [<- Hf]. split; auto.
Qed.
#[export] Hint Resolve parse_hex_bytes_ok : sentinel.

Lemma bytes_to_hex_length l : String.length (bytes_to_hex l) = (2 * length l)%nat.
Proof.
  induction l as [|b l IH]; [done|]. cbn [bytes_to_hex].
  rewrite str_length_app, IH. cbn. lia.
Qed.

(** Parsing the digits of [l] over [out] overwrites a prefix of [out]: bytes of
    [l] that do not fit are dropped, bytes of [out] past [l] are kept. *)
Lemma hex_bytes_loop_print l out :
  Forall is_byte l ->
  hex_bytes_loop (bytes_to_hex l) out = Ok (take (length out) l ++ drop (length l) out).
Proof.
  intros Hl; revert out; induction Hl as [|b l Hb Hl IH]; intros [|o out]; [done..|].
  unfold is_byte in Hb.
  assert (0 <= b / 16 < 16) by (split; [apply Z.div_pos|apply Z.div_lt_upper_bound]; lia).
  pose proof (Z.mod_pos_bound b 16 ltac:(lia)).
  change (bytes_to_hex (b :: l)) with
    (String (digit_char (b / 16)) (String (digit_char (b mod 16)) (bytes_to_hex l))).
  cbn [hex_bytes_loop]. rewrite !hex_nibble_digit by lia. cbn.
  rewrite IH by done. cbn. rewrite byte_of_nibbles_val by lia.
  pose proof (Z.div_mod b 16 ltac:(lia)). do 2 f_equal. lia.
Qed.

Lemma even_2n n : Nat.even (2 * n) = true.
Proof. apply Nat.even_spec. by exists n. Qed.

Lemma strip_address_to_hex l : strip_0x (address_to_hex l) = Some (bytes_to_hex l).
Proof. by apply strip_0x_Some. Qed.

Lemma parse_hex_bytes_print l out :
  Forall is_byte l ->
  parse_hex_bytes (address_to_hex l) out = Ok (take (length out) l ++ drop (length l) out).
Proof.
  intros Hl. unfold parse_hex_bytes.
  rewrite strip_address_to_hex, bytes_to_hex_length, even_2n.
  by apply hex_bytes_loop_print.
Qed.

(** Formatting bytes and parsing them back is the identity. *)
Lemma parse_hex_bytes_address_to_hex l out :
  Forall is_byte l -> length out = length l ->
  parse_hex_bytes (address_to_hex l) out = Ok l.
Proof.
  intros Hl Hlen. rewrite parse_hex_bytes_print by done.
  by rewrite drop_ge, app_nil_r, take_ge by lia.
Qed.

Lemma hex_nibble_is_ok_print l :
  Forall is_byte l -> validate_hex_loop (bytes_to_hex l) = Ok ().
Proof.
  induction 1 as [|b l Hb Hl IH]; [done|]. unfold is_byte in Hb.
  assert (0 <= b / 16 < 16) by (split; [apply Z.div_pos|apply Z.div_lt_upper_bound]; lia).
  pose proof (Z.mod_pos_bound b 16 ltac:(lia)).
  change (bytes_to_hex (b :: l)) with
    (String (digit_char (b / 16)) (String (digit_char (b mod 16)) (bytes_to_hex l))).
  cbn [validate_hex_loop]. by rewrite !hex_nibble_digit by lia.
Qed.

Lemma validate_hex_print l : Forall is_byte l -> validate_hex (address_to_hex l) = Ok ().
Proof.
  intros Hl. unfold validate_hex.
  rewrite strip_address_to_hex, bytes_to_hex_length, even_2n. by apply hex_nibble_is_ok_print.
Qed.

Lemma address_to_hex_length l :
  String.length (address_to_hex l) = (2 + 2 * length l)%nat.
Proof. unfold address_to_hex. by rewrite str_length_app, bytes_to_hex_length. Qed.

Lemma address_to_hex_inj l1 l2 :
  Forall is_byte l1 -> Forall is_byte l2 -> length l1 = length l2 ->
  address_to_hex l1 = address_to_hex l2 -> l1 = l2.
Proof.
  intros H1 H2 Hlen Heq.
  pose proof (parse_hex_bytes_address_to_hex l1 (zeros (length l1)) H1
                (zeros_length _)) as E1.
  rewrite Heq, parse_hex_bytes_address_to_hex in E1; [congruence|done|].
  by rewrite zeros_length.
Qed.

(** ** Comparison *)

Lemma take_bytes n m l : bytes_ok n l -> (m <= n)%nat -> bytes_ok m (take m l).
Proof.
  intros [Hlen Hf] Hle. split; [rewrite length_take; lia|by apply Forall_take].
Qed.

Lemma greater_be_256_spec n m a b :
  bytes_ok n a -> bytes_ok m b -> (32 <= n)%nat -> (32 <= m)%nat ->
  greater_be_256 a b = (be_value (take 32 b) <? be_value (take 32 a)).
Proof.
  intros Ha Hb Hn Hm. unfold greater_be_256.
  destruct (take_bytes n 32 a Ha Hn) as [La Fa], (take_bytes m 32 b Hb Hm) as [Lb Fb].
  rewrite memcmp_be_value by (done || congruence).
  destruct (Z.compare_spec (be_value (take 32 a)) (be_value (take 32 b))) as [->| |].
  - by rewrite Z.ltb_irrefl.
  - symmetry. apply Z.ltb_ge. lia.
  - symmetry. by apply Z.ltb_lt.
Qed.

(** ** Decimal *)

Lemma all_zero_spec l : Forall is_byte l -> all_zero l = (be_value l =? 0).
Proof.
  intros Hl. apply eq_true_iff_eq. unfold all_zero.
  rewrite Z.eqb_eq, be_value_zero_iff, forallb_forall, Forall_forall by done.
  setoid_rewrite Z.eqb_eq. setoid_rewrite <- list_elem_of_In. naive_solver.
Qed.

Lemma div10_pass_spec rem l l' r :
  Forall is_byte l -> 0 <= rem < 10 -> div10_pass rem l = (l', r) ->
  Forall is_byte l' /\ length l' = length l /\ 0 <= r < 10 /\
  be_value l' * 10 + r = rem * 256 ^ Z.of_nat (length l) + be_value l.
Proof.
  intros Hl; revert rem l' r; induction Hl as [|b l Hb Hl IH]; intros rem l' r Hrem.
  { cbn. intros [= <- <-]. cbn. split_and!; [done|done|lia..]. }
  cbn [div10_pass]. unfold is_byte in Hb.
  rewrite u32_id by (rewrite Z.shiftl_mul_pow2 by lia; change (2 ^ 8) with 256; lia).
  rewrite lor_shiftl_add by lia. change (2 ^ 8) with 256.
  set (num := rem * 256 + b).
  destruct (div10_pass (num mod 10) l) as [bs' r'] eqn:Hp. intros [= <- <-].
  pose proof (Z.mod_pos_bound num 10 ltac:(lia)).
  pose proof (Z.div_mod num 10 ltac:(lia)).
  apply IH in Hp as (Hf & Hlen & Hr & Hv); [|lia].
  assert (0 <= num / 10 < 256) by
    (unfold num; split; [apply Z.div_pos|apply Z.div_lt_upper_bound]; lia).
  split_and!; [constructor; [apply u8_bound|done]|cbn; congruence|lia..|].
  rewrite !be_value_cons, u8_id, Hlen by done. cbn [length].
  rewrite Nat2Z.inj_succ, Z.pow_succ_r by lia. unfold num in *. nia.
Qed.

Lemma digit_char_decimal d : 0 <= d < 10 -> char_of (char_code "0" + d) = digit_char d.
Proof.
  intros. unfold digit_char. by rewrite (proj2 (Z.ltb_lt d 10)) by lia.
Qed.

(** The loop prints the digits of the buffer's value, most significant first
    once reversed, provided the fuel bounds their number. *)
Lemma decimal_loop_spec fuel l acc :
  Forall is_byte l -> 0 < be_value l < 10 ^ Z.of_nat fuel ->
  String.rev (decimal_loop fuel l acc) = digits_go 10 fuel (be_value l) (String.rev acc).
Proof.
  revert l acc; induction fuel as [|fuel IH]; intros l acc Hl Hv; [cbn in Hv; lia|].
  cbn [decimal_loop digits_go]. rewrite (proj2 (Z.leb_gt (be_value l) 0)) by lia.
  destruct (div10_pass 0 l) as [l' r] eqn:Hp.
  apply div10_pass_spec in Hp as (Hf & _ & Hr & Heq); [|done|lia].
  assert (be_value l / 10 = be_value l') as ->.
  { symmetry. apply Z.div_unique with r; lia. }
  assert (be_value l mod 10 = r) as ->.
  { symmetry. apply Z.mod_unique with (be_value l'); lia. }
  rewrite digit_char_decimal by done. rewrite all_zero_spec by done.
  pose proof (be_value_bound l' Hf). rewrite Nat2Z.inj_succ, Z.pow_succ_r in Hv by lia.
  destruct (Z.eqb_spec (be_value l') 0) as [->|].
  - rewrite rev_push_back. by destruct fuel.
  - rewrite IH, rev_push_back by (done || lia). done.
Qed.

Lemma be_value_32_digits l :
  bytes_ok 32 l -> 0 <= be_value l < 10 ^ Z.of_nat decimal_fuel.
Proof.
  intros [Hlen Hf]. pose proof (be_value_bound l Hf) as Hb. rewrite Hlen in Hb.
  split; [apply Hb|]. eapply Z.lt_trans; [apply Hb|]. vm_compute. done.
Qed.

Lemma log2_fuel v : 0 < v -> v < 10 ^ Z.of_nat (Z.to_nat (Z.log2 v + 1)).
Proof.
  intros Hv. rewrite Z2Nat.id by (pose proof (Z.log2_nonneg v); lia).
  apply Z.lt_le_trans with (2 ^ (Z.log2 v + 1)).
  - by apply Z.log2_spec.
  - apply Z.pow_le_mono_l. lia.
Qed.

(** Whatever the array length from 32 up, the text is the decimal numeral of the
    first 32 bytes: the fuel of the loop is enough. *)
Lemma uint256_be_to_decimal_value n l :
  bytes_ok n l -> (32 <= n)%nat ->
  uint256_be_to_decimal l = std_to_string (be_value (take 32 l)).
Proof.
  intros Hok Hn. pose proof (take_bytes _ 32 _ Hok Hn) as Ht.
  pose proof (be_value_32_digits _ Ht) as Hb. destruct Ht as [_ Hf].
  unfold uint256_be_to_decimal, std_to_string, print_base.
  clear Hok. revert Hb Hf. generalize (take 32 l). intros k.
  generalize decimal_fuel. intros fuel Hb Hf. rewrite all_zero_spec by done.
  destruct (Z.eqb_spec (be_value k) 0); [done|].
  rewrite decimal_loop_spec by (done || lia).
  apply digits_go_fuel; [lia|lia|]. apply log2_fuel. lia.
Qed.

(** ** Decimal parsing *)

Lemma mul10_add_spec carry l l' c :
  Forall is_byte l -> 0 <= carry < 10 -> mul10_add carry l = (l', c) ->
  Forall is_byte l' /\ length l' = length l /\ 0 <= c < 10 /\
  c * 256 ^ Z.of_nat (length l) + be_value l' = be_value l * 10 + carry.
Proof.
  intros Hl Hc; revert l' c; induction Hl as [|b l Hb Hl IH]; intros l' c.
  { cbn. intros [= <- <-]. cbn. split_and!; [done|done|lia..]. }
  cbn [mul10_add]. destruct (mul10_add carry l) as [bs' c'] eqn:Hp.
  destruct (IH _ _ eq_refl) as (Hf & Hlen & Hr & Hv).
  unfold is_byte in Hb. rewrite u32_id by lia. intros [= <- <-].
  set (val := b * 10 + c').
  change 255 with (Z.ones 8). rewrite Z.land_ones, Z.shiftr_div_pow2 by lia.
  change (2 ^ 8) with 256.
  pose proof (Z.mod_pos_bound val 256 ltac:(lia)).
  pose proof (Z.div_mod val 256 ltac:(lia)).
  assert (0 <= val / 256 < 10) by
    (unfold val; split; [apply Z.div_pos|apply Z.div_lt_upper_bound]; lia).
  split_and!; [constructor; [apply u8_bound|done]|cbn; congruence|lia..|].
  rewrite !be_value_cons, u8_id, Hlen by done. cbn [length].
  rewrite Nat2Z.inj_succ, Z.pow_succ_r by lia. unfold val in *. nia.
Qed.

(** The parser's answer on a string read after a prefix of value [a]. *)
Definition decimal_outcome (a : Z) (s : string) (r : result (list Z)) : Prop :=
  match digits_value 10 a s with
  | Some v =>
      if v <? 2 ^ 256
      then exists b, r = Ok b /\ bytes_ok 32 b /\ be_value b = v
      else r = Throw (RuntimeError "decimal string too large for 256-bit int")
  | None =>
      r = Throw (RuntimeError "decimal string too large for 256-bit int") \/
      r = Throw (RuntimeError "invalid decimal digit")
  end.

Lemma decimal_digit_range c :
  (char_code c <? char_code "0") || (char_code "9" <? char_code c) =
  match base_digit 10 c with Some _ => false | None => true end.
Proof.
  unfold base_digit, digit_value, char_between.
  change (char_code "0") with 48; change (char_code "9") with 57.
  change (char_code "a") with 97; change (char_code "f") with 102.
  change (char_code "A") with 65; change (char_code "F") with 70.
  repeat case_match; simplify_eq/=; lia.
Qed.

Lemma base_digit_10 c d : base_digit 10 c = Some d -> d = char_code c - char_code "0".
Proof.
  unfold base_digit, digit_value, char_between.
  change (char_code "0") with 48; change (char_code "9") with 57.
  change (char_code "a") with 97; change (char_code "f") with 102.
  change (char_code "A") with 65; change (char_code "F") with 70.
  intros H. repeat case_match; simplify_eq/=; lia.
Qed.

Lemma decimal_digits_loop_spec l s :
  bytes_ok 32 l -> decimal_outcome (be_value l) s (decimal_digits_loop l s).
Proof.
  intros Hl. revert l Hl; induction s as [|c s IH]; intros l [Hlen Hf].
  - unfold decimal_outcome; cbn. pose proof (be_value_bound l Hf) as Hb.
    rewrite Hlen in Hb. change (256 ^ Z.of_nat 32) with (2 ^ 256) in Hb.
    rewrite (proj2 (Z.ltb_lt _ _)) by lia. by exists l.
  - unfold decimal_outcome. cbn [digits_value decimal_digits_loop].
    rewrite decimal_digit_range.
    destruct (base_digit 10 c) as [d|] eqn:Hd; [|by right].
    pose proof (base_digit_bound _ _ _ Hd) as Hdb.
    rewrite <- (base_digit_10 _ _ Hd), u32_id by lia.
    destruct (mul10_add d l) as [l' carry] eqn:Hm.
    apply mul10_add_spec in Hm as (Hf' & Hlen' & Hc & Hv); [|done|lia].
    rewrite Hlen in Hv. change (256 ^ Z.of_nat 32) with (2 ^ 256) in Hv.
    pose proof (be_value_bound l Hf). pose proof (be_value_bound l' Hf').
    destruct (Z.ltb_spec 0 carry).
    + destruct (digits_value 10 _ s) as [v|] eqn:Hs; [|by left].
      apply digits_value_mono in Hs; [|lia|lia].
      by rewrite (proj2 (Z.ltb_ge _ _)) by nia.
    + assert (carry = 0) as -> by lia. rewrite <- Hv.
      apply IH. split; [congruence|done].
Qed.

Lemma decimal_to_be_256_outcome s : decimal_outcome 0 s (decimal_to_be_256 s).
Proof. apply (decimal_digits_loop_spec (zeros 32)), zeros_bytes. Qed.

Lemma decimal_to_be_256_of v :
  0 <= v < 2 ^ 256 ->
  exists b, decimal_to_be_256 (std_to_string v) = Ok b /\ bytes_ok 32 b /\ be_value b = v.
Proof.
  intros Hv. pose proof (decimal_to_be_256_outcome (std_to_string v)) as H.
  unfold decimal_outcome in H.
  change (digits_value 10 0 (std_to_string v)) with (decimal_value (std_to_string v)) in H.
  rewrite decimal_value_to_string in H by lia.
  by rewrite (proj2 (Z.ltb_lt _ _)) in H by lia.
Qed.

Lemma decimal_to_be_256_ok s b :
  decimal_to_be_256 s = Ok b -> bytes_ok 32 b /\ decimal_value s = Some (be_value b).
Proof.
  pose proof (decimal_to_be_256_outcome s) as H. unfold decimal_outcome in H.
  unfold decimal_value. intros Hs. rewrite Hs in H.
  destruct (digits_value 10 0 s) as [v|]; [|naive_solver].
  destruct (v <? 2 ^ 256); naive_solver.
Qed.
#[export] Hint Resolve decimal_to_be_256_ok : sentinel.

(** ** [to_be_256] *)

Lemma to_be_256_byte v i :
  0 <= i -> u8 (Z.land (Z.shiftr v (i * 8)) 255) = v / 256 ^ i mod 256.
Proof.
  intros Hi. change 255 with (Z.ones 8).
  rewrite Z.land_ones, Z.shiftr_div_pow2 by lia.
  change (2 ^ 8) with 256. rewrite Z.mul_comm, Z.pow_mul_r by lia.
  change (2 ^ 8) with 256. unfold u8. change (2 ^ 8) with 256. by rewrite Z.mod_mod by lia.
Qed.

Lemma to_be_256_value v : is_u64 v -> bytes_ok 32 (to_be_256 v) /\ be_value (to_be_256 v) = v.
Proof.
  intros Hv. split.
  { split; [done|]. unfold to_be_256. apply Forall_app; split.
    - apply (zeros_bytes 24).
    - apply Forall_map, Forall_forall. intros; apply u8_bound. }
  unfold to_be_256. rewrite be_value_app, be_value_zeros. cbn [map].
  rewrite !to_be_256_byte by lia. rewrite !be_value_cons. cbn [length].
  change (256 ^ 7) with 72057594037927936; change (256 ^ 6) with 281474976710656.
  change (256 ^ 5) with 1099511627776; change (256 ^ 4) with 4294967296.
  change (256 ^ 3) with 16777216; change (256 ^ 2) with 65536.
  change (256 ^ 1) with 256; change (256 ^ 0) with 1.
  change (256 ^ Z.of_nat 7) with 72057594037927936; change (256 ^ Z.of_nat 6) with 281474976710656.
  change (256 ^ Z.of_nat 5) with 1099511627776; change (256 ^ Z.of_nat 4) with 4294967296.
  change (256 ^ Z.of_nat 3) with 16777216; change (256 ^ Z.of_nat 2) with 65536.
  change (256 ^ Z.of_nat 1) with 256; change (256 ^ Z.of_nat 0) with 1.
  unfold is_u64 in Hv. change (2 ^ 64) with 18446744073709551616 in Hv.
  unfold be_value; cbn [foldl]. Z.div_mod_to_equations. lia.
Qed.

Lemma be_u64_value l :
  Forall is_byte l -> (length l <= 8)%nat -> be_u64 l = be_value l /\ is_u64 (be_u64 l).
Proof.
  intros Hl Hlen. unfold be_u64.
  assert (forall a, 0 <= a < 256 ^ (8 - Z.of_nat (length l)) ->
    foldl (fun acc b => Z.lor (u64 (Z.shiftl acc 8)) b) a l =
    a * 256 ^ Z.of_nat (length l) + be_value l) as Hgo.
  { clear Hlen. induction Hl as [|b l Hb Hl IH]; intros a Ha; cbn [foldl length] in *.
    { rewrite be_value_nil. cbn. lia. }
    unfold is_byte in Hb. rewrite be_value_cons.
    assert (Z.of_nat (length l) < 8).
    { destruct (Z.le_gt_cases 8 (Z.of_nat (length l))); [|lia].
      rewrite Z.pow_neg_r in Ha by lia. lia. }
    rewrite Nat2Z.inj_succ, Z.pow_succ_r by lia.
    replace (8 - Z.of_nat (length l)) with (Z.succ (8 - Z.of_nat (S (length l)))) in IH by lia.
    rewrite Z.pow_succ_r in IH by lia.
    assert (a * 256 < 2 ^ 64).
    { apply Z.lt_le_trans with (256 ^ (8 - Z.of_nat (S (length l))) * 256); [lia|].
      change (2 ^ 64) with (256 ^ 7 * 256). apply Z.mul_le_mono_nonneg_r; [lia|].
      apply Z.pow_le_mono_r; lia. }
    rewrite u64_id by (rewrite Z.shiftl_mul_pow2 by lia; change (2 ^ 8) with 256;
                       unfold is_u64; lia).
    rewrite lor_shiftl_add by lia. change (2 ^ 8) with 256.
    rewrite IH by lia. lia. }
  assert (foldl (fun acc b => Z.lor (u64 (Z.shiftl acc 8)) b) 0 l = be_value l) as ->.
  { rewrite Hgo; [lia|]. split; [lia|]. apply Z.pow_pos_nonneg; lia. }
  split; [done|]. pose proof (be_value_bound l Hl). unfold is_u64. split; [lia|].
  apply Z.lt_le_trans with (256 ^ Z.of_nat (length l)); [lia|].
  change (2 ^ 64) with (256 ^ 8). apply Z.pow_le_mono_r; lia.
Qed.

(** * Properties *)

(** C37: the long-division loop terminates within its 78 passes and
    prints, for any 256-bit big-endian number, exactly the decimal numeral [std::to_string] would
    print for its value; reading the numeral back gives the value. *)
Theorem uint256_be_to_decimal_correct b :
  bytes_ok 32 b ->
  uint256_be_to_decimal b = std_to_string (be_value b) /\
  decimal_value (uint256_be_to_decimal b) = Some (be_value b).
Proof.
  intros Hb. pose proof (uint256_be_to_decimal_value 32 b Hb ltac:(lia)) as H.
  destruct Hb as [Hl Hf]. rewrite take_ge in H by lia. rewrite H.
  split; [done|]. apply decimal_value_to_string. by apply be_value_bound.
Qed.

(** Printing a 256-bit number and parsing the text gives the same 32
    bytes, so thresholds read from a configuration are the numbers that were written there. *)
Theorem decimal_to_be_256_roundtrip b :
  bytes_ok 32 b -> decimal_to_be_256 (uint256_be_to_decimal b) = Ok b.
Proof.
  intros Hb. pose proof Hb as [Hl Hf].
  destruct (uint256_be_to_decimal_correct b Hb) as [-> _].
  pose proof (be_value_bound b Hf) as Hv. rewrite Hl in Hv.
  change (256 ^ Z.of_nat 32) with (2 ^ 256) in Hv.
  destruct (decimal_to_be_256_of _ Hv) as (b' & -> & [Hl' Hf'] & Heq).
  f_equal. apply be_value_inj; try done. congruence.
Qed.

(** What [decimal_to_be_256] answers on every string. A numeral below
    2^256 gives the 32 bytes of its value (leading zeros and the empty string included), a numeral
    from 2^256 up is refused as too large, and a string with a character that is not a digit is
    refused. *)
Theorem decimal_to_be_256_total s :
  match decimal_value s with
  | Some v =>
      if v <? 2 ^ 256
      then exists b, decimal_to_be_256 s = Ok b /\ bytes_ok 32 b /\ be_value b = v
      else decimal_to_be_256 s =
           Throw (RuntimeError "decimal string too large for 256-bit int")
  | None =>
      decimal_to_be_256 s = Throw (RuntimeError "decimal string too large for 256-bit int") \/
      decimal_to_be_256 s = Throw (RuntimeError "invalid decimal digit")
  end.
Proof. apply (decimal_to_be_256_outcome s). Qed.

(** On a "0x" string of at least one hexadecimal digit
    [parse_hex_uint64] returns the value modulo 2^64: more than sixteen significant digits wrap
    silently instead of being refused; a JSON-RPC quantity printed by [to_hex_quantity] is read back
    exactly; a character that is not a digit is refused. *)
Theorem parse_hex_uint64_wraps ds :
  str_empty ds = false ->
  parse_hex_uint64 ("0x" +:+ ds)%stdpp =
    match hex_value ds with
    | Some v => Ok (v mod 2 ^ 64)
    | None => Throw (RuntimeError "invalid hex character")
    end /\
  (forall v, is_u64 v -> parse_hex_uint64 (to_hex_quantity v) = Ok v).
Proof.
  intros Hne. split; [by apply parse_hex_uint64_digits|by apply parse_hex_uint64_print].
Qed.

(** The byte comparison of [greater_be_256] is the numeric order of the
    first 32 bytes of its two buffers read as big-endian integers. *)
Theorem greater_be_256_numeric n m a b :
  bytes_ok n a -> bytes_ok m b -> (32 <= n)%nat -> (32 <= m)%nat ->
  greater_be_256 a b = true <-> be_value (take 32 b) < be_value (take 32 a).
Proof. intros. erewrite greater_be_256_spec by eassumption. apply Z.ltb_lt. Qed.

(** ** Witnesses *)

Lemma uint256_be_to_decimal_correct_witness :
  bytes_ok 32 (replicate 32 255) /\
  uint256_be_to_decimal (replicate 32 255) =
  "115792089237316195423570985008687907853269984665640564039457584007913129639935".
Proof.
  assert (bytes_ok 32 (replicate 32 255)) as H by decide_by_compute.
  split; [exact H|].
  destruct (uint256_be_to_decimal_correct (replicate 32 255) H) as [-> _].
  vm_compute. reflexivity.
Defined.

Lemma decimal_to_be_256_roundtrip_witness :
  decimal_to_be_256 (uint256_be_to_decimal (to_be_256 10000000000)) = Ok (to_be_256 10000000000).
Proof.
  apply (decimal_to_be_256_roundtrip (to_be_256 10000000000)).
  decide_by_compute.
Defined.

Lemma parse_hex_uint64_wraps_witness :
  parse_hex_uint64 "0x10000000000000005" = Ok 5.
Proof.
  pose proof (parse_hex_uint64_wraps "10000000000000005" eq_refl) as [H _].
  change ("0x" +:+ "10000000000000005")%stdpp with "0x10000000000000005" in H.
  rewrite H. vm_compute. reflexivity.
Defined.

Lemma greater_be_256_numeric_witness :
  greater_be_256 (to_be_256 65536) (to_be_256 65535) = true.
Proof.
  apply (greater_be_256_numeric 32 32); [..|vm_compute; reflexivity];
    first [lia | decide_by_compute].
Defined.
