(* ===== verification/Signal.v ===== *)
(** * Signals, raw logs and alerts

    The data the pipeline's stages exchange: [RawLog]
    ([include/sentinel/events/RawLog.hpp]), the [Signal] variant
    ([include/sentinel/risk/signal.hpp]) and [Alert]
    ([include/sentinel/risk/alert_dispatcher.hpp]).  [std::array] fields are
    byte lists whose length the [_ok] predicates state. *)
From S2P Require Import Prelude.

(** An [eth_getLogs] entry: every field is the JSON string as received. *)
Record RawLog := mkRawLog {
  raw_address : string;
  raw_topics : list string;
  raw_data : string;
  raw_blockNumber : string;
  raw_transactionHash : string;
  raw_logIndex : string;
  raw_transactionIndex : string;
  raw_removed : bool;
}.

Inductive SignalType :=
  | Unknown
  | Swap
  | Transfer
  | MintBurn
  | LiquidityChange
  | PriceTick
  | PoolSnapshot
  | Governance
  | Approval
  | OracleUpdate
  | Control.

#[export] Instance SignalType_eq_dec : EqDecision SignalType.
Proof. solve_decision. Defined.

(** [static_cast<uint8_t>(type)]: the enumerators in declaration order. *)
Definition signal_index (t : SignalType) : nat :=
  match t with
  | Unknown => 0
  | Swap => 1
  | Transfer => 2
  | MintBurn => 3
  | LiquidityChange => 4
  | PriceTick => 5
  | PoolSnapshot => 6
  | Governance => 7
  | Approval => 8
  | OracleUpdate => 9
  | Control => 10
  end%nat.

Definition SignalTypeCount : nat := 11.

(** [SignalMask] is a [uint32_t]; [1 << static_cast<uint8_t>(type)]. *)
Definition make_mask (t : SignalType) : Z := Z.shiftl 1 (Z.of_nat (signal_index t)).

Record SignalMeta := mkSignalMeta {
  timestamp_ms : Z;
  internal_ingress_time_ms : Z;
  block_number : option Z;
  tx_hash : option (list Z);
  is_final : bool;
  source_id : Z;
}.

Record EvmLogEvent := mkEvmLogEvent {
  evm_chain_id : Z;
  evm_tx_index : Z;
  evm_log_index : Z;
  evm_removed : bool;
  evm_address : list Z;
  evm_topic_count : Z;
  evm_topics : list (list Z);
  evm_data_size : Z;
  evm_data : list Z;
  evm_truncated : bool;
}.

Inductive ControlCommand := Stop | Sync.

Inductive GovernanceAction :=
  | UnknownAction
  | OwnershipTransferred
  | Paused
  | Unpaused
  | RoleGranted
  | RoleRevoked
  | Upgraded.

#[export] Instance GovernanceAction_eq_dec : EqDecision GovernanceAction.
Proof. solve_decision. Defined.

Record GovernanceEvent := mkGovernanceEvent {
  gov_action : GovernanceAction;
  gov_chain_id : Z;
  gov_contract_address : list Z;
}.

Inductive MintBurnDirection := UnknownDirection | Mint | Burn.

#[export] Instance MintBurnDirection_eq_dec : EqDecision MintBurnDirection.
Proof. solve_decision. Defined.

Record MintBurnEvent := mkMintBurnEvent {
  mb_direction : MintBurnDirection;
  mb_chain_id : Z;
  mb_token_address : list Z;
  mb_amount : list Z;
  mb_from : list Z;
  mb_to : list Z;
}.

Record OracleUpdateEvent := mkOracleUpdateEvent {
  or_chain_id : Z;
  or_aggregator_address : list Z;
  or_current_answer : list Z;
  or_round_id : list Z;
  or_updated_at : Z;
}.

(** [std::variant<std::monostate, EvmLogEvent, PriceTick, PoolSnapshot,
    GovernanceEvent, ControlSignal, MintBurnEvent, OracleUpdateEvent>]. *)
Inductive SignalPayload :=
  | PMonostate
  | PEvm (e : EvmLogEvent)
  | PPriceTick (price : Z)
  | PPoolSnapshot (reserve0 reserve1 : Z)
  | PGovernance (e : GovernanceEvent)
  | PControl (command : ControlCommand)
  | PMintBurn (e : MintBurnEvent)
  | POracle (e : OracleUpdateEvent).

Record Signal := mkSignal {
  sig_type : SignalType;
  sig_meta : SignalMeta;
  sig_payload : SignalPayload;
}.

(** [Signal{}]: value-initialised. *)
Definition zero_meta : SignalMeta := mkSignalMeta 0 0 None None false 0.
Definition zero_signal : Signal := mkSignal Unknown zero_meta PMonostate.
Definition zero_evm : EvmLogEvent :=
  mkEvmLogEvent 0 0 0 false (zeros 20) 0 (replicate 4 (zeros 32)) 0 (zeros 256) false.

Record Alert := mkAlert {
  al_customer_id : Z;
  al_rule_type : string;
  al_message : string;
  al_timestamp_ms : Z;
  al_internal_ingress_time_ms : Z;
  al_amount_decimal : option string;
  al_token_address : option string;
  al_chain_id : option Z;
}.

#[export] Instance Alert_eq_dec : EqDecision Alert.
Proof. solve_decision. Defined.

(** The key of the token-symbol map; equality compares both fields. *)
Record TokenKey := mkTokenKey { tk_chain_id : Z; tk_token_address : string }.

#[export] Instance TokenKey_eq_dec : EqDecision TokenKey.
Proof. solve_decision. Defined.
#[export] Program Instance TokenKey_countable : Countable TokenKey :=
  inj_countable' (fun k => (tk_chain_id k, tk_token_address k))
                 (fun p => mkTokenKey p.1 p.2) _.
Next Obligation. by intros []. Qed.

(** ** Well-formedness: what the C++ types promise *)

Definition evm_ok (e : EvmLogEvent) : Prop :=
  bytes_ok 20 (evm_address e) /\
  0 <= evm_topic_count e <= 4 /\
  length (evm_topics e) = 4%nat /\ Forall (bytes_ok 32) (evm_topics e) /\
  0 <= evm_data_size e <= 256 /\ bytes_ok 256 (evm_data e) /\
  0 <= evm_tx_index e < 2 ^ 32 /\ 0 <= evm_log_index e < 2 ^ 32.

Definition payload_ok (p : SignalPayload) : Prop :=
  match p with
  | PEvm e => evm_ok e
  | PGovernance e => bytes_ok 20 (gov_contract_address e)
  | PMintBurn e =>
      bytes_ok 20 (mb_token_address e) /\ bytes_ok 32 (mb_amount e) /\
      bytes_ok 20 (mb_from e) /\ bytes_ok 20 (mb_to e)
  | POracle e =>
      bytes_ok 20 (or_aggregator_address e) /\ bytes_ok 32 (or_current_answer e) /\
      bytes_ok 32 (or_round_id e) /\ is_u64 (or_updated_at e)
  | _ => True
  end.

Lemma signal_index_bound t : (signal_index t < SignalTypeCount)%nat.
Proof. destruct t; unfold SignalTypeCount; cbn; lia. Qed.

Lemma signal_index_inj t1 t2 : signal_index t1 = signal_index t2 -> t1 = t2.
Proof. by destruct t1, t2. Qed.

Lemma make_mask_testbit t i :
  Z.testbit (make_mask t) (Z.of_nat i) = bool_decide (signal_index t = i).
Proof.
  unfold make_mask. rewrite Z.shiftl_1_l, Z.pow2_bits_eqb by lia.
  apply eq_true_iff_eq. rewrite Z.eqb_eq, bool_decide_eq_true. lia.
Qed.

(** The number of alerts of a type. *)
Definition count_type (t : string) (l : list Alert) : Z :=
  Z.of_nat (length (filter (fun a => al_rule_type a = t) l)).

Lemma count_type_cons t a l :
  count_type t (a :: l) = (if bool_decide (al_rule_type a = t) then 1 else 0) + count_type t l.
Proof.
  unfold count_type. rewrite filter_cons. case_bool_decide; case_decide; try done; cbn [length]; lia.
Qed.

Lemma count_type_app t l1 l2 : count_type t (l1 ++ l2) = count_type t l1 + count_type t l2.
Proof. unfold count_type. rewrite list.filter_app, length_app. lia. Qed.

(** Incrementing a counter if it is registered. *)
Lemma lookup_increment (m : gmap string Z) (k n : string) :
  alter Z.succ k m !! n = Z.add (if bool_decide (k = n) then 1 else 0) <$> m !! n.
Proof.
  rewrite lookup_alter. case_bool_decide; case_decide; try done; subst;
    destruct (_ !! _) as [v|]; try done; cbn [fmap option_fmap option_map]; f_equal; lia.
Qed.

Lemma lookup_add_zero (m : gmap string Z) n : m !! n = Z.add 0 <$> m !! n.
Proof. by destruct (m !! n). Qed.
