(* ===== verification/Normalize.v ===== *)
(** * From raw logs to signals

    Model of [src/events/normalize.cpp]: the topic table, [classify_topic0] and
    [normalize].  When [normalize] throws, what it had already written to its
    output is dropped by its only caller (the local [ev] of
    [EventSource::poll_once]), so the model returns no signal in that case.
    [tx_hash] is an uninitialised local array in the source: its content before
    parsing is the argument [uninit]. *)
From S2P Require Import Prelude Cxx Hex Signal.

(** The literals are evaluated at compile time, as [constexpr] is. *)
Definition topic_literal (s : string) : list Z :=
  match parse_topic_literal s with Ok t => t | Throw _ => [] end.

Definition TOPIC_TRANSFER : list Z := Eval vm_compute in topic_literal
  "0xddf252ad1be2c89b69c2b068fc378daa952ba7f163c4a11628f55a4df523b3ef".
Definition TOPIC_SWAP_V2 : list Z := Eval vm_compute in topic_literal
  "0xd78ad95fa46c994b6551d0da85fc275fe613ce37657fb8d5e3d130840159d822".
Definition TOPIC_SWAP_V3 : list Z := Eval vm_compute in topic_literal
  "0xc42079f94a6350d7e5735f2a153e368fc95153e172ee90824036511a8fb417b3".
Definition TOPIC_MINT : list Z := Eval vm_compute in topic_literal
  "0x4c209b5fc8ad50758f13e2e1088ba56a560dff694af163234d7f6c31034c568d".
Definition TOPIC_BURN : list Z := Eval vm_compute in topic_literal
  "0xdccd28e36055d506992d9d40a08e08d6691c9569707248066f2c2f82998396e9".
Definition TOPIC_OWNERSHIP_TRANSFERRED : list Z := Eval vm_compute in topic_literal
  "0x8be0079c531659141344cd1fd0a4f28419497f9722a3daafe3b4186f6b6457e0".
Definition TOPIC_PAUSED : list Z := Eval vm_compute in topic_literal
  "0x62e78cea01bee320cd4e420270b5ea74000d11b0c9f74754ebdbfc544b05a258".
Definition TOPIC_UNPAUSED : list Z := Eval vm_compute in topic_literal
  "0x5db9ee0a495bf2e6ff9c91a7834c1ba4fdd244a5e8aa4e537bd38aeae4b073aa".
Definition TOPIC_ROLE_GRANTED : list Z := Eval vm_compute in topic_literal
  "0x2f8788117e7eff1d82e926ec794901d17c78024a50270940304540a733656f0d".
Definition TOPIC_ROLE_REVOKED : list Z := Eval vm_compute in topic_literal
  "0xf6391f5c32d9c69d2a47ea670b442974b53935d1edc7fd64eb21e047a839171b".
Definition TOPIC_UPGRADED : list Z := Eval vm_compute in topic_literal
  "0xbc7cd75a20ee27fd9adebab32041f755214dbc6bffa90cc0225b39da2e5c2d3b".
Definition TOPIC_APPROVAL : list Z := Eval vm_compute in topic_literal
  "0x8c5be1e5ebec7d5bd14f71427d1e84f3dd0314c0f7b2291e5b200ac8c7c3b925".
Definition TOPIC_ORACLE_ANSWER_UPDATED : list Z := Eval vm_compute in topic_literal
  "0x0559884fd3a460db3073b7fc896cc77986f16e378210ded43186175bf646fc5f".

Definition is_topic (topic0 t : list Z) : bool := bool_decide (topic0 = t).

Definition classify_topic0 (topic0 : list Z) : SignalType :=
  if is_topic topic0 TOPIC_TRANSFER then Transfer
  else if is_topic topic0 TOPIC_SWAP_V2 then Swap
  else if is_topic topic0 TOPIC_SWAP_V3 then Swap
  else if is_topic topic0 TOPIC_MINT then LiquidityChange
  else if is_topic topic0 TOPIC_BURN then LiquidityChange
  else if is_topic topic0 TOPIC_OWNERSHIP_TRANSFERRED
       || is_topic topic0 TOPIC_PAUSED
       || is_topic topic0 TOPIC_UNPAUSED
       || is_topic topic0 TOPIC_ROLE_GRANTED
       || is_topic topic0 TOPIC_ROLE_REVOKED
       || is_topic topic0 TOPIC_UPGRADED then Governance
  else if is_topic topic0 TOPIC_APPROVAL then Approval
  else if is_topic topic0 TOPIC_ORACLE_ANSWER_UPDATED then OracleUpdate
  else Unknown.

(** The [if]/[else if] chain that picks the governance action. *)
Definition governance_action (topic0 : list Z) : GovernanceAction :=
  if is_topic topic0 TOPIC_OWNERSHIP_TRANSFERRED then OwnershipTransferred
  else if is_topic topic0 TOPIC_PAUSED then Paused
  else if is_topic topic0 TOPIC_UNPAUSED then Unpaused
  else if is_topic topic0 TOPIC_ROLE_GRANTED then RoleGranted
  else if is_topic topic0 TOPIC_ROLE_REVOKED then RoleRevoked
  else if is_topic topic0 TOPIC_UPGRADED then Upgraded
  else UnknownAction.

(** [evm.topics[i]]. *)
Definition topic (evm : EvmLogEvent) (i : nat) : list Z :=
  default (zeros 32) (evm_topics evm !! i).

(** The first [tc] topics are parsed over the zero-initialised array. *)
Fixpoint parse_topics (raws : list string) (slots : list (list Z)) : result (list (list Z)) :=
  match raws, slots with
  | r :: raws', slot :: slots' =>
      t ← parse_hex_bytes r slot;
      ts ← parse_topics raws' slots';
      Ok (t :: ts)
  | _, _ => Ok slots
  end.

(** The part of [normalize] that builds the [EvmLogEvent]. *)
Definition extract_evm (raw : RawLog) (chain_id : Z) : result EvmLogEvent :=
  txi ← parse_hex_uint64 (raw_transactionIndex raw);
  lgi ← parse_hex_uint64 (raw_logIndex raw);
  if (2 ^ 32 - 1 <? txi) || (2 ^ 32 - 1 <? lgi)
  then Throw (RuntimeError "tx_index/log_index out of range")
  else
    address ← parse_hex_bytes (raw_address raw) (evm_address zero_evm);
    let tc := Nat.min (length (raw_topics raw)) 4 in
    topics ← parse_topics (take tc (raw_topics raw)) (evm_topics zero_evm);
    _ ← validate_hex (raw_data raw);
    let byte_len := ((String.length (raw_data raw) - 2) / 2)%nat in
    let '(data_size, truncated) :=
      if (256 <? byte_len)%nat then (256, true) else (u32 (Z.of_nat byte_len), false) in
    data ← parse_hex_bytes (raw_data raw) (evm_data zero_evm);
    Ok (mkEvmLogEvent chain_id (u32 txi) (u32 lgi) (raw_removed raw) address
          (u8 (Z.of_nat tc)) topics data_size data truncated).

(** The part that classifies and, for some types, replaces the payload. *)
Definition mint_burn_event (evm : EvmLogEvent) (is_mint is_burn : bool) : MintBurnEvent :=
  let direction := if is_mint && is_burn then UnknownDirection
                   else if is_mint then Mint else Burn in
  mkMintBurnEvent direction (evm_chain_id evm) (evm_address evm)
    (take 32 (evm_data evm)) (drop 12 (topic evm 1)) (drop 12 (topic evm 2)).

Definition oracle_event (evm : EvmLogEvent) : OracleUpdateEvent :=
  mkOracleUpdateEvent (evm_chain_id evm) (evm_address evm) (topic evm 1) (topic evm 2)
    (be_u64 (take 8 (drop 24 (evm_data evm)))).

Definition classify_payload (evm : EvmLogEvent) : SignalType * SignalPayload :=
  if 0 <? evm_topic_count evm then
    let type := classify_topic0 (topic evm 0) in
    if decide (type = Governance) then
      (type, PGovernance (mkGovernanceEvent (governance_action (topic evm 0))
                            (evm_chain_id evm) (evm_address evm)))
    else if bool_decide (type = Transfer) && (3 <=? evm_topic_count evm) then
      let is_mint := all_zero (topic evm 1) in
      let is_burn := all_zero (topic evm 2) in
      if (is_mint || is_burn) && (32 <=? evm_data_size evm)
      then (MintBurn, PMintBurn (mint_burn_event evm is_mint is_burn))
      else (type, PEvm evm)
    else if bool_decide (type = OracleUpdate) && (3 <=? evm_topic_count evm)
            && (32 <=? evm_data_size evm)
    then (type, POracle (oracle_event evm))
    else (type, PEvm evm)
  else (Unknown, PEvm evm).

Definition normalize (raw : RawLog) (chain_id block_timestamp : Z) (uninit : list Z)
    : result Signal :=
  bn ← parse_hex_uint64 (raw_blockNumber raw);
  hash ← parse_hex_bytes (raw_transactionHash raw) uninit;
  evm ← extract_evm raw chain_id;
  let '(type, payload) := classify_payload evm in
  Ok (mkSignal type
        (mkSignalMeta block_timestamp 0 (Some bn) (Some hash) false (u32 chain_id))
        payload).

(** ** Specification

    [ChainLog] is a log as the chain defines it (bytes and numbers); [encode_log]
    is its JSON-RPC rendering, the input [normalize] is written for. *)
Record ChainLog := mkChainLog {
  cl_block : Z;
  cl_tx_hash : list Z;
  cl_tx_index : Z;
  cl_log_index : Z;
  cl_removed : bool;
  cl_address : list Z;
  cl_topics : list (list Z);
  cl_data : list Z;
}.

Definition chain_log_ok (l : ChainLog) : Prop :=
  is_u64 (cl_block l) /\ bytes_ok 32 (cl_tx_hash l) /\
  0 <= cl_tx_index l < 2 ^ 32 /\ 0 <= cl_log_index l < 2 ^ 32 /\
  bytes_ok 20 (cl_address l) /\ Forall (bytes_ok 32) (cl_topics l) /\
  Forall is_byte (cl_data l).

#[export] Instance chain_log_ok_dec l : Decision (chain_log_ok l).
Proof. unfold chain_log_ok; apply _. Defined.

Definition encode_log (l : ChainLog) : RawLog :=
  mkRawLog (address_to_hex (cl_address l)) (map address_to_hex (cl_topics l))
    (address_to_hex (cl_data l)) (to_hex_quantity (cl_block l))
    (address_to_hex (cl_tx_hash l)) (to_hex_quantity (cl_log_index l))
    (to_hex_quantity (cl_tx_index l)) (cl_removed l).

(** At most four topics and the first 256 data bytes are kept, zero-padded. *)
Definition evm_of_log (chain_id : Z) (l : ChainLog) : EvmLogEvent :=
  mkEvmLogEvent chain_id (cl_tx_index l) (cl_log_index l) (cl_removed l) (cl_address l)
    (Z.min (Z.of_nat (length (cl_topics l))) 4)
    (take 4 (cl_topics l ++ replicate 4 (zeros 32)))
    (Z.min (Z.of_nat (length (cl_data l))) 256)
    (take 256 (cl_data l ++ zeros 256))
    (256 <? Z.of_nat (length (cl_data l))).

(** The coherence of type and payload every consumer relies on. *)
Definition coherent (t : SignalType) (p : SignalPayload) : Prop :=
  match p with
  | PEvm e => ~ In t [MintBurn; Governance; PriceTick; PoolSnapshot; Control]
  | PGovernance g => t = Governance /\ gov_action g <> UnknownAction
  | PMintBurn _ => t = MintBurn
  | POracle _ => t = OracleUpdate
  | _ => False
  end.

Definition signal_ok (s : Signal) : Prop :=
  payload_ok (sig_payload s) /\ coherent (sig_type s) (sig_payload s) /\
  (exists bn, block_number (sig_meta s) = Some bn /\ is_u64 bn) /\
  (exists h, tx_hash (sig_meta s) = Some h /\ bytes_ok 32 h).

(** The event table of the README as data: topic0 to signal type. *)
Definition topic_table : list (list Z * SignalType) :=
  [(TOPIC_TRANSFER, Transfer); (TOPIC_SWAP_V2, Swap); (TOPIC_SWAP_V3, Swap);
   (TOPIC_MINT, LiquidityChange); (TOPIC_BURN, LiquidityChange);
   (TOPIC_OWNERSHIP_TRANSFERRED, Governance); (TOPIC_PAUSED, Governance);
   (TOPIC_UNPAUSED, Governance); (TOPIC_ROLE_GRANTED, Governance);
   (TOPIC_ROLE_REVOKED, Governance); (TOPIC_UPGRADED, Governance);
   (TOPIC_APPROVAL, Approval); (TOPIC_ORACLE_ANSWER_UPDATED, OracleUpdate)].

Definition action_table : list (list Z * GovernanceAction) :=
  [(TOPIC_OWNERSHIP_TRANSFERRED, OwnershipTransferred); (TOPIC_PAUSED, Paused);
   (TOPIC_UNPAUSED, Unpaused); (TOPIC_ROLE_GRANTED, RoleGranted);
   (TOPIC_ROLE_REVOKED, RoleRevoked); (TOPIC_UPGRADED, Upgraded)].

(** What a decoded [Transfer(from, to, value)] is classified as. *)
Definition transfer_kind (from to : Z) : SignalType * option MintBurnDirection :=
  if (from =? 0) && (to =? 0) then (MintBurn, Some UnknownDirection)
  else if from =? 0 then (MintBurn, Some Mint)
  else if to =? 0 then (MintBurn, Some Burn)
  else (Transfer, None).

Definition payload_direction (p : SignalPayload) : option MintBurnDirection :=
  match p with PMintBurn e => Some (mb_direction e) | _ => None end.

(** * Facts *)

Lemma parse_topics_ok raws slots ts :
  parse_topics raws slots = Ok ts -> Forall (bytes_ok 32) slots ->
  length ts = length slots /\ Forall (bytes_ok 32) ts.
Proof.
  revert raws ts; induction slots as [|slot slots IH]; intros [|r raws] ts; cbn [parse_topics];
    try (intros [= <-]; done).
  intros H [Hs Hss]%Forall_cons_iff; invert_result.
  edestruct IH as [Hlen Hf]; [eassumption|done|]. split; [cbn; congruence|].
  constructor; [|done]. eauto with sentinel.
Qed.

Lemma parse_hex_uint64_u64 s v : parse_hex_uint64 s = Ok v -> is_u64 v.
Proof.
  unfold parse_hex_uint64. destruct (strip_0x s) as [ds|]; [|done].
  case_match; [done|]. rewrite (hex_u64_loop_spec 0).
  case_match; [|done]. intros [= <-]. apply u64_bound.
Qed.

Lemma zero_evm_topics : Forall (bytes_ok 32) (evm_topics zero_evm).
Proof. repeat constructor; unfold is_byte; lia. Qed.

Lemma extract_evm_ok raw chain_id evm :
  extract_evm raw chain_id = Ok evm -> evm_ok evm /\ evm_chain_id evm = chain_id.
Proof.
  unfold extract_evm. intros H; invert_result.
  match goal with Ha : parse_hex_bytes (raw_address _) _ = _ |- _ =>
    apply parse_hex_bytes_ok with (n := 20%nat) in Ha as Haddr; [|apply zeros_bytes] end.
  match goal with Ht : parse_topics _ _ = _ |- _ =>
    apply parse_topics_ok in Ht as [Htl Htf]; [|apply zero_evm_topics] end.
  destruct (if (256 <? _)%nat then _ else _) as [ds tr] eqn:Hds.
  invert_result.
  match goal with Hd : parse_hex_bytes (raw_data _) _ = _ |- _ =>
    apply parse_hex_bytes_ok with (n := 256%nat) in Hd; [|apply zeros_bytes] end.
  assert (0 <= ds <= 256).
  { destruct (Nat.ltb_spec 256 ((String.length (raw_data raw) - 2) / 2)); simplify_eq; [lia|].
    rewrite u32_id; lia. }
  split; [|done]. unfold evm_ok; cbn.
  split_and!; try done; try apply Z.mod_pos_bound; try lia.
  all: unfold u8; rewrite Z.mod_small; lia.
Qed.

Lemma topic_ok evm i : evm_ok evm -> bytes_ok 32 (topic evm i).
Proof.
  intros (_ & _ & _ & Hf & _). unfold topic.
  destruct (evm_topics evm !! i) eqn:Hi; cbn; [|apply zeros_bytes].
  by eapply Forall_lookup_1.
Qed.
#[export] Hint Resolve topic_ok : sentinel.

Lemma bytes_ok_drop n m l : bytes_ok n l -> bytes_ok (n - m) (drop m l).
Proof. intros [Hl Hf]. split; [rewrite length_drop; lia|by apply Forall_drop]. Qed.

Lemma mint_burn_event_ok evm m b :
  evm_ok evm -> payload_ok (PMintBurn (mint_burn_event evm m b)).
Proof.
  intros Hok. pose proof Hok as (Ha & _ & _ & _ & _ & Hd & _). cbn. split_and!; [done|..].
  - apply (take_bytes 256); [done|lia].
  - apply (bytes_ok_drop 32 12). by apply topic_ok.
  - apply (bytes_ok_drop 32 12). by apply topic_ok.
Qed.

Lemma oracle_event_ok evm : evm_ok evm -> payload_ok (POracle (oracle_event evm)).
Proof.
  intros Hok. pose proof Hok as (Ha & _ & _ & _ & _ & Hd & _). cbn.
  split_and!; try (by apply topic_ok); [done|].
  assert (bytes_ok 8 (take 8 (drop 24 (evm_data evm)))) as [Hl Hf].
  { apply (take_bytes 232); [by apply (bytes_ok_drop 256 24)|lia]. }
  by apply be_u64_value; [|lia].
Qed.

(** [classify_topic0] never answers a type reserved for derived payloads, and
    answers [Governance] exactly when an action is found. *)
Lemma classify_topic0_cases t0 :
  (classify_topic0 t0 = Governance /\ governance_action t0 <> UnknownAction) \/
  In (classify_topic0 t0) [Unknown; Swap; Transfer; LiquidityChange; Approval; OracleUpdate].
Proof.
  unfold classify_topic0, governance_action, is_topic.
  repeat (case_bool_decide; [cbn; naive_solver|]; cbn [orb]).
  all: cbn; naive_solver.
Qed.

Lemma classify_payload_ok evm :
  evm_ok evm ->
  let '(t, p) := classify_payload evm in payload_ok p /\ coherent t p.
Proof.
  intros Hok. unfold classify_payload.
  destruct (classify_topic0_cases (topic evm 0)) as [[-> Hact]|Hin].
  - destruct (0 <? evm_topic_count evm); [|split; [done|cbn; intuition discriminate]].
    destruct (decide _) as [_|]; [|done]. cbn. split; [apply Hok|done].
  - assert (Hne : classify_topic0 (topic evm 0) <> Governance).
    { cbn in Hin. intuition congruence. }
    destruct (0 <? evm_topic_count evm); [|split; [done|cbn; intuition discriminate]].
    destruct (decide _) as [|_]; [done|].
    assert (coherent (classify_topic0 (topic evm 0)) (PEvm evm)).
    { cbn in Hin |- *. intuition congruence. }
    destruct (bool_decide (_ = Transfer) && _).
    + destruct (_ && (32 <=? _)); [|done]. split; [by apply mint_burn_event_ok|done].
    + destruct (bool_decide (_ = OracleUpdate) && _ && _) eqn:E; [|done].
      apply andb_prop in E as [[->%bool_decide_eq_true _]%andb_prop _].
      split; [by apply oracle_event_ok|done].
Qed.

Lemma normalize_signal_ok raw chain_id ts uninit s :
  bytes_ok 32 uninit -> normalize raw chain_id ts uninit = Ok s ->
  signal_ok s /\ timestamp_ms (sig_meta s) = ts.
Proof.
  intros Hu H. unfold normalize in H. invert_result.
  match goal with He : extract_evm _ _ = Ok ?e |- _ =>
    apply extract_evm_ok in He as [He _]; pose proof (classify_payload_ok e He) as Hc end.
  destruct (classify_payload _) as [t p]. invert_result. split; [|done].
  destruct Hc. split_and!; [done|done|..]; eexists; (split; [reflexivity|]).
  - by eapply parse_hex_uint64_u64.
  - eauto with sentinel.
Qed.

(** ** Round trip on well-formed logs *)

Lemma parse_topics_print ts slots :
  Forall (bytes_ok 32) ts -> Forall (bytes_ok 32) slots ->
  parse_topics (map address_to_hex ts) slots =
  Ok (take (length slots) ts ++ drop (length ts) slots).
Proof.
  intros Hts; revert slots; induction Hts as [|t ts [Ht Htf] Hts IH]; intros [|s slots] Hs;
    [done..|].
  apply Forall_cons_iff in Hs as [[Hsl _] Hs]. cbn [map parse_topics].
  rewrite parse_hex_bytes_address_to_hex by (done || congruence). cbn.
  by rewrite IH.
Qed.

Lemma take_pad {A} n (l : list A) x :
  take n (l ++ replicate n x) = take n l ++ drop (length l) (replicate n x).
Proof.
  rewrite take_app, drop_replicate, take_replicate. f_equal. f_equal. lia.
Qed.

Lemma data_len_print l :
  ((String.length (address_to_hex l) - 2) / 2)%nat = length l.
Proof.
  rewrite address_to_hex_length. replace (2 + 2 * length l - 2)%nat with (length l * 2)%nat by lia.
  by apply Nat.div_mul.
Qed.

Lemma extract_evm_encode chain_id l :
  chain_log_ok l -> extract_evm (encode_log l) chain_id = Ok (evm_of_log chain_id l).
Proof.
  intros (Hb & [Hh Hhf] & Hti & Hli & [Ha Haf] & Ht & Hd).
  unfold extract_evm, encode_log; cbn [raw_transactionIndex raw_logIndex raw_address
    raw_topics raw_data raw_removed].
  rewrite !parse_hex_uint64_print by (unfold is_u64; lia). cbn [mbind result_bind].
  rewrite !(proj2 (Z.ltb_ge _ _)) by lia. cbn [orb].
  rewrite (parse_hex_bytes_address_to_hex (cl_address l)) by (done || by rewrite Ha).
  cbn [mbind result_bind].
  rewrite length_map, firstn_map.
  rewrite parse_topics_print by (try apply zero_evm_topics; by apply Forall_take).
  rewrite validate_hex_print by done. cbn [mbind result_bind].
  rewrite data_len_print, parse_hex_bytes_print by done.
  unfold evm_of_log. rewrite !(u32_id (cl_tx_index l)), !(u32_id (cl_log_index l)) by done.
  assert (u8 (Z.of_nat (length (cl_topics l) `min` 4)) =
          Z.min (Z.of_nat (length (cl_topics l))) 4) as ->.
  { unfold u8. rewrite Z.mod_small; lia. }
  assert (take (length (evm_topics zero_evm)) (take (length (cl_topics l) `min` 4) (cl_topics l))
          ++ drop (length (take (length (cl_topics l) `min` 4) (cl_topics l))) (evm_topics zero_evm)
          = take 4 (cl_topics l ++ replicate 4 (zeros 32))) as ->.
  { rewrite take_pad. cbn [evm_topics zero_evm]. rewrite length_replicate, length_take.
    rewrite take_take. f_equal.
    - destruct (Nat.le_gt_cases (length (cl_topics l)) 4).
      + rewrite !take_ge by lia. done.
      + f_equal. lia.
    - destruct (Nat.le_gt_cases (length (cl_topics l)) 4).
      + f_equal. lia.
      + rewrite !drop_ge by (rewrite length_replicate; lia). done. }
  assert (take (length (evm_data zero_evm)) (cl_data l) ++
          drop (length (cl_data l)) (evm_data zero_evm) =
          take 256 (cl_data l ++ zeros 256)) as ->.
  { unfold zeros. rewrite take_pad. done. }
  destruct (Nat.ltb_spec 256 (length (cl_data l))); cbn [mbind result_bind].
  - rewrite (proj2 (Z.ltb_lt _ _)) by lia. do 2 f_equal. lia.
  - rewrite (proj2 (Z.ltb_ge _ _)) by lia. rewrite u32_id by lia. do 2 f_equal. lia.
Qed.

Lemma topic_table_NoDup : NoDup (topic_table.*1).
Proof. apply (bool_decide_eq_true_1 _). vm_compute. done. Qed.

Lemma classify_topic0_table t0 ty :
  In (t0, ty) topic_table -> classify_topic0 t0 = ty.
Proof.
  unfold topic_table; cbn [In]. intros H.
  repeat (destruct H as [[= <- <-]|H]; [vm_compute; reflexivity|]). done.
Qed.

Lemma classify_topic0_other t0 :
  t0 ∉ topic_table.*1 -> classify_topic0 t0 = Unknown.
Proof.
  unfold topic_table. cbn [fmap list_fmap fst]. rewrite !not_elem_of_cons.
  intros H. destruct_and! H. unfold classify_topic0, is_topic.
  by rewrite !bool_decide_eq_false_2 by done.
Qed.

(** * Properties *)

(** C13: on the JSON-RPC rendering of any well-formed chain log, with any number of
    topics and any amount of data, [normalize] succeeds and recovers every field: the numbers, the
    address, the hash, the first four topics and the first 256 data bytes (with the size and the
    truncation flag saying what was cut); the signal's type and payload are those of the
    classification of that event. *)
Theorem normalize_encode_log l chain_id ts uninit :
  chain_log_ok l -> bytes_ok 32 uninit ->
  normalize (encode_log l) chain_id ts uninit =
  Ok (mkSignal (classify_payload (evm_of_log chain_id l)).1
        (mkSignalMeta ts 0 (Some (cl_block l)) (Some (cl_tx_hash l)) false (u32 chain_id))
        (classify_payload (evm_of_log chain_id l)).2).
Proof.
  intros Hok [Hu _]. pose proof Hok as (Hb & [Hh Hhf] & _). unfold normalize.
  rewrite extract_evm_encode by done. unfold encode_log; cbn [raw_blockNumber raw_transactionHash].
  rewrite parse_hex_uint64_print by done. cbn [mbind result_bind].
  rewrite parse_hex_bytes_address_to_hex by (done || congruence). cbn [mbind result_bind].
  by destruct (classify_payload _).
Qed.

(** C39: every signal [normalize] produces, from any raw log whatever, is
    well formed (array lengths, byte ranges, integer widths) and its payload alternative is the one
    its type announces: governance, mint/burn and oracle payloads only under their type, an
    [EvmLogEvent] never under the mint/burn, governance or internal types. *)
Theorem normalize_type_invariant raw chain_id ts uninit s :
  bytes_ok 32 uninit -> normalize raw chain_id ts uninit = Ok s -> signal_ok s.
Proof. intros Hu H. by apply normalize_signal_ok in H as [? _]. Qed.

(** The [if] chain of [classify_topic0] is the lookup of the
    event table: the thirteen topics are pairwise distinct, each gets its type whatever the order of
    the tests, and every other topic is [Unknown]. *)
Theorem classify_topic0_is_table_lookup t0 :
  NoDup (topic_table.*1) /\
  classify_topic0 t0 =
  match list_find (fun p => p.1 = t0) topic_table with
  | Some (_, (_, ty)) => ty
  | None => Unknown
  end.
Proof.
  split; [apply topic_table_NoDup|].
  destruct (list_find _ topic_table) as [[i [t ty]]|] eqn:Hf.
  - apply list_find_Some in Hf as (Hi & <- & _). cbn.
    apply classify_topic0_table, list_elem_of_In. by eapply list_elem_of_lookup_2.
  - apply list_find_None in Hf. apply classify_topic0_other.
    rewrite list_elem_of_fmap. intros ([t ty] & -> & Hin).
    rewrite Forall_forall in Hf. apply (Hf (t, ty)); [by apply list_elem_of_In|done].
Qed.

(** An ERC-20 transfer with both indexed addresses and a full amount word is a
    mint when only [from] is the zero word, a burn when only [to] is, a mint/burn of unknown direction
    when both are, and otherwise a plain transfer that keeps the log as payload. *)
Theorem classify_transfer evm :
  evm_ok evm -> topic evm 0 = TOPIC_TRANSFER -> 3 <= evm_topic_count evm ->
  32 <= evm_data_size evm ->
  let '(t, p) := classify_payload evm in
  (t, payload_direction p) =
    transfer_kind (be_value (topic evm 1)) (be_value (topic evm 2)) /\
  (t = Transfer -> p = PEvm evm) /\
  (forall e, p = PMintBurn e -> mb_amount e = take 32 (evm_data evm)).
Proof.
  intros Hok Ht0 Htc Hds. unfold classify_payload, transfer_kind.
  rewrite Ht0, (classify_topic0_table TOPIC_TRANSFER Transfer) by (left; done).
  rewrite (proj2 (Z.ltb_lt 0 _)), (proj2 (Z.leb_le 3 _)) by lia.
  rewrite (proj2 (Z.leb_le 32 _)) by lia. cbn.
  rewrite !all_zero_spec by (by apply (topic_ok evm)).
  destruct (be_value (topic evm 1) =? 0), (be_value (topic evm 2) =? 0); cbn;
    (split_and!; [done|done|by intros e [= <-]]).
Qed.

(** When the transaction hash of the log is shorter than 32 bytes
    nothing is thrown: the missing bytes of [tx_hash] are whatever the uninitialised local array
    held. *)
Theorem normalize_short_hash_leaks l h chain_id ts uninit :
  chain_log_ok l -> Forall is_byte h -> (length h < 32)%nat -> bytes_ok 32 uninit ->
  let raw := encode_log l in
  let raw' := mkRawLog (raw_address raw) (raw_topics raw) (raw_data raw) (raw_blockNumber raw)
                (address_to_hex h) (raw_logIndex raw) (raw_transactionIndex raw)
                (raw_removed raw) in
  exists s, normalize raw' chain_id ts uninit = Ok s /\
            tx_hash (sig_meta s) = Some (h ++ drop (length h) uninit).
Proof.
  intros Hok Hh Hlen [Hu _] raw raw'. pose proof Hok as (Hb & _).
  unfold normalize. change (extract_evm raw' chain_id) with (extract_evm raw chain_id).
  unfold raw at 1. rewrite extract_evm_encode by done.
  unfold raw', raw, encode_log; cbn [raw_blockNumber raw_transactionHash].
  rewrite parse_hex_uint64_print by done. cbn [mbind result_bind].
  rewrite parse_hex_bytes_print, take_ge by (done || lia). cbn [mbind result_bind].
  destruct (classify_payload _). eexists; split; [reflexivity|done].
Qed.

(** ** Witnesses *)

(** A USDT mint of 300 units to address 0x11...11. *)
Definition sample_mint : ChainLog :=
  mkChainLog 19000000 (replicate 32 171) 3 7 false (replicate 20 253)
    [TOPIC_TRANSFER; zeros 32; zeros 12 ++ replicate 20 17] (to_be_256 300).

Lemma normalize_encode_log_witness :
  chain_log_ok sample_mint /\
  normalize (encode_log sample_mint) 42161 5000 (zeros 32) =
  Ok (mkSignal MintBurn
        (mkSignalMeta 5000 0 (Some 19000000) (Some (replicate 32 171)) false 42161)
        (PMintBurn (mkMintBurnEvent Mint 42161 (replicate 20 253) (to_be_256 300)
                      (zeros 20) (replicate 20 17)))).
Proof.
  assert (chain_log_ok sample_mint) as Hok by decide_by_compute.
  split; [exact Hok|].
  rewrite (normalize_encode_log sample_mint 42161 5000 (zeros 32) Hok (zeros_bytes 32)).
  vm_compute. reflexivity.
Defined.

Lemma normalize_type_invariant_witness :
  exists s, normalize (encode_log sample_mint) 42161 5000 (zeros 32) = Ok s /\ signal_ok s.
Proof.
  eexists. split; [vm_compute; reflexivity|].
  apply (normalize_type_invariant (encode_log sample_mint) 42161 5000 (zeros 32) _ (zeros_bytes 32)).
  vm_compute. reflexivity.
Defined.

Lemma classify_transfer_witness :
  (let '(t, p) := classify_payload (evm_of_log 1 sample_mint) in
   (t, payload_direction p) = (MintBurn, Some Mint)).
Proof.
  assert (evm_ok (evm_of_log 1 sample_mint)) as Hok.
  { unfold evm_ok. split_and!; first [lia | decide_by_compute]. }
  pose proof (classify_transfer (evm_of_log 1 sample_mint) Hok eq_refl
    ltac:(vm_compute; discriminate) ltac:(vm_compute; discriminate)) as H.
  destruct (classify_payload _) as [t p]. destruct H as (H & _). rewrite H.
  vm_compute. reflexivity.
Defined.

Lemma normalize_short_hash_leaks_witness :
  exists s, normalize (mkRawLog (address_to_hex (replicate 20 253))
      (map address_to_hex (cl_topics sample_mint)) (address_to_hex (to_be_256 300))
      (to_hex_quantity 19000000) (address_to_hex [1; 2]) (to_hex_quantity 7) (to_hex_quantity 3)
      false) 1 0 (replicate 32 205) = Ok s /\
    tx_hash (sig_meta s) = Some ([1; 2] ++ replicate 30 205).
Proof.
  apply (normalize_short_hash_leaks sample_mint [1; 2] 1 0 (replicate 32 205));
    [decide_by_compute|repeat constructor; unfold is_byte; lia
    |cbn; lia|decide_by_compute].
Defined.
