(* ===== verification/RuleInterface.v ===== *)
(** * The rule interface

    [IRiskRule] ([include/sentinel/risk/rule_interface.hpp]): what a rule offers
    to the engine.  [evaluate] takes the signal, the output vector and the rule
    object, and returns the object and the vector after the call; [StateStore]
    is an empty class and carries nothing.  [RiskRuleLaws] is what every rule
    promises its client: the vector only grows, the object keeps its interests
    and its name, and each alert carries the rule's name and the signal's time. *)
From S2P Require Import Prelude Cxx Hex Signal.

Class IRiskRule (R : Type) := {
  interests : R -> Z;
  rule_type_name : R -> string;
  evaluate : Signal -> list Alert -> R -> R * list Alert;
}.

(** The alerts a rule emits on a signal, and the object afterwards. *)
Definition emitted `{IRiskRule R} (s : Signal) (r : R) : list Alert := (evaluate s [] r).2.
Definition next_rule `{IRiskRule R} (s : Signal) (r : R) : R := (evaluate s [] r).1.

Definition alert_stamp (name : string) (s : Signal) (a : Alert) : Prop :=
  al_rule_type a = name /\ al_timestamp_ms a = timestamp_ms (sig_meta s) /\
  al_internal_ingress_time_ms a = 0.

Class RiskRuleLaws (R : Type) `{IRiskRule R} : Prop := {
  evaluate_appends s out (r : R) :
    evaluate s out r = (next_rule s r, out ++ emitted s r);
  next_rule_interests s (r : R) : interests (next_rule s r) = interests r;
  next_rule_name s (r : R) : rule_type_name (next_rule s r) = rule_type_name r;
  emitted_stamp s (r : R) : Forall (alert_stamp (rule_type_name r) s) (emitted s r);
}.

(** ** Logs as rule input *)

(** The guard shared by the rules that read an [EvmLogEvent]. *)
Definition evm_unusable (evm : EvmLogEvent) : bool :=
  evm_removed evm || (evm_topic_count evm <? 3) || (evm_data_size evm <? 32) ||
  evm_truncated evm.

(** The amount word of a log. *)
Definition evm_amount (evm : EvmLogEvent) : Z := be_value (take 32 (evm_data evm)).

(** A log the rules may use, in terms of its fields. *)
Definition evm_usable (evm : EvmLogEvent) : Prop :=
  evm_removed evm = false /\ 3 <= evm_topic_count evm /\ 32 <= evm_data_size evm /\
  evm_truncated evm = false.

#[export] Instance evm_usable_dec evm : Decision (evm_usable evm).
Proof. unfold evm_usable; apply _. Defined.

Lemma evm_unusable_spec evm : evm_unusable evm = bool_decide (~ evm_usable evm).
Proof.
  unfold evm_unusable. case_bool_decide as H; unfold evm_usable in H.
  - destruct (evm_removed evm), (evm_truncated evm); cbn; rewrite ?orb_true_r; try done.
    destruct (Z.ltb_spec (evm_topic_count evm) 3); [done|].
    destruct (Z.ltb_spec (evm_data_size evm) 32); [done|]. exfalso. apply H. split_and!; lia || done.
  - destruct H as (-> & Hc & Hd & ->).
    rewrite !(proj2 (Z.ltb_ge _ _)) by lia. done.
Qed.

(** A stateless rule: the laws follow from the shape of its output. *)
Lemma stateless_rule_laws {R} `{IRiskRule R} (alerts_of : Signal -> R -> list Alert) :
  (forall s out (r : R), evaluate s out r = (r, out ++ alerts_of s r)) ->
  (forall s (r : R), Forall (alert_stamp (rule_type_name r) s) (alerts_of s r)) ->
  RiskRuleLaws R.
Proof.
  intros Heval Hstamp. split; unfold next_rule, emitted; intros; by rewrite ?Heval.
Qed.

(** A threshold comparison on a log's data, for any rule. *)
Lemma data_greater_threshold evm thr :
  evm_ok evm -> bytes_ok 32 thr ->
  greater_be_256 (evm_data evm) thr = bool_decide (be_value thr < evm_amount evm).
Proof.
  intros (_ & _ & _ & _ & _ & Hd & _) Ht.
  rewrite (greater_be_256_spec 256 32) by (done || lia).
  rewrite (take_ge thr) by (destruct Ht; lia).
  apply eq_true_iff_eq. by rewrite Z.ltb_lt, bool_decide_eq_true.
Qed.

Lemma data_decimal evm :
  evm_ok evm -> uint256_be_to_decimal (evm_data evm) = std_to_string (evm_amount evm).
Proof.
  intros (_ & _ & _ & _ & _ & Hd & _). by apply (uint256_be_to_decimal_value 256); [|lia].
Qed.

(** ** Sample signals for the witnesses *)

Definition sample_token : list Z := replicate 20 253.

Definition sample_transfer (amount : Z) : EvmLogEvent :=
  mkEvmLogEvent 42161 0 0 false sample_token 3
    [replicate 32 1; replicate 32 2; replicate 32 3; zeros 32] 32
    (to_be_256 amount ++ zeros 224) false.

Definition sample_signal (t : SignalType) (p : SignalPayload) : Signal :=
  mkSignal t (mkSignalMeta 1000 7 (Some 5) None false 42161) p.

Lemma sample_transfer_ok : evm_ok (sample_transfer 500).
Proof. unfold evm_ok. split_and!; first [lia | decide_by_compute]. Qed.
