(* ===== verification/LargeTransferRule.v ===== *)
(** * The large-transfer rule

    Model of [include/sentinel/risk/rules/large_transfer_rule.hpp].  The debug
    log line has no effect on the pipeline and is left out. *)
From S2P Require Import Prelude Cxx Hex Signal RuleInterface.

Record LargeTransferRuleConfig := mkLargeTransferRuleConfig {
  lt_customer_id : Z;
  lt_chain_id : Z;
  lt_token_address : list Z;
  lt_threshold_be : list Z;
}.

Record LargeTransferRule := mkLargeTransferRule { lt_configs : list LargeTransferRuleConfig }.

Definition large_transfer_alert (s : Signal) (evm : EvmLogEvent)
    (config : LargeTransferRuleConfig) : Alert :=
  mkAlert (lt_customer_id config) "large_transfer" "Large transfer detected"
    (timestamp_ms (sig_meta s)) 0
    (Some (uint256_be_to_decimal (evm_data evm)))
    (Some (address_to_hex (lt_token_address config)))
    (Some (lt_chain_id config)).

(** The loop body. *)
Definition large_transfer_body (s : Signal) (evm : EvmLogEvent)
    (config : LargeTransferRuleConfig) (out : list Alert) : list Alert :=
  if negb (evm_chain_id evm =? lt_chain_id config) then out
  else if bool_decide (evm_address evm <> lt_token_address config) then out
  else if greater_be_256 (evm_data evm) (lt_threshold_be config)
  then out ++ [large_transfer_alert s evm config]
  else out.

Definition large_transfer_evaluate (s : Signal) (out : list Alert) (r : LargeTransferRule)
    : LargeTransferRule * list Alert :=
  match sig_payload s with
  | PEvm evm =>
      if evm_unusable evm then (r, out)
      else (r, for_each (large_transfer_body s evm) (lt_configs r) out)
  | _ => (r, out)
  end.

#[export] Instance LargeTransferRule_IRiskRule : IRiskRule LargeTransferRule := {
  interests := fun _ => make_mask Transfer;
  rule_type_name := fun _ => "large_transfer";
  evaluate := large_transfer_evaluate;
}.

(** * Facts *)

Definition large_transfer_configs_ok (r : LargeTransferRule) : Prop :=
  Forall (fun c => bytes_ok 32 (lt_threshold_be c)) (lt_configs r).

Definition large_transfer_match (s : Signal) (c : LargeTransferRuleConfig) : option Alert :=
  match sig_payload s with
  | PEvm evm =>
      when (negb (evm_unusable evm) && (evm_chain_id evm =? lt_chain_id c) &&
            bool_decide (evm_address evm = lt_token_address c) &&
            greater_be_256 (evm_data evm) (lt_threshold_be c))
           (large_transfer_alert s evm c)
  | _ => None
  end.

Lemma large_transfer_evaluate_omap s out r :
  large_transfer_evaluate s out r = (r, out ++ omap (large_transfer_match s) (lt_configs r)).
Proof.
  unfold large_transfer_evaluate, large_transfer_match.
  destruct (sig_payload s) as [|evm| | | | | |]; try (rewrite omap_none, app_nil_r; done).
  destruct (evm_unusable evm); cbn [negb andb].
  { by rewrite omap_none, app_nil_r. }
  f_equal. apply for_each_push. intros c o. unfold large_transfer_body.
  destruct (evm_chain_id evm =? lt_chain_id c); cbn; [|by rewrite app_nil_r].
  rewrite bool_decide_not. destruct (bool_decide (evm_address evm = _)); cbn;
    [|by rewrite app_nil_r].
  destruct (greater_be_256 _ _); cbn; [done|by rewrite app_nil_r].
Qed.

#[export] Instance LargeTransferRule_laws : RiskRuleLaws LargeTransferRule.
Proof.
  apply (stateless_rule_laws (fun s r => omap (large_transfer_match s) (lt_configs r))).
  - apply large_transfer_evaluate_omap.
  - intros s r. apply list.Forall_forall. intros a. rewrite list_elem_of_omap.
    intros (c & _ & Hc). unfold large_transfer_match, when in Hc.
    repeat case_match; simplify_eq; done.
Qed.

(** When the rule must fire, stated on numbers. *)
Definition large_transfer_fires (evm : EvmLogEvent) (c : LargeTransferRuleConfig) : Prop :=
  evm_usable evm /\ evm_chain_id evm = lt_chain_id c /\
  evm_address evm = lt_token_address c /\
  be_value (lt_threshold_be c) < evm_amount evm.

#[export] Instance large_transfer_fires_dec evm c : Decision (large_transfer_fires evm c).
Proof. unfold large_transfer_fires; apply _. Defined.

(** * Properties *)

(** C18: on a log signal the rule appends one alert for every configuration of
    the log's chain and token whose threshold is strictly below the amount, in configuration order,
    and nothing for a removed, truncated or malformed log; the alert's text amount is the decimal
    amount and its address the 0x form of the token. *)
Theorem large_transfer_alerts s evm out r :
  sig_payload s = PEvm evm -> evm_ok evm -> large_transfer_configs_ok r ->
  evaluate s out r =
  (r, out ++ ((fun c => mkAlert (lt_customer_id c) "large_transfer" "Large transfer detected"
                 (timestamp_ms (sig_meta s)) 0
                 (Some (std_to_string (evm_amount evm)))
                 (Some (address_to_hex (lt_token_address c))) (Some (lt_chain_id c)))
              <$> filter (large_transfer_fires evm) (lt_configs r))).
Proof.
  intros Hp Hok Hcfg. change (evaluate s out r) with (large_transfer_evaluate s out r).
  rewrite large_transfer_evaluate_omap, <- omap_when_dec. do 2 f_equal.
  apply omap_ext_list. unfold large_transfer_configs_ok in Hcfg.
  eapply list.Forall_impl; [exact Hcfg|]. intros c Hc.
  unfold large_transfer_match, large_transfer_alert. rewrite Hp, data_decimal by done.
  f_equal. rewrite data_greater_threshold, evm_unusable_spec by done.
  apply eq_true_iff_eq. unfold large_transfer_fires.
  rewrite !andb_true_iff, negb_true_iff, bool_decide_eq_false, Z.eqb_eq, !bool_decide_eq_true.
  destruct (decide (evm_usable evm)); tauto.
Qed.

(** ** Witnesses *)

Lemma large_transfer_alerts_witness :
  let cfg t := mkLargeTransferRuleConfig 9 42161 sample_token (to_be_256 t) in
  (evaluate (sample_signal Transfer (PEvm (sample_transfer 500))) []
     (mkLargeTransferRule [cfg 499; cfg 500])).2 =
  [mkAlert 9 "large_transfer" "Large transfer detected" 1000 0 (Some "500")
     (Some "0xfdfdfdfdfdfdfdfdfdfdfdfdfdfdfdfdfdfdfdfd") (Some 42161)].
Proof.
  intros cfg.
  rewrite (large_transfer_alerts
             (sample_signal Transfer (PEvm (sample_transfer 500))) (sample_transfer 500) []
             (mkLargeTransferRule [cfg 499; cfg 500]) eq_refl sample_transfer_ok).
  - vm_compute. reflexivity.
  - repeat constructor; decide_by_compute.
Defined.
