(* ===== verification/GovernanceRule.v ===== *)
(** * The governance rule

    Model of [src/risk/rules/governance_rule.cpp] and
    [include/sentinel/risk/governance_config.hpp].  The [unordered_map] of
    configurations is a [gmap]; its key compares chain and address text. *)
From S2P Require Import Prelude Cxx Hex Signal RuleInterface.

Record GovernanceRuleConfig := mkGovernanceRuleConfig {
  gr_customer_id : Z;
  gr_chain_id : Z;
  gr_contract_address : string;
  gr_enabled : bool;
  gr_action_filter : option GovernanceAction;
}.

Record GovernanceContractKey := mkGovernanceContractKey {
  gk_chain_id : Z;
  gk_contract_address : string;
}.

#[export] Instance GovernanceContractKey_eq_dec : EqDecision GovernanceContractKey.
Proof. solve_decision. Defined.
#[export] Program Instance GovernanceContractKey_countable : Countable GovernanceContractKey :=
  inj_countable' (fun k => (gk_chain_id k, gk_contract_address k))
                 (fun p => mkGovernanceContractKey p.1 p.2) _.
Next Obligation. by intros []. Qed.

Record GovernanceRule := mkGovernanceRule {
  gr_config_map : gmap GovernanceContractKey (list GovernanceRuleConfig);
}.

Definition action_to_string (action : GovernanceAction) : string :=
  match action with
  | OwnershipTransferred => "OwnershipTransferred"
  | Paused => "Paused"
  | Unpaused => "Unpaused"
  | RoleGranted => "RoleGranted"
  | RoleRevoked => "RoleRevoked"
  | Upgraded => "Upgraded"
  | UnknownAction => "Unknown"
  end.

Definition governance_alert (s : Signal) (g : GovernanceEvent) (cfg : GovernanceRuleConfig)
    : Alert :=
  let contract_address_hex := address_to_hex (gov_contract_address g) in
  mkAlert (gr_customer_id cfg) "governance"
    ("Governance action '" +:+ action_to_string (gov_action g) +:+
     "' detected on contract " +:+ contract_address_hex)%stdpp
    (timestamp_ms (sig_meta s)) 0 None (Some contract_address_hex) (Some (gov_chain_id g)).

Definition governance_body (s : Signal) (g : GovernanceEvent) (cfg : GovernanceRuleConfig)
    (out : list Alert) : list Alert :=
  if negb (gr_enabled cfg) then out
  else if match gr_action_filter cfg with
          | Some a => bool_decide (a <> gov_action g)
          | None => false
          end then out
  else out ++ [governance_alert s g cfg].

Definition governance_evaluate (s : Signal) (out : list Alert) (r : GovernanceRule)
    : GovernanceRule * list Alert :=
  if bool_decide (sig_type s <> Governance) then (r, out)
  else match sig_payload s with
       | PGovernance g =>
           let key := mkGovernanceContractKey (gov_chain_id g)
                        (address_to_hex (gov_contract_address g)) in
           match gr_config_map r !! key with
           | None => (r, out)
           | Some cfgs => (r, for_each (governance_body s g) cfgs out)
           end
       | _ => (r, out)
       end.

#[export] Instance GovernanceRule_IRiskRule : IRiskRule GovernanceRule := {
  interests := fun _ => make_mask Governance;
  rule_type_name := fun _ => "governance";
  evaluate := governance_evaluate;
}.

(** * Specification and facts *)

(** The configurations of an event's chain and contract. *)
Definition governance_bucket (r : GovernanceRule) (g : GovernanceEvent)
    : list GovernanceRuleConfig :=
  default [] (gr_config_map r !!
    mkGovernanceContractKey (gov_chain_id g) (address_to_hex (gov_contract_address g))).

Definition governance_fires (g : GovernanceEvent) (cfg : GovernanceRuleConfig) : Prop :=
  gr_enabled cfg = true /\
  (gr_action_filter cfg = None \/ gr_action_filter cfg = Some (gov_action g)).

#[export] Instance governance_fires_dec g cfg : Decision (governance_fires g cfg).
Proof. unfold governance_fires. apply _. Defined.

Definition governance_alerts_of (r : GovernanceRule) (s : Signal) : list Alert :=
  match sig_type s, sig_payload s with
  | Governance, PGovernance g =>
      governance_alert s g <$> filter (governance_fires g) (governance_bucket r g)
  | _, _ => []
  end.

Lemma governance_body_push s g cfg out :
  governance_body s g cfg out =
  out ++ option_list (when (bool_decide (governance_fires g cfg)) (governance_alert s g cfg)).
Proof.
  unfold governance_body, governance_fires. case_bool_decide as Hf; cbn [when option_list].
  - destruct Hf as (-> & Ha). cbn.
    destruct (gr_action_filter cfg) as [a|]; [|done].
    destruct Ha as [Ha|[= ->]]; [done|]. by rewrite bool_decide_eq_false_2 by tauto.
  - rewrite app_nil_r. destruct (gr_enabled cfg); cbn; [|done].
    destruct (gr_action_filter cfg) as [a|]; [|tauto].
    rewrite bool_decide_eq_true_2; [done|]. intros ->. tauto.
Qed.

Lemma governance_evaluate_out s out r :
  governance_evaluate s out r = (r, out ++ governance_alerts_of r s).
Proof.
  unfold governance_evaluate, governance_alerts_of, governance_bucket.
  destruct (sig_type s); cbn; try (by rewrite app_nil_r).
  destruct (sig_payload s) as [| | | |g| | |]; try (by rewrite app_nil_r).
  destruct (gr_config_map r !! _) as [cfgs|]; cbn [default]; [|by rewrite app_nil_r].
  rewrite <- omap_when_dec. f_equal. apply for_each_push. intros. apply governance_body_push.
Qed.

#[export] Instance GovernanceRule_laws : RiskRuleLaws GovernanceRule.
Proof.
  apply (stateless_rule_laws (fun s r => governance_alerts_of r s)).
  - apply governance_evaluate_out.
  - unfold governance_alerts_of. intros s r.
    destruct (sig_type s), (sig_payload s); try constructor.
    apply list.Forall_forall. intros a (x & -> & _)%list_elem_of_fmap. done.
Qed.

(** * Properties *)

(** C21: a governance event raises exactly one alert per enabled configuration of
    its chain and contract whose action filter is absent or equal to the event's action, in
    configuration order; the message names the action and the contract. *)
Theorem governance_alerts s g out r :
  sig_type s = Governance -> sig_payload s = PGovernance g ->
  evaluate s out r =
  (r, out ++ (governance_alert s g <$> filter (governance_fires g) (governance_bucket r g))).
Proof.
  intros Ht Hp. change (evaluate s out r) with (governance_evaluate s out r).
  rewrite governance_evaluate_out. unfold governance_alerts_of. by rewrite Ht, Hp.
Qed.

Definition sample_governance_rule : GovernanceRule :=
  let addr := address_to_hex (replicate 20 17) in
  mkGovernanceRule {[ mkGovernanceContractKey 1 addr :=
    [mkGovernanceRuleConfig 4 1 addr true None;
     mkGovernanceRuleConfig 5 1 addr false None;
     mkGovernanceRuleConfig 6 1 addr true (Some Upgraded);
     mkGovernanceRuleConfig 7 1 addr true (Some Paused)] ]}.

Lemma governance_alerts_witness :
  al_customer_id <$> (evaluate (mkSignal Governance zero_meta
      (PGovernance (mkGovernanceEvent Paused 1 (replicate 20 17)))) [] sample_governance_rule).2 =
  [4; 7].
Proof.
  rewrite (governance_alerts (mkSignal Governance zero_meta
             (PGovernance (mkGovernanceEvent Paused 1 (replicate 20 17)))) (mkGovernanceEvent Paused 1 (replicate 20 17)) []
             sample_governance_rule eq_refl eq_refl).
  vm_compute. reflexivity.
Defined.
