(* ===== verification/MintBurnRule.v ===== *)
(** * The mint/burn rule

    Model of [src/risk/rules/mint_burn_rule.cpp] and
    [include/sentinel/risk/mint_burn_config.hpp]. *)
From S2P Require Import Prelude Cxx Hex Signal RuleInterface.

Record MintBurnRuleConfig := mkMintBurnRuleConfig {
  mr_customer_id : Z;
  mr_chain_id : Z;
  mr_contract_address : string;
  mr_mint_threshold_be : list Z;
  mr_burn_threshold_be : list Z;
  mr_enabled : bool;
}.

Record MintBurnContractKey := mkMintBurnContractKey {
  mk_chain_id : Z;
  mk_contract_address : string;
}.

#[export] Instance MintBurnContractKey_eq_dec : EqDecision MintBurnContractKey.
Proof. solve_decision. Defined.
#[export] Program Instance MintBurnContractKey_countable : Countable MintBurnContractKey :=
  inj_countable' (fun k => (mk_chain_id k, mk_contract_address k))
                 (fun p => mkMintBurnContractKey p.1 p.2) _.
Next Obligation. by intros []. Qed.

Record MintBurnRule := mkMintBurnRule {
  mr_config_map : gmap MintBurnContractKey (list MintBurnRuleConfig);
}.

Definition mint_burn_alert (s : Signal) (e : MintBurnEvent) (cfg : MintBurnRuleConfig) : Alert :=
  let dir_str := if decide (mb_direction e = Mint) then "Mint" else "Burn" in
  mkAlert (mr_customer_id cfg) "mint_burn" ("Large " +:+ dir_str +:+ " detected")%stdpp
    (timestamp_ms (sig_meta s)) 0 (Some (uint256_be_to_decimal (mb_amount e)))
    (Some (address_to_hex (mb_token_address e))) (Some (mb_chain_id e)).

Definition mint_burn_body (s : Signal) (e : MintBurnEvent) (cfg : MintBurnRuleConfig)
    (out : list Alert) : list Alert :=
  if negb (mr_enabled cfg) then out
  else
    let is_alert :=
      if decide (mb_direction e = Mint)
      then negb (greater_be_256 (mr_mint_threshold_be cfg) (mb_amount e))
      else if decide (mb_direction e = Burn)
      then negb (greater_be_256 (mr_burn_threshold_be cfg) (mb_amount e))
      else false in
    if is_alert then out ++ [mint_burn_alert s e cfg] else out.

Definition mint_burn_evaluate (s : Signal) (out : list Alert) (r : MintBurnRule)
    : MintBurnRule * list Alert :=
  if bool_decide (sig_type s <> MintBurn) then (r, out)
  else match sig_payload s with
       | PMintBurn e =>
           let key := mkMintBurnContractKey (mb_chain_id e)
                        (address_to_hex (mb_token_address e)) in
           match mr_config_map r !! key with
           | None => (r, out)
           | Some cfgs => (r, for_each (mint_burn_body s e) cfgs out)
           end
       | _ => (r, out)
       end.

#[export] Instance MintBurnRule_IRiskRule : IRiskRule MintBurnRule := {
  interests := fun _ => make_mask MintBurn;
  rule_type_name := fun _ => "mint_burn";
  evaluate := mint_burn_evaluate;
}.

(** * Specification and facts *)

Definition mint_burn_bucket (r : MintBurnRule) (e : MintBurnEvent) : list MintBurnRuleConfig :=
  default [] (mr_config_map r !!
    mkMintBurnContractKey (mb_chain_id e) (address_to_hex (mb_token_address e))).

(** The test of the loop body. *)
Definition mint_burn_test (e : MintBurnEvent) (cfg : MintBurnRuleConfig) : bool :=
  mr_enabled cfg &&
  match mb_direction e with
  | Mint => negb (greater_be_256 (mr_mint_threshold_be cfg) (mb_amount e))
  | Burn => negb (greater_be_256 (mr_burn_threshold_be cfg) (mb_amount e))
  | UnknownDirection => false
  end.

Definition mint_burn_alerts_of (r : MintBurnRule) (s : Signal) : list Alert :=
  match sig_type s, sig_payload s with
  | MintBurn, PMintBurn e =>
      mint_burn_alert s e <$> filter (fun c => mint_burn_test e c) (mint_burn_bucket r e)
  | _, _ => []
  end.

Lemma mint_burn_evaluate_out s out r :
  mint_burn_evaluate s out r = (r, out ++ mint_burn_alerts_of r s).
Proof.
  unfold mint_burn_evaluate, mint_burn_alerts_of, mint_burn_bucket.
  destruct (sig_type s); cbn; try (by rewrite app_nil_r).
  destruct (sig_payload s) as [| | | | | |e|]; try (by rewrite app_nil_r).
  destruct (mr_config_map r !! _) as [cfgs|]; cbn [default]; [|by rewrite app_nil_r].
  rewrite <- omap_when. f_equal. apply for_each_push. intros c o.
  unfold mint_burn_body, mint_burn_test.
  destruct (mr_enabled c); cbn; [|by rewrite app_nil_r].
  destruct (mb_direction e); cbn; [by rewrite app_nil_r|..];
    repeat (destruct (decide _); try done); by case_match; rewrite ?app_nil_r.
Qed.

#[export] Instance MintBurnRule_laws : RiskRuleLaws MintBurnRule.
Proof.
  apply (stateless_rule_laws (fun s r => mint_burn_alerts_of r s)).
  - apply mint_burn_evaluate_out.
  - unfold mint_burn_alerts_of. intros s r.
    destruct (sig_type s), (sig_payload s); try constructor.
    apply list.Forall_forall. intros a (x & -> & _)%list_elem_of_fmap. done.
Qed.

Definition mint_burn_config_ok (c : MintBurnRuleConfig) : Prop :=
  bytes_ok 32 (mr_mint_threshold_be c) /\ bytes_ok 32 (mr_burn_threshold_be c).

(** When the rule must fire, on numbers: the threshold of the direction is
    reached. *)
Definition mint_burn_fires (e : MintBurnEvent) (c : MintBurnRuleConfig) : Prop :=
  mr_enabled c = true /\
  ((mb_direction e = Mint /\ be_value (mr_mint_threshold_be c) <= be_value (mb_amount e)) \/
   (mb_direction e = Burn /\ be_value (mr_burn_threshold_be c) <= be_value (mb_amount e))).

#[export] Instance mint_burn_fires_dec e c : Decision (mint_burn_fires e c).
Proof. unfold mint_burn_fires; apply _. Defined.

Lemma not_greater_be_256 a b :
  bytes_ok 32 a -> bytes_ok 32 b ->
  negb (greater_be_256 a b) = bool_decide (be_value a <= be_value b).
Proof.
  intros Ha Hb. rewrite (greater_be_256_spec 32 32) by (done || lia).
  rewrite !take_ge by (destruct Ha, Hb; lia).
  apply eq_true_iff_eq. rewrite negb_true_iff, bool_decide_eq_true. lia.
Qed.

Lemma mint_burn_test_fires e c :
  bytes_ok 32 (mb_amount e) -> mint_burn_config_ok c ->
  mint_burn_test e c = bool_decide (mint_burn_fires e c).
Proof.
  intros Ha [Hm Hb]. unfold mint_burn_test, mint_burn_fires.
  rewrite !not_greater_be_256 by done. apply eq_true_iff_eq.
  rewrite andb_true_iff, bool_decide_eq_true.
  destruct (mb_direction e); rewrite ?bool_decide_eq_true; intuition congruence.
Qed.

(** * Properties *)

(** C22: a mint/burn event raises one alert per enabled configuration of its chain
    and token whose threshold for that direction is at most the amount (the bound itself alerts);
    an event of unknown direction raises none.  The alert carries the decimal amount and names the
    direction. *)
Theorem mint_burn_alerts s e out r :
  sig_type s = MintBurn -> sig_payload s = PMintBurn e -> bytes_ok 32 (mb_amount e) ->
  Forall mint_burn_config_ok (mint_burn_bucket r e) ->
  evaluate s out r =
    (r, out ++ ((fun c => mkAlert (mr_customer_id c) "mint_burn"
                   (if decide (mb_direction e = Mint) then "Large Mint detected"
                    else "Large Burn detected")
                   (timestamp_ms (sig_meta s)) 0
                   (Some (std_to_string (be_value (mb_amount e))))
                   (Some (address_to_hex (mb_token_address e))) (Some (mb_chain_id e)))
                <$> filter (mint_burn_fires e) (mint_burn_bucket r e))).
Proof.
  intros Ht Hp Ha Hcfg. change (evaluate s out r) with (mint_burn_evaluate s out r).
  rewrite mint_burn_evaluate_out. unfold mint_burn_alerts_of. rewrite Ht, Hp. do 2 f_equal.
  rewrite <- omap_when, <- omap_when_dec. apply omap_ext_list.
  eapply list.Forall_impl; [exact Hcfg|]. intros c Hc.
  rewrite mint_burn_test_fires by done. f_equal. unfold mint_burn_alert.
  rewrite (uint256_be_to_decimal_value 32) by (done || lia).
  rewrite take_ge by (destruct Ha; lia). by destruct (decide (mb_direction e = Mint)).
Qed.

Lemma mint_burn_alerts_witness :
  let cfg id t := mkMintBurnRuleConfig id 1 "" (to_be_256 t) (to_be_256 7) true in
  let e := mkMintBurnEvent Mint 1 (replicate 20 17) (to_be_256 300) (zeros 20) (zeros 20) in
  al_customer_id <$> (evaluate (sample_signal MintBurn (PMintBurn e)) []
    (mkMintBurnRule {[ mkMintBurnContractKey 1 (address_to_hex (replicate 20 17)) :=
       [cfg 1 299; cfg 2 300; cfg 3 301] ]})).2 = [1; 2].
Proof.
  intros cfg e.
  rewrite (mint_burn_alerts (sample_signal MintBurn (PMintBurn e)) e []
    (mkMintBurnRule {[ mkMintBurnContractKey 1 (address_to_hex (replicate 20 17)) :=
       [cfg 1 299; cfg 2 300; cfg 3 301] ]}) eq_refl eq_refl).
  - vm_compute. reflexivity.
  - decide_by_compute.
  - vm_compute. repeat constructor; decide_by_compute.
Defined.
