(* ===== verification/ApprovalRule.v ===== *)
(** * The approval rule

    Model of [src/risk/rules/approval_rule.cpp] and
    [include/sentinel/risk/approval_config.hpp]. *)
From S2P Require Import Prelude Cxx Hex Signal RuleInterface.

Record ApprovalRuleConfig := mkApprovalRuleConfig {
  ar_customer_id : Z;
  ar_chain_id : Z;
  ar_token_address : list Z;
  ar_threshold_be : list Z;
  ar_alert_on_infinite : bool;
  ar_enabled : bool;
}.

Record ApprovalContractKey := mkApprovalContractKey {
  ak_chain_id : Z;
  ak_token_address : string;
}.

#[export] Instance ApprovalContractKey_eq_dec : EqDecision ApprovalContractKey.
Proof. solve_decision. Defined.
#[export] Program Instance ApprovalContractKey_countable : Countable ApprovalContractKey :=
  inj_countable' (fun k => (ak_chain_id k, ak_token_address k))
                 (fun p => mkApprovalContractKey p.1 p.2) _.
Next Obligation. by intros []. Qed.

Record ApprovalRule := mkApprovalRule {
  ar_config_map : gmap ApprovalContractKey (list ApprovalRuleConfig);
}.

(** [std::all_of(data.begin(), data.begin() + 32, b == 0xFF)]. *)
Definition is_infinite (data : list Z) : bool := forallb (Z.eqb 255) (take 32 data).

Definition approval_alert (s : Signal) (evm : EvmLogEvent) (cfg : ApprovalRuleConfig) : Alert :=
  mkAlert (ar_customer_id cfg) "approval"
    (if is_infinite (evm_data evm) then "Infinite approval detected"
     else "Large approval detected")
    (timestamp_ms (sig_meta s)) 0 (Some (uint256_be_to_decimal (evm_data evm)))
    (Some (address_to_hex (evm_address evm))) (Some (evm_chain_id evm)).

Definition approval_body (s : Signal) (evm : EvmLogEvent) (cfg : ApprovalRuleConfig)
    (out : list Alert) : list Alert :=
  if negb (ar_enabled cfg) then out
  else
    let exceeds := greater_be_256 (evm_data evm) (ar_threshold_be cfg) in
    let is_alert := (ar_alert_on_infinite cfg && is_infinite (evm_data evm)) || exceeds in
    if negb is_alert then out else out ++ [approval_alert s evm cfg].

Definition approval_evaluate (s : Signal) (out : list Alert) (r : ApprovalRule)
    : ApprovalRule * list Alert :=
  if bool_decide (sig_type s <> Approval) then (r, out)
  else match sig_payload s with
       | PEvm evm =>
           if evm_unusable evm then (r, out)
           else
             let key := mkApprovalContractKey (evm_chain_id evm)
                          (address_to_hex (evm_address evm)) in
             match ar_config_map r !! key with
             | None => (r, out)
             | Some cfgs => (r, for_each (approval_body s evm) cfgs out)
             end
       | _ => (r, out)
       end.

#[export] Instance ApprovalRule_IRiskRule : IRiskRule ApprovalRule := {
  interests := fun _ => make_mask Approval;
  rule_type_name := fun _ => "approval";
  evaluate := approval_evaluate;
}.

(** * Specification and facts *)

Definition approval_bucket (r : ApprovalRule) (evm : EvmLogEvent) : list ApprovalRuleConfig :=
  default [] (ar_config_map r !!
    mkApprovalContractKey (evm_chain_id evm) (address_to_hex (evm_address evm))).

Definition approval_test (evm : EvmLogEvent) (cfg : ApprovalRuleConfig) : bool :=
  ar_enabled cfg &&
  ((ar_alert_on_infinite cfg && is_infinite (evm_data evm)) ||
   greater_be_256 (evm_data evm) (ar_threshold_be cfg)).

Definition approval_alerts_of (r : ApprovalRule) (s : Signal) : list Alert :=
  match sig_type s, sig_payload s with
  | Approval, PEvm evm =>
      if evm_unusable evm then []
      else approval_alert s evm <$> filter (fun c => approval_test evm c) (approval_bucket r evm)
  | _, _ => []
  end.

Lemma approval_evaluate_out s out r :
  approval_evaluate s out r = (r, out ++ approval_alerts_of r s).
Proof.
  unfold approval_evaluate, approval_alerts_of, approval_bucket.
  destruct (sig_type s); cbn; try (by rewrite app_nil_r).
  destruct (sig_payload s) as [|evm| | | | | |]; try (by rewrite app_nil_r).
  destruct (evm_unusable evm); [by rewrite app_nil_r|].
  destruct (ar_config_map r !! _) as [cfgs|]; cbn [default]; [|by rewrite app_nil_r].
  rewrite <- omap_when. f_equal. apply for_each_push. intros c o.
  unfold approval_body, approval_test.
  destruct (ar_enabled c); cbn; [|by rewrite app_nil_r].
  destruct (_ || _); cbn; by rewrite ?app_nil_r.
Qed.

#[export] Instance ApprovalRule_laws : RiskRuleLaws ApprovalRule.
Proof.
  apply (stateless_rule_laws (fun s r => approval_alerts_of r s)).
  - apply approval_evaluate_out.
  - unfold approval_alerts_of. intros s r.
    destruct (sig_type s), (sig_payload s); try constructor.
    case_match; [constructor|]. apply list.Forall_forall. intros a (x & -> & _)%list_elem_of_fmap. done.
Qed.

Lemma is_infinite_value evm :
  evm_ok evm -> is_infinite (evm_data evm) = bool_decide (evm_amount evm = 2 ^ 256 - 1).
Proof.
  intros (_ & _ & _ & _ & _ & Hd & _). destruct (take_bytes _ 32 _ Hd ltac:(lia)) as [Hl Hf].
  unfold is_infinite, evm_amount. apply eq_true_iff_eq.
  rewrite bool_decide_eq_true, forallb_forall. split.
  - intros Hall. assert (take 32 (evm_data evm) = replicate 32 255) as ->; [|done].
    symmetry. apply replicate_as_elem_of. split; [done|]. intros x Hx%list_elem_of_In%Hall.
    symmetry. by apply Z.eqb_eq.
  - intros Hv x Hx. apply Z.eqb_eq.
    assert (take 32 (evm_data evm) = replicate 32 255) as Heq.
    { apply be_value_inj; [done|decide_by_compute|by rewrite Hl|by rewrite Hv]. }
    rewrite Heq in Hx. apply list_elem_of_In, elem_of_replicate in Hx as [-> _]. done.
Qed.

(** When the rule must fire, on numbers. *)
Definition approval_fires (evm : EvmLogEvent) (c : ApprovalRuleConfig) : Prop :=
  ar_enabled c = true /\
  (be_value (ar_threshold_be c) < evm_amount evm \/
   (ar_alert_on_infinite c = true /\ evm_amount evm = 2 ^ 256 - 1)).

#[export] Instance approval_fires_dec evm c : Decision (approval_fires evm c).
Proof. unfold approval_fires; apply _. Defined.

Lemma approval_test_fires evm c :
  evm_ok evm -> bytes_ok 32 (ar_threshold_be c) ->
  approval_test evm c = bool_decide (approval_fires evm c).
Proof.
  intros Hok Ht. unfold approval_test, approval_fires.
  rewrite data_greater_threshold, is_infinite_value by done. apply eq_true_iff_eq.
  rewrite andb_true_iff, orb_true_iff, andb_true_iff, !bool_decide_eq_true. tauto.
Qed.

(** * Properties *)

(** C19: an approval log that is not removed, truncated or malformed raises one alert
    per enabled configuration of its chain and token whose threshold is below the allowance, or that
    asks for infinite approvals when the allowance is 2^256 - 1; the message says "Infinite" exactly
    for that allowance.  Any other log raises none. *)
Theorem approval_alerts s evm out r :
  sig_type s = Approval -> sig_payload s = PEvm evm -> evm_ok evm ->
  Forall (fun c => bytes_ok 32 (ar_threshold_be c)) (approval_bucket r evm) ->
  evaluate s out r =
    (r, out ++ (if decide (evm_usable evm) then
                  (fun c => mkAlert (ar_customer_id c) "approval"
                     (if decide (evm_amount evm = 2 ^ 256 - 1)
                      then "Infinite approval detected" else "Large approval detected")
                     (timestamp_ms (sig_meta s)) 0
                     (Some (std_to_string (evm_amount evm)))
                     (Some (address_to_hex (evm_address evm))) (Some (evm_chain_id evm)))
                  <$> filter (approval_fires evm) (approval_bucket r evm)
                else [])).
Proof.
  intros Ht Hp Hok Hcfg. change (evaluate s out r) with (approval_evaluate s out r).
  rewrite approval_evaluate_out. unfold approval_alerts_of. rewrite Ht, Hp, evm_unusable_spec.
  do 2 f_equal. destruct (decide (evm_usable evm)) as [Hu|Hu].
  2: { by rewrite bool_decide_eq_true_2. }
  rewrite bool_decide_eq_false_2 by tauto.
  rewrite <- omap_when, <- omap_when_dec. apply omap_ext_list.
  eapply list.Forall_impl; [exact Hcfg|]. intros c Hc. cbn beta.
  rewrite approval_test_fires by done. f_equal. unfold approval_alert.
  rewrite data_decimal, is_infinite_value by done. by case_bool_decide; case_decide.
Qed.

Definition sample_approval (data : list Z) : EvmLogEvent :=
  mkEvmLogEvent 1 0 0 false (replicate 20 17) 3 (replicate 4 (zeros 32)) 32
    (data ++ zeros 224) false.

Definition sample_approval_rule : ApprovalRule :=
  let cfg id inf := mkApprovalRuleConfig id 1 (replicate 20 17) (replicate 32 255) inf true in
  mkApprovalRule {[ mkApprovalContractKey 1 (address_to_hex (replicate 20 17)) :=
    [cfg 1 true; cfg 2 false] ]}.

Lemma approval_alerts_witness :
  let s := sample_signal Approval (PEvm (sample_approval (replicate 32 255))) in
  (fun a => (al_customer_id a, al_message a)) <$> (evaluate s [] sample_approval_rule).2 =
  [(1, "Infinite approval detected")].
Proof.
  intros s.
  rewrite (approval_alerts s (sample_approval (replicate 32 255)) [] sample_approval_rule
             eq_refl eq_refl).
  - vm_compute. reflexivity.
  - unfold evm_ok. split_and!; first [lia | decide_by_compute].
  - vm_compute. repeat constructor; decide_by_compute.
Defined.
