(* ===== verification/BridgeTransferRule.v ===== *)
(** * The bridge-transfer rule

    Model of [src/risk/rules/bridge_transfer_rule.cpp] and
    [include/sentinel/risk/bridge_config.hpp]. *)
From S2P Require Import Prelude Cxx Hex Signal RuleInterface.

Record BridgeRuleConfig := mkBridgeRuleConfig {
  br_customer_id : Z;
  br_chain_id : Z;
  br_token_address : list Z;
  br_threshold_be : list Z;
  br_enabled : bool;
}.

Record BridgeRuleKey := mkBridgeRuleKey { bk_chain_id : Z; bk_token_address : list Z }.
Record BridgeAddressKey := mkBridgeAddressKey { ba_chain_id : Z; ba_address : list Z }.

#[export] Instance BridgeRuleKey_eq_dec : EqDecision BridgeRuleKey.
Proof. solve_decision. Defined.
#[export] Program Instance BridgeRuleKey_countable : Countable BridgeRuleKey :=
  inj_countable' (fun k => (bk_chain_id k, bk_token_address k))
                 (fun p => mkBridgeRuleKey p.1 p.2) _.
Next Obligation. by intros []. Qed.

#[export] Instance BridgeAddressKey_eq_dec : EqDecision BridgeAddressKey.
Proof. solve_decision. Defined.
#[export] Program Instance BridgeAddressKey_countable : Countable BridgeAddressKey :=
  inj_countable' (fun k => (ba_chain_id k, ba_address k))
                 (fun p => mkBridgeAddressKey p.1 p.2) _.
Next Obligation. by intros []. Qed.

Record BridgeTransferRule := mkBridgeTransferRule {
  br_configs_by_key : gmap BridgeRuleKey (list BridgeRuleConfig);
  br_bridge_addresses : gset BridgeAddressKey;
  br_bridge_names : gmap BridgeAddressKey string;
}.

(** [topics[2]] without its twelve padding bytes. *)
Definition to_address (evm : EvmLogEvent) : list Z :=
  drop 12 (default (zeros 32) (evm_topics evm !! 2%nat)).

Definition bridge_key (evm : EvmLogEvent) : BridgeAddressKey :=
  mkBridgeAddressKey (evm_chain_id evm) (to_address evm).

Definition bridge_alert (r : BridgeTransferRule) (s : Signal) (evm : EvmLogEvent)
    (config : BridgeRuleConfig) : Alert :=
  let name := default "unknown bridge" (br_bridge_names r !! bridge_key evm) in
  mkAlert (br_customer_id config) "bridge_transfer"
    ("Large transfer to bridge '" +:+ name +:+ "' detected")%stdpp
    (timestamp_ms (sig_meta s)) 0 (Some (uint256_be_to_decimal (evm_data evm)))
    (Some (address_to_hex (evm_address evm))) (Some (br_chain_id config)).

Definition bridge_body (r : BridgeTransferRule) (s : Signal) (evm : EvmLogEvent)
    (config : BridgeRuleConfig) (out : list Alert) : list Alert :=
  if negb (br_enabled config) then out
  else if negb (greater_be_256 (evm_data evm) (br_threshold_be config)) then out
  else out ++ [bridge_alert r s evm config].

Definition bridge_evaluate (s : Signal) (out : list Alert) (r : BridgeTransferRule)
    : BridgeTransferRule * list Alert :=
  if bool_decide (sig_type s <> Transfer) then (r, out)
  else match sig_payload s with
       | PEvm evm =>
           if evm_unusable evm then (r, out)
           else if negb (bool_decide (bridge_key evm ∈ br_bridge_addresses r)) then (r, out)
           else
             match br_configs_by_key r !!
                     mkBridgeRuleKey (evm_chain_id evm) (evm_address evm) with
             | None => (r, out)
             | Some cfgs => (r, for_each (bridge_body r s evm) cfgs out)
             end
       | _ => (r, out)
       end.

#[export] Instance BridgeTransferRule_IRiskRule : IRiskRule BridgeTransferRule := {
  interests := fun _ => make_mask Transfer;
  rule_type_name := fun _ => "bridge_transfer";
  evaluate := bridge_evaluate;
}.

(** * Specification and facts *)

Definition bridge_bucket (r : BridgeTransferRule) (evm : EvmLogEvent) : list BridgeRuleConfig :=
  default [] (br_configs_by_key r !! mkBridgeRuleKey (evm_chain_id evm) (evm_address evm)).

Definition bridge_test (evm : EvmLogEvent) (cfg : BridgeRuleConfig) : bool :=
  br_enabled cfg && greater_be_256 (evm_data evm) (br_threshold_be cfg).

Definition bridge_alerts_of (r : BridgeTransferRule) (s : Signal) : list Alert :=
  match sig_type s, sig_payload s with
  | Transfer, PEvm evm =>
      if negb (evm_unusable evm) && bool_decide (bridge_key evm ∈ br_bridge_addresses r)
      then bridge_alert r s evm <$> filter (fun c => bridge_test evm c) (bridge_bucket r evm)
      else []
  | _, _ => []
  end.

Lemma bridge_evaluate_out s out r :
  bridge_evaluate s out r = (r, out ++ bridge_alerts_of r s).
Proof.
  unfold bridge_evaluate, bridge_alerts_of, bridge_bucket.
  destruct (sig_type s); cbn; try (by rewrite app_nil_r).
  destruct (sig_payload s) as [|evm| | | | | |]; try (by rewrite app_nil_r).
  destruct (evm_unusable evm); cbn [negb andb]; [by rewrite app_nil_r|].
  destruct (bool_decide (bridge_key evm ∈ _)); cbn [negb]; [|by rewrite app_nil_r].
  destruct (br_configs_by_key r !! _) as [cfgs|]; cbn [default]; [|by rewrite app_nil_r].
  rewrite <- omap_when. f_equal. apply for_each_push. intros c o.
  unfold bridge_body, bridge_test.
  destruct (br_enabled c); cbn; [|by rewrite app_nil_r].
  destruct (greater_be_256 _ _); cbn; by rewrite ?app_nil_r.
Qed.

#[export] Instance BridgeTransferRule_laws : RiskRuleLaws BridgeTransferRule.
Proof.
  apply (stateless_rule_laws (fun s r => bridge_alerts_of r s)).
  - apply bridge_evaluate_out.
  - unfold bridge_alerts_of. intros s r.
    destruct (sig_type s), (sig_payload s); try constructor.
    case_match; [|constructor]. apply list.Forall_forall. intros a (x & -> & _)%list_elem_of_fmap. done.
Qed.

(** An indexed address is padded on the left to 32 bytes. *)
Definition abi_address (word addr : list Z) : Prop :=
  exists pad, length pad = 12%nat /\ word = pad ++ addr.

Lemma to_address_abi evm word dest :
  evm_topics evm !! 2%nat = Some word -> abi_address word dest -> to_address evm = dest.
Proof.
  intros Hw (pad & Hpad & ->). unfold to_address. rewrite Hw. cbn [from_option id].
  by apply drop_app_length'.
Qed.

(** When the rule must fire for a destination, on numbers. *)
Definition bridge_fires (r : BridgeTransferRule) (evm : EvmLogEvent) (dest : list Z)
    (c : BridgeRuleConfig) : Prop :=
  evm_usable evm /\ mkBridgeAddressKey (evm_chain_id evm) dest ∈ br_bridge_addresses r /\
  br_enabled c = true /\ be_value (br_threshold_be c) < evm_amount evm.

#[export] Instance bridge_fires_dec r evm dest c : Decision (bridge_fires r evm dest c).
Proof. unfold bridge_fires; apply _. Defined.

(** * Properties *)

(** C20: a usable transfer log to the address [dest] (the third topic, padded) raises one
    alert per enabled configuration of its chain and token whose threshold is below the amount,
    provided [dest] is a registered bridge of that chain; the message carries the bridge's name, or
    "unknown bridge" when only the address is registered. *)
Theorem bridge_transfer_alerts s evm word dest out r :
  sig_type s = Transfer -> sig_payload s = PEvm evm -> evm_ok evm ->
  evm_topics evm !! 2%nat = Some word -> abi_address word dest ->
  Forall (fun c => bytes_ok 32 (br_threshold_be c)) (bridge_bucket r evm) ->
  evaluate s out r =
    (r, out ++ ((fun c => mkAlert (br_customer_id c) "bridge_transfer"
                   ("Large transfer to bridge '" +:+
                    match br_bridge_names r !! mkBridgeAddressKey (evm_chain_id evm) dest with
                    | Some name => name
                    | None => "unknown bridge"
                    end +:+ "' detected")%stdpp
                   (timestamp_ms (sig_meta s)) 0
                   (Some (std_to_string (evm_amount evm)))
                   (Some (address_to_hex (evm_address evm))) (Some (br_chain_id c)))
                <$> filter (bridge_fires r evm dest) (bridge_bucket r evm))).
Proof.
  intros Ht Hp Hok Hword Hdest Hcfg. change (evaluate s out r) with (bridge_evaluate s out r).
  assert (bridge_key evm = mkBridgeAddressKey (evm_chain_id evm) dest) as Hkey.
  { unfold bridge_key. by rewrite (to_address_abi _ _ _ Hword Hdest). }
  rewrite bridge_evaluate_out. unfold bridge_alerts_of, bridge_alert.
  rewrite Ht, Hp, evm_unusable_spec, Hkey.
  do 2 f_equal. rewrite <- omap_when, <- omap_when_dec. unfold bridge_fires.
  destruct (decide (evm_usable evm)) as [Hu|Hu];
    [rewrite bool_decide_eq_false_2 by tauto|rewrite bool_decide_eq_true_2 by done]; cbn [negb andb].
  2: { symmetry. apply omap_none. intros c. rewrite bool_decide_eq_false_2; tauto. }
  case_bool_decide as Hin.
  2: { symmetry. apply omap_none. intros c. rewrite bool_decide_eq_false_2; tauto. }
  apply omap_ext_list. eapply list.Forall_impl; [exact Hcfg|]. intros c Hc. cbn beta.
  unfold bridge_test. rewrite data_decimal, data_greater_threshold by done.
  destruct (br_bridge_names r !! _); f_equal;
    apply eq_true_iff_eq; rewrite andb_true_iff, !bool_decide_eq_true; tauto.
Qed.

Lemma bridge_transfer_alerts_witness :
  let evm := sample_transfer 500 in
  let s := sample_signal Transfer (PEvm evm) in
  let cfg id t := mkBridgeRuleConfig id 42161 sample_token (to_be_256 t) true in
  let r := mkBridgeTransferRule {[ mkBridgeRuleKey 42161 sample_token := [cfg 1 499; cfg 2 500] ]}
             {[ mkBridgeAddressKey 42161 (replicate 20 3) ]}
             {[ mkBridgeAddressKey 42161 (replicate 20 3) := "Hop" ]} in
  (fun a => (al_customer_id a, al_message a)) <$> (evaluate s [] r).2 =
  [(1, "Large transfer to bridge 'Hop' detected")].
Proof.
  intros evm s cfg r.
  rewrite (bridge_transfer_alerts s evm (replicate 32 3) (replicate 20 3) [] r eq_refl eq_refl
             sample_transfer_ok eq_refl).
  - vm_compute. reflexivity.
  - exists (replicate 12 3). split; reflexivity.
  - vm_compute. repeat constructor; decide_by_compute.
Defined.
