(* ===== verification/OracleUpdateRule.v ===== *)
(** * The oracle-update rule

    Model of [src/risk/rules/oracle_update_rule.cpp] and
    [include/sentinel/risk/oracle_config.hpp].  The rule is stateful: it keeps
    the last observation of every configured feed. *)
From S2P Require Import Prelude Cxx Hex Signal RuleInterface.

Record OracleRuleConfig := mkOracleRuleConfig {
  oc_customer_id : Z;
  oc_chain_id : Z;
  oc_aggregator_address : list Z;
  oc_feed_label : string;
  oc_spike_threshold_bps : Z;
  oc_decimals : Z;
  oc_enabled : bool;
}.

Record OracleFeedKey := mkOracleFeedKey { fk_chain_id : Z; fk_aggregator_address : list Z }.

#[export] Instance OracleFeedKey_eq_dec : EqDecision OracleFeedKey.
Proof. solve_decision. Defined.
#[export] Program Instance OracleFeedKey_countable : Countable OracleFeedKey :=
  inj_countable' (fun k => (fk_chain_id k, fk_aggregator_address k))
                 (fun p => mkOracleFeedKey p.1 p.2) _.
Next Obligation. by intros []. Qed.

Record LastObservation := mkLastObservation { lo_answer : list Z; lo_updated_at : Z }.

Record OracleUpdateRule := mkOracleUpdateRule {
  oc_configs_by_feed : gmap OracleFeedKey (list OracleRuleConfig);
  oc_last_by_feed : gmap OracleFeedKey LastObservation;
}.

Definition with_last (r : OracleUpdateRule) (key : OracleFeedKey) (o : LastObservation)
    : OracleUpdateRule :=
  mkOracleUpdateRule (oc_configs_by_feed r) (<[key := o]> (oc_last_by_feed r)).

Definition aggregator_to_hex (addr : list Z) : string := address_to_hex addr.

Definition format_pct_from_bps (delta_bps : Z) : string :=
  let whole := delta_bps / 100 in
  let frac := delta_bps mod 100 in
  (std_to_string whole +:+ "." +:+ (if frac <? 10 then "0" else "") +:+ std_to_string frac)%stdpp.

(** Bytes 24 to 31 accumulated into a [uint64_t]. *)
Definition low_u64 (answer : list Z) : Z :=
  be_u64 (take 8 (drop 24 answer)).

Definition is_negative (answer : list Z) : bool :=
  negb (Z.land (default 0 (answer !! 0%nat)) 128 =? 0).

(** Some byte of [0..23] is not zero. *)
Definition exceeds_u64 (answer : list Z) : bool :=
  existsb (fun b => negb (b =? 0)) (take 24 answer).

(** A signed 128-bit integer wraps to [-2^127 .. 2^127 - 1]; signed overflow is
    undefined in C++, so a value out of range would be a bug. *)
Definition i128_ok (x : Z) : Prop := - 2 ^ 127 <= x < 2 ^ 127.

Definition delta_bps (current prev : Z) : Z :=
  let diff := if prev <? current then u64 (current - prev) else u64 (prev - current) in
  let delta_bps_i := (diff * 10000) / prev in
  if UINT64_MAX <? delta_bps_i then UINT64_MAX else delta_bps_i.

Definition oracle_alert (s : Signal) (o : OracleUpdateEvent) (current delta : Z)
    (cfg : OracleRuleConfig) : Alert :=
  mkAlert (oc_customer_id cfg) "oracle_update"
    ("Oracle spike on " +:+ oc_feed_label cfg +:+ ": " +:+ format_pct_from_bps delta +:+
     "% change")%stdpp
    (timestamp_ms (sig_meta s)) 0 (Some (std_to_string current))
    (Some (aggregator_to_hex (or_aggregator_address o))) (Some (or_chain_id o)).

Definition oracle_body (s : Signal) (o : OracleUpdateEvent) (current delta : Z)
    (cfg : OracleRuleConfig) (out : list Alert) : list Alert :=
  if negb (oc_enabled cfg) then out
  else if delta <=? oc_spike_threshold_bps cfg then out
  else out ++ [oracle_alert s o current delta cfg].

Definition oracle_evaluate (s : Signal) (out : list Alert) (r : OracleUpdateRule)
    : OracleUpdateRule * list Alert :=
  if bool_decide (sig_type s <> OracleUpdate) then (r, out)
  else match sig_payload s with
       | POracle o =>
           let key := mkOracleFeedKey (or_chain_id o) (or_aggregator_address o) in
           match oc_configs_by_feed r !! key with
           | None => (r, out)
           | Some cfgs =>
               if is_negative (or_current_answer o) then (r, out)
               else if exceeds_u64 (or_current_answer o) then (r, out)
               else
                 let current_u64 := low_u64 (or_current_answer o) in
                 let observation := mkLastObservation (or_current_answer o) (or_updated_at o) in
                 match oc_last_by_feed r !! key with
                 | None => (with_last r key observation, out)
                 | Some last =>
                     let prev_u64 := low_u64 (lo_answer last) in
                     if prev_u64 =? 0 then (with_last r key observation, out)
                     else
                       let delta := delta_bps current_u64 prev_u64 in
                       (with_last r key observation,
                        for_each (oracle_body s o current_u64 delta) cfgs out)
                 end
           end
       | _ => (r, out)
       end.

#[export] Instance OracleUpdateRule_IRiskRule : IRiskRule OracleUpdateRule := {
  interests := fun _ => make_mask OracleUpdate;
  rule_type_name := fun _ => "oracle_update";
  evaluate := oracle_evaluate;
}.

(** * Specification

    Abstractly the rule keeps one price per feed.  A price is a non-negative
    answer below 2^64; every other answer is ignored. *)
Definition price (answer : list Z) : option Z :=
  let v := be_value answer in if v <? 2 ^ 64 then Some v else None.

(** The change in basis points, rounded down and saturated at [UINT64_MAX]. *)
Definition spec_delta (current prev : Z) : Z :=
  Z.min UINT64_MAX (Z.abs (current - prev) * 10000 / prev).

Definition spike (current prev : Z) (cfg : OracleRuleConfig) : Prop :=
  oc_enabled cfg = true /\ oc_spike_threshold_bps cfg < spec_delta current prev.

#[export] Instance spike_dec c p cfg : Decision (spike c p cfg).
Proof. unfold spike; apply _. Defined.

Definition feed_key (o : OracleUpdateEvent) : OracleFeedKey :=
  mkOracleFeedKey (or_chain_id o) (or_aggregator_address o).

(** The abstract state: the last price of each feed. *)
Definition prices (r : OracleUpdateRule) : gmap OracleFeedKey Z :=
  (fun obs => be_value (lo_answer obs)) <$> oc_last_by_feed r.

(** One abstract step: the new prices and the alerts. *)
Definition spec_step (cfgs : gmap OracleFeedKey (list OracleRuleConfig))
    (s : Signal) (o : OracleUpdateEvent) (m : gmap OracleFeedKey Z)
    : gmap OracleFeedKey Z * list Alert :=
  match cfgs !! feed_key o, price (or_current_answer o) with
  | Some bucket, Some current =>
      (<[feed_key o := current]> m,
       match m !! feed_key o with
       | Some prev =>
           if prev =? 0 then []
           else oracle_alert s o current (spec_delta current prev)
                  <$> filter (spike current prev) bucket
       | None => []
       end)
  | _, _ => (m, [])
  end.

(** The invariant of the rule's map: only configured feeds, only prices. *)
Definition oracle_ok (r : OracleUpdateRule) : Prop :=
  forall k obs, oc_last_by_feed r !! k = Some obs ->
    is_Some (oc_configs_by_feed r !! k) /\
    bytes_ok 32 (lo_answer obs) /\ be_value (lo_answer obs) < 2 ^ 64.

(** * Facts *)

Lemma existsb_nonzero l :
  Forall is_byte l -> existsb (fun b => negb (b =? 0)) l = negb (be_value l =? 0).
Proof.
  induction 1 as [|b l Hb Hl IH]; [done|]. cbn [existsb]. rewrite IH, be_value_cons.
  pose proof (be_value_bound l Hl).
  assert (0 < 256 ^ Z.of_nat (length l)) by (apply Z.pow_pos_nonneg; lia).
  unfold is_byte in Hb.
  destruct (Z.eqb_spec b 0) as [->|]; [done|]. cbn.
  symmetry. apply negb_true_iff, Z.eqb_neq. nia.
Qed.

Lemma split_answer answer :
  bytes_ok 32 answer ->
  be_value answer = be_value (take 24 answer) * 2 ^ 64 + be_value (drop 24 answer) /\
  0 <= be_value (take 24 answer) /\ 0 <= be_value (drop 24 answer) < 2 ^ 64.
Proof.
  intros [Hl Hf]. rewrite <- (take_drop 24 answer) at 1. rewrite be_value_app.
  assert (length (drop 24 answer) = 8%nat) as Hd by (rewrite length_drop; lia).
  pose proof (be_value_bound (drop 24 answer) (Forall_drop _ _ _ Hf)) as Hb.
  pose proof (be_value_bound (take 24 answer) (Forall_take _ _ _ Hf)).
  rewrite Hd in *. change (256 ^ Z.of_nat 8) with (2 ^ 64) in *. lia.
Qed.

Lemma exceeds_u64_spec answer :
  bytes_ok 32 answer -> exceeds_u64 answer = (2 ^ 64 <=? be_value answer).
Proof.
  intros Hok. unfold exceeds_u64.
  rewrite existsb_nonzero by (apply Forall_take, Hok).
  destruct (split_answer answer Hok) as (Hv & Hh & Hlo). apply eq_true_iff_eq.
  rewrite negb_true_iff, Z.eqb_neq, Z.leb_le. lia.
Qed.

Lemma low_u64_spec answer :
  bytes_ok 32 answer -> be_value answer < 2 ^ 64 -> low_u64 answer = be_value answer.
Proof.
  intros Hok Hv. destruct (split_answer answer Hok) as (Heq & Hh & Hlo).
  destruct Hok as [Hl Hf]. unfold low_u64.
  rewrite take_ge by (rewrite length_drop; lia).
  destruct (be_u64_value (drop 24 answer)) as [-> _];
    [by apply Forall_drop|rewrite length_drop; lia|lia].
Qed.

Lemma is_negative_exceeds answer :
  bytes_ok 32 answer -> is_negative answer = true -> exceeds_u64 answer = true.
Proof.
  intros [Hl Hf]. destruct answer as [|b l]; [done|]. unfold is_negative, exceeds_u64. cbn.
  destruct (Z.eqb_spec b 0) as [->|]; done.
Qed.

(** The two guards together keep exactly the prices. *)
Lemma guards_price answer :
  bytes_ok 32 answer ->
  (is_negative answer || exceeds_u64 answer) =
  match price answer with Some _ => false | None => true end.
Proof.
  intros Hok. unfold price. pose proof (is_negative_exceeds answer Hok) as Hn.
  rewrite exceeds_u64_spec in * by done.
  destruct (Z.ltb_spec (be_value answer) (2 ^ 64)), (Z.leb_spec (2 ^ 64) (be_value answer));
    try lia; destruct (is_negative answer); done || by specialize (Hn eq_refl).
Qed.

Lemma delta_bps_spec current prev :
  is_u64 current -> 0 < prev < 2 ^ 64 -> delta_bps current prev = spec_delta current prev.
Proof.
  intros Hc Hp. unfold delta_bps, spec_delta, is_u64 in *.
  assert ((if prev <? current then u64 (current - prev) else u64 (prev - current)) =
          Z.abs (current - prev)) as ->.
  { destruct (Z.ltb_spec prev current); rewrite u64_id by (unfold is_u64; lia); lia. }
  destruct (Z.ltb_spec UINT64_MAX (Z.abs (current - prev) * 10000 / prev)); lia.
Qed.

Lemma oracle_body_push s o c d cfg out :
  oracle_body s o c d cfg out =
  out ++ option_list (when (oc_enabled cfg && (oc_spike_threshold_bps cfg <? d))
                           (oracle_alert s o c d cfg)).
Proof.
  unfold oracle_body. destruct (oc_enabled cfg); cbn; [|by rewrite app_nil_r].
  rewrite Z.leb_antisym. destruct (_ <? d); cbn; by rewrite ?app_nil_r.
Qed.

Lemma oracle_loop s o c p cfgs out :
  is_u64 c -> 0 < p < 2 ^ 64 ->
  for_each (oracle_body s o c (delta_bps c p)) cfgs out =
  out ++ (oracle_alert s o c (spec_delta c p) <$> filter (spike c p) cfgs).
Proof.
  intros Hc Hp. rewrite <- omap_when_dec, delta_bps_spec by done. apply for_each_push.
  intros cfg o'. rewrite oracle_body_push. do 3 f_equal. apply eq_true_iff_eq.
  unfold spike. by rewrite andb_true_iff, bool_decide_eq_true, Z.ltb_lt.
Qed.

Lemma prices_with_last r k obs :
  prices (with_last r k obs) = <[k := be_value (lo_answer obs)]> (prices r).
Proof. unfold prices, with_last. cbn. by rewrite fmap_insert. Qed.

(** The alerts and the state of one call on an oracle event. *)
Lemma oracle_evaluate_event s o out r :
  sig_type s = OracleUpdate -> sig_payload s = POracle o ->
  bytes_ok 32 (or_current_answer o) -> oracle_ok r ->
  let '(m, alerts) := spec_step (oc_configs_by_feed r) s o (prices r) in
  exists r', oracle_evaluate s out r = (r', out ++ alerts) /\ prices r' = m /\ oracle_ok r' /\
             oc_configs_by_feed r' = oc_configs_by_feed r.
Proof.
  intros Ht Hp Ha Hok. unfold oracle_evaluate, spec_step. rewrite Ht, Hp. cbn [bool_decide].
  rewrite bool_decide_eq_false_2 by tauto. fold (feed_key o).
  destruct (oc_configs_by_feed r !! feed_key o) as [cfgs|] eqn:Hcfg.
  2: { exists r. by rewrite app_nil_r. }
  pose proof (guards_price _ Ha) as Hg. unfold price in *.
  destruct (Z.ltb_spec (be_value (or_current_answer o)) (2 ^ 64)) as [Hv|Hv].
  2: { exists r. rewrite app_nil_r. split; [|done].
       destruct (is_negative (or_current_answer o)); [done|].
       cbn [orb] in Hg. by rewrite Hg. }
  apply orb_false_iff in Hg as [-> ->]. rewrite low_u64_spec by done.
  set (obs := mkLastObservation _ _).
  assert (Hok' : oracle_ok (with_last r (feed_key o) obs)).
  { intros k x. unfold with_last; cbn. rewrite lookup_insert. case_decide; [|apply Hok].
    intros [= <-]. subst k. eauto. }
  exists (with_last r (feed_key o) obs). rewrite prices_with_last. split_and!; try done.
  unfold prices. rewrite lookup_fmap.
  destruct (oc_last_by_feed r !! feed_key o) as [last|] eqn:Hl; cbn; [|by rewrite app_nil_r].
  destruct (Hok _ _ Hl) as (_ & Hlb & Hlv). rewrite low_u64_spec by done.
  destruct (Z.eqb_spec (be_value (lo_answer last)) 0); [by rewrite app_nil_r|].
  pose proof (be_value_bound _ (proj2 Ha)). pose proof (be_value_bound _ (proj2 Hlb)).
  rewrite oracle_loop by (unfold is_u64; lia). done.
Qed.

Lemma oracle_evaluate_other s out r :
  (sig_type s <> OracleUpdate \/ forall o, sig_payload s <> POracle o) ->
  oracle_evaluate s out r = (r, out).
Proof.
  intros Hs. unfold oracle_evaluate. case_bool_decide as Ht; [done|].
  destruct (sig_payload s) as [| | | | | | |o]; try done.
  destruct Hs as [?|Hs]; [done|]. by destruct (Hs o).
Qed.

Lemma oracle_evaluate_shape s r :
  exists r' alerts, (forall out, oracle_evaluate s out r = (r', out ++ alerts)) /\
    Forall (alert_stamp "oracle_update" s) alerts.
Proof.
  unfold oracle_evaluate. case_bool_decide.
  { exists r, []. split; [|done]. intros. by rewrite app_nil_r. }
  destruct (sig_payload s) as [| | | | | | |o];
    try (exists r, []; split; [intros; by rewrite app_nil_r|done]).
  destruct (oc_configs_by_feed r !! _) as [cfgs|];
    [|exists r, []; split; [intros; by rewrite app_nil_r|done]].
  destruct (is_negative _); [exists r, []; split; [intros; by rewrite app_nil_r|done]|].
  destruct (exceeds_u64 _); [exists r, []; split; [intros; by rewrite app_nil_r|done]|].
  destruct (oc_last_by_feed r !! _) as [last|];
    [|eexists _, []; split; [intros; by rewrite app_nil_r|done]].
  destruct (_ =? 0); [eexists _, []; split; [intros; by rewrite app_nil_r|done]|].
  set (c := low_u64 (or_current_answer o)). set (d := delta_bps _ _).
  eexists _, (omap (fun cfg => when (oc_enabled cfg && (oc_spike_threshold_bps cfg <? d))
                                    (oracle_alert s o c d cfg)) cfgs). split.
  - intros out'. f_equal. apply for_each_push. intros. apply oracle_body_push.
  - apply list.Forall_forall. intros a (cfg & _ & Hc)%list_elem_of_omap.
    unfold when in Hc. case_match; simplify_eq. done.
Qed.

#[export] Instance OracleUpdateRule_laws : RiskRuleLaws OracleUpdateRule.
Proof.
  split; unfold next_rule, emitted; try done.
  - intros s out r. destruct (oracle_evaluate_shape s r) as (r' & al & H & _).
    cbn. by rewrite !H.
  - intros s r. destruct (oracle_evaluate_shape s r) as (r' & al & H & Hal).
    cbn. by rewrite H.
Qed.

(** * Properties *)

(** C16: seen through the price map, the rule is the abstract price
    tracker: a non-negative answer below 2^64 of a configured feed becomes the feed's last price and
    raises one alert per enabled configuration whose threshold is below the change, except on the
    first observation and after a zero price; any other answer or feed changes nothing and raises
    nothing.  The invariant that only configured feeds are tracked, and only with prices, is kept. *)
Theorem oracle_refines_price_tracker s o out r :
  sig_type s = OracleUpdate -> sig_payload s = POracle o ->
  bytes_ok 32 (or_current_answer o) -> oracle_ok r ->
  let '(m, alerts) := spec_step (oc_configs_by_feed r) s o (prices r) in
  (evaluate s out r).2 = out ++ alerts /\ prices (next_rule s r) = m /\
  oracle_ok (next_rule s r).
Proof.
  intros Ht Hp Ha Hok. unfold next_rule.
  pose proof (oracle_evaluate_event s o out r Ht Hp Ha Hok) as H1.
  pose proof (oracle_evaluate_event s o [] r Ht Hp Ha Hok) as H2.
  destruct (spec_step _ _ _ _) as [m al].
  destruct H1 as (r1 & E1 & _), H2 as (r2 & E2 & ? & ? & _). cbn. rewrite E1, E2. done.
Qed.

(** Whatever signals the rule evaluates, in whatever order, it never tracks
    a feed that has no configuration, so its memory is bounded by the configured set, and its
    configurations never change. *)
Theorem oracle_state_bounded (r : OracleUpdateRule) (sigs : list Signal) :
  dom (oc_last_by_feed r) ⊆ dom (oc_configs_by_feed r) ->
  let r' := foldl (fun r s => next_rule s r) r sigs in
  oc_configs_by_feed r' = oc_configs_by_feed r /\
  dom (oc_last_by_feed r') ⊆ dom (oc_configs_by_feed r) /\
  (size (oc_last_by_feed r') <= size (oc_configs_by_feed r))%nat.
Proof.
  assert (Hstep : forall s r, dom (oc_last_by_feed r) ⊆ dom (oc_configs_by_feed r) ->
    oc_configs_by_feed (next_rule s r) = oc_configs_by_feed r /\
    dom (oc_last_by_feed (next_rule s r)) ⊆ dom (oc_configs_by_feed r)).
  { clear. intros s r Hd. unfold next_rule; cbn. unfold oracle_evaluate.
    repeat case_match; cbn; try done; split; try done;
      rewrite dom_insert_L; apply union_subseteq; (split; [|done]);
      apply singleton_subseteq_l, elem_of_dom; eauto. }
  intros Hd r'.
  enough (oc_configs_by_feed r' = oc_configs_by_feed r /\
          dom (oc_last_by_feed r') ⊆ dom (oc_configs_by_feed r)) as [Hc Hd'].
  { split_and!; [done|done|]. rewrite <- !(size_dom (D := gset OracleFeedKey)).
    by apply subseteq_size. }
  subst r'. revert r Hd. induction sigs as [|s sigs IH]; intros r Hd; [done|].
  cbn [foldl]. destruct (Hstep s r Hd) as [Hc Hd'].
  destruct (IH (next_rule s r)) as [Hc2 Hd2]; [by rewrite Hc|]. rewrite Hc in Hc2, Hd2. done.
Qed.

(** C40: on 64-bit prices the 128-bit product of the spike computation never
    overflows, the result fits in 64 bits, and it exceeds a 32-bit threshold exactly when the change
    is at least (threshold + 1) basis points of the previous price: a change strictly between the
    threshold and the next whole basis point is not reported. *)
Theorem oracle_delta_no_overflow current prev threshold :
  is_u64 current -> 0 < prev < 2 ^ 64 -> 0 <= threshold < 2 ^ 32 ->
  i128_ok (Z.abs (current - prev) * 10000) /\
  is_u64 (delta_bps current prev) /\
  (threshold < delta_bps current prev <->
   (threshold + 1) * prev <= Z.abs (current - prev) * 10000).
Proof.
  intros Hc Hp Ht. rewrite delta_bps_spec by done. unfold is_u64, i128_ok, spec_delta in *.
  set (d := Z.abs (current - prev)).
  assert (0 <= d < 2 ^ 64) by lia.
  assert (0 <= d * 10000 / prev) by (apply Z.div_pos; lia).
  unfold UINT64_MAX. split_and!; try lia.
  split; intros Hd.
  - assert (threshold + 1 <= d * 10000 / prev) by lia.
    pose proof (Z.mul_div_le (d * 10000) prev ltac:(lia)). nia.
  - assert (threshold + 1 <= d * 10000 / prev) by (apply Z.div_le_lower_bound; lia). lia.
Qed.

(** ** Witnesses *)

Definition sample_feed : list Z := replicate 20 17.
Definition sample_oracle (v : Z) : OracleUpdateEvent :=
  mkOracleUpdateEvent 1 sample_feed (to_be_256 v) (zeros 32) 0.
Definition sample_oracle_rule (last : gmap OracleFeedKey LastObservation) : OracleUpdateRule :=
  mkOracleUpdateRule
    {[ mkOracleFeedKey 1 sample_feed :=
       [mkOracleRuleConfig 1 1 sample_feed "ETH/USD" 500 8 true;
        mkOracleRuleConfig 2 1 sample_feed "ETH/USD" 600 8 true] ]} last.

Lemma oracle_refines_price_tracker_witness :
  let s := sample_signal OracleUpdate (POracle (sample_oracle 1060)) in
  let r := sample_oracle_rule
             {[ mkOracleFeedKey 1 sample_feed := mkLastObservation (to_be_256 1000) 0 ]} in
  al_message <$> (evaluate s [] r).2 = ["Oracle spike on ETH/USD: 6.00% change"].
Proof.
  intros s r.
  assert (oracle_ok r) as Hok.
  { intros k obs Hk. cbn in Hk. apply lookup_singleton_Some in Hk as [<- <-]. split_and!.
    - vm_compute. eauto.
    - decide_by_compute.
    - vm_compute. reflexivity. }
  pose proof (oracle_refines_price_tracker s (sample_oracle 1060) [] r eq_refl eq_refl
                ltac:(decide_by_compute) Hok) as H.
  destruct (spec_step _ _ _ _) as [m al] eqn:E. destruct H as (-> & _ & _).
  apply (f_equal snd) in E. cbn [snd] in E. subst al. vm_compute. reflexivity.
Defined.

Lemma oracle_state_bounded_witness :
  let r := sample_oracle_rule ∅ in
  let s v := sample_signal OracleUpdate (POracle (sample_oracle v)) in
  (size (oc_last_by_feed (foldl (fun r s => next_rule s r) r [s 1%Z; s 2%Z])) <= 1)%nat.
Proof.
  intros r s.
  apply (oracle_state_bounded r [s 1; s 2]). apply empty_subseteq.
Defined.

Lemma oracle_delta_no_overflow_witness :
  is_u64 (2 ^ 64 - 1) /\ delta_bps (2 ^ 64 - 1) 1 = UINT64_MAX /\
  i128_ok (Z.abs (2 ^ 64 - 1 - 1) * 10000).
Proof.
  assert (is_u64 (2 ^ 64 - 1)) as H by decide_by_compute.
  split; [exact H|]. split; [vm_compute; reflexivity|].
  apply (oracle_delta_no_overflow (2 ^ 64 - 1) 1 500 H); lia.
Defined.
