(* ===== verification/Dedup.v ===== *)
(** * The alert deduplicator

    Model of [src/risk/alert_deduplicator.cpp] and its header.  The clock is the
    argument [now_ms], as in the source.  The theorems relate the table with its
    periodic cleanup to the history of delivered alerts. *)
From S2P Require Import Prelude Cxx Signal.
From Stdlib Require Import Ascii.

Record DeduplicatorConfig := mkDeduplicatorConfig {
  default_window_ms : Z;
  per_rule_window_ms : gmap string Z;
  cleanup_every_n_alerts : Z;
}.

Record AlertDeduplicator := mkAlertDeduplicator {
  dd_cfg : DeduplicatorConfig;
  last_fired_ms : gmap string Z;
  alerts_processed_since_cleanup : Z;
  max_configured_window_ms : Z;
}.

(** "<customer_id>|<rule_type>|<chain_id>|<token_address>". *)
Definition build_key (a : Alert) : string :=
  (std_to_string (al_customer_id a) +:+ "|" +:+ al_rule_type a +:+ "|" +:+
   match al_chain_id a with Some c => std_to_string c | None => "-" end +:+ "|" +:+
   default "" (al_token_address a))%stdpp.

(** The constructor computes the largest configured window. *)
Definition make_deduplicator (cfg : DeduplicatorConfig) : AlertDeduplicator :=
  mkAlertDeduplicator cfg ∅ 0
    (map_fold (fun _ w m => Z.max m w) (default_window_ms cfg) (per_rule_window_ms cfg)).

Definition window_of (cfg : DeduplicatorConfig) (rule_type : string) : Z :=
  default (default_window_ms cfg) (per_rule_window_ms cfg !! rule_type).

(** The predicate of [std::erase_if]. *)
Definition stale (d : AlertDeduplicator) (now_ms : Z) (t : Z) : bool :=
  if now_ms <? t then false else max_configured_window_ms d <? u64 (now_ms - t).

Definition cleanup_stale_entries (d : AlertDeduplicator) (now_ms : Z) : AlertDeduplicator * Z :=
  (mkAlertDeduplicator (dd_cfg d)
     (filter (fun kt => stale d now_ms kt.2 = false) (last_fired_ms d))
     (alerts_processed_since_cleanup d) (max_configured_window_ms d),
   Z.of_nat (size (filter (fun kt => stale d now_ms kt.2 = true) (last_fired_ms d)))).

Definition should_suppress (d : AlertDeduplicator) (alert : Alert) (now_ms : Z)
    : AlertDeduplicator * bool :=
  let key := build_key alert in
  let window := window_of (dd_cfg d) (al_rule_type alert) in
  let '(last, suppress) :=
    match last_fired_ms d !! key with
    | None => (<[key := now_ms]> (last_fired_ms d), false)
    | Some t =>
        if (now_ms <? t) || (u64 (now_ms - t) <? window)
        then (last_fired_ms d, true)
        else (<[key := now_ms]> (last_fired_ms d), false)
    end in
  let processed := u64 (alerts_processed_since_cleanup d + 1) in
  let d1 := mkAlertDeduplicator (dd_cfg d) last processed (max_configured_window_ms d) in
  if cleanup_every_n_alerts (dd_cfg d) <=? processed then
    let '(d2, _) := cleanup_stale_entries d1 now_ms in
    (mkAlertDeduplicator (dd_cfg d2) (last_fired_ms d2) 0 (max_configured_window_ms d2), suppress)
  else (d1, suppress).

Definition tracked_keys_count (d : AlertDeduplicator) : Z := Z.of_nat (size (last_fired_ms d)).

(** A sequence of calls: the answers, in order. *)
Fixpoint dedup_run (d : AlertDeduplicator) (calls : list (Alert * Z)) : list bool :=
  match calls with
  | [] => []
  | (a, now) :: rest =>
      let '(d', b) := should_suppress d a now in b :: dedup_run d' rest
  end.

(** * Facts *)

(** ** The windows *)

Lemma max_window_bound (cfg : DeduplicatorConfig) :
  default_window_ms cfg <= max_configured_window_ms (make_deduplicator cfg) /\
  (forall k w, per_rule_window_ms cfg !! k = Some w ->
     w <= max_configured_window_ms (make_deduplicator cfg)).
Proof.
  cbn. apply (map_fold_weak_ind (fun r (m : gmap string Z) =>
    default_window_ms cfg <= r /\ (forall k w, m !! k = Some w -> w <= r))).
  - split; [lia|]. intros k w. by rewrite lookup_empty.
  - intros i x m r Hi [IH1 IH2]. split; [lia|]. intros k w.
    rewrite lookup_insert. case_decide; [intros [= ->]; lia|].
    intros Hk%IH2. lia.
Qed.

Definition windows_ok (d : AlertDeduplicator) : Prop :=
  forall r, window_of (dd_cfg d) r <= max_configured_window_ms d.

Lemma make_deduplicator_windows cfg : windows_ok (make_deduplicator cfg).
Proof.
  intros r. destruct (max_window_bound cfg) as [H1 H2]. cbn [dd_cfg make_deduplicator].
  unfold window_of. destruct (per_rule_window_ms cfg !! r) eqn:Hr; cbn [default]; eauto.
Qed.

(** ** The table against the history of deliveries

    [hist] lists the delivered (key, time) pairs, [now] is the latest clock
    value. *)
Record table_ok (d : AlertDeduplicator) (hist : list (string * Z)) (now : Z) : Prop := {
  table_windows : windows_ok d;
  table_sound k t : last_fired_ms d !! k = Some t -> (k, t) ∈ hist;
  table_complete k t : (k, t) ∈ hist -> 0 <= t <= now /\
    match last_fired_ms d !! k with
    | Some t' => t <= t'
    | None => max_configured_window_ms d < now - t
    end;
}.

Lemma table_ok_later d hist now now' :
  table_ok d hist now -> now <= now' -> table_ok d hist now'.
Proof.
  intros [Hw Hs Hc] Hle. split; [done..|]. intros k t Hin.
  destruct (Hc k t Hin) as [? Hm]. split; [lia|]. case_match; lia.
Qed.

Lemma table_ok_insert d hist now key n cfg :
  table_ok d hist now -> 0 <= now -> cfg = dd_cfg d ->
  table_ok (mkAlertDeduplicator cfg (<[key := now]> (last_fired_ms d)) n
              (max_configured_window_ms d)) ((key, now) :: hist) now.
Proof.
  intros [Hw Hs Hc] Hnow ->. split; [done|..]; cbn.
  - intros k t. rewrite lookup_insert. case_decide.
    + intros [= <-]. subst. left.
    + intros Hk. right. by apply Hs.
  - intros k t [Heq|Hin]%elem_of_cons.
    + simplify_eq. rewrite lookup_insert_eq. lia.
    + destruct (Hc k t Hin) as [? Hm]. split; [lia|].
      rewrite lookup_insert. case_decide; [lia|done].
Qed.

Lemma table_ok_cleanup d hist now :
  table_ok d hist now -> is_u64 now -> table_ok (cleanup_stale_entries d now).1 hist now.
Proof.
  intros [Hw Hs Hc] Hnow. split; [done|..]; cbn.
  - intros k t Hk. apply map_lookup_filter_Some in Hk as [Hk _]. by apply Hs.
  - intros k t Hin. destruct (Hc k t Hin) as [Ht Hm]. split; [done|].
    destruct (last_fired_ms d !! k) as [t'|] eqn:Hk.
    + destruct (Hc k t' (Hs _ _ Hk)) as [Ht' _].
      destruct (stale d now t') eqn:Hst.
      * rewrite (proj2 (map_lookup_filter_None _ _ _)).
        2: { right. intros x Hx ?; simplify_eq. cbn in *. congruence. }
        unfold stale in Hst. rewrite (proj2 (Z.ltb_ge now t')) in Hst by lia.
        rewrite u64_id in Hst by (unfold is_u64 in *; lia). apply Z.ltb_lt in Hst. lia.
      * rewrite (proj2 (map_lookup_filter_Some _ _ _ t')); done.
    + by rewrite (proj2 (map_lookup_filter_None _ _ _)) by (by left).
Qed.

(** ** The specification: suppression by the history alone

    No table and no cleanup: an alert is suppressed exactly when an alert with
    the same key was delivered less than a window ago. *)
Definition recently_delivered (hist : list (string * Z)) (k : string) (w now : Z) : bool :=
  existsb (fun kt => bool_decide (kt.1 = k) && (now - kt.2 <? w)) hist.

Fixpoint history_run (cfg : DeduplicatorConfig) (hist : list (string * Z))
    (calls : list (Alert * Z)) : list bool :=
  match calls with
  | [] => []
  | (a, now) :: rest =>
      let b := recently_delivered hist (build_key a) (window_of cfg (al_rule_type a)) now in
      b :: history_run cfg (if b then hist else (build_key a, now) :: hist) rest
  end.

(** The clock readings are 64-bit and never go back, from [now] on. *)
Fixpoint clock_monotone (now : Z) (calls : list (Alert * Z)) : Prop :=
  match calls with
  | [] => True
  | (_, t) :: rest => now <= t /\ is_u64 t /\ clock_monotone t rest
  end.

#[export] Instance clock_monotone_dec now calls : Decision (clock_monotone now calls).
Proof. revert now; induction calls as [|[a t] calls IH]; intros now; apply _. Defined.

Lemma recently_delivered_spec hist k w now :
  recently_delivered hist k w now = true <-> exists t, (k, t) ∈ hist /\ now - t < w.
Proof.
  unfold recently_delivered. rewrite existsb_exists. split.
  - intros ([k' t] & Hin & [Hk Ht]%andb_prop). apply bool_decide_eq_true in Hk.
    cbn in *; subst. exists t. split; [by apply list_elem_of_In|lia].
  - intros (t & Hin & Ht). exists (k, t). split; [by apply list_elem_of_In|].
    apply andb_true_intro. split; [by apply bool_decide_eq_true|]. cbn. lia.
Qed.

(** The table answers as the history does. *)
Lemma table_answers d hist now key w :
  table_ok d hist now -> is_u64 now -> w <= max_configured_window_ms d ->
  match last_fired_ms d !! key with
  | None => false
  | Some t => (now <? t) || (u64 (now - t) <? w)
  end = recently_delivered hist key w now.
Proof.
  intros Hok Hnow Hw.
  destruct (recently_delivered hist key w now) eqn:Hr.
  - apply recently_delivered_spec in Hr as (t & Hin & Ht).
    destruct (table_complete _ _ _ Hok _ _ Hin) as [Hb Hm].
    destruct (last_fired_ms d !! key) as [t'|] eqn:Hk; [|lia].
    destruct (table_complete _ _ _ Hok _ _ (table_sound _ _ _ Hok _ _ Hk)) as [Hb' _].
    rewrite u64_id by (unfold is_u64 in *; lia). lia.
  - destruct (last_fired_ms d !! key) as [t|] eqn:Hk; [|done].
    pose proof (table_sound _ _ _ Hok _ _ Hk) as Hin.
    destruct (table_complete _ _ _ Hok _ _ Hin) as [Hb' _].
    rewrite u64_id by (unfold is_u64 in *; lia).
    destruct (Z.ltb_spec (now - t) w); [|lia].
    rewrite (proj2 (recently_delivered_spec hist key w now)) in Hr; [done|eauto].
Qed.

Lemma should_suppress_step d hist now a d' b :
  table_ok d hist now -> is_u64 now -> should_suppress d a now = (d', b) ->
  dd_cfg d' = dd_cfg d /\
  b = recently_delivered hist (build_key a) (window_of (dd_cfg d) (al_rule_type a)) now /\
  table_ok d' (if b then hist else (build_key a, now) :: hist) now.
Proof.
  intros Hok Hnow. unfold should_suppress.
  rewrite <- (table_answers d hist now _ _ Hok Hnow (table_windows _ _ _ Hok (al_rule_type a))).
  set (n := u64 _). set (key := build_key a). set (w := window_of _ _).
  assert (forall last s, table_ok (mkAlertDeduplicator (dd_cfg d) last n
            (max_configured_window_ms d)) (if s : bool then hist else (key, now) :: hist) now ->
    (if cleanup_every_n_alerts (dd_cfg d) <=? n
     then let '(d2, _) := cleanup_stale_entries (mkAlertDeduplicator (dd_cfg d) last n
            (max_configured_window_ms d)) now in
       (mkAlertDeduplicator (dd_cfg d2) (last_fired_ms d2) 0 (max_configured_window_ms d2), s)
     else (mkAlertDeduplicator (dd_cfg d) last n (max_configured_window_ms d), s)) = (d', b) ->
    dd_cfg d' = dd_cfg d /\ b = s /\
    table_ok d' (if b then hist else (key, now) :: hist) now) as Hfin.
  { intros last s Ht. destruct (cleanup_every_n_alerts _ <=? n); [|by intros [= <- <-]].
    apply (table_ok_cleanup _ _ _) in Ht; [|done]. intros [= <- <-].
    split_and!; [done..|]. by destruct Ht. }
  assert (0 <= now) as Hpos by (unfold is_u64 in *; lia).
  assert (forall c, c = dd_cfg d -> table_ok (mkAlertDeduplicator c (<[key := now]> (last_fired_ms d))
    n (max_configured_window_ms d)) ((key, now) :: hist) now) as Hins.
  { intros c ->. by apply table_ok_insert. }
  destruct (last_fired_ms d !! key) as [t|] eqn:Hk;
    [destruct ((now <? t) || (u64 (now - t) <? w))|]; intros H;
    apply Hfin in H; try done; try by apply Hins.
  by destruct Hok.
Qed.

Lemma dedup_run_refines cfg calls : forall d hist now,
  dd_cfg d = cfg -> table_ok d hist now -> clock_monotone now calls ->
  dedup_run d calls = history_run cfg hist calls.
Proof.
  induction calls as [|[a t] calls IH]; intros d hist now Hcfg Hok Hclk; [done|].
  destruct Hclk as (Hle & Ht & Hclk). cbn [dedup_run history_run].
  destruct (should_suppress d a t) as [d' b] eqn:Hs.
  apply (should_suppress_step _ hist) in Hs as (Hc & Hb & Hok');
    [|by eapply table_ok_later|done].
  subst cfg. rewrite <- Hb. f_equal. by eapply IH.
Qed.

(** * Properties *)

(** C14: over any sequence of calls whose clock readings never go
    back, the deduplicator answers exactly as its specification: an alert is
    suppressed if and only if an alert with the same key was delivered less than
    that rule's window ago.  The cleanup every [cleanup_every_n_alerts] calls
    never changes an answer. *)
Theorem dedup_refines_history (cfg : DeduplicatorConfig) (calls : list (Alert * Z))
    (Hclock : clock_monotone 0 calls) :
  dedup_run (make_deduplicator cfg) calls = history_run cfg [] calls.
Proof.
  apply (dedup_run_refines cfg calls (make_deduplicator cfg) [] 0); [done| |done].
  split; [apply make_deduplicator_windows|..]; cbn.
  - intros k t. by rewrite lookup_empty.
  - intros k t Hin. by apply not_elem_of_nil in Hin.
Qed.

Definition sample_alert (rule : string) (token : option string) : Alert :=
  mkAlert 7 rule "m" 0 0 None token (Some 1).

Lemma dedup_refines_history_witness :
  let cfg := mkDeduplicatorConfig 100 {[ "Governance" := 10 ]} 2 in
  let calls := [(sample_alert "Governance" None, 5); (sample_alert "LargeTransfer" None, 5);
                (sample_alert "Governance" None, 14); (sample_alert "LargeTransfer" None, 14);
                (sample_alert "Governance" None, 15); (sample_alert "LargeTransfer" None, 105)] in
  history_run cfg [] calls = [false; false; true; true; false; false] /\
  dedup_run (make_deduplicator cfg) calls = history_run cfg [] calls.
Proof.
  intros cfg calls. split; [by vm_compute|].
  apply (dedup_refines_history cfg calls). decide_by_compute.
Defined.

(** The separators keep the keys apart: two alerts with
    non-negative ids whose rule names hold no bar have the same key only if customer,
    rule, chain and token agree, an absent token counting as the empty one. *)
Theorem build_key_injective (a b : Alert)
    (Hca : 0 <= al_customer_id a) (Hcb : 0 <= al_customer_id b)
    (Hxa : forall c, al_chain_id a = Some c -> 0 <= c)
    (Hxb : forall c, al_chain_id b = Some c -> 0 <= c)
    (Hra : has_char "|" (al_rule_type a) = false)
    (Hrb : has_char "|" (al_rule_type b) = false) :
  build_key a = build_key b <->
  al_customer_id a = al_customer_id b /\ al_rule_type a = al_rule_type b /\
  al_chain_id a = al_chain_id b /\
  default "" (al_token_address a) = default "" (al_token_address b).
Proof.
  split; [|intros (H1 & H2 & H3 & H4); unfold build_key; by rewrite H1, H2, H3, H4].
  unfold build_key. cbn [String.append].
  intros [H1 H]%split_at_sep; [|by apply to_string_no_bar..].
  apply split_at_sep in H as [H2 H]; [|done..].
  apply split_at_sep in H as [H3 H4].
  - split_and!; [by apply std_to_string_inj|done| |done].
    destruct (al_chain_id a) as [ca|] eqn:Ha, (al_chain_id b) as [cb|] eqn:Hb; [|..|done].
    + f_equal. apply std_to_string_inj; eauto.
    + by apply to_string_not_dash in H3; eauto.
    + symmetry in H3. by apply to_string_not_dash in H3; eauto.
  - destruct (al_chain_id a); [apply to_string_no_bar; eauto|done].
  - destruct (al_chain_id b); [apply to_string_no_bar; eauto|done].
Qed.

Lemma build_key_injective_witness :
  build_key (sample_alert "Governance" None) <> build_key (sample_alert "Approval" (Some "0xaa")).
Proof.
  intros H. apply build_key_injective in H as (_ & H & _); try done; cbn; try lia;
    intros c [= <-]; lia.
Defined.

(** [cleanup_stale_entries] removes exactly the entries older than
    the largest configured window, keeps those stamped in the future, leaves every
    other entry as it is and returns the number of entries it removed. *)
Theorem cleanup_exact (d : AlertDeduplicator) (now : Z)
    (Hnow : is_u64 now) (Hts : forall k t, last_fired_ms d !! k = Some t -> is_u64 t) :
  let '(d', removed) := cleanup_stale_entries d now in
  (forall k t, last_fired_ms d' !! k = Some t <->
     last_fired_ms d !! k = Some t /\ now - t <= max_configured_window_ms d \/
     last_fired_ms d !! k = Some t /\ now < t) /\
  tracked_keys_count d = tracked_keys_count d' + removed.
Proof.
  cbn. split.
  - intros k t. rewrite map_lookup_filter_Some. cbn. unfold stale. split.
    + intros [Hk Hst]. specialize (Hts _ _ Hk).
      destruct (Z.ltb_spec now t); [by right|].
      rewrite u64_id in Hst by (unfold is_u64 in *; lia). left. split; [done|lia].
    + intros [[Hk Hle]|[Hk Hlt]]; specialize (Hts _ _ Hk); (split; [done|]);
        destruct (Z.ltb_spec now t); try lia; try done.
      rewrite u64_id by (unfold is_u64 in *; lia). lia.
  - unfold tracked_keys_count. cbn.
    rewrite <- (map_filter_union_complement (fun kt => stale d now kt.2 = false) (last_fired_ms d)) at 1.
    rewrite map_size_disj_union by apply map_disjoint_filter_complement.
    rewrite Nat2Z.inj_add. do 3 f_equal. apply map_filter_ext. intros k t _. cbn.
    by destruct (stale d now t).
Qed.

Lemma cleanup_exact_witness :
  let d := mkAlertDeduplicator (mkDeduplicatorConfig 10 ∅ 5) {[ "a" := 1; "b" := 95 ]} 0 10 in
  let '(d', removed) := cleanup_stale_entries d 100 in
  removed = 1 /\ tracked_keys_count d = tracked_keys_count d' + removed.
Proof.
  split; [by vm_compute|]. apply (cleanup_exact
    (mkAlertDeduplicator (mkDeduplicatorConfig 10 ∅ 5) {[ "a" := 1; "b" := 95 ]} 0 10) 100).
  - decide_by_compute.
  - intros k t. cbn. rewrite lookup_insert. case_decide; [intros [= <-]; decide_by_compute|].
    rewrite lookup_singleton. case_decide; [intros [= <-]; decide_by_compute|done].
Defined.
