(* ===== verification/Health.v ===== *)
(** * Heartbeats, health checks and the health server

    Models of [include/sentinel/health/heartbeat.hpp],
    [src/health/health_checks.cpp] and [src/health/health_server.cpp].  Clock
    readings are arguments; the probes ([std::function] values, which may be
    empty) are options holding the value the call returns; the HTTP server is
    third-party and only the two handlers' responses are modelled, with the
    JSON printer as a parameter. *)
From S2P Require Import Prelude Cxx.
From Stdlib Require Import Ascii.

(** ** Heartbeat *)

Record Heartbeat := mkHeartbeat { last_ms : Z }.

Definition new_heartbeat : Heartbeat := mkHeartbeat 0.
Definition record (now_ms : Z) (hb : Heartbeat) : Heartbeat := mkHeartbeat now_ms.

Definition age_ms (hb : Heartbeat) (now_ms : Z) : Z :=
  let last := last_ms hb in
  if last =? 0 then UINT64_MAX
  else if now_ms <? last then 0
  else u64 (now_ms - last).

(** ** Checks *)

Record CheckResult := mkCheckResult { ok : bool; detail : string }.

Record HealthChecksConfig := mkHealthChecksConfig {
  heartbeat_max_age_ms : Z;
  rpc_max_silence_ms : Z;
}.

Record HealthCheckInputs := mkHealthCheckInputs {
  event_source : option Heartbeat;
  risk_engine : option Heartbeat;
  dispatcher : option Heartbeat;
  rpc_last_success_unix_s : option Z;
  db_probe : option bool;
}.

Record ReadinessReport := mkReadinessReport {
  ready : bool;
  checks : gmap string CheckResult;
}.

(** [check_hb]: appends to the detail and clears [ok]. *)
Definition check_hb (cfg : HealthChecksConfig) (now_ms : Z) (hb : option Heartbeat)
    (name : string) (r : CheckResult) : CheckResult :=
  match hb with
  | None => mkCheckResult false (detail r +:+ name +:+ " heartbeat missing; ")%stdpp
  | Some hb =>
      let age := age_ms hb now_ms in
      if heartbeat_max_age_ms cfg <? age
      then mkCheckResult false
             (detail r +:+ name +:+ " stale (" +:+ std_to_string age +:+ "ms); ")%stdpp
      else r
  end.

Definition check_recorded (hb : option Heartbeat) (name : string) (r : CheckResult) : CheckResult :=
  if match hb with None => true | Some hb => last_ms hb =? 0 end
  then mkCheckResult false (detail r +:+ name +:+ " not yet recorded; ")%stdpp
  else r.

(** [if (!s.empty() && s.back() == ' ') s.pop_back();] *)
Definition trim_last_space (s : string) : string :=
  match str_back s with
  | Some c => if Ascii.eqb c " " then pop_back s else s
  | None => s
  end.

Definition check_threads_alive (i : HealthCheckInputs) (cfg : HealthChecksConfig)
    (now_ms : Z) : CheckResult :=
  let r := mkCheckResult true "" in
  let r := check_hb cfg now_ms (event_source i) "event_source" r in
  let r := check_hb cfg now_ms (risk_engine i) "risk_engine" r in
  let r := check_hb cfg now_ms (dispatcher i) "dispatcher" r in
  mkCheckResult (ok r) (trim_last_space (detail r)).

Definition check_db_connected (i : HealthCheckInputs) : CheckResult :=
  let b := default false (db_probe i) in
  mkCheckResult b (if b then "" else "DB probe failed").

Definition check_rpc_recent (i : HealthCheckInputs) (cfg : HealthChecksConfig)
    (now_s : Z) : CheckResult :=
  match rpc_last_success_unix_s i with
  | None => mkCheckResult true ""
  | Some last_s =>
      if last_s =? 0 then mkCheckResult true "no RPC calls yet"
      else
        let silence_s := if last_s <=? now_s then u64 (now_s - last_s) else 0 in
        let max_silence_s := rpc_max_silence_ms cfg / 1000 in
        if max_silence_s <=? silence_s
        then mkCheckResult false ("last RPC success " +:+ std_to_string silence_s +:+ "s ago")%stdpp
        else mkCheckResult true ""
  end.

Definition check_heartbeats_recorded (i : HealthCheckInputs) : CheckResult :=
  let r := mkCheckResult true "" in
  let r := check_recorded (event_source i) "event_source" r in
  let r := check_recorded (risk_engine i) "risk_engine" r in
  let r := check_recorded (dispatcher i) "dispatcher" r in
  mkCheckResult (ok r) (trim_last_space (detail r)).

(** One numbered block of [evaluate_readiness]: file the result and clear
    [ready] on failure. *)
Definition file_check (name : string) (r : CheckResult) (report : ReadinessReport)
    : ReadinessReport :=
  mkReadinessReport (if ok r then ready report else false) (<[name := r]> (checks report)).

Definition evaluate_readiness (inputs : HealthCheckInputs) (cfg : HealthChecksConfig)
    (steady_now_ms system_now_s : Z) : ReadinessReport :=
  let report := mkReadinessReport true ∅ in
  let report := file_check "threads_alive" (check_threads_alive inputs cfg steady_now_ms) report in
  let report := file_check "db_connected" (check_db_connected inputs) report in
  let report := file_check "rpc_recent" (check_rpc_recent inputs cfg system_now_s) report in
  file_check "heartbeats_recorded" (check_heartbeats_recorded inputs) report.

Definition evaluate_liveness : CheckResult := mkCheckResult true "".

(** ** The server *)

(** The host is everything before the last colon; the port is read by
    [std::stoi], so characters after its digits are ignored. *)
Definition parse_address (addr : string) : result (string * Z) :=
  match rsplit_at ":" addr with
  | None => Throw (RuntimeError ("HealthServer: invalid listen_address: " +:+ addr)%stdpp)
  | Some (host, rest) =>
      if str_empty host
      then Throw (RuntimeError ("HealthServer: invalid listen_address: " +:+ addr)%stdpp)
      else port ← stoi rest; Ok (host, port)
  end.

Record Response := mkResponse { status : Z; content : string; content_type : string }.

Definition handle_healthz : Response :=
  let r := evaluate_liveness in
  if ok r then mkResponse 200 "OK" "text/plain" else mkResponse 503 (detail r) "text/plain".

(** [GET /readyz]; [dump] prints the JSON of the report. *)
Definition handle_readyz (dump : ReadinessReport -> string) (inputs : HealthCheckInputs)
    (cfg : HealthChecksConfig) (steady_now_ms system_now_s : Z) : Response :=
  let report := evaluate_readiness inputs cfg steady_now_ms system_now_s in
  mkResponse (if ready report then 200 else 503) (dump report) "application/json".

(** * Facts *)

(** What each block demands, in terms of its inputs. *)
Definition heartbeat_fresh (cfg : HealthChecksConfig) (now_ms : Z) (hb : option Heartbeat) : Prop :=
  exists h, hb = Some h /\ last_ms h <> 0 /\ now_ms - last_ms h <= heartbeat_max_age_ms cfg.

Definition rpc_fresh (i : HealthCheckInputs) (cfg : HealthChecksConfig) (now_s : Z) : Prop :=
  match rpc_last_success_unix_s i with
  | None => True
  | Some last_s => last_s = 0 \/ Z.max 0 (now_s - last_s) < rpc_max_silence_ms cfg / 1000
  end.

(** The inputs are 64-bit readings, and a heartbeat limit leaves room for the
    age "never recorded". *)
Definition hb_u64 (hb : option Heartbeat) : Prop :=
  match hb with Some h => is_u64 (last_ms h) | None => True end.

Definition inputs_u64 (i : HealthCheckInputs) : Prop :=
  hb_u64 (event_source i) /\ hb_u64 (risk_engine i) /\ hb_u64 (dispatcher i) /\
  match rpc_last_success_unix_s i with Some s => is_u64 s | None => True end.

Lemma check_hb_ok cfg now hb name r :
  ok (check_hb cfg now hb name r) =
  ok r && match hb with Some h => age_ms h now <=? heartbeat_max_age_ms cfg | None => false end.
Proof.
  unfold check_hb. destruct hb as [h|]; [|by rewrite andb_false_r].
  rewrite Z.leb_antisym. destruct (_ <? _); cbn; by rewrite ?andb_true_r, ?andb_false_r.
Qed.

Lemma check_recorded_ok hb name r :
  ok (check_recorded hb name r) =
  ok r && match hb with Some h => negb (last_ms h =? 0) | None => false end.
Proof.
  unfold check_recorded. destruct hb as [h|]; [|by rewrite andb_false_r].
  destruct (_ =? _); cbn; by rewrite ?andb_true_r, ?andb_false_r.
Qed.

Lemma file_check_ready name r report :
  ready (file_check name r report) = ok r && ready report.
Proof. unfold file_check. by destruct (ok r). Qed.

(** Recorded and not stale is the same as fresh. *)
Lemma heartbeat_checks_fresh cfg now hb :
  hb_u64 hb -> is_u64 now -> 0 <= heartbeat_max_age_ms cfg < UINT64_MAX ->
  match hb with Some h => age_ms h now <=? heartbeat_max_age_ms cfg | None => false end &&
  match hb with Some h => negb (last_ms h =? 0) | None => false end = true
  <-> heartbeat_fresh cfg now hb.
Proof.
  intros Hh Hnow Hmax. destruct hb as [h|]; unfold heartbeat_fresh; [|naive_solver].
  unfold hb_u64, is_u64 in *. unfold age_ms. destruct (Z.eqb_spec (last_ms h) 0).
  { rewrite andb_false_r. split; [done|]. naive_solver. }
  rewrite andb_true_r. destruct (Z.ltb_spec now (last_ms h)).
  - split; [|lia]. intros _. exists h. split_and!; [done..|lia].
  - rewrite u64_id, Z.leb_le by (unfold is_u64; lia). naive_solver.
Qed.

Lemma check_rpc_recent_ok i cfg now_s :
  inputs_u64 i -> is_u64 now_s ->
  ok (check_rpc_recent i cfg now_s) = true <-> rpc_fresh i cfg now_s.
Proof.
  intros (_ & _ & _ & Hr) Hnow. unfold check_rpc_recent, rpc_fresh, is_u64 in *.
  destruct (rpc_last_success_unix_s i) as [l|]; [|done].
  destruct (Z.eqb_spec l 0); [naive_solver|].
  destruct (Z.leb_spec l now_s).
  - rewrite u64_id by (unfold is_u64; lia).
    destruct (Z.leb_spec (rpc_max_silence_ms cfg / 1000) (now_s - l)); cbn; split; intros; try done; lia.
  - destruct (Z.leb_spec (rpc_max_silence_ms cfg / 1000) 0); cbn; split; intros; try done; lia.
Qed.

(** * Properties *)

(** The readiness probe answers 200 exactly when all three pipeline
    threads have recorded a heartbeat no older than the limit (a heartbeat from the
    future counts as fresh), the database probe exists and succeeds, and the last RPC
    success is unknown, absent or recent enough; otherwise it answers 503. *)
Theorem readiness_iff (dump : ReadinessReport -> string) (i : HealthCheckInputs)
    (cfg : HealthChecksConfig) (now_ms now_s : Z)
    (Hi : inputs_u64 i) (Hms : is_u64 now_ms) (Hs : is_u64 now_s)
    (Hmax : 0 <= heartbeat_max_age_ms cfg < UINT64_MAX) :
  let res := handle_readyz dump i cfg now_ms now_s in
  (status res = 200 <->
   (heartbeat_fresh cfg now_ms (event_source i) /\
    heartbeat_fresh cfg now_ms (risk_engine i) /\
    heartbeat_fresh cfg now_ms (dispatcher i)) /\
   db_probe i = Some true /\ rpc_fresh i cfg now_s) /\
  (status res = 200 \/ status res = 503).
Proof.
  intros res. unfold res, handle_readyz. cbn [status].
  destruct Hi as (H1 & H2 & H3 & H4) eqn:HI.
  assert (ready (evaluate_readiness i cfg now_ms now_s) = true <->
    (heartbeat_fresh cfg now_ms (event_source i) /\
     heartbeat_fresh cfg now_ms (risk_engine i) /\
     heartbeat_fresh cfg now_ms (dispatcher i)) /\
    db_probe i = Some true /\ rpc_fresh i cfg now_s) as Hready.
  { unfold evaluate_readiness. rewrite !file_check_ready. cbn [ready].
    unfold check_heartbeats_recorded, check_threads_alive, check_db_connected.
    cbn [ok]. rewrite !check_hb_ok, !check_recorded_ok. cbn [ok].
    rewrite <- !heartbeat_checks_fresh, <- check_rpc_recent_ok by done.
    rewrite !andb_true_iff. destruct (db_probe i) as [[]|]; cbn; naive_solver. }
  rewrite <- Hready. destruct (ready _); naive_solver.
Qed.

Lemma readiness_iff_witness :
  let cfg := mkHealthChecksConfig 5000 120000 in
  let i := mkHealthCheckInputs (Some (mkHeartbeat 9000)) (Some (mkHeartbeat 8000))
             (Some (mkHeartbeat 12000)) (Some 100) (Some true) in
  let res := handle_readyz (fun _ => "") i cfg 10000 150 in
  status res = 200 /\ (status res = 200 \/ status res = 503).
Proof.
  intros cfg i res. split; [by vm_compute|].
  eapply (readiness_iff (fun _ => "") i cfg 10000 150); unfold inputs_u64; cbn;
    unfold is_u64, UINT64_MAX; lia.
Defined.

(** A listen address "host:port" is read back as its host and
    port, whatever colons the host holds (IPv6), and the address is refused when it has
    no colon or an empty host. *)
Theorem parse_address_roundtrip (host : string) (port : Z)
    (Hhost : str_empty host = false) (Hport : 0 <= port < 2 ^ 31) :
  parse_address (host +:+ ":" +:+ std_to_string port)%stdpp = Ok (host, port) /\
  is_ok (parse_address (":" +:+ std_to_string port)%stdpp) = false /\
  (has_char ":" host = false -> is_ok (parse_address host) = false).
Proof.
  assert (has_char ":" (std_to_string port) = false) as Hp.
  { apply digit_char_not_sep; [|lia]. intros d Hd. assert (0 <= d < 16) as H by lia.
    clear Hd. split_digit d; discriminate. }
  unfold parse_address. split_and!.
  - rewrite (proj2 (rsplit_at_spec ":" _ host (std_to_string port))) by done.
    by rewrite Hhost, stoi_to_string.
  - by rewrite (proj2 (rsplit_at_spec ":" _ "" (std_to_string port))).
  - intros Hno. by rewrite (proj2 (rsplit_at_none ":" host) Hno).
Qed.

Lemma parse_address_roundtrip_witness :
  std_to_string 8081 = "8081" /\
  parse_address ("0.0.0.0" +:+ ":" +:+ std_to_string 8081)%stdpp = Ok ("0.0.0.0", 8081).
Proof. split; [by vm_compute|]. apply (parse_address_roundtrip "0.0.0.0" 8081); [done|lia]. Defined.
