(* ===== verification/Dispatcher.v ===== *)
(** * The alert dispatcher

    Model of [src/risk/alert_dispatcher.cpp], its header and
    [include/sentinel/risk/alert_channel.hpp].  The dispatcher thread is a loop
    of [run_iteration]s; what happens around it (alerts dispatched by the engine
    thread, [stop]) is interleaved as events, each atomic because the queue is
    under one mutex.  A channel is any type with the interface [IAlertChannel]:
    [send] may change the channel and may throw. *)
From S2P Require Import Prelude Cxx Signal Dedup Health.

Class IAlertChannel (C : Type) := {
  name : C -> string;
  send : Alert -> C -> C * result unit;
}.

(** What the dispatcher needs of a channel: sending does not rename it. *)
Class ChannelLaws (C : Type) `{IAlertChannel C} : Prop := {
  send_name a (c : C) : name (send a c).1 = name c;
}.

(** The instruments held by the dispatcher.  A counter map holds the registered
    counters; [last_alert_success] is [None] until the gauge is set. *)
Record Instruments := mkInstruments {
  alerts_sent : gmap string Z;
  alerts_send_failures : gmap string Z;
  alerts_deduplicated : gmap string Z;
  last_alert_success : option Z;
  alert_queue_depth : Z;
  alert_send_durations : list Z;
  signal_to_alert : list Z;
}.

(** [it = counters.find(k); if (it != end) it->second->Increment();] *)
Definition increment (k : string) (m : gmap string Z) : gmap string Z := alter Z.succ k m.

Section Dispatcher.
Context {C : Type} `{IAlertChannel C}.

Record AlertDispatcher := mkAlertDispatcher {
  channels : list C;
  queue : list Alert;
  running : bool;
  has_metrics : bool;
  heartbeat : option Heartbeat;
  deduplicator : AlertDeduplicator;
  instruments : Instruments;
  error_log : list string;
}.

Definition set_queue (d : AlertDispatcher) (q : list Alert) : AlertDispatcher :=
  let i := instruments d in
  mkAlertDispatcher (channels d) q (running d) (has_metrics d) (heartbeat d) (deduplicator d)
    (mkInstruments (alerts_sent i) (alerts_send_failures i) (alerts_deduplicated i)
       (last_alert_success i)
       (if has_metrics d then Z.of_nat (length q) else alert_queue_depth i)
       (alert_send_durations i) (signal_to_alert i))
    (error_log d).

Definition set_running (b : bool) (d : AlertDispatcher) : AlertDispatcher :=
  mkAlertDispatcher (channels d) (queue d) b (has_metrics d) (heartbeat d) (deduplicator d)
    (instruments d) (error_log d).

(** The constructor registers one deduplication counter per rule type. *)
Definition make_dispatcher (metrics : bool) (dedup_cfg : DeduplicatorConfig)
    (rule_types : list string) (hb : option Heartbeat) : AlertDispatcher :=
  mkAlertDispatcher [] [] false metrics hb (make_deduplicator dedup_cfg)
    (mkInstruments ∅ ∅
       (if metrics then for_each (fun t m => <[t := 0]> m) rule_types ∅ else ∅) None 0 [] [])
    [].

(** A null channel is ignored.  [Family::Add] returns the existing counter
    when its labels are already there, so a second channel of the same name
    shares it. *)
Definition add_channel (channel : option C) (d : AlertDispatcher) : AlertDispatcher :=
  match channel with
  | None => d
  | Some c =>
      let i := instruments d in
      let add m := match m !! name c with Some _ => m | None => <[name c := 0]> m end in
      let i := if has_metrics d
               then mkInstruments (add (alerts_sent i)) (add (alerts_send_failures i))
                      (alerts_deduplicated i) (last_alert_success i) (alert_queue_depth i)
                      (alert_send_durations i) (signal_to_alert i)
               else i in
      mkAlertDispatcher (channels d ++ [c]) (queue d) (running d) (has_metrics d)
        (heartbeat d) (deduplicator d) i (error_log d)
  end.

Definition stop (d : AlertDispatcher) : AlertDispatcher := set_running false d.

Definition dispatch (alert : Alert) (d : AlertDispatcher) : AlertDispatcher :=
  set_queue d (queue d ++ [alert]).

(** ** The send loop *)

Record SendState := mkSendState {
  any_success : bool;
  sent : gmap string Z;
  failures : gmap string Z;
  errors : list string;
}.

(** The [try] block around one channel. *)
Definition send_one (alert : Alert) (c : C) (s : SendState) : C * SendState :=
  match send alert c with
  | (c', Ok _) =>
      (c', mkSendState true (increment (name c') (sent s)) (failures s) (errors s))
  | (c', Throw NonStdException) =>
      (c', mkSendState (any_success s) (sent s) (increment (name c') (failures s))
             (errors s ++ ["Unknown exception in alert channel send"]))
  | (c', Throw e) =>
      (c', mkSendState (any_success s) (sent s) (increment (name c') (failures s))
             (errors s ++ ["Exception in alert channel send: " +:+ what e])%stdpp)
  end.

Fixpoint send_all (alert : Alert) (cs : list C) (s : SendState) : list C * SendState :=
  match cs with
  | [] => ([], s)
  | c :: cs' =>
      let '(c', s1) := send_one alert c s in
      let '(cs'', s2) := send_all alert cs' s1 in
      (c' :: cs'', s2)
  end.

(** ** The thread's loop *)

(** The readings of one iteration: the heartbeat's clock, the stop token, the
    deduplication clock and the clocks around the send loop. *)
Record Env := mkEnv {
  hb_now_ms : Z;
  stop_requested : bool;
  now_ms : Z;
  send_start : Z;
  system_now_s : Z;
  send_end_ms : Z;
}.

Inductive flow := Break | Continue.

(** From the point where [alert] has been taken off the queue. *)
Definition deliver (e : Env) (alert : Alert) (d : AlertDispatcher) : AlertDispatcher :=
  let i := instruments d in
  let '(dedup, suppress) := should_suppress (deduplicator d) alert (now_ms e) in
  if suppress then
    mkAlertDispatcher (channels d) (queue d) (running d) (has_metrics d) (heartbeat d) dedup
      (mkInstruments (alerts_sent i) (alerts_send_failures i)
         (increment (al_rule_type alert) (alerts_deduplicated i)) (last_alert_success i)
         (alert_queue_depth i) (alert_send_durations i) (signal_to_alert i))
      (error_log d)
  else
    let '(cs, s) := send_all alert (channels d)
                      (mkSendState false (alerts_sent i) (alerts_send_failures i) (error_log d)) in
    let i' :=
      if has_metrics d then
        mkInstruments (sent s) (failures s) (alerts_deduplicated i)
          (if any_success s then Some (system_now_s e) else last_alert_success i)
          (alert_queue_depth i)
          (alert_send_durations i ++ [send_end_ms e - send_start e])
          (if 0 <? al_internal_ingress_time_ms alert
           then signal_to_alert i ++ [u64 (send_end_ms e - al_internal_ingress_time_ms alert)]
           else signal_to_alert i)
      else mkInstruments (sent s) (failures s) (alerts_deduplicated i) (last_alert_success i)
             (alert_queue_depth i) (alert_send_durations i) (signal_to_alert i) in
    mkAlertDispatcher cs (queue d) (running d) (has_metrics d) (heartbeat d) dedup i' (errors s).

Definition run_iteration (e : Env) (d : AlertDispatcher) : flow * AlertDispatcher :=
  let d := mkAlertDispatcher (channels d) (queue d) (running d) (has_metrics d)
             (record (hb_now_ms e) <$> heartbeat d) (deduplicator d) (instruments d)
             (error_log d) in
  let is_shutdown := negb (running d) || stop_requested e in
  match queue d with
  | [] => if is_shutdown then (Break, d) else (Continue, d)
  | alert :: rest => (Continue, deliver e alert (set_queue d rest))
  end.

(** ** Interleaving with the other threads *)

Inductive event :=
  | Dispatched (a : Alert)
  | Stopped
  | Iteration (e : Env).

(** A run: the dispatcher, whether its thread has left the loop, and the
    alerts taken off the queue with their deduplication time, latest last. *)
Record Run := mkRun {
  run_dispatcher : AlertDispatcher;
  run_finished : bool;
  run_popped : list (Alert * Z);
}.

Definition step (ev : event) (r : Run) : Run :=
  let d := run_dispatcher r in
  match ev with
  | Dispatched a => mkRun (dispatch a d) (run_finished r) (run_popped r)
  | Stopped => mkRun (stop d) (run_finished r) (run_popped r)
  | Iteration e =>
      if run_finished r then r
      else
        let '(f, d') := run_iteration e d in
        mkRun d' (match f with Break => true | Continue => false end)
          (run_popped r ++ match queue d with [] => [] | a :: _ => [(a, now_ms e)] end)
  end.

Definition exec (evs : list event) (r : Run) : Run := for_each step evs r.

(** [run] first sets [running_]. *)
Definition start (d : AlertDispatcher) : Run := mkRun (set_running true d) false [].

Definition dispatched (evs : list event) : list Alert :=
  omap (fun ev => match ev with Dispatched a => Some a | _ => None end) evs.

(** The alerts that pass the deduplicator, and those it suppresses. *)
Definition passed (dd : AlertDeduplicator) (popped : list (Alert * Z)) : list Alert :=
  omap (fun '(an, b) => if b : bool then None else Some an.1)
    (zip popped (dedup_run dd popped)).
Definition suppressed (dd : AlertDeduplicator) (popped : list (Alert * Z)) : list Alert :=
  omap (fun '(an, b) => if b : bool then Some an.1 else None)
    (zip popped (dedup_run dd popped)).

(** A channel that receives the alerts of a list, in order. *)
Definition receive (c : C) (l : list Alert) : C := for_each (fun a c => (send a c).1) l c.

(** The channel's attempts on a list that succeed. *)
Fixpoint successes (c : C) (l : list Alert) : Z :=
  match l with
  | [] => 0
  | a :: l' => (if is_ok (send a c).2 then 1 else 0) + successes (send a c).1 l'
  end.

Definition sum_over (f : C -> Z) (n : string) (cs : list C) : Z :=
  foldr Z.add 0 (f <$> filter (fun c => name c = n) cs).
End Dispatcher.
Arguments AlertDispatcher : clear implicits.
Arguments Run : clear implicits.

(** * Facts *)

Section Facts.
Context {C : Type} `{!IAlertChannel C, !ChannelLaws C}.
Implicit Types (c : C) (cs : list C) (d : AlertDispatcher C) (s : SendState).

(** Success of one attempt, as a number. *)
Definition attempt (a : Alert) c : Z := if is_ok (send a c).2 then 1 else 0.

Lemma receive_name c l : name (receive c l) = name c.
Proof using ChannelLaws0.
  unfold receive. apply (for_each_inv (fun c' => name c' = name c)); [|done].
  intros a c' _ <-. apply send_name.
Qed.

Lemma receive_snoc c l a : receive c (l ++ [a]) = (send a (receive c l)).1.
Proof. unfold receive. by rewrite for_each_app. Qed.

Lemma successes_snoc c l a : successes c (l ++ [a]) = successes c l + attempt a (receive c l).
Proof.
  revert c; induction l as [|b l IH]; intros c; cbn [app successes].
  - unfold attempt, receive; cbn. destruct (is_ok _); done.
  - rewrite IH. unfold receive. rewrite for_each_cons. lia.
Qed.

(** ** One send loop *)

Lemma send_one_spec a c s c' s' :
  send_one a c s = (c', s') ->
  c' = (send a c).1 /\
  (forall n, sent s' !! n = (Z.add (if bool_decide (name c' = n) then attempt a c else 0)) <$> sent s !! n) /\
  (forall n, failures s' !! n =
     (Z.add (if bool_decide (name c' = n) then 1 - attempt a c else 0)) <$> failures s !! n).
Proof.
  assert (forall (m : gmap string Z) n k, increment k m !! n =
    Z.add (if bool_decide (k = n) then 1 else 0) <$> m !! n) as Hinc.
  { intros m n k. unfold increment. rewrite lookup_alter. case_bool_decide; case_decide;
      try done; subst; destruct (m !! n) as [v|]; try done;
      cbn [fmap option_fmap option_map]; f_equal; lia. }
  assert (forall (m : gmap string Z) n (b : bool), m !! n = Z.add (if b then 0 else 0) <$> m !! n)
    as H0.
  { intros m n b. destruct (m !! n) as [v|]; [|done]. cbn. f_equal. by destruct b. }
  unfold send_one, attempt. destruct (send a c) as [c1 [[]|e]]; cbn [fst snd is_ok].
  - intros [= <- <-]. cbn [sent failures]. split_and!; [done| |]; intros n; [apply Hinc|].
    apply (H0 _ _ (bool_decide (name c1 = n))).
  - destruct e; intros [= <- <-]; cbn [sent failures]; (split_and!; [done| |]); intros n;
      try apply Hinc; apply (H0 _ _ (bool_decide (name c1 = n))).
Qed.

Lemma sum_over_cons f n c cs :
  sum_over f n (c :: cs) = (if bool_decide (name c = n) then f c else 0) + sum_over f n cs.
Proof.
  unfold sum_over. rewrite filter_cons. case_bool_decide; case_decide; cbn; done || lia.
Qed.

Lemma sum_over_ext f g n cs :
  (forall c, f c = g c) -> sum_over f n cs = sum_over g n cs.
Proof.
  intros Hfg. induction cs as [|c cs IH]; [done|]. by rewrite !sum_over_cons, IH, Hfg.
Qed.

Lemma sum_over_receive f n l cs :
  sum_over f n ((fun c => receive c l) <$> cs) = sum_over (fun c => f (receive c l)) n cs.
Proof using ChannelLaws0.
  induction cs as [|c cs IH]; [done|]. rewrite fmap_cons, !sum_over_cons, IH.
  by rewrite receive_name.
Qed.

Lemma sum_over_add f g n cs :
  sum_over (fun c => f c + g c) n cs = sum_over f n cs + sum_over g n cs.
Proof.
  induction cs as [|c cs IH]; [done|]. rewrite !sum_over_cons, IH.
  case_bool_decide; lia.
Qed.

Lemma send_all_spec a cs s cs' s' :
  send_all a cs s = (cs', s') ->
  cs' = (fun c => (send a c).1) <$> cs /\
  (forall n, sent s' !! n = Z.add (sum_over (attempt a) n cs) <$> sent s !! n) /\
  (forall n, failures s' !! n =
     Z.add (sum_over (fun c => 1 - attempt a c) n cs) <$> failures s !! n).
Proof using ChannelLaws0.
  revert s cs' s'; induction cs as [|c cs IH]; intros s cs' s'; cbn [send_all].
  { intros [= <- <-]. split_and!; [done| |]; intros n; destruct (_ !! n); done. }
  destruct (send_one a c s) as [c1 s1] eqn:H1. destruct (send_all a cs s1) as [cs2 s2] eqn:H2.
  intros [= <- <-]. apply send_one_spec in H1 as (-> & Hs1 & Hf1).
  apply IH in H2 as (-> & Hs2 & Hf2).
  split_and!; [done| |]; intros n; rewrite ?Hs2, ?Hf2, ?Hs1, ?Hf1, sum_over_cons, send_name;
    rewrite <- option_fmap_compose; apply option_fmap_ext; intros v; unfold compose;
    case_bool_decide; lia.
Qed.

(** ** Histories *)

Definition dedup_state (dd : AlertDeduplicator) (popped : list (Alert * Z)) : AlertDeduplicator :=
  for_each (fun an dd => (should_suppress dd an.1 an.2).1) popped dd.

Lemma dedup_run_snoc dd l a n :
  dedup_run dd (l ++ [(a, n)]) = dedup_run dd l ++ [(should_suppress (dedup_state dd l) a n).2].
Proof.
  revert dd; induction l as [|[b m] l IH]; intros dd; cbn [app dedup_run].
  - unfold dedup_state; cbn. by destruct (should_suppress dd a n).
  - unfold dedup_state. rewrite for_each_cons. cbn [fst snd].
    destruct (should_suppress dd b m) as [dd' x]. cbn [fst]. by rewrite IH.
Qed.

Lemma dedup_run_length dd l : length (dedup_run dd l) = length l.
Proof.
  revert dd; induction l as [|[b m] l IH]; intros dd; [done|]. cbn [dedup_run].
  destruct (should_suppress dd b m). cbn [length]. by rewrite IH.
Qed.

Lemma passed_snoc dd l a n :
  passed dd (l ++ [(a, n)]) =
  passed dd l ++ (if (should_suppress (dedup_state dd l) a n).2 then [] else [a]).
Proof.
  unfold passed. rewrite dedup_run_snoc, zip_with_app by (by rewrite dedup_run_length).
  rewrite omap_app. f_equal. by destruct (should_suppress _ a n) as [? []].
Qed.

Lemma suppressed_snoc dd l a n :
  suppressed dd (l ++ [(a, n)]) =
  suppressed dd l ++ (if (should_suppress (dedup_state dd l) a n).2 then [a] else []).
Proof.
  unfold suppressed. rewrite dedup_run_snoc, zip_with_app by (by rewrite dedup_run_length).
  rewrite omap_app. f_equal. by destruct (should_suppress _ a n) as [? []].
Qed.

(** ** One iteration *)

Lemma deliver_spec e a d :
  let d' := deliver e a d in
  let b := (should_suppress (deduplicator d) a (now_ms e)).2 in
  queue d' = queue d /\ running d' = running d /\
  deduplicator d' = (should_suppress (deduplicator d) a (now_ms e)).1 /\
  channels d' = (if b then channels d else (fun c => (send a c).1) <$> channels d) /\
  (forall n, alerts_sent (instruments d') !! n =
     Z.add (if b then 0 else sum_over (attempt a) n (channels d)) <$>
       alerts_sent (instruments d) !! n) /\
  (forall n, alerts_send_failures (instruments d') !! n =
     Z.add (if b then 0 else sum_over (fun c => 1 - attempt a c) n (channels d)) <$>
       alerts_send_failures (instruments d) !! n) /\
  (forall t, alerts_deduplicated (instruments d') !! t =
     Z.add (if b then (if bool_decide (al_rule_type a = t) then 1 else 0) else 0) <$>
       alerts_deduplicated (instruments d) !! t).
Proof using ChannelLaws0.
  assert (forall (m : gmap string Z) n, m !! n = Z.add 0 <$> m !! n) as H0.
  { intros m n. by destruct (m !! n). }
  cbn zeta. unfold deliver. destruct (should_suppress _ a _) as [dd' []]; cbn [fst snd].
  - cbn. split_and!; [done..|apply H0|apply H0|].
    intros t. unfold increment. rewrite lookup_alter. case_decide as Hd.
    + rewrite bool_decide_eq_true_2 by done. rewrite <- Hd.
      destruct (_ !! _); cbn [fmap option_fmap option_map]; [f_equal; lia|done].
    + rewrite bool_decide_eq_false_2 by done. apply H0.
  - destruct (send_all a (channels d) _) as [cs s] eqn:Hs.
    apply send_all_spec in Hs as (-> & Hs & Hf). cbn [sent failures] in *.
    destruct (has_metrics d); cbn; split_and!; done || apply H0.
Qed.

(** ** Runs *)

Record run_ok d0 (evs : list event) (r : Run C) : Prop := {
  ok_queue : (run_popped r).*1 ++ queue (run_dispatcher r) = queue d0 ++ dispatched evs;
  ok_dedup : deduplicator (run_dispatcher r) = dedup_state (deduplicator d0) (run_popped r);
  ok_channels : channels (run_dispatcher r) =
    (fun c => receive c (passed (deduplicator d0) (run_popped r))) <$> channels d0;
  ok_sent n : alerts_sent (instruments (run_dispatcher r)) !! n =
    Z.add (sum_over (fun c => successes c (passed (deduplicator d0) (run_popped r)))
             n (channels d0)) <$> alerts_sent (instruments d0) !! n;
  ok_failures n : alerts_send_failures (instruments (run_dispatcher r)) !! n =
    Z.add (sum_over (fun c => Z.of_nat (length (passed (deduplicator d0) (run_popped r))) -
                       successes c (passed (deduplicator d0) (run_popped r)))
             n (channels d0)) <$> alerts_send_failures (instruments d0) !! n;
  ok_deduplicated t : alerts_deduplicated (instruments (run_dispatcher r)) !! t =
    Z.add (count_type t (suppressed (deduplicator d0) (run_popped r))) <$>
      alerts_deduplicated (instruments d0) !! t;
}.

Lemma dispatcher_run_ok_start d0 : run_ok d0 [] (start d0).
Proof.
  assert (forall (m : gmap string Z) n z, z = 0 -> m !! n = Z.add z <$> m !! n) as H0.
  { intros m n z ->. by destruct (m !! n). }
  assert (forall n cs, sum_over (fun _ => 0) n cs = 0) as Hsum.
  { intros n cs. induction cs as [|c cs IH]; [done|]. rewrite sum_over_cons, IH.
    by case_bool_decide. }
  split; cbn; [by rewrite app_nil_r|done| |intros; apply H0..]; [|apply Hsum|apply Hsum|done].
  symmetry. etransitivity; [|apply list_fmap_id]. apply list_fmap_ext. done.
Qed.

Lemma dispatcher_run_ok_iteration d0 evs e f p d a rest :
  run_ok d0 evs (mkRun d f p) -> queue d = a :: rest ->
  run_ok d0 evs (mkRun (deliver e a (set_queue d rest)) f (p ++ [(a, now_ms e)])).
Proof using ChannelLaws0.
  intros [Hq Hd Hc Hs Hf Ht] Hqueue. cbn [run_dispatcher run_popped] in *.
  destruct (deliver_spec e a (set_queue d rest)) as (Dq & _ & Dd & Dc & Ds & Df & Dt).
  cbn [set_queue channels queue deduplicator instruments alerts_sent alerts_send_failures
       alerts_deduplicated] in *.
  rewrite Hd in Dd, Dc, Ds, Df, Dt.
  split; cbn [run_dispatcher run_popped].
  - rewrite Dq, fmap_app, <- app_assoc. by rewrite <- Hq, Hqueue.
  - rewrite Dd. unfold dedup_state. by rewrite for_each_app.
  - rewrite Dc, passed_snoc, Hc. destruct (should_suppress _ a _) as [? []]; cbn [snd].
    + by rewrite app_nil_r.
    + rewrite <- list_fmap_compose. apply list_fmap_ext. intros _ c _. by rewrite receive_snoc.
  - intros n. rewrite Ds, passed_snoc, Hs, Hc, <- option_fmap_compose. apply option_fmap_ext.
    intros v. unfold compose. destruct (should_suppress _ a _) as [? []]; cbn [snd].
    + by rewrite app_nil_r.
    + rewrite sum_over_receive, Z.add_assoc, <- sum_over_add. f_equal.
      apply sum_over_ext. intros c. rewrite successes_snoc. lia.
  - intros n. rewrite Df, passed_snoc, Hf, Hc, <- option_fmap_compose. apply option_fmap_ext.
    intros v. unfold compose. destruct (should_suppress _ a _) as [? []]; cbn [snd].
    + by rewrite app_nil_r.
    + rewrite sum_over_receive, Z.add_assoc, <- sum_over_add. f_equal.
      apply sum_over_ext. intros c. rewrite successes_snoc, length_app. cbn [length]. lia.
  - intros t. rewrite Dt, suppressed_snoc, Ht, <- option_fmap_compose. apply option_fmap_ext.
    intros v. unfold compose, count_type. destruct (should_suppress _ a _) as [? []]; cbn [snd].
    + rewrite list.filter_app, length_app, filter_cons, filter_nil.
      case_bool_decide; case_decide; try done; cbn [length]; lia.
    + by rewrite app_nil_r.
Qed.

(** The invariant does not look at the flags, the heartbeat or the log. *)
Lemma dispatcher_run_ok_irrelevant d0 evs evs' d d' f f' p :
  run_ok d0 evs (mkRun d f p) -> dispatched evs' = dispatched evs ->
  queue d' = queue d -> deduplicator d' = deduplicator d -> channels d' = channels d ->
  instruments d' = instruments d -> run_ok d0 evs' (mkRun d' f' p).
Proof.
  intros [????? ?] He Hq Hd Hc Hi. split; cbn in *; rewrite ?He, ?Hq, ?Hd, ?Hc, ?Hi; done.
Qed.

Lemma dispatcher_run_ok_exec d0 evs : run_ok d0 evs (exec evs (start d0)).
Proof using ChannelLaws0.
  induction evs as [|ev evs IH] using rev_ind; [apply dispatcher_run_ok_start|].
  unfold exec in *. rewrite for_each_app. cbn [for_each foldl].
  destruct (for_each step evs (start d0)) as [d f p].
  assert (dispatched (evs ++ [ev]) =
    dispatched evs ++ match ev with Dispatched a => [a] | _ => [] end) as Hdis.
  { unfold dispatched. rewrite omap_app. by destruct ev. }
  destruct ev as [a| |e]; rewrite ?app_nil_r in Hdis;
    cbn [step run_dispatcher run_finished run_popped].
  - destruct IH as [Hq ?????]. split; rewrite ?Hdis; try done. cbn in *.
    by rewrite app_assoc, Hq, app_assoc.
  - by eapply dispatcher_run_ok_irrelevant.
  - destruct f; [by eapply dispatcher_run_ok_irrelevant|].
    unfold run_iteration. cbn [queue]. destruct (queue d) as [|a rest] eqn:Hqueue.
    + rewrite app_nil_r. destruct (_ || _); by eapply dispatcher_run_ok_irrelevant.
    + pose proof (fun d H => dispatcher_run_ok_iteration d0 evs e false p d a rest H) as Hit.
      eapply dispatcher_run_ok_irrelevant; [apply Hit|done..]; [|done].
      by eapply dispatcher_run_ok_irrelevant.
Qed.

(** After [stop] and without further alerts, the loop as a function of its
    iterations. *)
Lemma dispatcher_loop_drains (r : Run C) (envs : list Env)
    (Hrun : run_finished r = false) (Hstop : running (run_dispatcher r) = false) :
  let r' := exec (Iteration <$> envs) r in
  run_finished r' = bool_decide (length (queue (run_dispatcher r)) < length envs)%nat /\
  queue (run_dispatcher r') = drop (length envs) (queue (run_dispatcher r)) /\
  (run_popped r').*1 = (run_popped r).*1 ++ take (length envs) (queue (run_dispatcher r)).
Proof using ChannelLaws0.
  cbn zeta. revert r Hrun Hstop; induction envs as [|e envs IH]; intros [d f p] Hrun Hstop;
    cbn in Hrun, Hstop; subst f.
  { cbn. rewrite drop_0, take_0, app_nil_r. split_and!; [|done..].
    rewrite bool_decide_eq_false_2; [done|lia]. }
  unfold exec. rewrite fmap_cons, for_each_cons. cbn [step run_finished run_dispatcher].
  unfold run_iteration. cbn [queue running]. destruct (queue d) as [|a rest] eqn:Hq.
  - rewrite Hstop. cbn [negb orb].
    assert (forall l (r1 : Run C), run_finished r1 = true ->
      for_each step (Iteration <$> l) r1 = r1) as Hdone.
    { induction l as [|x l IHl]; intros r1 H1; [done|].
      rewrite fmap_cons, for_each_cons. cbn [step]. rewrite H1. by apply IHl. }
    rewrite Hdone by done. cbn. rewrite !app_nil_r.
    split_and!; [|done..]. rewrite bool_decide_eq_true_2; [done|lia].
  - set (d1 := mkAlertDispatcher _ _ _ _ _ _ _ _).
    destruct (deliver_spec e a (set_queue d1 rest)) as (Dq & Dr & _).
    destruct (IH (mkRun (deliver e a (set_queue d1 rest)) false (p ++ [(a, now_ms e)])))
      as (H1 & H2 & H3); [done|by cbn; rewrite Dr|]. unfold exec in *.
    cbn [run_popped]. rewrite H1, H2, H3. cbn [run_dispatcher run_popped]. rewrite Dq.
    cbn [set_queue queue d1 length drop take]. rewrite fmap_app, <- app_assoc.
    split_and!; [|done..]. apply bool_decide_ext. lia.
Qed.
End Facts.

(** * Properties *)

Section Properties.
Context {C : Type} `{!IAlertChannel C, !ChannelLaws C}.

(** C12: whatever the interleaving of [dispatch], [stop] and loop
    iterations, and whichever channels throw: the alerts taken off the queue followed by
    those still in it are the alerts dispatched, in order; and every channel has been
    sent exactly the alerts that the deduplicator let pass, in that order, so a channel
    that throws never keeps an alert from another one. *)
Theorem dispatcher_fifo (d0 : AlertDispatcher C) (evs : list event) :
  let r := exec evs (start d0) in
  (run_popped r).*1 ++ queue (run_dispatcher r) = queue d0 ++ dispatched evs /\
  channels (run_dispatcher r) =
    (fun c => receive c (passed (deduplicator d0) (run_popped r))) <$> channels d0.
Proof using ChannelLaws0. destruct (dispatcher_run_ok_exec d0 evs); done. Qed.

(** The counters account for every alert: for a registered
    channel name, sent plus failed grows by the number of alerts that passed the
    deduplicator times the number of channels of that name, sent by the number of sends
    that returned; the counter of a rule grows by its suppressed alerts. *)
Theorem dispatcher_counters (d0 : AlertDispatcher C) (evs : list event) (n t : string)
    (sent0 failed0 dedup0 : Z)
    (Hs : alerts_sent (instruments d0) !! n = Some sent0)
    (Hf : alerts_send_failures (instruments d0) !! n = Some failed0)
    (Ht : alerts_deduplicated (instruments d0) !! t = Some dedup0) :
  let r := exec evs (start d0) in
  let i := instruments (run_dispatcher r) in
  let l := passed (deduplicator d0) (run_popped r) in
  exists sent1 failed1,
    alerts_sent i !! n = Some sent1 /\ alerts_send_failures i !! n = Some failed1 /\
    sent1 = sent0 + sum_over (fun c => successes c l) n (channels d0) /\
    sent1 + failed1 = sent0 + failed0 +
      Z.of_nat (length l) * Z.of_nat (length (filter (fun c => name c = n) (channels d0))) /\
    alerts_deduplicated i !! t =
      Some (dedup0 + count_type t (suppressed (deduplicator d0) (run_popped r))).
Proof using ChannelLaws0.
  intros r i l. destruct (dispatcher_run_ok_exec d0 evs) as [_ _ _ Rs Rf Rt]. fold r i l in Rs, Rf, Rt.
  specialize (Rs n). specialize (Rf n). specialize (Rt t).
  rewrite Hs in Rs. rewrite Hf in Rf. rewrite Ht in Rt.
  eexists _, _. split_and!; [exact Rs|exact Rf|lia| |rewrite Rt; cbn; f_equal; lia].
  enough (sum_over (fun c => successes c l) n (channels d0) +
    sum_over (fun c => Z.of_nat (length l) - successes c l) n (channels d0) =
    Z.of_nat (length l) * Z.of_nat (length (filter (fun c => name c = n) (channels d0)))) by lia.
  rewrite <- sum_over_add.
  etransitivity; [apply (sum_over_ext _ (fun _ => Z.of_nat (length l))); intros; lia|].
  clear Rs Rf Rt. induction (channels d0) as [|c cs IH]; [cbn; lia|].
  rewrite sum_over_cons, IH, filter_cons. case_bool_decide; case_decide; try done; cbn [length]; lia.
Qed.

(** Once [stop] has been called, the loop delivers everything that
    is queued and then ends: it takes exactly one iteration per queued alert and one
    more, whatever the clocks read and whichever channels throw, and does not end
    before. *)
Theorem dispatcher_drains (r : Run C) (envs : list Env)
    (Hrun : run_finished r = false) (Hstop : running (run_dispatcher r) = false) :
  let r' := exec (Iteration <$> envs) r in
  run_finished r' = bool_decide (length (queue (run_dispatcher r)) < length envs)%nat /\
  queue (run_dispatcher r') = drop (length envs) (queue (run_dispatcher r)) /\
  (run_popped r').*1 = (run_popped r).*1 ++ take (length envs) (queue (run_dispatcher r)).
Proof using ChannelLaws0. exact (dispatcher_loop_drains r envs Hrun Hstop). Qed.
End Properties.

(** ** Witnesses: a channel that records what it receives and can be told to fail *)

Record RecordingChannel := mkRecordingChannel {
  rc_name : string; rc_fails : bool; rc_received : list Alert }.

#[export] Instance RecordingChannel_channel : IAlertChannel RecordingChannel := {
  name := rc_name;
  send a c := (mkRecordingChannel (rc_name c) (rc_fails c) (rc_received c ++ [a]),
               if rc_fails c then Throw (RuntimeError "down") else Ok ());
}.
#[export] Instance RecordingChannel_laws : ChannelLaws RecordingChannel.
Proof. by split. Qed.

Definition sample_dispatcher : AlertDispatcher RecordingChannel :=
  add_channel (Some (mkRecordingChannel "file" false []))
    (add_channel (Some (mkRecordingChannel "webhook" true []))
      (make_dispatcher true (mkDeduplicatorConfig 100 ∅ 10) ["governance"] (Some new_heartbeat))).

Definition sample_env (t : Z) : Env := mkEnv t false t t t t.

Definition sample_events : list event :=
  [Dispatched (sample_alert "governance" None); Iteration (sample_env 10);
   Dispatched (sample_alert "governance" None); Dispatched (sample_alert "approval" None);
   Iteration (sample_env 20); Iteration (sample_env 30); Iteration (sample_env 40)].

Lemma dispatcher_fifo_witness :
  let r := exec sample_events (start sample_dispatcher) in
  rc_received <$> channels (run_dispatcher r) =
    replicate 2 [sample_alert "governance" None; sample_alert "approval" None] /\
  (run_popped r).*1 ++ queue (run_dispatcher r) = dispatched sample_events.
Proof. split; [by vm_compute|]. apply (dispatcher_fifo sample_dispatcher sample_events). Defined.

Lemma dispatcher_counters_witness :
  let r := exec sample_events (start sample_dispatcher) in
  let i := instruments (run_dispatcher r) in
  (alerts_sent i !! "webhook", alerts_send_failures i !! "webhook") = (Some 0, Some 2) /\
  alerts_deduplicated i !! "governance" = Some (0 + 1).
Proof.
  split; [by vm_compute|].
  destruct (dispatcher_counters sample_dispatcher sample_events "webhook" "governance" 0 0 0
    eq_refl eq_refl eq_refl) as (? & ? & _ & _ & _ & _ & H). exact H.
Defined.

Lemma dispatcher_drains_witness :
  let r := exec [Dispatched (sample_alert "governance" None);
                 Dispatched (sample_alert "approval" None); Stopped] (start sample_dispatcher) in
  let r' := exec (Iteration <$> [sample_env 1; sample_env 2; sample_env 3]) r in
  run_finished r' = true /\ queue (run_dispatcher r') = [].
Proof.
  intros r r'. destruct (dispatcher_drains r [sample_env 1; sample_env 2; sample_env 3] eq_refl eq_refl)
    as (H1 & H2 & _). split; [exact H1|exact H2].
Defined.
