(* ===== verification/PipelineInterface.v ===== *)
(** * Interfaces of the pipeline

    What the stages of the pipeline promise each other: the signal queue between
    the event source and the engine, and the alert sink between the engine and
    the dispatcher. *)
From S2P Require Import Prelude Signal.

(** [RingBuffer<Signal>] is an alias of a third-party single-producer
    single-consumer queue ([rigtorp::SPSCQueue]), of which the code uses
    [front], [pop] and [try_push].  [rb_contents] and [rb_capacity] are the
    abstraction its documentation speaks of. *)
Class RingBuffer (Q : Type) := {
  rb_front : Q -> option Signal;
  rb_pop : Q -> Q;
  rb_try_push : Signal -> Q -> option Q;
  rb_contents : Q -> list Signal;
  rb_capacity : Q -> nat;
}.

(** A bounded first-in first-out queue: [front] is null on an empty queue,
    [try_push] fails exactly on a full one. *)
Class RingBufferLaws (Q : Type) `{RingBuffer Q} : Prop := {
  rb_front_spec q : rb_front q = head (rb_contents q);
  rb_pop_spec q s l : rb_contents q = s :: l ->
    rb_contents (rb_pop q) = l /\ rb_capacity (rb_pop q) = rb_capacity q;
  rb_try_push_spec s q :
    match rb_try_push s q with
    | Some q' => rb_contents q' = rb_contents q ++ [s] /\ rb_capacity q' = rb_capacity q /\
        (length (rb_contents q) < rb_capacity q)%nat
    | None => (rb_capacity q <= length (rb_contents q))%nat
    end;
  rb_try_push_room s q :
    (length (rb_contents q) < rb_capacity q)%nat -> rb_try_push s q <> None;
}.

(** A list with a bound, for the witnesses. *)
Record ListQueue := mkListQueue { lq_capacity : nat; lq_contents : list Signal }.

#[export] Instance ListQueue_ring : RingBuffer ListQueue := {
  rb_front q := head (lq_contents q);
  rb_pop q := mkListQueue (lq_capacity q) (tail (lq_contents q));
  rb_try_push s q :=
    if (length (lq_contents q) <? lq_capacity q)%nat
    then Some (mkListQueue (lq_capacity q) (lq_contents q ++ [s])) else None;
  rb_contents := lq_contents;
  rb_capacity := lq_capacity;
}.

#[export] Instance ListQueue_laws : RingBufferLaws ListQueue.
Proof.
  split; cbn -[Nat.ltb].
  - done.
  - intros q s l ->. done.
  - intros s q. destruct (Nat.ltb_spec (length (lq_contents q)) (lq_capacity q)); cbn; [done|lia].
  - intros s q Hlt. by rewrite (proj2 (Nat.ltb_lt _ _) Hlt).
Qed.

(** What the engine uses of the dispatcher; [sink_log] is the sequence of calls
    [dispatch] has received. *)
Class AlertSink (D : Type) := {
  sink_dispatch : Alert -> D -> D;
  sink_log : D -> list Alert;
}.

Class AlertSinkLaws (D : Type) `{AlertSink D} : Prop := {
  sink_dispatch_log a d : sink_log (sink_dispatch a d) = sink_log d ++ [a];
}.

#[export] Instance list_sink : AlertSink (list Alert) := {
  sink_dispatch a l := l ++ [a];
  sink_log l := l;
}.
#[export] Instance list_sink_laws : AlertSinkLaws (list Alert).
Proof. by split. Qed.
