(* ===== verification/Engine.v ===== *)
(** * The risk engine

    Model of [src/risk/risk_engine.cpp] and its header.  The rules are objects
    owned by the application; the engine keeps pointers to them, here indices
    into the list of rule objects, so that one object registered for several
    signal types is one object.  The thread's loop is a sequence of
    [run_iteration]s, interleaved with the producer's pushes. *)
From S2P Require Import Prelude Cxx Signal RuleInterface Health PipelineInterface.

Record RiskEngine := mkRiskEngine {
  routing_table : list (list nat);
  running : bool;
  finished : bool;
  has_metrics : bool;
  engine_heartbeat : option Heartbeat;
  ring_buffer_depth : Z;
  alerts_generated : gmap string Z;
}.

Definition make_engine (metrics : bool) (hb : option Heartbeat) : RiskEngine :=
  mkRiskEngine (replicate SignalTypeCount []) true false metrics hb 0 ∅.

Section Engine.
Context {R Q D : Type} `{IRiskRule R} `{RingBuffer Q} `{AlertSink D}.

(** [interests & (1 << i)]. *)
Definition interested (mask : Z) (i : nat) : bool :=
  negb (Z.land mask (Z.shiftl 1 (Z.of_nat i)) =? 0).

Definition register_rule (rules : list R) (ptr : nat) (e : RiskEngine) : RiskEngine :=
  match rules !! ptr with
  | None => e
  | Some rule =>
      let mask := interests rule in
      let table := imap (fun i row => if interested mask i then row ++ [ptr] else row)
                     (routing_table e) in
      let type_name := rule_type_name rule in
      let counters :=
        if has_metrics e then
          match alerts_generated e !! type_name with
          | None => <[type_name := 0]> (alerts_generated e)
          | Some _ => alerts_generated e
          end
        else alerts_generated e in
      mkRiskEngine table (running e) (finished e) (has_metrics e) (engine_heartbeat e)
        (ring_buffer_depth e) counters
  end.

Definition stop (e : RiskEngine) : RiskEngine :=
  mkRiskEngine (routing_table e) false (finished e) (has_metrics e) (engine_heartbeat e)
    (ring_buffer_depth e) (alerts_generated e).

(** The engine with the objects it works on, and the loop's local flag. *)
Record Pipeline := mkPipeline {
  engine : RiskEngine;
  rules : list R;
  input_queue : Q;
  sink : D;
  drain_mode : bool;
}.

(** [rule->evaluate(signal, state_store_, alerts)] through a pointer. *)
Definition evaluate_at (s : Signal) (ptr : nat) (st : list R * list Alert)
    : list R * list Alert :=
  let '(rules, alerts) := st in
  match rules !! ptr with
  | None => st
  | Some rule =>
      let '(rule', alerts') := evaluate s alerts rule in
      (<[ptr := rule']> rules, alerts')
  end.

Definition is_stop_pill (s : Signal) : bool :=
  match sig_type s, sig_payload s with
  | Control, PControl Stop => true
  | _, _ => false
  end.

Record Env := mkEnv { hb_now_ms : Z; stop_requested : bool }.

Inductive flow := Break | Continue.

Definition set_counters (depth : Z) (counters : gmap string Z) (e : RiskEngine) : RiskEngine :=
  mkRiskEngine (routing_table e) (running e) (finished e) (has_metrics e) (engine_heartbeat e)
    depth counters.

Definition beat (now : Z) (e : RiskEngine) : RiskEngine :=
  mkRiskEngine (routing_table e) (running e) (finished e) (has_metrics e)
    (record now <$> engine_heartbeat e) (ring_buffer_depth e) (alerts_generated e).

(** One pass of the loop's body. *)
Definition run_iteration (env : Env) (p : Pipeline) : flow * Pipeline :=
  let e := beat (hb_now_ms env) (engine p) in
  match rb_front (input_queue p) with
  | Some signal =>
      let e := set_counters (if has_metrics e then ring_buffer_depth e - 1
                             else ring_buffer_depth e) (alerts_generated e) e in
      let q := rb_pop (input_queue p) in
      if is_stop_pill signal then
        (Continue, mkPipeline e (rules p) q (sink p) true)
      else
        let row := default [] (routing_table e !! signal_index (sig_type signal)) in
        let '(rules', alerts) := for_each (evaluate_at signal) row (rules p, []) in
        let '(counters, d) :=
          for_each (fun a '(m, d) => (alter Z.succ (al_rule_type a) m, sink_dispatch a d))
            alerts (alerts_generated e, sink p) in
        (Continue, mkPipeline (set_counters (ring_buffer_depth e) counters e) rules' q d
                     (drain_mode p))
  | None =>
      if drain_mode p then (Break, mkPipeline e (rules p) (input_queue p) (sink p) true)
      else (Continue, mkPipeline e (rules p) (input_queue p) (sink p) false)
  end.

Definition set_finished (e : RiskEngine) : RiskEngine :=
  mkRiskEngine (routing_table e) (running e) true (has_metrics e) (engine_heartbeat e)
    (ring_buffer_depth e) (alerts_generated e).

Definition with_engine (f : RiskEngine -> RiskEngine) (p : Pipeline) : Pipeline :=
  mkPipeline (f (engine p)) (rules p) (input_queue p) (sink p) (drain_mode p).

(** The loop's test, its body, and the exit. *)
Definition loop_step (env : Env) (p : Pipeline) : Pipeline :=
  if running (engine p) && negb (stop_requested env) then
    match run_iteration env p with
    | (Continue, p') => p'
    | (Break, p') => with_engine set_finished p'
    end
  else with_engine set_finished p.

(** ** Interleaving with the producer and [stop] *)

Inductive event := Pushed (s : Signal) | Stopped | Iteration (env : Env).

(** The signals that entered the queue, in order. *)
Record Run := mkRun { run_pipeline : Pipeline; run_pushed : list Signal }.

Definition step (ev : event) (r : Run) : Run :=
  let p := run_pipeline r in
  match ev with
  | Pushed s =>
      match rb_try_push s (input_queue p) with
      | Some q => mkRun (mkPipeline (engine p) (rules p) q (sink p) (drain_mode p))
                    (run_pushed r ++ [s])
      | None => r
      end
  | Stopped => mkRun (with_engine stop p) (run_pushed r)
  | Iteration env => if finished (engine p) then r else mkRun (loop_step env p) (run_pushed r)
  end.

Definition exec (evs : list event) (r : Run) : Run := for_each step evs r.

(** [register_rules_] registers every rule object once, in order. *)
Definition start (metrics : bool) (hb : option Heartbeat) (rs : list R) (q : Q) (d : D) : Run :=
  mkRun (mkPipeline (for_each (register_rule rs) (seq 0 (length rs)) (make_engine metrics hb))
           rs q d false) [].

(** ** Specification: one signal at a time, every interested rule once *)

Definition listens (s : Signal) (r : R) : bool :=
  interested (interests r) (signal_index (sig_type s)).

Definition spec_rules (s : Signal) (rs : list R) : list R :=
  if is_stop_pill s then rs
  else (fun r => if listens s r then next_rule s r else r) <$> rs.

Definition spec_alerts (s : Signal) (rs : list R) : list Alert :=
  if is_stop_pill s then [] else concat ((emitted s) <$> filter (fun r => listens s r) rs).

Fixpoint spec_run (rs : list R) (sigs : list Signal) : list R * list Alert :=
  match sigs with
  | [] => (rs, [])
  | s :: sigs' =>
      let '(rs', alerts) := spec_run (spec_rules s rs) sigs' in (rs', spec_alerts s rs ++ alerts)
  end.
End Engine.
Arguments Pipeline : clear implicits.
Arguments Run : clear implicits.

(** * Facts *)

Section Facts.
Context {R Q D : Type} `{!IRiskRule R, !RiskRuleLaws R} `{!RingBuffer Q, !RingBufferLaws Q}
  `{!AlertSink D, !AlertSinkLaws D}.
Implicit Types (rs : list R) (p : Pipeline R Q D) (e : RiskEngine).

(** ** The routing table *)

(** The pointers whose rule, by its mask, listens to the signal index [i]. *)
Definition wants (masks : list Z) (i : nat) (ptr : nat) : Prop :=
  match masks !! ptr with Some m => interested m i = true | None => False end.
#[local] Instance wants_dec masks i ptr : Decision (wants masks i ptr).
Proof. unfold wants. case_match; apply _. Defined.

Definition row (masks : list Z) (i : nat) : list nat :=
  filter (wants masks i) (seq 0 (length masks)).

Definition engine_ok e (masks : list Z) : Prop :=
  forall i, (i < SignalTypeCount)%nat -> routing_table e !! i = Some (row masks i).

Lemma register_all_routing rs l e i :
  routing_table (for_each (register_rule rs) l e) !! i =
  (fun r => r ++ filter (wants (interests <$> rs) i) l) <$> routing_table e !! i.
Proof.
  revert e; induction l as [|ptr l IH]; intros e.
  { cbn. destruct (_ !! i); cbn; by rewrite ?app_nil_r. }
  rewrite for_each_cons, IH, filter_cons. unfold register_rule at 1.
  destruct (decide (wants (interests <$> rs) i ptr)) as [Hw|Hw]; unfold wants in Hw;
    rewrite list_lookup_fmap in Hw; destruct (rs !! ptr) as [r|] eqn:Hr; cbn [fmap option_fmap option_map] in Hw;
    try done; cbn [routing_table]; rewrite ?list_lookup_imap; destruct (_ !! i) as [t|]; try done;
    cbn [fmap option_fmap option_map].
  - by rewrite Hw, <- app_assoc.
  - apply not_true_is_false in Hw. by rewrite Hw.
Qed.

Lemma register_all_engine_ok metrics hb rs :
  engine_ok (for_each (register_rule rs) (seq 0 (length rs)) (make_engine metrics hb))
    (interests <$> rs).
Proof.
  intros i Hi. rewrite register_all_routing. unfold make_engine. cbn [routing_table].
  rewrite lookup_replicate_2 by done. unfold row. by rewrite length_fmap.
Qed.

(** Registration touches only the table and the counters. *)
Lemma register_rule_flags rs ptr e :
  let e' := register_rule rs ptr e in
  running e' = running e /\ finished e' = finished e /\ has_metrics e' = has_metrics e /\
  ring_buffer_depth e' = ring_buffer_depth e.
Proof. cbn. unfold register_rule. by destruct (rs !! ptr). Qed.

Lemma register_all_flags rs l e :
  let e' := for_each (register_rule rs) l e in
  running e' = running e /\ finished e' = finished e /\ has_metrics e' = has_metrics e /\
  ring_buffer_depth e' = ring_buffer_depth e.
Proof.
  apply (for_each_inv (fun e' => running e' = running e /\ finished e' = finished e /\
    has_metrics e' = has_metrics e /\ ring_buffer_depth e' = ring_buffer_depth e)); [|done].
  intros ptr e' _ (<- & <- & <- & <-). apply register_rule_flags.
Qed.

Lemma register_all_counters rs metrics hb :
  metrics = true -> forall r, r ∈ rs ->
  alerts_generated (for_each (register_rule rs) (seq 0 (length rs)) (make_engine metrics hb))
    !! rule_type_name r = Some 0.
Proof.
  intros -> r [ptr Hr]%list_elem_of_lookup_1.
  assert (ptr ∈ seq 0 (length rs)) as Hin.
  { apply elem_of_seq. apply lookup_lt_Some in Hr. lia. }
  set (e0 := make_engine true hb).
  assert (has_metrics e0 = true /\ forall k v, alerts_generated e0 !! k = Some v -> v = 0) as H0.
  { split; [done|]. intros k v. cbn. by rewrite lookup_empty. }
  clearbody e0. revert e0 H0. induction (seq 0 (length rs)) as [|i l IH]; intros e0 [Hm Hz];
    [by apply not_elem_of_nil in Hin|].
  rewrite for_each_cons.
  assert (forall j e k v, alerts_generated e !! k = Some v ->
    alerts_generated (register_rule rs j e) !! k = Some v) as Hmono.
  { intros j e k v Hk. unfold register_rule. destruct (rs !! j) as [x|]; [|done].
    cbn [alerts_generated]. destruct (has_metrics e); [|done].
    destruct (_ !! rule_type_name x) eqn:Hx; [done|]. rewrite lookup_insert_ne; [done|congruence]. }
  apply elem_of_cons in Hin as [<-|Hin].
  - apply (for_each_inv (fun e => alerts_generated e !! rule_type_name r = Some 0)).
    { intros j e _. apply Hmono. }
    unfold register_rule. rewrite Hr. cbn [alerts_generated]. rewrite Hm.
    destruct (alerts_generated e0 !! rule_type_name r) eqn:He; [|apply lookup_insert_eq].
    rewrite He. f_equal. by apply Hz in He.
  - apply IH; [done|]. unfold register_rule. destruct (rs !! i) as [x|]; [|done].
    cbn [has_metrics alerts_generated]. rewrite Hm. split; [done|]. intros k v.
    destruct (alerts_generated e0 !! rule_type_name x); [apply Hz|].
    rewrite lookup_insert. case_decide; [congruence|apply Hz].
Qed.

(** ** Evaluation of a row *)

Lemma evaluate_row masks s rs2 : forall rs1 out,
  interests <$> (rs1 ++ rs2) = masks ->
  for_each (evaluate_at s)
    (filter (wants masks (signal_index (sig_type s))) (seq (length rs1) (length rs2)))
    (rs1 ++ rs2, out) =
  (rs1 ++ ((fun r => if listens s r then next_rule s r else r) <$> rs2),
   out ++ concat (emitted s <$> filter (fun r => listens s r) rs2)).
Proof using RiskRuleLaws0.
  induction rs2 as [|r rs2 IH]; intros rs1 out Hm.
  { cbn. by rewrite !app_nil_r. }
  cbn [length seq]. rewrite !filter_cons, fmap_cons.
  assert (masks !! length rs1 = Some (interests r)) as Hl.
  { rewrite <- Hm, list_lookup_fmap, list_lookup_middle by done. done. }
  assert (forall r', interests r' = interests r -> forall out',
    for_each (evaluate_at s)
      (filter (wants masks (signal_index (sig_type s))) (seq (S (length rs1)) (length rs2)))
      (rs1 ++ r' :: rs2, out') =
    (rs1 ++ r' :: ((fun r => if listens s r then next_rule s r else r) <$> rs2),
     out' ++ concat (emitted s <$> filter (fun r => listens s r) rs2))) as Hstep.
  { intros r' Hi out'. specialize (IH (rs1 ++ [r']) out'). rewrite length_app in IH.
    cbn [length] in IH. rewrite Nat.add_1_r, <- !app_assoc in IH. apply IH. cbn [app].
    rewrite <- Hm, !fmap_app, !fmap_cons. by rewrite Hi. }
  assert (wants masks (signal_index (sig_type s)) (length rs1) <-> listens s r = true) as Hwl.
  { unfold wants, listens. by rewrite Hl. }
  destruct (listens s r) eqn:Hr.
  - rewrite (decide_True (P := wants _ _ _)), decide_True by (done || by apply Hwl).
    rewrite for_each_cons. cbn [evaluate_at]. rewrite list_lookup_middle by done.
    rewrite evaluate_appends, insert_app_r_alt, Nat.sub_diag by lia. cbn [insert list_insert].
    rewrite Hstep by apply next_rule_interests.
    rewrite fmap_cons. cbn [concat]. by rewrite app_assoc.
  - rewrite (decide_False (P := wants _ _ _)) by (by intros ?%Hwl).
    rewrite decide_False by (by intros []).
    by apply Hstep.
Qed.

Lemma evaluate_all masks s rs :
  interests <$> rs = masks ->
  for_each (evaluate_at s) (row masks (signal_index (sig_type s))) (rs, []) =
  ((fun r => if listens s r then next_rule s r else r) <$> rs,
   concat (emitted s <$> filter (fun r => listens s r) rs)).
Proof using RiskRuleLaws0.
  intros Hm. unfold row. replace (length masks) with (length rs) by (by rewrite <- Hm, length_fmap).
  apply (evaluate_row masks s rs [] [] Hm).
Qed.

Lemma spec_rules_interests s rs : interests <$> spec_rules s rs = interests <$> rs.
Proof using RiskRuleLaws0.
  unfold spec_rules. destruct (is_stop_pill s); [done|]. rewrite <- list_fmap_compose.
  apply list_fmap_ext. intros _ r _. unfold compose. destruct (listens s r); [|done].
  apply next_rule_interests.
Qed.

Lemma dispatch_all alerts (m : gmap string Z) (d : D) m' d' :
  for_each (fun a '(m, d) => (alter Z.succ (al_rule_type a) m, sink_dispatch a d)) alerts (m, d)
    = (m', d') ->
  sink_log d' = sink_log d ++ alerts /\
  forall n, m' !! n = Z.add (count_type n alerts) <$> m !! n.
Proof using AlertSinkLaws0.
  revert m d; induction alerts as [|a alerts IH]; intros m d.
  { intros [= <- <-]. rewrite app_nil_r. split; [done|]. intros n. apply lookup_add_zero. }
  rewrite for_each_cons. intros [Hl Hc]%IH. split.
  - by rewrite Hl, sink_dispatch_log, <- app_assoc.
  - intros n. rewrite Hc, lookup_increment, <- option_fmap_compose. apply option_fmap_ext.
    intros v. unfold compose. rewrite count_type_cons. lia.
Qed.

(** ** One iteration *)

Definition depth_drop e : Z := if has_metrics e then 1 else 0.

Lemma run_iteration_some env p s l masks :
  rb_contents (input_queue p) = s :: l -> engine_ok (engine p) masks ->
  interests <$> rules p = masks ->
  exists p', run_iteration env p = (Continue, p') /\
  rb_contents (input_queue p') = l /\ rules p' = spec_rules s (rules p) /\
  sink_log (sink p') = sink_log (sink p) ++ spec_alerts s (rules p) /\
  drain_mode p' = drain_mode p || is_stop_pill s /\
  routing_table (engine p') = routing_table (engine p) /\
  running (engine p') = running (engine p) /\ finished (engine p') = finished (engine p) /\
  has_metrics (engine p') = has_metrics (engine p) /\
  ring_buffer_depth (engine p') = ring_buffer_depth (engine p) - depth_drop (engine p) /\
  forall n, alerts_generated (engine p') !! n =
    Z.add (count_type n (spec_alerts s (rules p))) <$> alerts_generated (engine p) !! n.
Proof using RiskRuleLaws0 AlertSinkLaws0 RingBufferLaws0.
  intros Hq Hok Hm. unfold run_iteration. rewrite rb_front_spec, Hq. cbn [head].
  destruct (rb_pop_spec _ _ _ Hq) as [Hpop _]. unfold spec_rules, spec_alerts, depth_drop.
  destruct (is_stop_pill s) eqn:Hpill.
  - eexists. split; [done|]. cbn. rewrite app_nil_r, orb_true_r.
    split_and!; try done; [destruct (has_metrics _); lia|]. intros n. apply lookup_add_zero.
  - cbn [routing_table set_counters beat alerts_generated].
    rewrite (Hok _ (signal_index_bound _)). cbn [from_option id]. rewrite evaluate_all by done.
    destruct (for_each _ (concat _) _) as [m d] eqn:Hd.
    apply dispatch_all in Hd as [Hd Hc]. eexists. split; [done|].
    cbn. rewrite orb_false_r. split_and!; try done. destruct (has_metrics _); lia.
Qed.

Lemma run_iteration_none env p :
  rb_contents (input_queue p) = [] ->
  run_iteration env p =
  (if drain_mode p then Break else Continue, with_engine (beat (hb_now_ms env)) p).
Proof using RingBufferLaws0.
  intros Hq. unfold run_iteration, with_engine. rewrite rb_front_spec, Hq. cbn [head].
  destruct p as [? ? ? ? []]; done.
Qed.

(** Only the front of the queue is ever taken. *)
Lemma run_iteration_queue env p :
  input_queue (run_iteration env p).2 =
    match rb_front (input_queue p) with
    | Some _ => rb_pop (input_queue p) | None => input_queue p
    end.
Proof.
  unfold run_iteration. destruct (rb_front _) as [s|]; [|by destruct (drain_mode p)].
  destruct (is_stop_pill s); [done|]. destruct (for_each _ _ _) as [rs al].
  by destruct (for_each _ _ _) as [m d].
Qed.

(** ** Runs *)

Lemma spec_run_cons_rules rs l s :
  (spec_run rs (s :: l)).1 = (spec_run (spec_rules s rs) l).1.
Proof. cbn [spec_run]. by destruct (spec_run (spec_rules s rs) l). Qed.

Lemma spec_run_snoc rs l s :
  spec_run rs (l ++ [s]) =
  (spec_rules s (spec_run rs l).1, (spec_run rs l).2 ++ spec_alerts s (spec_run rs l).1).
Proof.
  revert rs; induction l as [|x l IH]; intros rs; cbn [app spec_run].
  - by rewrite app_nil_r.
  - rewrite IH. destruct (spec_run (spec_rules x rs) l) as [rs' al]. cbn [fst snd].
    by rewrite app_assoc.
Qed.

(** Every alert names one of the rules. *)
Lemma spec_rules_names s rs : rule_type_name <$> spec_rules s rs = rule_type_name <$> rs.
Proof using RiskRuleLaws0.
  unfold spec_rules. destruct (is_stop_pill s); [done|]. rewrite <- list_fmap_compose.
  apply list_fmap_ext. intros _ r _. unfold compose. destruct (listens s r); [|done].
  apply next_rule_name.
Qed.

Lemma spec_run_names rs l :
  Forall (fun a => al_rule_type a ∈ rule_type_name <$> rs) (spec_run rs l).2.
Proof using RiskRuleLaws0.
  revert rs; induction l as [|s l IH]; intros rs; cbn [spec_run]; [constructor|].
  specialize (IH (spec_rules s rs)). rewrite spec_rules_names in IH.
  destruct (spec_run (spec_rules s rs) l) as [rs' al]. cbn [fst snd] in *.
  apply Forall_app. split; [|done]. unfold spec_alerts. destruct (is_stop_pill s); [constructor|].
  apply list.Forall_forall. intros a Ha.
  apply list_elem_of_In, in_concat in Ha as (k & Hk%list_elem_of_In & Ha%list_elem_of_In).
  apply list_elem_of_fmap in Hk as (r & -> & [_ Hr]%list_elem_of_filter).
  pose proof (emitted_stamp s r) as Hs. rewrite list.Forall_forall in Hs.
  destruct (Hs a Ha) as (-> & _). apply list_elem_of_fmap. by exists r.
Qed.

(** The state reached when the signals of [done] have been processed. *)
Record run_ok (r0 r : Run R Q D) (done : list Signal) : Prop := {
  ok_queue : done ++ rb_contents (input_queue (run_pipeline r)) =
    rb_contents (input_queue (run_pipeline r0)) ++ run_pushed r;
  ok_engine : engine_ok (engine (run_pipeline r)) (interests <$> rules (run_pipeline r));
  ok_rules : rules (run_pipeline r) = (spec_run (rules (run_pipeline r0)) done).1;
  ok_sink : sink_log (sink (run_pipeline r)) =
    sink_log (sink (run_pipeline r0)) ++ (spec_run (rules (run_pipeline r0)) done).2;
  ok_counters n : alerts_generated (engine (run_pipeline r)) !! n =
    Z.add (count_type n (spec_run (rules (run_pipeline r0)) done).2) <$>
      alerts_generated (engine (run_pipeline r0)) !! n;
}.

(** Flags, heartbeat, depth gauge and drain mode do not matter to [run_ok]. *)
Lemma engine_run_ok_irrelevant r0 p p' pushed done :
  run_ok r0 (mkRun p pushed) done ->
  routing_table (engine p') = routing_table (engine p) ->
  alerts_generated (engine p') = alerts_generated (engine p) ->
  rules p' = rules p -> input_queue p' = input_queue p -> sink p' = sink p ->
  run_ok r0 (mkRun p' pushed) done.
Proof.
  intros [????] Ht Ha Hr Hq Hs. split; cbn in *; rewrite ?Ha, ?Hr, ?Hq, ?Hs; try done.
  intros i Hi. rewrite Ht. auto.
Qed.

(** One more signal processed. *)
Lemma engine_run_ok_processed r0 p p' pushed done s l :
  run_ok r0 (mkRun p pushed) done -> rb_contents (input_queue p) = s :: l ->
  rb_contents (input_queue p') = l -> rules p' = spec_rules s (rules p) ->
  sink_log (sink p') = sink_log (sink p) ++ spec_alerts s (rules p) ->
  routing_table (engine p') = routing_table (engine p) ->
  (forall n, alerts_generated (engine p') !! n =
    Z.add (count_type n (spec_alerts s (rules p))) <$> alerts_generated (engine p) !! n) ->
  run_ok r0 (mkRun p' pushed) (done ++ [s]).
Proof using RiskRuleLaws0.
  intros [Rq Re Rr Rs Rc] Hq Hq' Hr' Hs' Ht' Hc'. cbn [run_pipeline run_pushed] in *.
  split; cbn [run_pipeline run_pushed].
  - by rewrite Hq', <- app_assoc, <- Rq, Hq.
  - intros i Hi. rewrite Ht', Hr', spec_rules_interests. by apply Re.
  - by rewrite Hr', spec_run_snoc, <- Rr.
  - rewrite Hs', Rs, spec_run_snoc, <- Rr. cbn [snd]. by rewrite app_assoc.
  - intros n. rewrite Hc', spec_run_snoc, Rc, <- option_fmap_compose, <- Rr.
    apply option_fmap_ext. intros v. unfold compose. cbn [snd]. rewrite count_type_app. lia.
Qed.

Lemma engine_run_ok_iteration r0 env p pushed done :
  run_ok r0 (mkRun p pushed) done ->
  exists done', run_ok r0 (mkRun (loop_step env p) pushed) done'.
Proof using RiskRuleLaws0 AlertSinkLaws0 RingBufferLaws0.
  intros Hok. unfold loop_step. destruct (_ && _).
  2: { exists done. by eapply engine_run_ok_irrelevant. }
  destruct (rb_contents (input_queue p)) as [|s l] eqn:Hq.
  { rewrite run_iteration_none by done. exists done.
    destruct (drain_mode p); by eapply engine_run_ok_irrelevant. }
  pose proof (ok_engine _ _ _ Hok) as Re. cbn [run_pipeline] in Re.
  destruct (run_iteration_some env p s l _ Hq Re eq_refl)
    as (p' & -> & Hq' & Hr' & Hs' & _ & Ht' & _ & _ & _ & _ & Hc').
  exists (done ++ [s]). by apply (engine_run_ok_processed r0 p p' pushed done s l).
Qed.

Lemma engine_run_ok_exec r0 r done evs :
  run_ok r0 r done -> exists done', run_ok r0 (exec evs r) done'.
Proof using RiskRuleLaws0 AlertSinkLaws0 RingBufferLaws0.
  intros Hok. apply (for_each_inv (fun r => exists done', run_ok r0 r done')); [|eauto].
  clear done Hok. intros ev [p pushed] _ [done Hok].
  destruct ev as [s| |env]; cbn [step run_pipeline run_pushed].
  - pose proof (rb_try_push_spec s (input_queue p)) as Hpush.
    destruct (rb_try_push _ _) as [q|]; [|eauto]. destruct Hpush as [Hpush _].
    exists done. destruct Hok as [Rq ? ? ? ?]. split; cbn in *; try done.
    by rewrite Hpush, !app_assoc, Rq.
  - exists done. by eapply engine_run_ok_irrelevant.
  - destruct (finished _); [eauto|]. by eapply engine_run_ok_iteration.
Qed.

(** An iteration touches the sink only through [dispatch]. *)
Lemma loop_step_sink env p :
  exists l, sink (loop_step env p) = for_each sink_dispatch l (sink p).
Proof.
  assert (forall alerts (m : gmap string Z) (d : D), (for_each (fun a '(m, d) =>
    (alter Z.succ (al_rule_type a) m, sink_dispatch a d)) alerts (m, d)).2 =
    for_each sink_dispatch alerts d) as Hall.
  { induction alerts as [|a alerts IH]; intros m d; [done|]. rewrite !for_each_cons. apply IH. }
  unfold loop_step. destruct (_ && _); [|by exists []].
  unfold run_iteration. destruct (rb_front _) as [s|].
  2: { destruct (drain_mode p); by exists []. }
  destruct (is_stop_pill s); [by exists []|].
  destruct (for_each (evaluate_at s) _ _) as [rules' alerts]. exists alerts.
  match goal with |- context [for_each _ alerts (?m, sink p)] =>
    rewrite <- (Hall alerts m); by destruct (for_each _ alerts (m, sink p)) end.
Qed.

(** The invariant with the loop's flags, while nobody asks the engine to stop:
    it drains once it has seen a pill, and ends only when it drains. *)
Lemma engine_run_ok_running r0 env p pushed done :
  run_ok r0 (mkRun p pushed) done -> drain_mode p = existsb is_stop_pill done ->
  running (engine p) = true -> stop_requested env = false -> finished (engine p) = false ->
  let p' := loop_step env p in
  exists done', run_ok r0 (mkRun p' pushed) done' /\ drain_mode p' = existsb is_stop_pill done' /\
    running (engine p') = true /\ (finished (engine p') = true -> drain_mode p' = true).
Proof using RiskRuleLaws0 AlertSinkLaws0 RingBufferLaws0.
  intros Hok Hdr Hrun Henv Hfin. cbv zeta. unfold loop_step. rewrite Hrun, Henv. cbn [negb andb].
  destruct (rb_contents (input_queue p)) as [|s l] eqn:Hq.
  { rewrite run_iteration_none by done. exists done. destruct (drain_mode p) eqn:Hd;
      (split; [by eapply engine_run_ok_irrelevant|]); cbn; rewrite ?Hd, ?Hfin; done. }
  pose proof (ok_engine _ _ _ Hok) as Re. cbn [run_pipeline] in Re.
  destruct (run_iteration_some env p s l _ Hq Re eq_refl)
    as (p' & -> & Hq' & Hr' & Hs' & Hd' & Ht' & Hrun' & Hfin' & _ & _ & Hc').
  exists (done ++ [s]). split_and!; [|by rewrite Hd', Hdr, existsb_app; cbn; rewrite orb_false_r|
    congruence|congruence].
  apply (engine_run_ok_processed r0 p p' pushed done s l); done.
Qed.

(** The loop, as a function of its iterations, when nothing more is pushed. *)
Lemma engine_loop_drains (p : Pipeline R Q D) (pushed : list Signal) (envs : list Env)
    (Hok : engine_ok (engine p) (interests <$> rules p))
    (Hrun : running (engine p) = true) (Hfin : finished (engine p) = false)
    (Henvs : Forall (fun env => stop_requested env = false) envs) :
  let sigs := rb_contents (input_queue p) in
  let p' := run_pipeline (exec (Iteration <$> envs) (mkRun p pushed)) in
  rb_contents (input_queue p') = drop (length envs) sigs /\
  rules p' = (spec_run (rules p) (take (length envs) sigs)).1 /\
  finished (engine p') = (drain_mode p || existsb is_stop_pill sigs) &&
    bool_decide (length sigs < length envs)%nat.
Proof using RiskRuleLaws0 RingBufferLaws0 AlertSinkLaws0.
  cbn zeta. revert p Hok Hrun Hfin; induction Henvs as [|env envs Henv Henvs IH];
    intros p Hok Hrun Hfin.
  { cbn. rewrite drop_0, take_0. rewrite bool_decide_eq_false_2 by lia.
    by rewrite andb_false_r. }
  unfold exec. rewrite fmap_cons, for_each_cons. cbn [step run_pipeline run_pushed].
  rewrite Hfin. unfold loop_step. rewrite Hrun, Henv. cbn [negb andb].
  destruct (rb_contents (input_queue p)) as [|s l] eqn:Hq.
  - rewrite run_iteration_none by done. destruct (drain_mode p) eqn:Hdr.
    + assert (forall l (r : Run R Q D), finished (engine (run_pipeline r)) = true ->
        for_each step (Iteration <$> l) r = r) as Hdone.
      { induction l as [|x l IHl]; intros r1 H1; [done|].
        rewrite fmap_cons, for_each_cons. cbn [step]. rewrite H1. by apply IHl. }
      rewrite Hdone by done. cbn. rewrite Hq. split_and!; [done..|].
      rewrite bool_decide_eq_true_2; [done|lia].
    + destruct (IH (with_engine (beat (hb_now_ms env)) p)) as (H1 & H2 & H3); [done..|].
      unfold exec in *. cbn [with_engine input_queue rules drain_mode] in *.
      rewrite Hq in *. rewrite H1, H2, H3, Hdr. cbn. by rewrite drop_nil, take_nil.
  - destruct (run_iteration_some env p s l _ Hq Hok eq_refl)
      as (p' & -> & Hq' & Hr' & _ & Hd' & Ht' & Hrun' & Hf' & _).
    destruct (IH p') as (H1 & H2 & H3); [|congruence..|].
    { intros i Hi. rewrite Ht', Hr', spec_rules_interests. by apply Hok. }
    unfold exec in *. rewrite H1, H2, H3, Hq', Hd', Hr'. cbn [length drop take existsb].
    rewrite spec_run_cons_rules. split_and!; [done..|].
    rewrite orb_assoc. f_equal. apply bool_decide_ext. lia.
Qed.
End Facts.

(** * Properties *)

Section Properties.
Context {R Q D : Type} `{!IRiskRule R, !RiskRuleLaws R} `{!RingBuffer Q, !RingBufferLaws Q}
  `{!AlertSink D, !AlertSinkLaws D}.

(** C11: whatever the interleaving of pushes, [stop] and loop
    iterations, the engine implements its specification: the signals processed followed
    by those still queued are the signals queued, in order; each processed signal was
    given exactly once to exactly the rules whose mask names its type, in registration
    order (a stop pill to none); the rule objects and the alerts handed to the dispatcher
    are the ones this produces; and every registered rule's counter is the number of its
    alerts. *)
Theorem engine_refines_spec (metrics : bool) (hb : option Heartbeat) (rs : list R) (q : Q)
    (d : D) (evs : list event) :
  let r := exec evs (start metrics hb rs q d) in
  let p := run_pipeline r in
  exists done,
    done ++ rb_contents (input_queue p) = rb_contents q ++ run_pushed r /\
    rules p = (spec_run rs done).1 /\
    sink_log (sink p) = sink_log d ++ (spec_run rs done).2 /\
    (metrics = true -> forall rule, rule ∈ rs ->
       alerts_generated (engine p) !! rule_type_name rule =
       Some (count_type (rule_type_name rule) (spec_run rs done).2)).
Proof using RiskRuleLaws0 RingBufferLaws0 AlertSinkLaws0.
  cbn zeta. destruct (engine_run_ok_exec (start metrics hb rs q d) (start metrics hb rs q d) [] evs)
    as [done [Rq _ Rr Rs Rc]].
  { split; cbn; [by rewrite app_nil_r|apply register_all_engine_ok|done|by rewrite app_nil_r|].
    intros n. apply lookup_add_zero. }
  exists done. split_and!; [done..|]. intros Hm rule Hin. rewrite Rc. cbn [start run_pipeline engine].
  rewrite register_all_counters by done. cbn. f_equal. lia.
Qed.

(** From a running engine and a queue that receives nothing more, the
    loop consumes one signal per iteration, and it ends exactly when a stop pill has been
    seen and the queue is empty, one iteration after the last signal: a pill never cuts
    off the signals queued behind it, and without a pill the loop does not end. *)
Theorem engine_drains (p : Pipeline R Q D) (pushed : list Signal) (envs : list Env)
    (Hok : engine_ok (engine p) (interests <$> rules p))
    (Hrun : running (engine p) = true) (Hfin : finished (engine p) = false)
    (Henvs : Forall (fun env => stop_requested env = false) envs) :
  let sigs := rb_contents (input_queue p) in
  let p' := run_pipeline (exec (Iteration <$> envs) (mkRun p pushed)) in
  rb_contents (input_queue p') = drop (length envs) sigs /\
  rules p' = (spec_run (rules p) (take (length envs) sigs)).1 /\
  finished (engine p') = (drain_mode p || existsb is_stop_pill sigs) &&
    bool_decide (length sigs < length envs)%nat.
Proof using RiskRuleLaws0 RingBufferLaws0 AlertSinkLaws0. exact (engine_loop_drains p pushed envs Hok Hrun Hfin Henvs). Qed.
End Properties.
