(* ===== verification/Rules.v ===== *)
(** * The rule objects of the program, and the pipeline behind the ring buffer

    [IRiskRule] is an abstract class with six implementations; an [IRiskRule*]
    is a value of [Rule].  The second part composes the engine with the
    dispatcher. *)
From S2P Require Import Prelude Cxx Hex Signal RuleInterface.
From S2P Require Import LargeTransferRule GovernanceRule MintBurnRule ApprovalRule.
From S2P Require Import BridgeTransferRule OracleUpdateRule.
From S2P Require Import PipelineInterface Dedup Health Dispatcher Engine.

Inductive Rule :=
  | RLargeTransfer (r : LargeTransferRule)
  | RGovernance (r : GovernanceRule)
  | RMintBurn (r : MintBurnRule)
  | RApproval (r : ApprovalRule)
  | RBridgeTransfer (r : BridgeTransferRule)
  | ROracleUpdate (r : OracleUpdateRule).

Definition with_object {R : Type} (f : R -> Rule) (p : R * list Alert) : Rule * list Alert :=
  (f p.1, p.2).

#[export] Instance Rule_IRiskRule : IRiskRule Rule := {
  interests r :=
    match r with
    | RLargeTransfer r => interests r
    | RGovernance r => interests r
    | RMintBurn r => interests r
    | RApproval r => interests r
    | RBridgeTransfer r => interests r
    | ROracleUpdate r => interests r
    end;
  rule_type_name r :=
    match r with
    | RLargeTransfer r => rule_type_name r
    | RGovernance r => rule_type_name r
    | RMintBurn r => rule_type_name r
    | RApproval r => rule_type_name r
    | RBridgeTransfer r => rule_type_name r
    | ROracleUpdate r => rule_type_name r
    end;
  evaluate s out r :=
    match r with
    | RLargeTransfer r => with_object RLargeTransfer (evaluate s out r)
    | RGovernance r => with_object RGovernance (evaluate s out r)
    | RMintBurn r => with_object RMintBurn (evaluate s out r)
    | RApproval r => with_object RApproval (evaluate s out r)
    | RBridgeTransfer r => with_object RBridgeTransfer (evaluate s out r)
    | ROracleUpdate r => with_object ROracleUpdate (evaluate s out r)
    end;
}.

#[export] Instance Rule_laws : RiskRuleLaws Rule.
Proof.
  split.
  - intros s out [r|r|r|r|r|r]; unfold next_rule, emitted; cbn [evaluate Rule_IRiskRule with_object];
      unfold with_object; by rewrite evaluate_appends.
  - intros s [r|r|r|r|r|r]; apply (next_rule_interests s r).
  - intros s [r|r|r|r|r|r]; apply (next_rule_name s r).
  - intros s [r|r|r|r|r|r]; apply (emitted_stamp s r).
Qed.

(** [App::register_rules_]: the six rules in the order they are registered. *)
Definition app_rules (lt : LargeTransferRule) (g : GovernanceRule) (mb : MintBurnRule)
    (a : ApprovalRule) (b : BridgeTransferRule) (o : OracleUpdateRule) : list Rule :=
  [RLargeTransfer lt; RGovernance g; RMintBurn mb; RApproval a; RBridgeTransfer b; ROracleUpdate o].

(** * Properties *)

(** With the program's six rules registered, every signal reaches exactly
    the rules written for it: a transfer the large-transfer rule then the bridge rule,
    a governance, mint-burn, approval or oracle signal its own rule, anything else none. *)
Theorem app_routing (metrics : bool) (hb : option Heartbeat) (lt : LargeTransferRule)
    (g : GovernanceRule) (mb : MintBurnRule) (a : ApprovalRule) (b : BridgeTransferRule)
    (o : OracleUpdateRule) (s : Signal) :
  let rs := app_rules lt g mb a b o in
  routing_table (for_each (register_rule rs) (seq 0 (length rs)) (make_engine metrics hb))
    !! signal_index (sig_type s) =
  Some match sig_type s with
       | Transfer => [0; 4] | Governance => [1] | MintBurn => [2] | Approval => [3]
       | OracleUpdate => [5] | _ => []
       end%nat.
Proof.
  intros rs. rewrite (register_all_engine_ok metrics hb rs) by apply signal_index_bound.
  f_equal. destruct (sig_type s); reflexivity.
Qed.

(** The calls of [dispatch] the dispatcher sees are those the engine makes. *)
Definition connected {R Q : Type} (r : Run R Q (list Alert)) (devs : list Dispatcher.event) : Prop :=
  Dispatcher.dispatched devs = sink (run_pipeline r).

Section EndToEnd.
Context {R Q C : Type} `{!IRiskRule R, !RiskRuleLaws R} `{!RingBuffer Q, !RingBufferLaws Q}
  `{!Dispatcher.IAlertChannel C} `{CL : !Dispatcher.ChannelLaws C}.

(** The engine and the dispatcher composed, whatever their
    interleavings: if the dispatcher receives what the engine dispatches, the signals
    processed are a prefix of the signals queued, the alerts they cause are exactly those
    taken off the dispatcher's queue followed by those still in it, and every channel has
    been sent exactly those of them that the deduplicator let pass, in order. *)
Theorem pipeline_end_to_end (metrics : bool) (hb : option Heartbeat) (rs : list R) (q : Q)
    (evs : list event) (d0 : Dispatcher.AlertDispatcher C) (devs : list Dispatcher.event)
    (Hempty : Dispatcher.queue d0 = []) :
  let r := exec evs (start metrics hb rs q ([] : list Alert)) in
  let dr := Dispatcher.exec devs (Dispatcher.start d0) in
  connected r devs ->
  exists done,
    done ++ rb_contents (input_queue (run_pipeline r)) = rb_contents q ++ run_pushed r /\
    (spec_run rs done).2 =
      (Dispatcher.run_popped dr).*1 ++ Dispatcher.queue (Dispatcher.run_dispatcher dr) /\
    Dispatcher.channels (Dispatcher.run_dispatcher dr) =
      (fun c => Dispatcher.receive c
         (Dispatcher.passed (Dispatcher.deduplicator d0) (Dispatcher.run_popped dr)))
      <$> Dispatcher.channels d0.
Proof using RiskRuleLaws0 RingBufferLaws0 CL.
  intros r dr Hdis. unfold connected in Hdis.
  destruct (engine_run_ok_exec (start metrics hb rs q ([] : list Alert))
    (start metrics hb rs q ([] : list Alert)) [] evs) as [done [Rq _ _ Rs _]].
  { split; cbn; [by rewrite app_nil_r|apply register_all_engine_ok|done|done|].
    intros n. apply lookup_add_zero. }
  destruct (Dispatcher.dispatcher_run_ok_exec d0 devs) as [Dq _ Dc _ _ _].
  exists done. split_and!; [done| |done].
  rewrite Hempty in Dq. cbn in Rs. unfold r, dr in *. by rewrite Dq, Hdis, Rs.
Qed.
End EndToEnd.

(** ** Witnesses on the program's own rules *)

Definition sample_rules : list Rule :=
  app_rules
    (mkLargeTransferRule [mkLargeTransferRuleConfig 3 42161 sample_token (to_be_256 100)])
    sample_governance_rule (mkMintBurnRule ∅) (mkApprovalRule ∅)
    (mkBridgeTransferRule ∅ ∅ ∅) (sample_oracle_rule ∅).

Definition transfer_signal (amount : Z) : Signal :=
  sample_signal Transfer (PEvm (sample_transfer amount)).
Definition stop_pill : Signal := sample_signal Control (PControl Stop).

Definition engine_env : Env := mkEnv 1 false.
Definition sample_engine_events : list event :=
  [Pushed (transfer_signal 500); Iteration engine_env; Pushed (transfer_signal 50);
   Pushed stop_pill; Pushed (transfer_signal 700); Iteration engine_env; Iteration engine_env].

Lemma engine_refines_spec_witness :
  let r := exec sample_engine_events (start true None sample_rules (mkListQueue 4 []) ([] : list Alert)) in
  length (sink (run_pipeline r)) = 1%nat /\
  exists done,
    done ++ rb_contents (input_queue (run_pipeline r)) = rb_contents (mkListQueue 4 []) ++ run_pushed r /\
    sink_log (sink (run_pipeline r)) = sink_log ([] : list Alert) ++ (spec_run sample_rules done).2.
Proof.
  split; [vm_compute; reflexivity|].
  destruct (engine_refines_spec true None sample_rules (mkListQueue 4 []) ([] : list Alert)
    sample_engine_events) as (done & H1 & _ & H3 & _).
  exists done. split; [exact H1|exact H3].
Defined.

Lemma engine_drains_witness :
  let p := mkPipeline (for_each (register_rule sample_rules) (seq 0 6) (make_engine true None))
             sample_rules (mkListQueue 4 [stop_pill; transfer_signal 700]) ([] : list Alert) false in
  let p' := run_pipeline (exec (Iteration <$> replicate 3 engine_env) (mkRun p [])) in
  length (sink p') = 1%nat /\ finished (engine p') = true /\ rb_contents (input_queue p') = [].
Proof.
  split; [vm_compute; reflexivity|]. cbv zeta.
  destruct (engine_drains (mkPipeline (for_each (register_rule sample_rules) (seq 0 6)
      (make_engine true None)) sample_rules (mkListQueue 4 [stop_pill; transfer_signal 700])
      ([] : list Alert) false) [] (replicate 3 engine_env)) as (H1 & _ & H3).
  - apply (register_all_engine_ok true None sample_rules).
  - reflexivity.
  - reflexivity.
  - repeat constructor.
  - split; [exact H3|exact H1].
Defined.

Definition sample_run : Run Rule ListQueue (list Alert) :=
  exec sample_engine_events (start true None sample_rules (mkListQueue 4 []) []).
Definition sample_dispatcher_events : list Dispatcher.event :=
  (Dispatcher.Dispatched <$> sink (run_pipeline sample_run)) ++
  [Dispatcher.Iteration (Dispatcher.sample_env 10)].
Definition sample_dispatcher_run : Dispatcher.Run Dispatcher.RecordingChannel :=
  Dispatcher.exec sample_dispatcher_events (Dispatcher.start Dispatcher.sample_dispatcher).

Lemma pipeline_end_to_end_witness :
  exists done : list Signal, (spec_run sample_rules done).2 =
    (Dispatcher.run_popped sample_dispatcher_run).*1 ++
    Dispatcher.queue (Dispatcher.run_dispatcher sample_dispatcher_run).
Proof.
  destruct (pipeline_end_to_end true None sample_rules (mkListQueue 4 []) sample_engine_events
    Dispatcher.sample_dispatcher sample_dispatcher_events eq_refl) as (done & _ & H & _);
    [vm_compute; reflexivity|].
  exists done. exact H.
Defined.
