(* ===== verification/EventSource.v ===== *)
(** * The event source

    Model of [src/events/EventSource.cpp], its header and the interface
    [include/sentinel/chains/ChainAdapter.hpp].  The code threads state and
    exceptions through many calls, so it is written in a small monad over a
    [World]: the event source, the chain adapter, the queue it pushes to, and
    what the rest of the process does meanwhile. *)
From stdpp Require Import relations.
From S2P Require Import Prelude Cxx Hex Signal Normalize Health PipelineInterface.

(** [ChainAdapter]: every call may change the adapter (it talks to a node) and
    may throw. *)
Class ChainAdapter (A : Type) := {
  chainId : A -> A * result Z;
  latestBlock : A -> A * result Z;
  blockTimestamp : Z -> A -> A * result Z;
  getLogs : Z -> Z -> A -> A * result (list RawLog);
}.

Record EventSourceConfig := mkEventSourceConfig {
  start_block : Z;
  max_block_range : Z;
  min_block_range : Z;
  backtest_end_block : Z;
}.

Record EventSource := mkEventSource {
  cfg : EventSourceConfig;
  chain_id : Z;
  running : bool;
  next_block : Z;
  cold_start : bool;
  cached_chain_head : Z;
}.

(** The counters and gauges, kept when the metrics exist. *)
Record Instruments := mkInstruments {
  has_metrics : bool;
  events_ingested : Z;
  signals_normalized : Z;
  ring_buffer_depth : Z;
  last_seen_block : option Z;
  last_processed_block : option Z;
}.

Section EventSource.
Context {A Q : Type} `{ChainAdapter A} `{RingBuffer Q}.

(** [consumer] holds one number per attempt to push: how many signals the
    engine takes off the queue before it; at its end the engine takes no more.
    [readings] numbers the clock readings; [pushed] is the sequence of signals
    that entered the queue. *)
Record World := mkWorld {
  source : EventSource;
  instruments : Instruments;
  heartbeat : option Heartbeat;
  adapter : A;
  out : Q;
  consumer : list nat;
  readings : nat;
  pushed : list Signal;
}.

(** The clocks, and the uninitialised bytes of [normalize], by reading. *)
Context (system_ms steady_ms : nat -> Z) (uninit : nat -> list Z).

(** The outcome of a call: a value, an exception, or blocked forever in
    [push_blocking] because the consumer makes no room. *)
Inductive outcome (X : Type) := Ret (x : X) | Exc (e : exn) | Blocked | OutOfFuel.
#[global] Arguments Ret {X} x.
#[global] Arguments Exc {X} e.
#[global] Arguments Blocked {X}.
#[global] Arguments OutOfFuel {X}.

Definition M (X : Type) : Type := World -> World * outcome X.

#[export] Instance M_ret : MRet M := fun X x w => (w, Ret x).
#[export] Instance M_bind : MBind M := fun X Y f m w =>
  match m w with
  | (w', Ret x) => f x w'
  | (w', Exc e) => (w', Exc e)
  | (w', Blocked) => (w', Blocked)
  | (w', OutOfFuel) => (w', OutOfFuel)
  end.

Definition throw {X} (e : exn) : M X := fun w => (w, Exc e).

(** [try { m } catch (const std::exception &e) { h(e) }]. *)
Definition try_catch {X} (m : M X) (h : exn -> M X) : M X := fun w =>
  match m w with
  | (w', Exc NonStdException) => (w', Exc NonStdException)
  | (w', Exc e) => h e w'
  | r => r
  end.

Definition get_source : M EventSource := fun w => (w, Ret (source w)).

Definition modify_source (f : EventSource -> EventSource) : M unit := fun w =>
  (mkWorld (f (source w)) (instruments w) (heartbeat w) (adapter w) (out w) (consumer w)
     (readings w) (pushed w), Ret ()).

(** An instrument is touched only when the metrics exist. *)
Definition modify_instruments (f : Instruments -> Instruments) : M unit := fun w =>
  (mkWorld (source w) (if has_metrics (instruments w) then f (instruments w) else instruments w)
     (heartbeat w) (adapter w) (out w) (consumer w) (readings w) (pushed w), Ret ()).

Definition call_adapter {X} (f : A -> A * result X) : M X := fun w =>
  let '(a, r) := f (adapter w) in
  (mkWorld (source w) (instruments w) (heartbeat w) a (out w) (consumer w) (readings w) (pushed w),
   match r with Ok x => Ret x | Throw e => Exc e end).

Definition lift {X} (r : result X) : M X := fun w =>
  (w, match r with Ok x => Ret x | Throw e => Exc e end).

(** A fresh reading of a clock (or of the stack). *)
Definition read {X} (clock : nat -> X) : M X := fun w =>
  (mkWorld (source w) (instruments w) (heartbeat w) (adapter w) (out w) (consumer w)
     (S (readings w)) (pushed w), Ret (clock (readings w))).

Definition set_next (b : Z) (s : EventSource) : EventSource :=
  mkEventSource (cfg s) (chain_id s) (running s) b (cold_start s) (cached_chain_head s).
Definition set_head (h : Z) (s : EventSource) : EventSource :=
  mkEventSource (cfg s) (chain_id s) (running s) (next_block s) (cold_start s) h.
Definition clear_cold (s : EventSource) : EventSource :=
  mkEventSource (cfg s) (chain_id s) (running s) (next_block s) false (cached_chain_head s).
Definition stop (s : EventSource) : EventSource :=
  mkEventSource (cfg s) (chain_id s) false (next_block s) (cold_start s) (cached_chain_head s).

Definition make_source (cfg : EventSourceConfig) (chain_id : Z) : EventSource :=
  mkEventSource cfg chain_id true (start_block cfg) (start_block cfg =? 0) 0.

(** ** [push_blocking] *)

(** The engine takes up to [k] signals off the queue. *)
Fixpoint consume (k : nat) (q : Q) : Q :=
  match k with
  | O => q
  | S k' => match rb_front q with Some _ => consume k' (rb_pop q) | None => q end
  end.

(** [while (!try_push) sleep]; when the engine takes no more, the attempt that
    fails is repeated forever. *)
Fixpoint push_retry (ev : Signal) (sched : list nat) (q : Q) : list nat * Q * bool :=
  match sched with
  | [] => match rb_try_push ev q with Some q' => ([], q', true) | None => ([], q, false) end
  | k :: sched' =>
      let q := consume k q in
      match rb_try_push ev q with
      | Some q' => (sched', q', true)
      | None => push_retry ev sched' q
      end
  end.

Definition push_blocking (ev : Signal) : M unit := fun w =>
  let '(sched, q, ok) := push_retry ev (consumer w) (out w) in
  (mkWorld (source w) (instruments w) (heartbeat w) (adapter w) q sched (readings w)
     (if ok then pushed w ++ [ev] else pushed w),
   if ok then Ret () else Blocked).

(** ** [poll_once] *)

(** Step 1: refresh the head; [Some b] when the function returns [b]. *)
Definition refresh_head : M (option bool) :=
  s ← get_source;
  if (cached_chain_head s =? 0) || (cached_chain_head s <? next_block s) then
    h ← try_catch (call_adapter latestBlock)
          (fun e => throw (RuntimeError ("latestBlock failed: " +:+ what e)%stdpp));
    modify_source (set_head h);;
    modify_instruments (fun i => mkInstruments true (events_ingested i) (signals_normalized i)
      (ring_buffer_depth i) (Some h) (last_processed_block i));;
    (if negb (backtest_end_block (cfg s) =? 0)
     then modify_source (set_head (Z.min h (backtest_end_block (cfg s)))) else mret ());;
    if cold_start s then
      (if backtest_end_block (cfg s) =? 0
       then modify_source (fun s => set_next (cached_chain_head s) s) else mret ());;
      modify_source clear_cold;;
      mret (Some false)
    else mret None
  else mret None.

(** Step 3: fetch, halving the range on errors. *)
Fixpoint fetch_logs (fuel : nat) (range : Z) : M (Z * list RawLog) :=
  match fuel with
  | O => fun w => (w, OutOfFuel)
  | S fuel' =>
      s ← get_source;
      let to_block := u64 (next_block s + range - 1) in
      try_catch
        (logs ← call_adapter (getLogs (next_block s) to_block); mret (to_block, logs))
        (fun _ =>
           if range <=? min_block_range (cfg s)
           then throw (RuntimeError "Persistent RPC failure even with min_range")
           else fetch_logs fuel' (Z.max (range / 2) (min_block_range (cfg s))))
  end.

(** A 64-bit range is halved at most 64 times. *)
Definition fetch_fuel : nat := 65.

(** Step 4: the batch timestamp, from the chain or from the clock. *)
Definition batch_timestamp (to_block : Z) : M Z :=
  try_catch (t ← call_adapter (blockTimestamp to_block); mret (u64 (t * 1000)))
    (fun _ => read (fun n => u64 (system_ms n))).

Definition set_ingress (t : Z) (s : Signal) : Signal :=
  let m := sig_meta s in
  mkSignal (sig_type s)
    (mkSignalMeta (timestamp_ms m) t (block_number m) (tx_hash m) (is_final m) (source_id m))
    (sig_payload s).

Definition push_log (ts : Z) (raw : RawLog) : M unit :=
  s ← get_source;
  u ← read uninit;
  ev ← lift (normalize raw (chain_id s) ts u);
  t ← read (fun n => u64 (steady_ms n));
  modify_instruments (fun i => mkInstruments true (events_ingested i) (signals_normalized i + 1)
    (ring_buffer_depth i) (last_seen_block i) (last_processed_block i));;
  push_blocking (set_ingress t ev);;
  modify_instruments (fun i => mkInstruments true (events_ingested i) (signals_normalized i)
    (ring_buffer_depth i + 1) (last_seen_block i) (last_processed_block i)).

Fixpoint push_logs (ts : Z) (logs : list RawLog) : M unit :=
  match logs with
  | [] => mret ()
  | raw :: logs' => push_log ts raw;; push_logs ts logs'
  end.

Definition poll_once : M bool :=
  early ← refresh_head;
  match early with
  | Some b => mret b
  | None =>
      s ← get_source;
      if cached_chain_head s <? next_block s then mret false
      else
        let distance := u64 (cached_chain_head s - next_block s + 1) in
        let range := Z.max (Z.min (max_block_range (cfg s)) distance) (min_block_range (cfg s)) in
        '(to_block, logs) ← fetch_logs fetch_fuel range;
        ts ← batch_timestamp to_block;
        modify_instruments (fun i => mkInstruments true
          (events_ingested i + Z.of_nat (length logs)) (signals_normalized i)
          (ring_buffer_depth i) (last_seen_block i) (last_processed_block i));;
        push_logs ts logs;;
        modify_source (set_next (u64 (to_block + 1)));;
        modify_instruments (fun i => mkInstruments true (events_ingested i)
          (signals_normalized i) (ring_buffer_depth i) (last_seen_block i) (Some to_block));;
        s ← get_source;
        mret (next_block s <=? cached_chain_head s)
  end.

(** ** [run] *)

Inductive status := Exited | Looping | Stuck | Crashed (e : exn).

Definition beat (now : Z) : M unit := fun w =>
  (mkWorld (source w) (instruments w) (record now <$> heartbeat w) (adapter w) (out w)
     (consumer w) (readings w) (pushed w), Ret ()).

(** One entry of [stops] per test of the loop's condition: whether a stop has
    been requested through the token. *)
Fixpoint run (stops : list bool) (w : World) : World * status :=
  match stops with
  | [] => (w, Looping)
  | st :: stops' =>
      let s := source w in
      if negb (running s) || st then (w, Exited)
      else if negb (backtest_end_block (cfg s) =? 0) && (backtest_end_block (cfg s) <? next_block s)
      then (w, Exited)
      else
        match (t ← read (fun n => u64 (steady_ms n)); beat t;; poll_once) w with
        | (w', Ret _) => run stops' w'
        | (w', Exc NonStdException) => (w', Crashed NonStdException)
        | (w', Exc _) => run stops' w'
        | (w', Blocked) => (w', Stuck)
        | (w', OutOfFuel) => (w', Stuck)
        end
  end.
End EventSource.
Arguments World : clear implicits.

(** * Facts *)

(** The logs of the blocks [from .. from + n - 1] of a chain. *)
Definition chain_logs (blocks : Z -> list RawLog) (from to : Z) : list RawLog :=
  concat (blocks <$> seqZ from (to - from)).

Lemma chain_logs_empty blocks b : chain_logs blocks b b = [].
Proof. unfold chain_logs. by rewrite Z.sub_diag. Qed.

Lemma chain_logs_app blocks a b c :
  a <= b -> b <= c -> chain_logs blocks a b ++ chain_logs blocks b c = chain_logs blocks a c.
Proof.
  intros Hab Hbc. unfold chain_logs. rewrite <- concat_app, <- fmap_app.
  replace (c - a) with ((b - a) + (c - b)) by lia. rewrite seqZ_app by lia.
  by replace (a + (b - a)) with b by lia.
Qed.

(** ** The node over time *)

Section Later.
Context {A : Type} `{!ChainAdapter A}.

(** What the event source asks of its node, in any order, may move it on. *)
Inductive adapter_call (a : A) : A -> Prop :=
  | calls_latestBlock : adapter_call a (latestBlock a).1
  | calls_blockTimestamp n : adapter_call a (blockTimestamp n a).1
  | calls_getLogs from to : adapter_call a (getLogs from to a).1.

Definition later : A -> A -> Prop := rtc adapter_call.

Lemma later_refl a : later a a.
Proof. apply rtc_refl. Qed.
Lemma later_trans a b c : later a b -> later b c -> later a c.
Proof. intros. by etrans. Qed.
Lemma later_call a b : adapter_call a b -> later a b.
Proof. apply rtc_once. Qed.

(** The node has named [h] as its head before it came to [a], after [a0]. *)
Definition announced (a0 : A) (h : Z) (a : A) : Prop :=
  exists b, later a0 b /\ (latestBlock b).2 = Ok h /\ later (latestBlock b).1 a.

Lemma announced_later a0 h a a' : announced a0 h a -> later a a' -> announced a0 h a'.
Proof. intros (b & Hb & Hh & Ha) Ha'. exists b. eauto using later_trans. Qed.

Lemma announced_before a0 a1 h a : later a0 a1 -> announced a1 h a -> announced a0 h a.
Proof. intros H0 (b & Hb & Hh & Ha). exists b. eauto using later_trans. Qed.
End Later.

#[export] Hint Resolve later_refl later_trans later_call announced_later announced_before
  calls_latestBlock calls_blockTimestamp calls_getLogs : later.

Section Facts.
Context {A Q : Type} `{!ChainAdapter A} `{!RingBuffer Q}.
Context (system_ms steady_ms : nat -> Z) (uninit : nat -> list Z).
Implicit Types (w : World A Q).

(** What most calls leave alone. *)
Record same_core w w' : Prop := {
  sc_source : source w' = source w;
  sc_pushed : pushed w' = pushed w;
  sc_out : out w' = out w;
  sc_consumer : consumer w' = consumer w;
  sc_later : later (adapter w) (adapter w');
}.

Lemma same_core_trans w1 w2 w3 : same_core w1 w2 -> same_core w2 w3 -> same_core w1 w3.
Proof. intros [] []. split; [congruence..|eauto with later]. Qed.

Lemma call_adapter_spec {X} (f : A -> A * result X) w w' o :
  adapter_call (adapter w) (f (adapter w)).1 -> call_adapter f w = (w', o) ->
  same_core w w' /\ adapter w' = (f (adapter w)).1 /\
  o = match (f (adapter w)).2 with Ok x => Ret x | Throw e => Exc e end.
Proof.
  intros Hcall. unfold call_adapter. destruct (f _) as [a r]. intros [= <- <-].
  split; [|done]. split; cbn; auto with later.
Qed.

Lemma bind_inv {X Y} (m : M (A := A) (Q := Q) X) (f : X -> M Y) w w' o :
  (m ≫= f) w = (w', o) ->
  (exists w1 x, m w = (w1, Ret x) /\ f x w1 = (w', o)) \/
  (exists e, m w = (w', Exc e) /\ o = Exc e) \/
  (m w = (w', Blocked) /\ o = Blocked) \/ (m w = (w', OutOfFuel) /\ o = OutOfFuel).
Proof.
  unfold mbind, M_bind. destruct (m w) as [w1 [x|e| |]]; [by eauto|..]; intros [= -> <-]; eauto 6.
Qed.

(** ** The range-halving loop *)

(** Enough fuel for a range: one attempt at the minimum, or one per halving. *)
Definition enough_fuel (min range : Z) (fuel : nat) : Prop :=
  (0 < fuel)%nat /\ (range <= min \/ range < min * 2 ^ (Z.of_nat fuel - 1)).

Lemma enough_fuel_step min range fuel :
  1 <= min -> min < range -> enough_fuel min range (S fuel) ->
  enough_fuel min (Z.max (range / 2) min) fuel.
Proof.
  intros Hmin Hlt [_ [Hle|Hr]]; [lia|].
  rewrite Nat2Z.inj_succ in Hr. replace (Z.succ (Z.of_nat fuel) - 1) with (Z.of_nat fuel) in Hr by lia.
  destruct fuel as [|fuel]; [cbn in Hr; lia|]. split; [lia|].
  rewrite Nat2Z.inj_succ in *. replace (Z.succ (Z.of_nat fuel) - 1) with (Z.of_nat fuel) by lia.
  rewrite Z.pow_succ_r in Hr by lia.
  destruct (Z.max_spec (range / 2) min) as [[? ->]|[? ->]]; [left; lia|right].
  apply Z.div_lt_upper_bound; lia.
Qed.

Lemma enough_fuel_initial min range :
  1 <= min -> range < 2 ^ 64 -> enough_fuel min range fetch_fuel.
Proof.
  intros Hmin Hr. split; [unfold fetch_fuel; lia|]. right.
  replace (Z.of_nat fetch_fuel - 1) with 64 by done. nia.
Qed.

(** The batch [to] was fetched in one successful call, to a node later than [a0]. *)
Definition fetched (a0 : A) (from to : Z) (logs : list RawLog) : Prop :=
  exists a, later a0 a /\ (getLogs from to a).2 = Ok logs.

Lemma fetched_later a0 a1 from to logs : later a0 a1 -> fetched a1 from to logs -> fetched a0 from to logs.
Proof. intros H0 (a & Ha & Hl). exists a. eauto with later. Qed.

Lemma fetch_logs_spec fuel range w w' o :
  1 <= min_block_range (cfg (source w)) <= range ->
  enough_fuel (min_block_range (cfg (source w))) range fuel ->
  fetch_logs (A := A) (Q := Q) fuel range w = (w', o) ->
  same_core w w' /\
  match o with
  | Ret (to, logs) => exists r, min_block_range (cfg (source w)) <= r <= range /\
      to = u64 (next_block (source w) + r - 1) /\ fetched (adapter w) (next_block (source w)) to logs
  | Exc _ => True
  | Blocked | OutOfFuel => False
  end.
Proof.
  revert range w w' o; induction fuel as [|fuel IH]; intros range w w' o Hmin Hfuel;
    [by destruct Hfuel; lia|].
  cbn [fetch_logs]. unfold mbind at 1, M_bind at 1, get_source. unfold try_catch.
  unfold mbind, M_bind.
  destruct (call_adapter _ w) as [w1 o1] eqn:Hcall.
  apply call_adapter_spec in Hcall as (Hcore & _ & ->); [|auto with later].
  destruct ((getLogs _ _ (adapter w)).2) as [logs|e] eqn:Hlogs.
  - intros [= <- <-]. split; [done|]. exists range. split_and!; [lia..|done|].
    exists (adapter w). auto with later.
  - pose proof Hcore as [Hs _ _ _ Ha].
    assert ((if range <=? min_block_range (cfg (source w))
             then throw (RuntimeError "Persistent RPC failure even with min_range")
             else fetch_logs fuel (Z.max (range / 2) (min_block_range (cfg (source w))))) w1
            = (w', o) -> same_core w w' /\ match o with
      | Ret (to, logs) => exists r, min_block_range (cfg (source w)) <= r <= range /\
          to = u64 (next_block (source w) + r - 1) /\
          fetched (adapter w) (next_block (source w)) to logs
      | Exc _ => True | Blocked | OutOfFuel => False end) as Hretry.
    { destruct (Z.leb_spec range (min_block_range (cfg (source w)))) as [|Hlt].
      - by intros [= <- <-].
      - intros Hrec. rewrite <- Hs in Hrec.
        apply IH in Hrec as [Hc Ho]; [|rewrite Hs; lia|].
        2: { rewrite Hs. apply enough_fuel_step; [lia..|done]. }
        split; [by eapply same_core_trans|]. rewrite Hs in Ho.
        destruct o as [[to logs]| | |]; try done. destruct Ho as (r & Hr & Hto & Hf).
        exists r. split; [|split; [done|by eapply fetched_later]].
        assert (range / 2 <= range) by (apply Z.div_le_upper_bound; lia). lia. }
    destruct e; [exact Hretry..|]. by intros [= <- <-].
Qed.

(** ** Pushing a batch *)

(** A signal that [raw] may become: normalised at some time, stamped at some time. *)
Definition signal_of (cid : Z) (raw : RawLog) (s : Signal) : Prop :=
  exists ts u t ev, normalize raw cid ts u = Ok ev /\ s = set_ingress t ev.

Lemma push_log_spec ts raw w w' o :
  push_log (A := A) steady_ms uninit ts raw w = (w', o) ->
  source w' = source w /\ adapter w' = adapter w /\
  match o with
  | Ret _ => exists s, pushed w' = pushed w ++ [s] /\ signal_of (chain_id (source w)) raw s
  | Exc e => pushed w' = pushed w /\ exists n, normalize raw (chain_id (source w)) ts (uninit n) = Throw e
  | Blocked => pushed w' = pushed w
  | OutOfFuel => False
  end.
Proof.
  unfold push_log. unfold mbind, M_bind, get_source, read, lift, modify_instruments.
  cbn [source readings].
  destruct (normalize _ _ _ _) as [ev|e] eqn:Hn; [|intros [= <- <-]; cbn; eauto].
  unfold push_blocking. cbn [consumer out].
  destruct (push_retry _ _ _) as [[sched q] [|]]; intros [= <- <-]; [|done].
  cbn. split; [done|]. split; [done|]. eexists. split; [done|]. by eexists _, _, _, _.
Qed.

Lemma push_logs_spec ts logs : forall w w' o,
  push_logs (A := A) steady_ms uninit ts logs w = (w', o) ->
  source w' = source w /\ adapter w' = adapter w /\
  exists sigs done, pushed w' = pushed w ++ sigs /\ done `prefix_of` logs /\
    Forall2 (signal_of (chain_id (source w))) done sigs /\
    match o with
    | Ret _ => done = logs
    | Exc e => (length done < length logs)%nat /\
        exists raw n, raw ∈ logs /\ normalize raw (chain_id (source w)) ts (uninit n) = Throw e
    | Blocked => (length done < length logs)%nat
    | OutOfFuel => False
    end.
Proof.
  induction logs as [|raw logs IH]; intros w w' o; cbn [push_logs].
  { intros [= <- <-]. split_and!; [done..|]. exists [], []. by rewrite app_nil_r. }
  intros [(w1 & [] & H1 & H2)|Hrest]%bind_inv.
  - apply push_log_spec in H1 as (Hs1 & Ha1 & s & Hp1 & Hsig).
    apply IH in H2 as (Hs2 & Ha2 & sigs & done & Hp2 & Hpre & Hall & Ho).
    split_and!; [congruence..|]. exists (s :: sigs), (raw :: done). rewrite Hs1 in *.
    split_and!; [by rewrite Hp2, Hp1, <- app_assoc|by apply prefix_cons|by constructor|].
    destruct o; cbn [length]; try done; [by f_equal| |lia].
    destruct Ho as (Hlt & r & n & Hin & Hr). split; [lia|]. exists r, n. split; [by right|done].
  - assert (exists x, push_log (A := A) steady_ms uninit ts raw w = (w', x) /\
      match x with Ret _ => False | Exc e => o = Exc e | Blocked => o = Blocked | OutOfFuel => True end)
      as (x & H1 & Hx).
    { destruct Hrest as [(e & -> & ->)|[[-> ->]|[-> ->]]];
        [by exists (Exc e)|by exists Blocked|by exists OutOfFuel]. }
    apply push_log_spec in H1 as (Hs & Ha & Hp). split_and!; [done..|].
    destruct x as [|e| |]; [done| | |done]; exists [], []; subst o.
    + destruct Hp as [Hp [n Hn]]. split_and!; [by rewrite app_nil_r|apply prefix_nil|done|cbn; lia|].
      exists raw, n. split; [left|done].
    + split_and!; [by rewrite app_nil_r|apply prefix_nil|done|cbn; lia].
Qed.

(** ** Refreshing the head *)

(** The minimum range is its default, 1: no code sets it.  With a larger one
    a batch could reach beyond the head. *)
Definition wf w : Prop :=
  min_block_range (cfg (source w)) = 1 /\
  1 <= max_block_range (cfg (source w)) < 2 ^ 64 /\
  0 <= backtest_end_block (cfg (source w)) /\
  0 <= next_block (source w) <= 2 ^ 63 /\ 0 <= cached_chain_head (source w) < 2 ^ 63 /\
  is_u64 (backtest_end_block (cfg (source w))) /\
  (backtest_end_block (cfg (source w)) = 0 \/
   cached_chain_head (source w) <= backtest_end_block (cfg (source w))).

(** The configuration never changes, and no call rewinds the chain id or the
    running flag. *)
Definition same_setup w w' : Prop :=
  cfg (source w') = cfg (source w) /\ chain_id (source w') = chain_id (source w) /\
  running (source w') = running (source w).

(** What a node answers for its head, from [a0] on: a block number (below 2^63,
    far from wrapping). *)
Definition heads_ok (a0 : A) : Prop :=
  forall a h, later a0 a -> (latestBlock a).2 = Ok h -> 0 <= h < 2 ^ 63.

Lemma heads_ok_later a0 a1 : later a0 a1 -> heads_ok a0 -> heads_ok a1.
Proof. intros H0 Hok a h Ha. apply Hok. eauto with later. Qed.

(** The cached head has been read on the way from [w], and clamped to the end of
    a backtest. *)
Definition head_read w w' : Prop :=
  exists h, announced (adapter w) h (adapter w') /\ cached_chain_head (source w') =
    if backtest_end_block (cfg (source w')) =? 0 then h
    else Z.min h (backtest_end_block (cfg (source w'))).

Definition head_kept w w' : Prop :=
  cached_chain_head (source w') = cached_chain_head (source w).

Lemma refresh_head_spec w w' o :
  heads_ok (adapter w) -> wf w -> refresh_head (A := A) (Q := Q) w = (w', o) ->
  same_setup w w' /\ pushed w' = pushed w /\ out w' = out w /\ consumer w' = consumer w /\
  later (adapter w) (adapter w') /\ (head_kept w w' \/ head_read w w') /\ wf w' /\
  match o with
  | Ret (Some b) => b = false /\ cold_start (source w) = true /\ head_read w w' /\
      cold_start (source w') = false /\
      next_block (source w') = (if backtest_end_block (cfg (source w)) =? 0
                                then cached_chain_head (source w') else next_block (source w))
  | Ret None => next_block (source w') = next_block (source w) /\
      cold_start (source w') = cold_start (source w) /\
      (head_kept w w' /\ cached_chain_head (source w) <> 0 /\
         next_block (source w) <= cached_chain_head (source w') \/ head_read w w')
  | Exc _ => source w' = source w
  | Blocked | OutOfFuel => False
  end.
Proof.
  intros Hheads Hwf. unfold refresh_head. unfold mbind, M_bind. cbn [get_source].
  destruct (_ || _) eqn:Hcond.
  2: { intros [= <- <-]. unfold head_kept.
       split_and!; try done; auto with later; left; split_and!; lia. }
  unfold try_catch. destruct (call_adapter latestBlock w) as [w1 o1] eqn:Hc.
  apply call_adapter_spec in Hc as ([Hs Hp Hq Hk Hl] & Ha & ->); [|auto with later].
  destruct ((latestBlock (adapter w)).2) as [h|e] eqn:Hh.
  - assert (announced (adapter w) h (adapter w1)) as Hread.
    { exists (adapter w). rewrite Ha. auto with later. }
    apply Hheads in Hh; [|auto with later]. unfold modify_source, modify_instruments, mret, M_ret.
    cbn [source instruments]. destruct Hwf as (H1 & H2 & H3 & H4 & H5 & H6 & H7).
    destruct (backtest_end_block (cfg (source w)) =? 0) eqn:Hb, (cold_start (source w)) eqn:Hcold;
      cbn; intros [= <- <-]; unfold wf, same_setup, head_read; cbn; rewrite ?Hs; cbn;
      rewrite ?Hs, ?Hb, ?Hcold;
      split_and!; try done; try lia; try (right; by exists h); by exists h.
  - assert (source w1 = source w -> forall e', (w1, Exc e') = (w', o) ->
      same_setup w w' /\ pushed w' = pushed w /\ out w' = out w /\ consumer w' = consumer w /\
      later (adapter w) (adapter w') /\ (head_kept w w' \/ head_read w w') /\ wf w' /\
      match o with
      | Ret _ => False | Exc _ => source w' = source w | Blocked | OutOfFuel => False end) as Hexc.
    { intros Hsrc e' [= <- <-]. assert (wf w1) by (unfold wf; by rewrite Hsrc).
      unfold same_setup, head_kept. rewrite Hsrc. split_and!; auto. }
    destruct e; intros He; apply Hexc in He as (? & ? & ? & ? & ? & ? & ? & Ho); try done;
      (split_and!; [done..|]); by destruct o as [[]| | |].
Qed.

(** ** One poll *)

Lemma batch_timestamp_spec to w w' o :
  batch_timestamp (A := A) (Q := Q) system_ms to w = (w', o) ->
  same_core w w' /\ match o with Ret _ => True | Exc e => e = NonStdException | _ => False end.
Proof.
  unfold batch_timestamp, try_catch, mbind, M_bind.
  destruct (call_adapter _ w) as [w1 o1] eqn:Hc.
  apply call_adapter_spec in Hc as (Hcore & _ & ->); [|auto with later].
  destruct (_.2) as [t|e]; [by intros [= <- <-]|].
  destruct e; intros [= <- <-]; (split; [|done]); destruct Hcore; by split.
Qed.

(** The batch was fetched during the poll of [w], within a head that was known
    before or has been named in the poll. *)
Definition fetched_batch w to logs : Prop :=
  exists a, later (adapter w) a /\ (getLogs (next_block (source w)) to a).2 = Ok logs /\
    (cached_chain_head (source w) <> 0 /\ to <= cached_chain_head (source w) \/
     exists h, announced (adapter w) h a /\ to <= h).

(** What a poll did: nothing, a jump to the head, or one whole batch. *)
Inductive progress w w' (b : bool) : Prop :=
  | Idle : pushed w' = pushed w -> next_block (source w') = next_block (source w) -> b = false ->
      cold_start (source w) = true /\ cold_start (source w') = false \/
      cached_chain_head (source w') < next_block (source w) /\ head_read w w' ->
      progress w w' b
  | Jumped : cold_start (source w) = true -> cold_start (source w') = false ->
      pushed w' = pushed w -> b = false -> backtest_end_block (cfg (source w)) = 0 ->
      next_block (source w') = cached_chain_head (source w') -> head_read w w' -> progress w w' b
  | Batch to logs sigs : fetched_batch w to logs ->
      next_block (source w) <= to <= cached_chain_head (source w') ->
      next_block (source w') = to + 1 -> pushed w' = pushed w ++ sigs ->
      Forall2 (signal_of (chain_id (source w))) logs sigs ->
      b = (next_block (source w') <=? cached_chain_head (source w')) -> progress w w' b.

(** An interrupted batch: some of its first logs, not all, are in the queue. *)
Definition interrupted w w' : Prop :=
  exists to logs sigs done, fetched_batch w to logs /\
    next_block (source w) <= to <= cached_chain_head (source w') /\
    done `prefix_of` logs /\ (length done < length logs)%nat /\ pushed w' = pushed w ++ sigs /\
    Forall2 (signal_of (chain_id (source w))) done sigs.

Definition poll_result w w' (o : outcome bool) : Prop :=
  match o with
  | Ret b => progress w w' b
  | Exc e => next_block (source w') = next_block (source w) /\
      (pushed w' = pushed w \/
       interrupted w w' /\ exists to logs raw ts n, fetched_batch w to logs /\
         next_block (source w) <= to /\ raw ∈ logs /\ normalize raw (chain_id (source w)) ts (uninit n) = Throw e)
  | Blocked => next_block (source w') = next_block (source w) /\ interrupted w w'
  | OutOfFuel => False
  end.

(** The head has been refreshed: [w1] is what it made of [w]. *)
Record refreshed w w1 : Prop := {
  rf_next : next_block (source w1) = next_block (source w);
  rf_pushed : pushed w1 = pushed w;
  rf_chain : chain_id (source w1) = chain_id (source w);
  rf_later : later (adapter w) (adapter w1);
  rf_head : head_kept w w1 /\ cached_chain_head (source w) <> 0 \/ head_read w w1;
}.

Lemma refreshed_batch w w1 to logs :
  refreshed w w1 -> to <= cached_chain_head (source w1) ->
  fetched (adapter w1) (next_block (source w1)) to logs -> fetched_batch w to logs.
Proof.
  intros [Hn _ _ Hl Hh] Hto (a & Ha & Hlogs). exists a. rewrite <- Hn.
  split_and!; [eauto with later|done|]. destruct Hh as [[Hk Hz]|(h & Hann & Hc)].
  - left. unfold head_kept in Hk. split; [done|lia].
  - right. exists h. split; [eauto with later|]. destruct (_ =? 0); lia.
Qed.

Lemma poll_batch_spec w w1 w' o :
  wf w1 -> refreshed w w1 -> next_block (source w1) <= cached_chain_head (source w1) ->
  (let s := source w1 in
   let distance := u64 (cached_chain_head s - next_block s + 1) in
   let range := Z.max (Z.min (max_block_range (cfg s)) distance) (min_block_range (cfg s)) in
   '(to_block, logs) ← fetch_logs (A := A) (Q := Q) fetch_fuel range;
   ts ← batch_timestamp system_ms to_block;
   modify_instruments (fun i => mkInstruments true
     (events_ingested i + Z.of_nat (length logs)) (signals_normalized i)
     (ring_buffer_depth i) (last_seen_block i) (last_processed_block i));;
   push_logs steady_ms uninit ts logs;;
   modify_source (set_next (u64 (to_block + 1)));;
   modify_instruments (fun i => mkInstruments true (events_ingested i)
     (signals_normalized i) (ring_buffer_depth i) (last_seen_block i) (Some to_block));;
   s ← get_source;
   mret (next_block s <=? cached_chain_head s)) w1 = (w', o) ->
  same_setup w1 w' /\ wf w' /\ cold_start (source w') = cold_start (source w1) /\
  later (adapter w1) (adapter w') /\ head_kept w1 w' /\ poll_result w w' o.
Proof.
  intros (Hmin & Hmax & He & Hn & Hh & Hb & Hbh) Href Hle. cbv zeta.
  pose proof Href as [Hnext Hpushed Hchain _ _]. unfold head_kept.
  set (range := Z.max _ _).
  assert (1 <= range <= cached_chain_head (source w1) - next_block (source w1) + 1) as Hrange.
  { unfold range. rewrite u64_id by (unfold is_u64; lia). lia. }
  assert (forall w2 o2, same_core w1 w2 -> (exists e, o2 = Exc e) ->
    same_setup w1 w2 /\ wf w2 /\ cold_start (source w2) = cold_start (source w1) /\
    later (adapter w1) (adapter w2) /\
    cached_chain_head (source w2) = cached_chain_head (source w1) /\ poll_result w w2 o2) as Hexc.
  { intros w2 o2 [Hs2 Hp2 _ _ Hl2] [e ->]. unfold same_setup, wf. rewrite Hs2.
    split_and!; try done; try lia. split; [by rewrite Hs2|]. left. congruence. }
  intros Hrun. apply bind_inv in Hrun as [(w2 & [to logs] & Hf & Hrun)|Hrest].
  2: { destruct (fetch_logs fetch_fuel range w1) as [w2 o2] eqn:Hf.
       pose proof Hf as [Hc Ho]%fetch_logs_spec; [|lia|apply enough_fuel_initial; lia].
       destruct Hrest as [(e & [= -> ->] & ->)|[[[= -> ->] ->]|[[= -> ->] ->]]]; try done.
       apply Hexc; eauto. }
  apply fetch_logs_spec in Hf as [Hcore2 (r & Hr & -> & Hfetch)];
    [|lia|apply enough_fuel_initial; lia].
  rewrite u64_id in * by (unfold is_u64; lia).
  set (to := next_block (source w1) + r - 1) in *.
  apply (refreshed_batch w) in Hfetch; [|done|lia].
  apply bind_inv in Hrun as [(w3 & ts & Hts & Hrun)|Hrest].
  2: { destruct (batch_timestamp system_ms to w2) as [w3 o3] eqn:Hts.
       apply batch_timestamp_spec in Hts as [Hc Ho].
       destruct Hrest as [(e & [= -> ->] & ->)|[[[= -> ->] ->]|[[= -> ->] ->]]]; try done.
       apply Hexc; [by eapply same_core_trans|eauto]. }
  apply batch_timestamp_spec in Hts as [Hcore3 _].
  pose proof (same_core_trans _ _ _ Hcore2 Hcore3) as [Hs3 Hp3 _ _ Hl3]. clear Hcore2 Hcore3 w2.
  unfold mbind, M_bind, modify_instruments in Hrun.
  destruct (push_logs steady_ms uninit ts logs _) as [w4 o4] eqn:Hpush.
  apply push_logs_spec in Hpush as (Hs4 & Ha4 & sigs & done & Hp4 & Hpre & Hall & Ho).
  cbn [source pushed adapter] in Hs4, Ha4, Hp4, Hall, Ho. rewrite Hs3 in Hs4, Hall, Ho.
  rewrite Hp3, Hpushed in Hp4. rewrite Hchain in Hall, Ho.
  assert (next_block (source w) <= to <= cached_chain_head (source w1)) as Hto by lia.
  assert ((length done < length logs)%nat -> interrupted w w4) as Hint.
  { intros Hlt. exists to, logs, sigs, done. rewrite Hs4. split_and!; done || lia. }
  destruct o4 as [[]|e| |]; [| | |done].
  - cbn in Hrun. injection Hrun as <- <-. subst done. unfold same_setup, wf, poll_result. cbn.
    rewrite Hs4. cbn. rewrite u64_id by (unfold is_u64; lia).
    split_and!; try done; try lia; [by rewrite Ha4|].
    apply (Batch _ _ _ to logs sigs); cbn; rewrite ?Hs4; cbn;
      rewrite ?u64_id by (unfold is_u64; lia); done || lia.
  - injection Hrun as <- <-. destruct Ho as (Hlt & raw & n & Hin & Hraw).
    unfold same_setup, wf, poll_result. rewrite Hs4, Ha4. split_and!; try done; try lia.
    right. split; [auto|]. exists to, logs, raw, ts, n. split_and!; done || lia.
  - injection Hrun as <- <-. unfold same_setup, wf, poll_result. rewrite Hs4, Ha4.
    split_and!; try done; try lia. auto.
Qed.

(** Of the head a poll keeps what was cached, or has read a new one. *)
Lemma poll_once_spec w w' o :
  heads_ok (adapter w) -> wf w ->
  poll_once (A := A) (Q := Q) system_ms steady_ms uninit w = (w', o) ->
  same_setup w w' /\ wf w' /\
  (cold_start (source w) = false -> cold_start (source w') = false) /\
  later (adapter w) (adapter w') /\ (head_kept w w' \/ head_read w w') /\ poll_result w w' o.
Proof.
  intros Hheads Hwf. unfold poll_once. intros [(w1 & early & H1 & Hrun)|Hrest]%bind_inv.
  2: { destruct (refresh_head w) as [w1 o1] eqn:H1.
       apply refresh_head_spec in H1 as (Hsame & Hp & _ & _ & Hl & Hhead & Hwf' & Ho); [|done..].
       destruct Hrest as [(e & [= -> ->] & ->)|[[[= -> ->] ->]|[[= -> ->] ->]]]; try done.
       rewrite Ho. split_and!; [done..|]. split; [by rewrite Ho|by left]. }
  apply refresh_head_spec in H1 as ((Hc & Hi & Hr) & Hp & _ & _ & Hl & Hhead & Hwf' & Ho); [|done..].
  destruct early as [b|].
  - injection Hrun as <- <-. destruct Ho as (-> & Hcold & Hread & Hcold' & Hnext).
    split_and!; [done..|]. cbn. destruct (Z.eqb_spec (backtest_end_block (cfg (source w))) 0).
    + by apply Jumped.
    + apply Idle; [done..|]. by left.
  - destruct Ho as (Hnext & Hcold & Hread). unfold mbind at 1, M_bind at 1, get_source at 1 in Hrun.
    destruct (Z.ltb_spec (cached_chain_head (source w1)) (next_block (source w1))) as [Hlt|Hge].
    + injection Hrun as <- <-. split_and!; [done..|congruence|done|done|]. cbn.
      apply Idle; [done..|]. right. destruct Hread as [(_ & _ & ?)|]; [lia|]. split; [lia|done].
    + apply (poll_batch_spec w) in Hrun as ((Hc2 & Hi2 & Hr2) & Hwf2 & Hcold2 & Hl2 & Hh2 & Hres); [|done| |done].
      2: { split; [done..|]. destruct Hread as [(? & ? & _)|]; auto. }
      split; [split; [congruence|]; split; congruence|].
      split_and!; [done|congruence|eauto with later| |done].
      unfold head_kept, head_read in *. rewrite Hh2, Hc2. destruct Hhead as [|(h & Hann & ?)]; [auto|].
      right. exists h. eauto with later.
Qed.

(** ** Runs over a fixed chain *)

(** A node that serves one chain, from [a0] on: once it has named a head, the logs
    of blocks up to that head are settled, and a successful [getLogs] for some of
    these blocks returns their logs, in order.  Nothing is said of blocks beyond,
    nor of calls that fail. *)
Definition serves (a0 : A) (blocks : Z -> list RawLog) : Prop :=
  heads_ok a0 /\
  forall h a from to logs, announced a0 h a -> 0 <= from <= to -> to <= h ->
    (getLogs from to a).2 = Ok logs -> logs = chain_logs blocks from (to + 1).

(** The source has read its head, if it has one, from the node since [a0]. *)
Record tracked (a0 : A) w : Prop := {
  tr_later : later a0 (adapter w);
  tr_head : cached_chain_head (source w) <> 0 ->
    exists h, announced a0 h (adapter w) /\ cached_chain_head (source w) <= h;
}.

Lemma tracked_fresh w : cached_chain_head (source w) = 0 -> tracked (adapter w) w.
Proof. intros H0. split; [apply later_refl|done]. Qed.

Lemma tracked_step a0 w w' :
  tracked a0 w -> later (adapter w) (adapter w') -> head_kept w w' \/ head_read w w' -> tracked a0 w'.
Proof.
  intros [Hl Hh] Hl' Hhead. split; [eauto with later|]. intros Hnz.
  destruct Hhead as [Hk|(h & Hann & Hc)].
  - rewrite Hk in *. destruct (Hh Hnz) as (h & Hann & Hle). exists h. eauto with later.
  - exists h. split; [eauto with later|]. destruct (_ =? 0); lia.
Qed.

(** Of what the poll has fetched, the node answers as it serves. *)
Lemma fetched_served a0 blocks w to logs :
  serves a0 blocks -> tracked a0 w -> 0 <= next_block (source w) <= to -> fetched_batch w to logs ->
  logs = chain_logs blocks (next_block (source w)) (to + 1).
Proof.
  intros [_ Hserve] [Hl Hh] Hle (a & Ha & Hlogs & [[Hnz Hto]|(h & Hann & Hto)]).
  - destruct (Hh Hnz) as (h & Hann & Hch). eapply (Hserve h a); [eauto with later|lia|lia|done].
  - eapply (Hserve h a); [eauto with later|lia|lia|done].
Qed.

Lemma serves_heads a0 blocks w : serves a0 blocks -> tracked a0 w -> heads_ok (adapter w).
Proof. intros [Hheads _] [Hl _]. by eapply heads_ok_later. Qed.

(** Every log of the chain can be normalised. *)
Definition logs_normalise (blocks : Z -> list RawLog) (cid : Z) : Prop :=
  forall b raw, raw ∈ blocks b -> forall ts n, is_ok (normalize raw cid ts (uninit n)) = true.

Lemma chain_logs_normalise blocks cid from to raw :
  logs_normalise blocks cid -> raw ∈ chain_logs blocks from to ->
  forall ts n e, normalize raw cid ts (uninit n) <> Throw e.
Proof.
  intros Hn Hin ts n e He. unfold chain_logs in Hin.
  apply list_elem_of_In, in_concat in Hin as (l & Hl%list_elem_of_In & Hr%list_elem_of_In).
  apply list_elem_of_fmap in Hl as (b & -> & _). specialize (Hn b raw Hr ts n). by rewrite He in Hn.
Qed.

(** A batch that the source has begun and not ended: [extra] are its first logs. *)
Definition unfinished blocks w (extra : list RawLog) : Prop :=
  exists to, next_block (source w) <= to <= cached_chain_head (source w) /\
    extra `prefix_of` chain_logs blocks (next_block (source w)) (to + 1) /\
    (length extra < length (chain_logs blocks (next_block (source w)) (to + 1)))%nat.

(** The signals of the blocks [first .. next w' - 1] are in the queue, then, when
    the source is [stuck], those of an unfinished batch. *)
Record delivered blocks first w w' (stuck : bool) (sigs : list Signal) (extra : list RawLog) : Prop := {
  de_first : first <= next_block (source w');
  de_pushed : pushed w' = pushed w ++ sigs;
  de_signals : Forall2 (signal_of (chain_id (source w)))
    (chain_logs blocks first (next_block (source w')) ++ extra) sigs;
  de_extra : if stuck then unfinished blocks w' extra else extra = [];
}.

Lemma delivered_nothing blocks w w' :
  next_block (source w') = next_block (source w) -> pushed w' = pushed w ->
  delivered blocks (next_block (source w)) w w' false [] [].
Proof. intros Hn Hp. split; rewrite ?Hn, ?Hp, ?chain_logs_empty, ?app_nil_r; done || lia. Qed.

Lemma delivered_trans blocks first w1 w2 w3 stuck sigs1 sigs2 extra :
  chain_id (source w2) = chain_id (source w1) ->
  delivered blocks first w1 w2 false sigs1 [] ->
  delivered blocks (next_block (source w2)) w2 w3 stuck sigs2 extra ->
  delivered blocks first w1 w3 stuck (sigs1 ++ sigs2) extra.
Proof.
  intros Hcid [Hle1 Hp1 Hf1 _] [Hle2 Hp2 Hf2 Hex]. rewrite app_nil_r in Hf1.
  rewrite Hcid in Hf2. split; [lia|by rewrite Hp2, Hp1, app_assoc| |done].
  rewrite <- (chain_logs_app _ _ (next_block (source w2))), <- app_assoc by done.
  by apply Forall2_app.
Qed.

(** The source will not jump to the head of the chain: it is past its cold start,
    or runs a backtest. *)
Definition no_jump w : Prop :=
  cold_start (source w) = false \/ backtest_end_block (cfg (source w)) <> 0.

(** It will: nothing has been read yet, and the run is not a backtest. *)
Definition cold w : Prop :=
  cold_start (source w) = true /\ cached_chain_head (source w) = 0 /\
  backtest_end_block (cfg (source w)) = 0.

(** Where the delivery begins: at the cursor, or at the head named at the cold
    start. *)
Definition begins w first : Prop :=
  first = next_block (source w) \/ cold w /\ exists a, announced (adapter w) first a.

Definition is_blocked {X : Type} (o : outcome X) : bool := match o with Blocked => true | _ => false end.
Definition is_stuck (st : status) : bool := match st with Stuck => true | _ => false end.

(** One poll that does not jump. *)
Lemma poll_delivered a0 blocks w w' o :
  serves a0 blocks -> logs_normalise blocks (chain_id (source w)) -> wf w -> tracked a0 w ->
  no_jump w ->
  poll_once (A := A) (Q := Q) system_ms steady_ms uninit w = (w', o) ->
  exists sigs extra, delivered blocks (next_block (source w)) w w' (is_blocked o) sigs extra.
Proof.
  intros Hserve Hnorm Hwf Htr Hcold Hp. pose proof Hwf as (_ & _ & _ & Hpos & _).
  apply poll_once_spec in Hp as (_ & _ & _ & _ & _ & Hres); [|by eapply serves_heads|done].
  destruct o as [b|e| |]; cbn in Hres; [..|done].
  - destruct Hres as [Hp Hn _ _|?? _ _ ? _ _|to logs sigs Hf Hto Hn Hp Hall _];
      [|destruct Hcold; congruence|].
    + exists [], []. by apply delivered_nothing.
    + apply (fetched_served a0 blocks) in Hf as ->; [|done|done|lia].
      exists sigs, []. split; [lia|done| |done]. by rewrite Hn, app_nil_r.
  - destruct Hres as [Hn Hres]. exists [], []. apply delivered_nothing; [done|].
    destruct Hres as [|[_ (to & logs & raw & ts & n & Hf & Hle & Hin & Hraw)]]; [done|].
    exfalso. apply (fetched_served a0 blocks) in Hf as ->; [|done|done|lia].
    by eapply (chain_logs_normalise blocks _ _ _ raw Hnorm).
  - destruct Hres as [Hn (to & logs & sigs & part & Hf & Hle & Hpre & Hlt & Hps & Hall)].
    apply (fetched_served a0 blocks) in Hf as ->; [|done|done|lia]. exists sigs, part.
    split; [lia|done|by rewrite Hn, chain_logs_empty|]. exists to. by rewrite Hn.
Qed.

(** One poll at a cold start: it throws and stays cold, or sets the cursor to the
    head it has read. *)
Lemma poll_cold w w' o :
  cold w -> poll_once (A := A) (Q := Q) system_ms steady_ms uninit w = (w', o) ->
  pushed w' = pushed w /\ later (adapter w) (adapter w') /\
  ((exists e, o = Exc e) /\ source w' = source w \/
   o = Ret false /\ cold_start (source w') = false /\
   announced (adapter w) (next_block (source w')) (adapter w')).
Proof.
  intros (Hcold & Hhead & Hend). unfold poll_once, refresh_head, mbind, M_bind. cbn [get_source].
  rewrite Hhead. cbn [Z.eqb orb]. unfold try_catch.
  destruct (call_adapter latestBlock w) as [w1 o1] eqn:Hc.
  apply call_adapter_spec in Hc as ([Hs Hp _ _ Hl] & Ha & ->); [|auto with later].
  destruct ((latestBlock (adapter w)).2) as [h|e] eqn:Hh.
  - unfold modify_source, modify_instruments, mret, M_ret. cbn [source instruments].
    rewrite Hend, Hcold. cbn. intros [= <- <-]. cbn. split_and!; [done..|]. right.
    split_and!; [done..|]. exists (adapter w). rewrite Ha. auto with later.
  - destruct e; intros [= <- <-]; (split_and!; [done..|]; left; split; [by eexists|done]).
Qed.

(** A cold start that has failed is as it was. *)
Lemma delivered_still_cold blocks first w w2 w' stuck sigs extra :
  source w2 = source w -> pushed w2 = pushed w -> later (adapter w) (adapter w2) ->
  begins w2 first /\ delivered blocks first w2 w' stuck sigs extra ->
  begins w first /\ delivered blocks first w w' stuck sigs extra.
Proof.
  intros Hs Hp Hl [Hb []]. unfold begins, cold in *. rewrite Hs in Hb. split.
  - destruct Hb as [|[? [a ?]]]; [by left|right]. split; [done|]. exists a. eauto with later.
  - split; rewrite <- ?Hs, <- ?Hp; done.
Qed.

(** The heartbeat at the head of an iteration touches nothing else. *)
Lemma beat_poll w :
  exists w1, same_core w w1 /\ adapter w1 = adapter w /\
    (t ← read (fun n => u64 (steady_ms n)); beat t;;
     poll_once (A := A) (Q := Q) system_ms steady_ms uninit) w =
    poll_once system_ms steady_ms uninit w1.
Proof. eexists. split; [|split; [|reflexivity]]; [split; auto with later|done]. Qed.

Lemma same_core_wf w w1 : same_core w w1 -> wf w -> wf w1.
Proof. intros [Hs _ _ _ _]. unfold wf. by rewrite Hs. Qed.

Lemma same_core_tracked a0 w w1 : same_core w w1 -> tracked a0 w -> tracked a0 w1.
Proof. intros [Hs _ _ _ Hl] Htr. eapply tracked_step; [done..|]. left. unfold head_kept. by rewrite Hs. Qed.

Lemma delivered_same_core blocks first w w1 w' stuck sigs extra :
  same_core w w1 -> delivered blocks first w1 w' stuck sigs extra ->
  delivered blocks first w w' stuck sigs extra.
Proof. intros [Hs Hp _ _ _] []. split; rewrite <- ?Hs, <- ?Hp; done. Qed.

(** What one turn of the loop, heartbeat and poll, does to what the runs rely on. *)
Lemma turn_kept a0 blocks w w1 w2 o :
  serves a0 blocks -> wf w -> tracked a0 w -> same_core w w1 ->
  poll_once (A := A) (Q := Q) system_ms steady_ms uninit w1 = (w2, o) ->
  o <> OutOfFuel /\ same_setup w w2 /\ wf w2 /\ tracked a0 w2 /\
  (cold_start (source w) = false -> cold_start (source w2) = false).
Proof.
  intros Hserve Hwf Htr Hcore Hpoll.
  assert (tracked a0 w1) as Htr1 by by eapply same_core_tracked.
  apply poll_once_spec in Hpoll as (Hset & Hwf2 & Hcold2 & Hl & Hhead & Hres);
    [|by eapply serves_heads|by eapply same_core_wf].
  split; [by destruct o|]. clear Hres.
  destruct Hcore as [Hs _ _ _ _]. unfold same_setup in *. rewrite Hs in *.
  split_and!; try done; [apply Hset..|]. by eapply tracked_step.
Qed.

Lemma run_wf a0 blocks stops : forall w w' st,
  serves a0 blocks -> wf w -> tracked a0 w ->
  run (A := A) (Q := Q) system_ms steady_ms uninit stops w = (w', st) ->
  wf w' /\ cfg (source w') = cfg (source w).
Proof.
  induction stops as [|s stops IH]; intros w w' st Hserve Hwf Htr; cbn [run]; [by intros [= <- _]|].
  destruct (_ || _); [by intros [= <- _]|]. destruct (_ && _); [by intros [= <- _]|].
  destruct (beat_poll w) as (w1 & Hcore & _ & ->).
  destruct (poll_once system_ms steady_ms uninit w1) as [w2 o] eqn:Hpoll.
  apply (turn_kept a0 blocks w) in Hpoll as (_ & (Hcfg & _) & Hwf2 & Htr2 & _); [|done..].
  rewrite <- Hcfg. destruct o as [b|[]| |]; try (by apply IH); by intros [= <- _].
Qed.

(** Over a whole run of a source that does not jump. *)
Lemma run_delivered a0 blocks stops : forall w w' st,
  serves a0 blocks -> logs_normalise blocks (chain_id (source w)) -> wf w -> tracked a0 w ->
  no_jump w ->
  run (A := A) (Q := Q) system_ms steady_ms uninit stops w = (w', st) ->
  exists sigs extra, delivered blocks (next_block (source w)) w w' (is_stuck st) sigs extra.
Proof.
  induction stops as [|s stops IH]; intros w w' st Hserve Hnorm Hwf Htr Hcold; cbn [run].
  { intros [= <- <-]. exists [], []. by apply delivered_nothing. }
  assert (forall x, is_stuck x = false -> (w, x) = (w', st) -> exists sigs extra,
    delivered blocks (next_block (source w)) w w' (is_stuck st) sigs extra) as Hstop.
  { intros x Hx [= <- <-]. exists [], []. rewrite Hx. by apply delivered_nothing. }
  destruct (_ || _); [by apply Hstop|]. destruct (_ && _); [by apply Hstop|]. clear Hstop.
  destruct (beat_poll w) as (w1 & Hcore & Hadapter & ->). pose proof Hcore as [Hs1 _ _ _ _].
  destruct (poll_once system_ms steady_ms uninit w1) as [w2 o] eqn:Hpoll.
  pose proof Hpoll as (sigs & extra & Hdel)%(poll_delivered a0 blocks);
    [|done|by rewrite Hs1|by eapply same_core_wf|by eapply same_core_tracked|by unfold no_jump; rewrite Hs1].
  apply (delivered_same_core _ _ w) in Hdel; [|done]. rewrite Hs1 in Hdel.
  apply (turn_kept a0 blocks w) in Hpoll as (Hfuel & (Hcfg & Hcid & _) & Hwf2 & Htr2 & Hcold2); [|done..].
  assert (is_blocked o = false -> run system_ms steady_ms uninit stops w2 = (w', st) ->
    exists sigs extra, delivered blocks (next_block (source w)) w w' (is_stuck st) sigs extra) as Hgo.
  { intros Ho Hrun. rewrite Ho in Hdel. pose proof (de_extra _ _ _ _ _ _ _ Hdel) as ->.
    apply IH in Hrun as (sigs2 & extra2 & Hdel2); [|done|by rewrite Hcid|done|done|].
    2: { destruct Hcold as [Hc|Hb]; [left; by apply Hcold2|right; by rewrite Hcfg]. }
    exists (sigs ++ sigs2), extra2. by eapply delivered_trans. }
  destruct o as [b|[]| |]; try (by apply Hgo); intros [= <- <-]; eauto. done.
Qed.

(** The same from a cold start: the first head that is read is where it begins. *)
Lemma run_delivered_from a0 blocks stops : forall w w' st,
  serves a0 blocks -> logs_normalise blocks (chain_id (source w)) -> wf w -> tracked a0 w ->
  no_jump w \/ cold w ->
  run (A := A) (Q := Q) system_ms steady_ms uninit stops w = (w', st) ->
  exists first sigs extra, begins w first /\ delivered blocks first w w' (is_stuck st) sigs extra.
Proof.
  induction stops as [|s stops IH]; intros w w' st Hserve Hnorm Hwf Htr [Hjump|Hcold] Hrun.
  1, 3: apply (run_delivered a0 blocks) in Hrun as (sigs & extra & Hdel); [|done..];
    exists (next_block (source w)), sigs, extra; split; [by left|done].
  - injection Hrun as <- <-. exists (next_block (source w)), [], [].
    split; [by left|by apply delivered_nothing].
  - cbn [run] in Hrun. pose proof Hcold as (Hc & Hh & Hend). rewrite Hend in Hrun.
    cbn [Z.eqb negb andb] in Hrun.
    assert (forall w2 x, is_stuck x = false -> source w2 = source w -> pushed w2 = pushed w ->
      (w2, x) = (w', st) -> exists first sigs extra,
      begins w first /\ delivered blocks first w w' (is_stuck st) sigs extra) as Hstop.
    { intros w2 x Hx Hs2 Hp2 [= <- <-]. exists (next_block (source w)), [], []. rewrite Hx.
      split; [by left|]. apply delivered_nothing; [by rewrite Hs2|done]. }
    destruct (_ || _); [by apply (Hstop w Exited)|].
    destruct (beat_poll w) as (w1 & Hcore & Hadapter & Hbeat). rewrite Hbeat in Hrun.
    pose proof Hcore as [Hs1 Hp1 _ _ _].
    destruct (poll_once system_ms steady_ms uninit w1) as [w2 o] eqn:Hpoll.
    pose proof Hpoll as (Hp2 & Hl2 & Hres)%poll_cold; [|by unfold cold; rewrite Hs1].
    apply (turn_kept a0 blocks w) in Hpoll as (_ & (_ & Hcid & _) & Hwf2 & Htr2 & _); [|done..].
    rewrite Hp1 in Hp2. rewrite Hadapter in Hl2. destruct Hres as [[[e ->] Hs2]|(-> & Hwarm & Hann)].
    + rewrite Hs1 in Hs2. destruct e; try (by apply (Hstop w2 (Crashed NonStdException)));
      (apply IH in Hrun as (first & sigs & extra & Hdel);
        [exists first, sigs, extra; by eapply delivered_still_cold
        |done|by rewrite Hcid|done|done|right; unfold cold; by rewrite Hs2]).
    + apply IH in Hrun as (first & sigs & extra & Hb & Hdel);
        [|done|by rewrite Hcid|done|done|left; by left].
      exists first, sigs, extra. split.
      * right. split; [done|]. rewrite <- Hadapter. destruct Hb as [->|[(? & _) _]]; [by exists (adapter w2)|congruence].
      * destruct Hdel as [H1 H2 H3 H4]. rewrite Hp2 in H2. rewrite Hcid in H3. by split.
Qed.

End Facts.

(** ** The blocking push *)

Section Push.
Context {Q : Type} `{!RingBuffer Q, !RingBufferLaws Q}.

Lemma consume_spec k : forall q : Q,
  rb_contents (consume k q) = drop k (rb_contents q) /\ rb_capacity (consume k q) = rb_capacity q.
Proof using RingBufferLaws0.
  induction k as [|k IH]; intros q; cbn [consume]; [done|].
  rewrite rb_front_spec. destruct (rb_contents q) as [|s l] eqn:Hq; cbn [head].
  - by rewrite Hq.
  - destruct (rb_pop_spec _ _ _ Hq) as [Hp Hc]. destruct (IH (rb_pop q)) as [-> ->].
    by rewrite Hp, Hc.
Qed.

(** The attempts before which the engine takes a signal off. *)
Definition takes (sched : list nat) : nat := length (filter (fun k => 0 < k)%nat sched).

Definition has_slots (q : Q) : Prop :=
  (0 < rb_capacity q)%nat /\ (length (rb_contents q) <= rb_capacity q)%nat.

(** A push blocks only when the engine takes no more and the queue is full; one
    that succeeds needs the engine at most once. *)
Lemma push_retry_spec ev sched : forall (q : Q) sched' q' ok,
  has_slots q -> push_retry ev sched q = (sched', q', ok) ->
  has_slots q' /\
  if ok then (takes sched <= S (takes sched'))%nat /\
    exists k, rb_contents q' = drop k (rb_contents q) ++ [ev]
  else sched' = [] /\ takes sched = 0%nat /\ (rb_capacity q' <= length (rb_contents q'))%nat.
Proof using RingBufferLaws0.
  induction sched as [|k sched IH]; intros q sched' q' ok [Hcap Hlen]; cbn [push_retry].
  - pose proof (rb_try_push_spec ev q) as Hpush. destruct (rb_try_push ev q) as [q1|].
    + intros [= <- <- <-]. destruct Hpush as (Hc & Hcc & Hlt). unfold has_slots.
      rewrite Hc, Hcc, length_app. cbn. split; [lia|]. split; [lia|]. by exists 0%nat.
    + by intros [= <- <- <-].
  - destruct (consume_spec k q) as [Hc Hcc].
    assert (has_slots (consume k q)) as Hslots.
    { unfold has_slots. rewrite Hc, Hcc, length_drop. lia. }
    pose proof (rb_try_push_spec ev (consume k q)) as Hpush.
    destruct (rb_try_push ev (consume k q)) as [q1|] eqn:Hp.
    + intros [= <- <- <-]. destruct Hpush as (Hc1 & Hcc1 & Hlt). unfold has_slots.
      rewrite Hc1, Hcc1, length_app, Hc. rewrite Hc in Hlt. cbn [length]. split; [lia|].
      split; [|by exists k]. unfold takes. rewrite filter_cons. destruct (decide _); cbn; lia.
    + intros (Hok & Hres)%IH; [|done]. split; [done|].
      rewrite Hc, Hcc, length_drop in Hpush.
      assert (takes (k :: sched) = takes sched) as ->.
      { unfold takes. rewrite filter_cons, decide_False by lia. done. }
      destruct ok; [|done]. destruct Hres as (Ht & k' & Hk). split; [done|].
      exists (k + k')%nat. by rewrite Hk, Hc, drop_drop.
Qed.

Lemma push_retry_full ev n (q : Q) :
  (rb_capacity q <= length (rb_contents q))%nat ->
  push_retry ev (replicate n 0%nat) q = ([], q, false).
Proof using RingBufferLaws0.
  intros Hfull. pose proof (rb_try_push_spec ev q) as Hp.
  induction n as [|n IH]; cbn [replicate push_retry consume]; destruct (rb_try_push ev q) as [q1|];
    try done; destruct Hp as (_ & _ & ?); lia.
Qed.

Lemma push_retry_room ev k rest (q : Q) :
  (0 < rb_capacity q)%nat -> (length (rb_contents q) <= rb_capacity q)%nat ->
  exists q', push_retry ev (S k :: rest) q = (rest, q', true).
Proof using RingBufferLaws0.
  intros Hcap Hlen. cbn [push_retry]. destruct (consume_spec (S k) q) as [Hc Hcc].
  destruct (rb_try_push ev (consume (S k) q)) eqn:Hp; [by eexists|].
  exfalso. eapply rb_try_push_room; [|exact Hp]. rewrite Hc, Hcc, length_drop.
  destruct (length (rb_contents q)); lia.
Qed.
End Push.

(** ** Backtests *)

Section Backtests.
Context {A Q : Type} `{!ChainAdapter A} `{!RingBuffer Q, !RingBufferLaws Q}.
Context (system_ms steady_ms : nat -> Z) (uninit : nat -> list Z).
Implicit Types (w : World A Q).

(** *** The queue *)

Record queue_step w w' : Prop := {
  qs_slots : has_slots (out w');
  qs_takes : (takes (consumer w) + length (pushed w) <= takes (consumer w') + length (pushed w'))%nat;
}.

(** The engine takes nothing more off the queue, and the queue is full. *)
Definition starved w : Prop :=
  consumer w = [] /\ (rb_capacity (out w) <= length (rb_contents (out w)))%nat.

Lemma queue_step_refl w : has_slots (out w) -> queue_step w w.
Proof using. by split. Qed.

Lemma queue_step_trans w1 w2 w3 : queue_step w1 w2 -> queue_step w2 w3 -> queue_step w1 w3.
Proof using. intros [_ ?] [? ?]. split; [done|lia]. Qed.

Lemma queue_step_eq w w' :
  has_slots (out w) -> out w' = out w -> consumer w' = consumer w -> pushed w' = pushed w ->
  queue_step w w'.
Proof using. intros Hs Hq Hc Hp. split; [by rewrite Hq|]. by rewrite Hc, Hp. Qed.

Lemma same_core_queue w w' : has_slots (out w) -> same_core w w' -> queue_step w w'.
Proof using. intros Hs []. by apply queue_step_eq. Qed.

Lemma push_log_queue ts raw w w' o :
  has_slots (out w) -> push_log (A := A) steady_ms uninit ts raw w = (w', o) ->
  queue_step w w' /\ (o = Blocked -> starved w').
Proof using RingBufferLaws0.
  intros Hs. unfold push_log. unfold mbind, M_bind, get_source, read, lift, modify_instruments.
  cbn [source readings].
  destruct (normalize _ _ _ _) as [ev|e]; [|intros [= <- <-]; split; [by apply queue_step_eq|done]].
  unfold push_blocking. cbn [consumer out].
  destruct (push_retry _ _ _) as [[sched q] ok] eqn:Hp. apply push_retry_spec in Hp as [Hs' Hok]; [|done].
  destruct ok; intros [= <- <-]; (split; [split; cbn [out consumer pushed]; [done|]|]); try done.
  - destruct Hok as [Ht _]. rewrite length_app. cbn [length]. lia.
  - destruct Hok as (-> & -> & _). lia.
  - intros _. by destruct Hok as (? & _ & ?).
Qed.

Lemma push_logs_queue ts logs : forall w w' o,
  has_slots (out w) -> push_logs (A := A) steady_ms uninit ts logs w = (w', o) ->
  queue_step w w' /\ (o = Blocked -> starved w').
Proof using RingBufferLaws0.
  induction logs as [|raw logs IH]; intros w w' o Hs; cbn [push_logs].
  { intros [= <- <-]. split; [by apply queue_step_refl|done]. }
  intros [(w1 & [] & H1 & H2)|[(e & H1 & ->)|[[H1 ->]|[H1 ->]]]]%bind_inv;
    apply push_log_queue in H1 as [Hq1 Hb1]; try done.
  apply IH in H2 as [Hq2 Hb2]; [|by destruct Hq1]. split; [by eapply queue_step_trans|done].
Qed.

Lemma poll_queue w w' o :
  heads_ok (adapter w) -> wf w -> has_slots (out w) ->
  poll_once (A := A) (Q := Q) system_ms steady_ms uninit w = (w', o) ->
  queue_step w w' /\ (o = Blocked -> starved w').
Proof using RingBufferLaws0.
  intros Hheads Hwf Hs. unfold poll_once. intros Hp.
  apply bind_inv in Hp as [(w1 & early & H1 & Hp)|[(e & H1 & ->)|[[H1 ->]|[H1 ->]]]];
    apply refresh_head_spec in H1 as (_ & Hp1 & Hq1 & Hc1 & _ & _ & Hwf1 & Ho1); try done;
    [|by split; [apply queue_step_eq|]].
  assert (queue_step w w1) as Hstep1 by by apply queue_step_eq.
  destruct early as [b|]; [by injection Hp as <- <-; split|].
  unfold mbind at 1, M_bind at 1, get_source at 1 in Hp.
  destruct (Z.ltb_spec (cached_chain_head (source w1)) (next_block (source w1))).
  { injection Hp as <- <-. by split. }
  cbv zeta in Hp. destruct Hwf1 as (Hmin & Hmax & _ & Hn & Hh & _).
  set (range := Z.max _ _) in Hp.
  assert (1 <= range < 2 ^ 64) as Hrange.
  { unfold range. rewrite u64_id by (unfold is_u64; lia). lia. }
  apply bind_inv in Hp as [(w2 & [to logs] & H2 & Hp)|[(e & H2 & ->)|[[H2 ->]|[H2 ->]]]];
    apply fetch_logs_spec in H2 as [H2 Ho2]; try (apply enough_fuel_initial; lia); try lia; try done;
    apply (same_core_queue w1) in H2; [|by destruct Hstep1| |by destruct Hstep1];
    pose proof (queue_step_trans _ _ _ Hstep1 H2) as Hstep2; [|by split].
  apply bind_inv in Hp as [(w3 & ts & H3 & Hp)|[(e & H3 & ->)|[[H3 ->]|[H3 ->]]]];
    apply batch_timestamp_spec in H3 as [H3 Ho3]; try done;
    apply (same_core_queue w2) in H3; [|by destruct Hstep2| |by destruct Hstep2];
    pose proof (queue_step_trans _ _ _ Hstep2 H3) as Hstep3; [|by split].
  unfold mbind, M_bind, modify_instruments in Hp.
  destruct (push_logs steady_ms uninit ts logs _) as [w4 o4] eqn:Hpush.
  apply push_logs_queue in Hpush as [[Hs4 Ht4] Hb4]; [|by destruct Hstep3].
  assert (forall w5 o5, out w5 = out w4 -> consumer w5 = consumer w4 -> pushed w5 = pushed w4 ->
    o5 <> Blocked -> queue_step w w5 /\ (o5 = Blocked (X := bool) -> starved w5)) as Hend.
  { intros w5 o5 Hq5 Hc5 Hp5 Hb5. split; [|done]. eapply queue_step_trans; [exact Hstep3|].
    split; rewrite ?Hq5, ?Hc5, ?Hp5; done. }
  destruct o4 as [[]|e| |]; injection Hp as <- <-; try (by apply Hend).
  split; [|auto]. eapply queue_step_trans; [exact Hstep3|by split].
Qed.

Lemma run_queue a0 blocks stops : forall w w' st,
  serves a0 blocks -> wf w -> tracked a0 w -> has_slots (out w) ->
  run (A := A) (Q := Q) system_ms steady_ms uninit stops w = (w', st) ->
  queue_step w w' /\ (st = Stuck -> starved w').
Proof using RingBufferLaws0.
  induction stops as [|s stops IH]; intros w w' st Hserve Hwf Htr Hs; cbn [run].
  { intros [= <- <-]. split; [by apply queue_step_refl|done]. }
  assert (forall x, x <> Stuck -> (w, x) = (w', st) ->
    queue_step w w' /\ (st = Stuck -> starved w')) as Hstop.
  { intros x Hx [= <- <-]. split; [by apply queue_step_refl|done]. }
  destruct (_ || _); [by apply (Hstop Exited)|].
  destruct (_ && _); [by apply (Hstop Exited)|]. clear Hstop.
  destruct (beat_poll system_ms steady_ms uninit w) as (w1 & Hcore & _ & ->).
  assert (has_slots (out w1)) as Hs1 by by rewrite (sc_out _ _ Hcore).
  destruct (poll_once system_ms steady_ms uninit w1) as [w2 o] eqn:Hpoll.
  pose proof Hpoll as [Hq Hb]%poll_queue;
    [|by eapply serves_heads, same_core_tracked|by eapply same_core_wf|done].
  apply (turn_kept _ _ _ a0 blocks w) in Hpoll as (Hfuel & _ & Hwf2 & Htr2 & _); [|done..].
  eapply same_core_queue in Hcore; [|done].
  pose proof (queue_step_trans _ _ _ Hcore Hq) as Hstep.
  assert (run system_ms steady_ms uninit stops w2 = (w', st) ->
    queue_step w w' /\ (st = Stuck -> starved w')) as Hgo.
  { intros Hr. apply IH in Hr as [Hq2 ?]; [|done|done|done|by destruct Hq].
    split; [by eapply queue_step_trans|done]. }
  destruct o as [b|[]| |]; try (by apply Hgo); intros [= <- <-]; (split; [done|]); auto; done.
Qed.

(** *** Its end *)

(** A node that answers every call, from [a0] on, about a chain as long as the
    backtest. *)
Definition answers (a0 : A) (end_block : Z) : Prop :=
  forall a, later a0 a ->
    (exists h, (latestBlock a).2 = Ok h /\ end_block <= h) /\
    (forall from to, exists logs, (getLogs from to a).2 = Ok logs) /\
    (forall b, (blockTimestamp b a).2 <> Throw NonStdException).

Lemma answers_later a0 a1 end_block : later a0 a1 -> answers a0 end_block -> answers a1 end_block.
Proof using. intros H0 Hans a Ha. apply Hans. eauto with later. Qed.

Lemma refresh_answers end_block w w' e :
  answers (adapter w) end_block -> refresh_head (A := A) (Q := Q) w <> (w', Exc e).
Proof using.
  intros Hans Hr. unfold refresh_head in Hr. unfold mbind, M_bind in Hr. cbn [get_source] in Hr.
  destruct (_ || _); [|done]. unfold try_catch in Hr.
  destruct (call_adapter latestBlock w) as [w1 o1] eqn:Hc.
  apply call_adapter_spec in Hc as (_ & _ & ->); [|auto with later].
  destruct (Hans (adapter w)) as ((h & Hh & _) & _); [auto with later|]. rewrite Hh in Hr.
  unfold modify_source, modify_instruments, mret, M_ret in Hr.
  destruct (negb _), (cold_start (source w)); try destruct (_ =? 0); discriminate Hr.
Qed.

Lemma fetch_answers end_block fuel range w w' o :
  answers (adapter w) end_block -> fetch_logs (A := A) (Q := Q) (S fuel) range w = (w', o) ->
  exists logs, o = Ret (u64 (next_block (source w) + range - 1), logs).
Proof using.
  intros Hans. cbn [fetch_logs]. unfold mbind at 1, M_bind at 1, get_source.
  unfold try_catch, mbind, M_bind. destruct (call_adapter _ w) as [w1 o1] eqn:Hc.
  apply call_adapter_spec in Hc as (_ & _ & ->); [|auto with later].
  destruct (Hans (adapter w)) as (_ & Hg & _); [auto with later|].
  destruct (Hg (next_block (source w)) (u64 (next_block (source w) + range - 1))) as [logs Hlogs].
  rewrite Hlogs. intros [= _ <-]. by eexists.
Qed.

Lemma timestamp_answers end_block to w w' o :
  answers (adapter w) end_block -> batch_timestamp (A := A) (Q := Q) system_ms to w = (w', o) ->
  exists t, o = Ret t.
Proof using.
  intros Hans. unfold batch_timestamp, try_catch, mbind, M_bind.
  destruct (call_adapter _ w) as [w1 o1] eqn:Hc. apply call_adapter_spec in Hc as (_ & _ & ->); [|auto with later].
  destruct (Hans (adapter w)) as (_ & _ & Ht); [auto with later|].
  specialize (Ht to). destruct (_.2) as [t|[]]; try done; intros [= _ <-]; by eexists.
Qed.

Lemma poll_answers a0 blocks end_block w w' e :
  serves a0 blocks -> answers a0 end_block -> tracked a0 w ->
  logs_normalise uninit blocks (chain_id (source w)) -> wf w ->
  poll_once (A := A) (Q := Q) system_ms steady_ms uninit w <> (w', Exc e).
Proof using.
  intros Hserve Hans Htr Hnorm Hwf Hp.
  assert (answers (adapter w) end_block) as Hansw by (eapply answers_later; [apply Htr|done]).
  unfold poll_once in Hp.
  apply bind_inv in Hp as [(w1 & early & H1 & Hp)|[(x & H1 & _)|[[_ ?]|[_ ?]]]]; try done.
  2: { by eapply refresh_answers. }
  apply refresh_head_spec in H1 as ((_ & Hcid & _) & Hp1 & _ & _ & Hl1 & _ & Hwf1 & Ho1);
    [|by eapply serves_heads|done].
  destruct early as [b|]; [done|]. destruct Ho1 as (Hn1 & _ & Hh1).
  unfold mbind at 1, M_bind at 1, get_source at 1 in Hp.
  destruct (Z.ltb_spec (cached_chain_head (source w1)) (next_block (source w1))); [done|].
  cbv zeta in Hp. destruct Hwf1 as (Hmin & Hmax & _ & Hn & Hh & _).
  set (range := Z.max _ _) in Hp.
  assert (1 <= range <= cached_chain_head (source w1) - next_block (source w1) + 1) as Hrange.
  { unfold range. rewrite u64_id by (unfold is_u64; lia). lia. }
  apply bind_inv in Hp as [(w2 & [to logs] & H2 & Hp)|[(x & H2 & _)|[[_ ?]|[_ ?]]]]; try done.
  2: { eapply fetch_answers in H2 as [? ?]; [done|by eapply answers_later]. }
  apply fetch_logs_spec in H2 as [[Hs2 _ _ _ Hl2] (r & Hr & -> & Hf)];
    [|lia|apply enough_fuel_initial; lia].
  rewrite u64_id in * by (unfold is_u64; lia).
  apply (refreshed_batch w) in Hf; [|by split; [..|destruct Hh1 as [(? & ? & _)|]; auto]|lia].
  apply bind_inv in Hp as [(w3 & ts & H3 & Hp)|[(x & H3 & _)|[[_ ?]|[_ ?]]]]; try done.
  2: { eapply timestamp_answers in H3 as [? ?]; [done|]. eapply answers_later; [|done]. eauto with later. }
  apply batch_timestamp_spec in H3 as [[Hs3 _ _ _ _] _].
  unfold mbind, M_bind, modify_instruments in Hp.
  destruct (push_logs steady_ms uninit ts logs _) as [w4 o4] eqn:Hpush.
  apply push_logs_spec in Hpush as (_ & _ & sigs & part & _ & _ & _ & Ho). cbn [source] in Ho.
  destruct o4 as [[]|x| |]; try done. destruct Ho as (_ & raw & n & Hin & Hraw).
  rewrite Hs3, Hs2, Hcid in Hraw. apply (fetched_served a0 blocks) in Hf as ->; [|done|done|lia].
  by eapply (chain_logs_normalise uninit blocks _ _ _ raw Hnorm).
Qed.

(** Each iteration of a backtest that is not blocked advances the cursor, but
    for the cold start. *)
Lemma backtest_terminates a0 blocks end_block stops : forall w w' st,
  serves a0 blocks -> answers a0 end_block -> tracked a0 w ->
  logs_normalise uninit blocks (chain_id (source w)) -> wf w ->
  backtest_end_block (cfg (source w)) = end_block -> 0 < end_block ->
  next_block (source w) <= end_block + 1 ->
  running (source w) = true -> Forall (fun s => s = false) stops ->
  (if cold_start (source w) then 1 else 0) + (end_block + 1 - next_block (source w)) <
    Z.of_nat (length stops) ->
  run (A := A) (Q := Q) system_ms steady_ms uninit stops w = (w', st) ->
  st = Stuck \/ st = Exited /\ next_block (source w') = end_block + 1.
Proof using.
  induction stops as [|s stops IH]; intros w w' st Hserve Hans Htr Hnorm Hwf Hbt Hpos Hle Hrun Hst Hlen;
    cbn [run length] in *; [destruct (cold_start _); lia|].
  apply Forall_cons_iff in Hst as [-> Hst]. rewrite Hrun, Hbt. cbn [negb orb].
  destruct (Z.eqb_spec end_block 0); [lia|]. cbn [negb andb].
  destruct (Z.ltb_spec end_block (next_block (source w))).
  { intros [= <- <-]. right. split; [done|lia]. }
  destruct (beat_poll system_ms steady_ms uninit w) as (w1 & Hcore & Hadapter & ->).
  pose proof Hcore as [Hs1 _ _ _ _].
  assert (tracked a0 w1) as Htr1 by by eapply same_core_tracked.
  destruct (poll_once system_ms steady_ms uninit w1) as [w2 o] eqn:Hpoll.
  assert (forall e, o <> Exc e) as Hno.
  { intros e ->. eapply (poll_answers a0 blocks); [done|done|done| |by eapply same_core_wf|exact Hpoll].
    by rewrite Hs1. }
  pose proof Hpoll as (_ & (_ & _ & Hrn) & _ & Htr2 & _)%(turn_kept _ _ _ a0 blocks w); [|done..].
  apply poll_once_spec in Hpoll as ((Hcfg & Hcid & _) & Hwf2 & Hcold2 & _ & _ & Hres);
    [|by eapply serves_heads|by eapply same_core_wf].
  rewrite Hs1 in *. destruct o as [b|e| |]; [|by destruct (Hno e)|by intros [= <- <-]; left|done].
  assert (next_block (source w2) <= end_block + 1 /\
    (if cold_start (source w2) then 1 else 0) + (end_block + 1 - next_block (source w2)) <
    (if cold_start (source w) then 1 else 0) + (end_block + 1 - next_block (source w))) as [Hle2 Hlt].
  { destruct Hwf2 as (_ & _ & _ & _ & _ & _ & Hb2).
    destruct Hres as [_ Hn _ [[Hc Hc2]|[Hlt (h & (a & Ha & Hh & _) & Hhead)]]|?|to logs sigs _ Hto Hn _ _ _];
      rewrite Hs1 in *.
    - rewrite Hn, Hc, Hc2. lia.
    - rewrite Hcfg, Hbt in Hhead. destruct (Z.eqb_spec end_block 0); [lia|].
      destruct (Hans a) as ((h' & Hh' & ?) & _).
      { eapply later_trans; [|exact Ha]. apply Htr1. }
      assert (h' = h) by congruence. exfalso. lia.
    - congruence.
    - rewrite Hn. rewrite Hcfg, Hbt in Hb2.
      destruct (cold_start (source w)); [destruct (cold_start (source w2)); lia|].
      rewrite Hcold2 by done. lia. }
  assert ((if cold_start (source w2) then 1 else 0) + (end_block + 1 - next_block (source w2)) <
    Z.of_nat (length stops)) as Hlen2.
  { set (c1 := if cold_start (source w) then 1 else 0) in *.
    set (c2 := if cold_start (source w2) then 1 else 0) in *. lia. }
  intros Hrec. eapply IH in Hrec; [exact Hrec|done|done|done|by rewrite Hcid|done|congruence..|done].
Qed.

(** A backtest that nobody stops exits with its cursor just past the last block. *)
Lemma backtest_exit_cursor a0 blocks stops : forall w w',
  serves a0 blocks -> tracked a0 w -> wf w -> backtest_end_block (cfg (source w)) <> 0 ->
  next_block (source w) <= backtest_end_block (cfg (source w)) + 1 ->
  running (source w) = true -> Forall (fun s => s = false) stops ->
  run (A := A) (Q := Q) system_ms steady_ms uninit stops w = (w', Exited) ->
  next_block (source w') = backtest_end_block (cfg (source w)) + 1.
Proof using.
  induction stops as [|s stops IH]; intros w w' Hserve Htr Hwf Hend Hle Hrun Hst; cbn [run]; [done|].
  apply Forall_cons_iff in Hst as [-> Hst]. rewrite Hrun. cbn [negb orb].
  destruct (Z.eqb_spec (backtest_end_block (cfg (source w))) 0); [done|]. cbn [negb andb].
  destruct (Z.ltb_spec (backtest_end_block (cfg (source w))) (next_block (source w))).
  { intros [= <-]. lia. }
  destruct (beat_poll system_ms steady_ms uninit w) as (w1 & Hcore & Hadapter & ->).
  pose proof Hcore as [Hs1 _ _ _ _].
  assert (tracked a0 w1) as Htr1 by by eapply same_core_tracked.
  destruct (poll_once system_ms steady_ms uninit w1) as [w2 o] eqn:Hpoll.
  pose proof Hpoll as (_ & (Hcfg & _ & Hrn) & Hwf2 & Htr2 & _)%(turn_kept _ _ _ a0 blocks w); [|done..].
  apply poll_once_spec in Hpoll as (_ & _ & _ & _ & _ & Hres);
    [|by eapply serves_heads|by eapply same_core_wf].
  assert (o <> Blocked -> o <> OutOfFuel ->
    next_block (source w2) <= backtest_end_block (cfg (source w)) + 1) as Hle2.
  { intros Hb Hf. destruct Hwf2 as (_ & _ & _ & _ & _ & _ & Hb2). rewrite Hcfg in Hb2.
    destruct o as [b|e| |]; [|destruct Hres as [-> _]; by rewrite Hs1|done..].
    destruct Hres as [_ Hn _ _|_ _ _ _ Hz _ _|to logs sigs _ Hto Hn _ _ _]; rewrite Hs1 in *; [|done|].
    - by rewrite Hn.
    - rewrite Hn. lia. }
  assert (run system_ms steady_ms uninit stops w2 = (w', Exited) ->
    next_block (source w2) <= backtest_end_block (cfg (source w)) + 1 ->
    next_block (source w') = backtest_end_block (cfg (source w)) + 1) as Hgo.
  { intros Hr Hle'. rewrite <- Hcfg in Hend, Hle' |- *. eapply IH; eauto; congruence. }
  destruct o as [b|[]| |]; try done; intros Hr; by apply Hgo, Hle2.
Qed.
End Backtests.

(** * Properties *)

Section Properties.
Context {A Q : Type} `{!ChainAdapter A} `{!RingBuffer Q, !RingBufferLaws Q}.
Context (system_ms steady_ms : nat -> Z) (uninit : nat -> list Z).

(** Whatever the node does, the range-halving loop ends: from
    any 64-bit range it either throws, after the minimum range has failed too, or returns
    the logs of one successful call for a range between the minimum and the one asked
    for, starting at the cursor; it never moves the cursor nor pushes anything. *)
Theorem fetch_logs_terminates (w : World A Q) (range : Z)
    (Hmin : 1 <= min_block_range (cfg (source w)) <= range) (Hrange : range < 2 ^ 64) :
  let '(w', o) := fetch_logs fetch_fuel range w in
  source w' = source w /\ pushed w' = pushed w /\
  ((exists e, o = Exc e) \/
   exists to logs r, o = Ret (to, logs) /\ min_block_range (cfg (source w)) <= r <= range /\
     to = u64 (next_block (source w) + r - 1) /\
     fetched (adapter w) (next_block (source w)) to logs).
Proof using.
  destruct (fetch_logs fetch_fuel range w) as [w' o] eqn:Hf.
  apply fetch_logs_spec in Hf as [[Hs Hp _ _ _] Ho]; [|done|apply enough_fuel_initial; lia].
  split_and!; [done..|]. destruct o as [[to logs]|e| |]; [|by left; eexists|done|done].
  right. destruct Ho as (r & Ho). by exists to, logs, r.
Qed.

(** C17: one poll never diverges by itself, and either does nothing, or
    jumps to the head at a cold start, or pushes the signals of exactly the logs of one
    fetched batch, starts that batch at the cursor, ends it at or before the head and
    moves the cursor just behind it; when it throws the cursor stays, and the queue holds
    nothing new unless a log of the batch failed to normalise.  The batch is fetched from the
    node within a head that the source had read before or reads in this poll, and one that is
    interrupted is not pushed whole. *)
Theorem poll_once_correct (w : World A Q) (Hheads : heads_ok (adapter w)) (Hwf : wf w) :
  let '(w', o) := poll_once system_ms steady_ms uninit w in
  wf w' /\ cfg (source w') = cfg (source w) /\ poll_result uninit w w' o.
Proof using.
  destruct (poll_once system_ms steady_ms uninit w) as [w' o] eqn:Hp.
  apply poll_once_spec in Hp as ((? & _) & ? & _ & _ & _ & ?); done.
Qed.

(** C1: over any number of loop iterations and whatever calls of the node fail, the source
    has pushed the signals of every log of the blocks from where it began to its new cursor, each
    exactly once and in order; it began at its old cursor or, at a cold start of the live service,
    at a head that the node named; only a source stuck on a full queue has pushed, besides, the first
    logs, not all, of the next batch.  This is for a node that serves one chain, whose logs can all
    be normalised: a log that [normalize] refuses is retried, with the logs before it, forever. *)
Theorem event_source_exactly_once (blocks : Z -> list RawLog) (a0 : A) (w : World A Q)
    (stops : list bool) (Hserve : serves a0 blocks) (Htracked : tracked a0 w)
    (Hlogs : logs_normalise uninit blocks (chain_id (source w))) (Hwf : wf w)
    (Hcold : no_jump w \/ cold w) :
  let '(w', st) := run system_ms steady_ms uninit stops w in
  exists first sigs extra,
    begins w first /\ delivered blocks first w w' (is_stuck st) sigs extra.
Proof using.
  destruct (run system_ms steady_ms uninit stops w) as [w' st] eqn:Hrun.
  by apply (run_delivered_from system_ms steady_ms uninit a0 blocks stops w w' st).
Qed.

(** C36: a backtest over a node that answers ends: after at most one
    iteration per block of the range and two more, the loop has exited with its cursor just past the
    last block, if the engine takes a signal off before as many of the attempts to push as the range
    has logs; otherwise it has exited too, or it is stuck, and then the queue is full and the engine
    takes nothing more off it. *)
Theorem backtest_covers_range (blocks : Z -> list RawLog) (end_block : Z) (a0 : A) (w : World A Q)
    (stops : list bool) (Hserve : serves a0 blocks) (Hans : answers a0 end_block)
    (Htracked : tracked a0 w)
    (Hlogs : logs_normalise uninit blocks (chain_id (source w))) (Hwf : wf w)
    (Hend : backtest_end_block (cfg (source w)) = end_block) (Hpos : 0 < end_block)
    (Hnext : next_block (source w) <= end_block + 1) (Hrun : running (source w) = true)
    (Hstops : Forall (fun s => s = false) stops)
    (Hlen : end_block + 2 - next_block (source w) < Z.of_nat (length stops))
    (Hslots : has_slots (out w)) :
  let '(w', st) := run system_ms steady_ms uninit stops w in
  let logs := chain_logs blocks (next_block (source w)) (end_block + 1) in
  ((length logs <= takes (consumer w))%nat -> st = Exited) /\
  (st = Exited /\ next_block (source w') = end_block + 1 \/ st = Stuck /\ starved w').
Proof using RingBufferLaws0.
  destruct (run system_ms steady_ms uninit stops w) as [w' st] eqn:E.
  assert (no_jump w) as Hjump by (right; lia).
  pose proof E as (sigs & extra & [Hle Hp Hall Hex])%(run_delivered _ _ _ a0 blocks); [|done..].
  pose proof E as [[_ Ht] Hstarved]%(run_queue _ _ _ a0 blocks); [|done..].
  pose proof (run_wf _ _ _ a0 blocks stops w w' st Hserve Hwf Htracked E) as [Hwf' Hcfg].
  apply (backtest_terminates system_ms steady_ms uninit a0 blocks end_block) in E as [->|[-> Hcur]];
    try done; [| |destruct (cold_start _); lia].
  2: { split; [done|]. by left. }
  destruct (Hstarved eq_refl) as [Hc Hfull]. split; [|by right].
  intros Htakes. exfalso. destruct Hex as (to & Hto & _ & Hlt).
  destruct Hwf' as (_ & _ & _ & _ & _ & _ & Hb'). rewrite Hcfg, Hend in Hb'.
  rewrite Hp, Hc, length_app, <- (Forall2_length Hall), length_app in Ht.
  rewrite <- (chain_logs_app _ _ (next_block (source w'))) in Htakes by lia.
  rewrite <- (chain_logs_app _ _ (to + 1) (end_block + 1)), !length_app in Htakes by lia.
  change (takes []) with 0%nat in Ht. lia.
Qed.

(** [push_blocking] appends its signal behind the signals the
    engine has left, and returns as soon as the engine takes one signal off; while the
    queue is full and the engine takes nothing it never returns, however often it
    retries: it does not look at the stop flag. *)
Theorem push_blocking_contract (ev : Signal) (q : Q) (k n : nat) (rest : list nat)
    (Hcap : (0 < rb_capacity q)%nat) (Hfull : length (rb_contents q) = rb_capacity q) :
  push_retry ev (replicate n 0%nat) q = ([], q, false) /\
  exists q', push_retry ev (S k :: rest) q = (rest, q', true) /\
    exists taken, rb_contents q' = drop taken (rb_contents q) ++ [ev].
Proof using RingBufferLaws0.
  split; [apply push_retry_full; lia|].
  destruct (push_retry_room ev k rest q) as [q' Hq]; [done|lia|].
  exists q'. split; [done|]. apply push_retry_spec in Hq as (_ & _ & Hk); [done|split; [done|lia]].
Qed.
End Properties.

(** ** Witnesses: a node over a chain with one log, failing a number of times *)

Definition sample_blocks (b : Z) : list RawLog :=
  if b =? 11 then [encode_log sample_mint] else [].

Record Node := mkNode { node_head : Z; node_failures : nat }.
#[export] Instance Node_adapter : ChainAdapter Node := {
  chainId a := (a, Ok 1);
  latestBlock a := (a, Ok (Z.max 20 (Z.min (node_head a) 30)));
  blockTimestamp b a := (a, Throw (RuntimeError "no timestamp"));
  getLogs from to a :=
    match node_failures a with
    | O => (a, Ok (chain_logs sample_blocks from (to + 1)))
    | S n => (mkNode (node_head a) n, Throw (RuntimeError "range too large"))
    end;
}.

Record SteadyNode := mkSteadyNode {}.
#[export] Instance SteadyNode_adapter : ChainAdapter SteadyNode := {
  chainId a := (a, Ok 1);
  latestBlock a := (a, Ok 20);
  blockTimestamp b a := (a, Ok b);
  getLogs from to a := (a, Ok (chain_logs sample_blocks from (to + 1)));
}.

Definition sample_cfg (end_block : Z) : EventSourceConfig := mkEventSourceConfig 10 4 1 end_block.

Definition sample_world {A : Type} (a : A) (end_block : Z) (sched : list nat) : World A ListQueue :=
  mkWorld (make_source (sample_cfg end_block) 1) (mkInstruments true 0 0 0 None None)
    (Some new_heartbeat) a (mkListQueue 1 []) sched 0 [].

Lemma sample_serves a0 : serves (A := Node) a0 sample_blocks.
Proof.
  split; [intros a h _ [= <-]; lia|]. intros h a from to logs _ _ _ Ha.
  unfold getLogs, Node_adapter in Ha. destruct (node_failures a); cbn [snd] in Ha; congruence.
Qed.

Lemma steady_serves a0 : serves (A := SteadyNode) a0 sample_blocks.
Proof.
  split; [intros a h _ [= <-]; lia|]. intros h a from to logs _ _ _ Ha.
  unfold getLogs, SteadyNode_adapter in Ha. cbn [snd] in Ha. congruence.
Qed.

Lemma steady_answers a0 : answers (A := SteadyNode) a0 12.
Proof. intros a _. split_and!; intros; cbn; [by exists 20|by eexists|done]. Qed.

Lemma sample_logs_normalise cid : logs_normalise (fun _ => zeros 32) sample_blocks cid.
Proof.
  intros b raw Hin ts n. unfold sample_blocks in Hin. destruct (_ =? _).
  - apply list_elem_of_singleton in Hin as ->. by vm_compute.
  - by apply not_elem_of_nil in Hin.
Qed.

Lemma sample_wf {A : Type} (a : A) (end_block : Z) (sched : list nat) :
  is_u64 end_block -> wf (sample_world a end_block sched).
Proof. intros He. unfold wf, is_u64 in *. cbn. lia. Qed.

Definition sample_clock (n : nat) : Z := Z.of_nat n.

Lemma fetch_logs_terminates_witness :
  let w := sample_world (mkNode 25 2) 0 [] in
  (fetch_logs (A := Node) (Q := ListQueue) fetch_fuel 4 w).2 = Ret (10, []) /\
  let '(w', o) := fetch_logs fetch_fuel 4 w in source w' = source w.
Proof.
  split; [by vm_compute|].
  pose proof (fetch_logs_terminates (sample_world (mkNode 25 2) 0 []) 4 ltac:(cbn; lia) ltac:(lia)) as H.
  destruct (fetch_logs fetch_fuel 4 (sample_world (mkNode 25 2) 0 [])). exact (proj1 H).
Defined.

Lemma poll_once_correct_witness :
  let w := sample_world (mkNode 25 1) 0 [0%nat] in
  (poll_once sample_clock sample_clock (fun _ => zeros 32) w).2 = Ret true /\
  let '(w', o) := poll_once sample_clock sample_clock (fun _ => zeros 32) w in
  wf w' /\ poll_result (fun _ => zeros 32) w w' o.
Proof.
  split; [by vm_compute|].
  pose proof (poll_once_correct sample_clock sample_clock (fun _ => zeros 32)
    (sample_world (mkNode 25 1) 0 [0%nat]) (proj1 (sample_serves _))
    (sample_wf _ 0 _ ltac:(decide_by_compute))) as H.
  destruct (poll_once sample_clock sample_clock (fun _ => zeros 32)
    (sample_world (mkNode 25 1) 0 [0%nat])).
  destruct H as (H1 & _ & H3). exact (conj H1 H3).
Defined.

(** A live source without a checkpoint jumps to the head of the chain, block 25. *)
Example cold_start_jumps :
  let w := mkWorld (make_source (mkEventSourceConfig 0 4 1 0) 1) (mkInstruments true 0 0 0 None None)
    None (mkNode 25 1) (mkListQueue 1 []) [] 0 [] in
  let '(w', st) := run sample_clock sample_clock (fun _ => zeros 32) [false; false; false; true] w in
  (st, next_block (source w'), pushed w') = (Exited, 26, []).
Proof. vm_compute. reflexivity. Qed.

(** One with a checkpoint at block 10, over a node that fails once. *)
Lemma event_source_exactly_once_witness :
  let w := sample_world (mkNode 25 1) 0 [0%nat] in
  let '(w', st) := run sample_clock sample_clock (fun _ => zeros 32) [false; false; false; true] w in
  (st, next_block (source w'), length (pushed w')) = (Exited, 20, 1%nat) /\
  exists first sigs extra,
    begins w first /\ delivered sample_blocks first w w' (is_stuck st) sigs extra.
Proof.
  pose proof (event_source_exactly_once sample_clock sample_clock (fun _ => zeros 32) sample_blocks
    (mkNode 25 1) (sample_world (mkNode 25 1) 0 [0%nat]) [false; false; false; true]
    (sample_serves _) (tracked_fresh (sample_world (mkNode 25 1) 0 [0%nat]) eq_refl)
    (sample_logs_normalise 1) (sample_wf _ 0 _ ltac:(decide_by_compute))
    (or_introl (or_introl eq_refl))) as H.
  assert (let '(w', st) := run sample_clock sample_clock (fun _ => zeros 32)
      [false; false; false; true] (sample_world (mkNode 25 1) 0 [0%nat]) in
    (st, next_block (source w'), length (pushed w')) = (Exited, 20, 1%nat)) as Hc
    by (vm_compute; reflexivity).
  cbv zeta. destruct (run _ _ _ _ _) as [w' st]. exact (conj Hc H).
Defined.

(** The queue holds one signal and the engine comes once. *)
Lemma backtest_covers_range_witness :
  let '(w', st) := run sample_clock sample_clock (fun _ => zeros 32) (replicate 5 false)
    (sample_world (mkSteadyNode) 12 [1%nat]) in
  st = Exited /\ next_block (source w') = 12 + 1.
Proof.
  pose proof (backtest_covers_range sample_clock sample_clock (fun _ => zeros 32) sample_blocks 12
    mkSteadyNode (sample_world (mkSteadyNode) 12 [1%nat]) (replicate 5 false)
    (steady_serves _) (steady_answers _)
    (tracked_fresh (sample_world mkSteadyNode 12 [1%nat]) eq_refl)
    (sample_logs_normalise 1) (sample_wf _ 12 _ ltac:(decide_by_compute)) eq_refl
    ltac:(lia) ltac:(cbn; lia) eq_refl ltac:(repeat constructor) ltac:(cbn; lia)
    ltac:(split; cbn; lia)) as H.
  destruct (run _ _ _ _ _) as [w' st]. destruct H as [Hexit [H|[H _]]]; [exact H|].
  exfalso. revert H. rewrite Hexit by (vm_compute; lia). discriminate.
Defined.

(** Without the engine a queue of one holds the signal of the one log, and a
    second backtest over it is stuck at once. *)
Example backtest_stuck :
  let w := sample_world mkSteadyNode 12 [] in
  let full := mkListQueue 1 [mkSignal Unknown (mkSignalMeta 0 0 None None false 0) PMonostate] in
  (run sample_clock sample_clock (fun _ => zeros 32) (replicate 5 false) w).2 = Exited /\
  (run sample_clock sample_clock (fun _ => zeros 32) (replicate 5 false)
     (mkWorld (source w) (instruments w) (heartbeat w) (adapter w) full [0%nat; 0%nat] 0 [])).2 = Stuck.
Proof. split; vm_compute; reflexivity. Qed.

(** A log that [normalize] refuses makes the logs before it enter the queue at
    every poll. *)
Definition refused_log : RawLog :=
  let l := encode_log sample_mint in
  mkRawLog (raw_address l) (raw_topics l) "0x0" (raw_blockNumber l) (raw_transactionHash l)
    (raw_logIndex l) (raw_transactionIndex l) (raw_removed l).

Record RefusedNode := mkRefusedNode {}.
#[export] Instance RefusedNode_adapter : ChainAdapter RefusedNode := {
  chainId a := (a, Ok 1);
  latestBlock a := (a, Ok 20);
  blockTimestamp b a := (a, Ok b);
  getLogs from to a := (a, Ok [encode_log sample_mint; refused_log]);
}.

Example refused_log_is_pushed_again :
  let '(w', st) := run sample_clock sample_clock (fun _ => zeros 32) (replicate 4 false)
    (mkWorld (clear_cold (make_source (sample_cfg 0) 1)) (mkInstruments true 0 0 0 None None) None
       mkRefusedNode (mkListQueue 8 []) [] 0 []) in
  (st, next_block (source w'), length (pushed w')) = (Looping, 10, 4%nat).
Proof. vm_compute. reflexivity. Qed.

Lemma push_blocking_contract_witness :
  let q := mkListQueue 1 [mkSignal Unknown (mkSignalMeta 0 0 None None false 0) PMonostate] in
  let ev := mkSignal Swap (mkSignalMeta 0 0 None None false 0) PMonostate in
  push_retry ev [0%nat; 0%nat] q = ([], q, false) /\
  exists q', push_retry ev [1%nat] q = ([], q', true).
Proof.
  intros q ev. destruct (push_blocking_contract (Q := ListQueue) ev q 0 2 [])
    as [H1 (q' & H2 & _)]; [apply (le_n 1)|reflexivity|].
  split; [exact H1|]. exists q'. exact H2.
Defined.
