(* ===== verification/Json.v ===== *)
(** * The interface of the JSON library

    The code builds, prints, parses and inspects JSON values through a
    third-party library ([nlohmann::json]).  [Json] is what it uses of it and
    [JsonLaws] what the library documents about those operations; [json] is a
    data type with these laws, for the witnesses. *)
From S2P Require Import Prelude.

Class Json (J : Type) := {
  j_string : string -> J;
  j_bool : bool -> J;
  j_number : Z -> J;
  j_null : J;
  j_array : list J -> J;
  j_object : list (string * J) -> J;
  j_contains : string -> J -> bool;
  j_at : string -> J -> result J;
  j_is_null : J -> bool;
  j_is_array : J -> bool;
  j_is_object : J -> bool;
  j_elements : J -> list J;
  j_get_string : J -> result string;
  j_get_bool : J -> result bool;
  j_get_u64 : J -> result Z;
  j_dump : J -> result string;
  j_parse : string -> result J;
}.

(** The value of a key in an object's members. *)
Fixpoint member {J : Type} (k : string) (kvs : list (string * J)) : option J :=
  match kvs with
  | [] => None
  | (k', v) :: kvs' => if decide (k' = k) then Some v else member k kvs'
  end.

Class JsonLaws (J : Type) `{Json J} : Prop := {
  j_contains_object k kvs : j_contains k (j_object kvs) = true <-> is_Some (member k kvs);
  j_at_object k kvs v : member k kvs = Some v -> j_at k (j_object kvs) = Ok v;
  j_get_string_string s : j_get_string (j_string s) = Ok s;
  j_get_bool_bool b : j_get_bool (j_bool b) = Ok b;
  j_get_u64_number n : is_u64 n -> j_get_u64 (j_number n) = Ok n;
  j_is_object_object kvs : j_is_object (j_object kvs) = true;
  j_is_array_array l : j_is_array (j_array l) = true;
  j_elements_array l : j_elements (j_array l) = l;
  j_is_null_object kvs : j_is_null (j_object kvs) = false;
  j_contains_at k j : j_contains k j = true -> exists v, j_at k j = Ok v;
}.

(** [j["k"]] where the code has checked that the key is there. *)
Definition j_field `{Json J} (k : string) (j : J) : J :=
  match j_at k j with Ok v => v | Throw _ => j_null end.

(** [get<std::vector<std::string>>]: a value that is not an array throws. *)
Definition j_get_strings `{Json J} (j : J) : result (list string) :=
  if j_is_array j then mapM j_get_string (j_elements j)
  else Throw (LibraryError "type must be array").

Lemma j_get_strings_array `{!Json J, !JsonLaws J} (ss : list string) :
  j_get_strings (j_array (J := J) (j_string <$> ss)) = Ok ss.
Proof.
  unfold j_get_strings. rewrite j_is_array_array, j_elements_array.
  induction ss as [| s ss IH]; [done |]. rewrite fmap_cons. cbn [mapM].
  rewrite j_get_string_string. cbn [mbind result_bind]. by rewrite IH.
Qed.

(** [params.value("k", default)]: the default when the key is missing; a value
    that is not an object throws, and so does a value of another type. *)
Definition j_value {J X : Type} `{Json J} (get : J -> result X) (k : string) (default : X) (j : J)
    : result X :=
  if negb (j_is_object j) then Throw (LibraryError "cannot use value()")
  else if j_contains k j then j_at k j ≫= get
  else Ok default.

Inductive json :=
  | JNull
  | JBool (b : bool)
  | JNumber (n : Z)
  | JString (s : string)
  | JArray (l : list json)
  | JObject (kvs : list (string * json)).

(** The printer and the parser stay parameters. *)
Definition json_lib (dump : json -> result string) (parse : string -> result json) : Json json := {|
  j_string := JString; j_bool := JBool; j_number := JNumber; j_null := JNull;
  j_array := JArray; j_object := JObject;
  j_contains k j :=
    match j with JObject kvs => bool_decide (is_Some (member k kvs)) | _ => false end;
  j_at k j :=
    match j with
    | JObject kvs =>
        match member k kvs with
        | Some v => Ok v
        | None => Throw (LibraryError ("key '" +:+ k +:+ "' not found")%stdpp)
        end
    | _ => Throw (LibraryError "cannot use at()")
    end;
  j_is_null j := match j with JNull => true | _ => false end;
  j_is_array j := match j with JArray _ => true | _ => false end;
  j_is_object j := match j with JObject _ => true | _ => false end;
  j_elements j := match j with JArray l => l | _ => [] end;
  j_get_string j :=
    match j with JString s => Ok s | _ => Throw (LibraryError "type must be string") end;
  j_get_bool j :=
    match j with JBool b => Ok b | _ => Throw (LibraryError "type must be boolean") end;
  j_get_u64 j :=
    match j with JNumber n => Ok (u64 n) | _ => Throw (LibraryError "type must be number") end;
  j_dump := dump;
  j_parse := parse;
|}.

Lemma json_lib_laws dump parse : @JsonLaws json (json_lib dump parse).
Proof.
  split; cbn; try done.
  - intros k kvs. by rewrite bool_decide_eq_true.
  - by intros k kvs v ->.
  - intros n Hn. by rewrite u64_id.
  - intros k [| | | | |kvs]; try done. rewrite bool_decide_eq_true.
    intros [v ->]. by eexists.
Qed.
