(* ===== verification/Model.v ===== *)
(** * Blocks, transactions and logs as JSON

    Models of [include/sentinel/model.hpp] and [include/sentinel/json.hpp], which
    only a unit test uses. *)
From S2P Require Import Prelude Json.

Record BlockMeta := mkBlockMeta {
  bm_chain : string;
  bm_number : Z;
  bm_hash : string;
  bm_timestamp : Z;
}.

Record TxMeta := mkTxMeta {
  tm_hash : string;
  tm_from : string;
  tm_to : string;
  tm_nonce : Z;
}.

Record LogEvent := mkLogEvent {
  le_address : string;
  le_topics : list string;
  le_data : string;
  le_log_index : Z;
}.

Section ToJson.
Context {J : Type} `{Json J}.

Definition BlockMeta_to_json (b : BlockMeta) : J :=
  j_object [("chain", j_string (bm_chain b)); ("number", j_number (bm_number b));
            ("hash", j_string (bm_hash b)); ("timestamp", j_number (bm_timestamp b))].

Definition TxMeta_to_json (t : TxMeta) : J :=
  j_object [("hash", j_string (tm_hash t)); ("from", j_string (tm_from t));
            ("to", j_string (tm_to t)); ("nonce", j_number (tm_nonce t))].

Definition LogEvent_to_json (e : LogEvent) : J :=
  j_object [("address", j_string (le_address e)); ("topics", j_array (j_string <$> le_topics e));
            ("data", j_string (le_data e)); ("log_index", j_number (le_log_index e))].

(** ** Reading them back, as a consumer of the JSON does *)

Definition BlockMeta_from_json (j : J) : result BlockMeta :=
  chain ← j_at "chain" j ≫= j_get_string; number ← j_at "number" j ≫= j_get_u64;
  hash ← j_at "hash" j ≫= j_get_string; timestamp ← j_at "timestamp" j ≫= j_get_u64;
  Ok (mkBlockMeta chain number hash timestamp).

Definition TxMeta_from_json (j : J) : result TxMeta :=
  hash ← j_at "hash" j ≫= j_get_string; from ← j_at "from" j ≫= j_get_string;
  to ← j_at "to" j ≫= j_get_string; nonce ← j_at "nonce" j ≫= j_get_u64;
  Ok (mkTxMeta hash from to nonce).

Definition LogEvent_from_json (j : J) : result LogEvent :=
  address ← j_at "address" j ≫= j_get_string; topics ← j_at "topics" j ≫= j_get_strings;
  data ← j_at "data" j ≫= j_get_string; log_index ← j_at "log_index" j ≫= j_get_u64;
  Ok (mkLogEvent address topics data log_index).
End ToJson.

(** * Facts *)

Section Facts.
Context {J : Type} `{!Json J, !JsonLaws J}.

Ltac read_field := erewrite j_at_object by (cbn [member]; reflexivity); cbn [mbind result_bind].

Lemma BlockMeta_roundtrip b :
  is_u64 (bm_number b) -> is_u64 (bm_timestamp b) ->
  BlockMeta_from_json (BlockMeta_to_json (J := J) b) = Ok b.
Proof using JsonLaws0.
  intros Hn Ht. unfold BlockMeta_from_json, BlockMeta_to_json.
  repeat (read_field; rewrite ?j_get_string_string, ?j_get_u64_number by done; cbn [mbind result_bind]).
  by destruct b.
Qed.

Lemma TxMeta_roundtrip t : is_u64 (tm_nonce t) -> TxMeta_from_json (TxMeta_to_json (J := J) t) = Ok t.
Proof using JsonLaws0.
  intros Hn. unfold TxMeta_from_json, TxMeta_to_json.
  repeat (read_field; rewrite ?j_get_string_string, ?j_get_u64_number by done; cbn [mbind result_bind]).
  by destruct t.
Qed.

(** The index of a log is a 32-bit integer. *)
Lemma LogEvent_roundtrip e :
  0 <= le_log_index e < 2 ^ 32 -> LogEvent_from_json (LogEvent_to_json (J := J) e) = Ok e.
Proof using JsonLaws0.
  intros Hn. assert (is_u64 (le_log_index e)) by (unfold is_u64; lia).
  unfold LogEvent_from_json, LogEvent_to_json.
  repeat (read_field; rewrite ?j_get_strings_array, ?j_get_string_string, ?j_get_u64_number by done;
    cbn [mbind result_bind]).
  by destruct e.
Qed.
End Facts.
