(* ===== verification/Rpc.v ===== *)
(** * The JSON-RPC client

    Model of [src/rpc/JsonRpcClient.cpp].  The HTTP library (libcurl) is a
    parameter: [Network] says what a transfer may answer.  The instruments are
    kept as counters; a histogram is kept as its number of observations. *)
From stdpp Require Import relations.
From S2P Require Import Prelude Cxx Json.

(** [curl_easy_perform url headers body]: the POST of a body, with the result
    code, the HTTP status and the response. *)
Class Network (T : Type) := {
  curl_easy_init : T -> T * bool;
  curl_easy_perform : string -> list string -> string -> T -> T * (Z * Z * string);
  curl_easy_strerror : Z -> string;
  unix_now_ms : T -> Z;
}.

(** [duration_cast<seconds>(system_clock::now().time_since_epoch())]. *)
Definition unix_now_s {T : Type} `{Network T} (t : T) : Z := unix_now_ms t / 1000.

Definition CURLE_OK : Z := 0.

Record JsonRpcClient := mkJsonRpcClient {
  endpoint : string;
  has_metrics : bool;
  last_rpc_success : option Z;
  rpc_counters : gmap string Z;
  rpc_histograms : gmap string Z;
}.

Definition kMethods : list string :=
  ["eth_getLogs"; "eth_blockNumber"; "eth_getBlockByNumber"; "eth_chainId"].
Definition kStatuses : list string := ["success"; "error"].

(** The key of a method's counter. *)
Definition counter_key (method status : string) : string := (method +:+ ":" +:+ status)%stdpp.

Definition make_client (endpoint : string) (metrics : bool) : result JsonRpcClient :=
  if str_empty endpoint then Throw (RuntimeError "JsonRpcClient endpoint is empty")
  else Ok (mkJsonRpcClient endpoint metrics None
    (if metrics
     then for_each (fun method m =>
            for_each (fun status m => <[counter_key method status := 0]> m) kStatuses m) kMethods ∅
     else ∅)
    (if metrics then for_each (fun method m => <[method := 0]> m) kMethods ∅ else ∅)).

(** [if (auto *c = rpc_counter(status)) c->Increment();] *)
Definition count_call (method status : string) (c : JsonRpcClient) : JsonRpcClient :=
  mkJsonRpcClient (endpoint c) (has_metrics c) (last_rpc_success c)
    (alter Z.succ (counter_key method status) (rpc_counters c)) (rpc_histograms c).

Section Call.
Context {J T : Type} `{Json J} `{Network T}.

Definition rpc_request (method : string) (params : J) : J :=
  j_object [("jsonrpc", j_string "2.0"); ("id", j_number 1); ("method", j_string method);
            ("params", params)].

(** The metrics updates of a successful call. *)
Definition record_success (method : string) (now_s : Z) (c : JsonRpcClient) : JsonRpcClient :=
  if has_metrics c then
    let c := mkJsonRpcClient (endpoint c) (has_metrics c) (Some now_s) (rpc_counters c)
               (rpc_histograms c) in
    let c := count_call method "success" c in
    mkJsonRpcClient (endpoint c) (has_metrics c) (last_rpc_success c) (rpc_counters c)
      (alter Z.succ method (rpc_histograms c))
  else c.

Definition call (method : string) (params : J) (c : JsonRpcClient) (t : T)
    : JsonRpcClient * T * result J :=
  let '(t, curl) := curl_easy_init t in
  if negb curl then
    (count_call method "error" c, t, Throw (RuntimeError "curl_easy_init failed"))
  else
    match j_dump (rpc_request method params) with
    | Throw e => (c, t, Throw e)
    | Ok body =>
    let headers := ["Content-Type: application/json"] in
    let '(t, (rc, http_code, response)) := curl_easy_perform (endpoint c) headers body t in
    if negb (rc =? CURLE_OK) then
      (count_call method "error" c, t,
       Throw (RuntimeError ("curl_easy_perform failed: " +:+ curl_easy_strerror rc)%stdpp))
    else if negb (http_code =? 200) then
      (count_call method "error" c, t,
       Throw (RuntimeError ("JSON-RPC HTTP error: " +:+ std_to_string http_code +:+
                            ", response=" +:+ response)%stdpp))
    else
      match j_parse response with
      | Throw e =>
          (c, t, Throw (match e with
                        | NonStdException => NonStdException
                        | _ => RuntimeError ("JSON parse failed: " +:+ what e +:+
                                             ", response=" +:+ response)%stdpp
                        end))
      | Ok json =>
          if j_contains "error" json then
            (count_call method "error" c, t,
             text ← j_dump (j_field "error" json);
             Throw (RuntimeError ("JSON-RPC error: " +:+ text)%stdpp))
          else if negb (j_contains "result" json) then
            (count_call method "error" c, t,
             text ← j_dump json;
             Throw (RuntimeError ("JSON-RPC response missing result field: " +:+ text)%stdpp))
          else (record_success method (unix_now_s t) c, t, Ok json)
      end
    end.
End Call.

(** * Facts *)

Section Facts.
Context {J T : Type} `{!Json J, !Network T}.
Implicit Types (c : JsonRpcClient) (t : T) (j : J).

(** The answer of one transfer. *)
Definition answered (m : string) (params : J) c t t' (response : string) : Prop :=
  exists t1 body, curl_easy_init t = (t1, true) /\ j_dump (rpc_request m params) = Ok body /\
    curl_easy_perform (endpoint c) ["Content-Type: application/json"] body t1 =
      (t', (CURLE_OK, 200, response)).

(** A result: an answer that is JSON, with a result and no error. *)
Definition returned (m : string) (params : J) c t t' j : Prop :=
  exists response, answered m params c t t' response /\ j_parse response = Ok j /\
    j_contains "error" j = false /\ j_contains "result" j = true.

(** What the process does with the network moves it on. *)
Inductive net_call t : T -> Prop :=
  | calls_init : net_call t (curl_easy_init t).1
  | calls_perform url headers body : net_call t (curl_easy_perform url headers body t).1.
Definition net_later : T -> T -> Prop := rtc net_call.

Lemma call_kept m params c t c' t' r :
  call (J := J) m params c t = (c', t', r) -> endpoint c' = endpoint c /\ net_later t t'.
Proof.
  assert (net_later t (curl_easy_init t).1) as Hinit by apply rtc_once, calls_init.
  assert (forall body, net_later t (curl_easy_perform (endpoint c) ["Content-Type: application/json"] body
    (curl_easy_init t).1).1) as Hperform.
  { intros body. eapply rtc_r; [exact Hinit|apply calls_perform]. }
  unfold call, record_success, count_call. destruct (curl_easy_init t) as [t1 curl]. cbn [fst] in *.
  destruct (negb curl); [by intros [= <- <- _]|].
  destruct (j_dump _) as [body|]; [|by intros [= <- <- _]]. specialize (Hperform body).
  destruct (curl_easy_perform _ _ _ t1) as [t2 [[rc code] response]]. cbn [fst] in Hperform.
  repeat case_match; intros [= <- <- _]; done.
Qed.

(** The request could not be printed, or the answer was not JSON. *)
Definition unprintable_or_unparsable (m : string) (params : J) c t t' : Prop :=
  (exists x, curl_easy_init t = (t', true) /\ j_dump (rpc_request m params) = Throw x) \/
  (exists response x, answered m params c t t' response /\ j_parse response = Throw x).

Lemma call_Ok m params c t c' t' j :
  call m params c t = (c', t', Ok j) <->
  returned m params c t t' j /\ c' = record_success m (unix_now_s t') c.
Proof.
  unfold call, returned, answered. split.
  - destruct (curl_easy_init t) as [t1 []] eqn:Hinit; cbn [negb]; [|done].
    destruct (j_dump (rpc_request m params)) as [body|] eqn:Hbody; [|done].
    destruct (curl_easy_perform _ _ _ t1) as [t2 [[rc code] response]] eqn:Hperf.
    destruct (Z.eqb_spec rc CURLE_OK) as [->|]; cbn [negb]; [|done].
    destruct (Z.eqb_spec code 200) as [->|]; cbn [negb]; [|done].
    destruct (j_parse response) as [j'|e] eqn:Hp; [|done].
    destruct (j_contains "error" j') eqn:He; [intros [= _ _ Hx]; by apply bind_Ok_inv in Hx as (? & _ & [=])|].
    destruct (j_contains "result" j') eqn:Hr; [|intros [= _ _ Hx]; by apply bind_Ok_inv in Hx as (? & _ & [=])]. cbn [negb].
    intros [= <- <- <-]. split; [|done]. exists response. split; [by exists t1, body|done].
  - intros [(response & (t1 & body & -> & -> & ->) & -> & -> & ->) ->]. done.
Qed.

(** A call that throws has been counted as an error, but for those. *)
Lemma call_Throw m params c t c' t' e :
  call m params c t = (c', t', Throw e) ->
  c' = count_call m "error" c /\ ~ unprintable_or_unparsable m params c t t' \/
  c' = c /\ unprintable_or_unparsable m params c t t'.
Proof.
  unfold call, unprintable_or_unparsable, answered.
  destruct (curl_easy_init t) as [t1 []] eqn:Hinit; cbn [negb].
  2: { intros [= <- _ _]. left. split; [done|]. naive_solver. }
  destruct (j_dump (rpc_request m params)) as [body|x] eqn:Hbody.
  2: { intros [= <- <- _]. right. split; [done|]. left. by exists x. }
  destruct (curl_easy_perform _ _ _ t1) as [t2 [[rc code] response]] eqn:Hperf.
  destruct (Z.eqb_spec rc CURLE_OK) as [->|]; cbn [negb]; [|intros [= <- _ _]; left; split; [done|]].
  2: { intros [(? & _ & ?)|(? & ? & (? & ? & [= <-] & [= <-] & ?) & _)]; congruence. }
  destruct (Z.eqb_spec code 200) as [->|]; cbn [negb]; [|intros [= <- _ _]; left; split; [done|]].
  2: { intros [(? & _ & ?)|(? & ? & (? & ? & [= <-] & [= <-] & ?) & _)]; congruence. }
  destruct (j_parse response) as [j'|x] eqn:Hp.
  - assert (~ ((exists x, (t1, true) = (t', true) /\ Ok body = Throw x) \/
      (exists response x, (exists t0 body0, (t1, true) = (t0, true) /\ Ok body = Ok body0 /\
         curl_easy_perform (endpoint c) ["Content-Type: application/json"] body0 t0 =
           (t', (CURLE_OK, 200, response))) /\ j_parse response = Throw x))) as Hno.
    { intros [(? & _ & ?)|(? & ? & (? & ? & [= <-] & [= <-] & ?) & ?)]; congruence. }
    destruct (j_contains "error" j'); [intros [= <- _ _]; by left|].
    destruct (j_contains "result" j'); [done|]. cbn [negb]. intros [= <- _ _]; by left.
  - intros [= <- <- _]. right. split; [done|]. right. exists response, x.
    split; [by exists t1, body|done].
Qed.
End Facts.

(** The keys of a client's counters. *)
Definition method_keys (m : string) : list string := [counter_key m "success"; counter_key m "error"].

Lemma make_client_counters url c :
  make_client url true = Ok c ->
  forall m s, m ∈ kMethods -> s ∈ kStatuses -> rpc_counters c !! counter_key m s = Some 0.
Proof.
  unfold make_client. destruct (str_empty url); [done|]. intros [= <-] m s Hm Hs.
  cbn [rpc_counters].
  repeat (apply elem_of_cons in Hm as [->|Hm];
    [repeat (apply elem_of_cons in Hs as [->|Hs]; [vm_compute; reflexivity|]); by apply not_elem_of_nil in Hs|]).
  by apply not_elem_of_nil in Hm.
Qed.

Lemma status_keys_distinct m : counter_key m "success" <> counter_key m "error".
Proof.
  unfold counter_key. intros H. induction m as [|x m IH]; [done|].
  rewrite !str_cons_app in H. injection H as H. auto.
Qed.

(** * Properties *)

Section Properties.
Context {J T : Type} `{!Json J, !Network T}.

(** C38: a call makes at most one transfer and is accounted for: it returns [j] if and only
    if the transfer succeeds with HTTP status 200 and a body that parses to [j], which has a result
    and no error; then the method's success counter, its histogram and the last-success time are
    updated, and the error counter is not; when the call throws, the error counter is incremented by one and nothing
    else is, if and only if the handle could be made and printing or parsing was not what failed: a
    request that cannot be printed and a body that is not JSON are not counted at all. *)
Theorem rpc_call_accounting (m : string) (params : J) (c : JsonRpcClient) (t : T) (ok0 err0 : Z)
    (Hm : has_metrics c = true)
    (Hok : rpc_counters c !! counter_key m "success" = Some ok0)
    (Herr : rpc_counters c !! counter_key m "error" = Some err0) :
  let '(c', t', r) := call m params c t in
  (forall j, r = Ok j <-> returned m params c t t' j) /\
  match r with
  | Ok j =>
      last_rpc_success c' = Some (unix_now_s t') /\
      rpc_counters c' !! counter_key m "success" = Some (ok0 + 1) /\
      rpc_counters c' !! counter_key m "error" = Some err0 /\
      rpc_histograms c' = alter Z.succ m (rpc_histograms c)
  | Throw _ =>
      last_rpc_success c' = last_rpc_success c /\ rpc_histograms c' = rpc_histograms c /\
      rpc_counters c' !! counter_key m "success" = Some ok0 /\
      (unprintable_or_unparsable m params c t t' /\
         rpc_counters c' !! counter_key m "error" = Some err0 \/
       ~ unprintable_or_unparsable m params c t t' /\
         rpc_counters c' !! counter_key m "error" = Some (err0 + 1))
  end.
Proof.
  pose proof (status_keys_distinct m) as Hne.
  destruct (call m params c t) as [[c' t'] r] eqn:Hc. split.
  { intros j. split.
    - intros ->. by apply call_Ok in Hc as [Hr _].
    - intros Hr. assert (call m params c t = (record_success m (unix_now_s t') c, t', Ok j)) as Hj
        by by apply call_Ok. congruence. }
  destruct r as [j|e].
  - apply call_Ok in Hc as [_ ->].
    unfold record_success, count_call. rewrite Hm. cbn [last_rpc_success rpc_counters].
    split_and!; [done|by rewrite lookup_alter_eq, Hok|by rewrite lookup_alter_ne|done].
  - apply call_Throw in Hc as [[-> Hp]|[-> Hp]].
    + unfold count_call. cbn [last_rpc_success rpc_counters rpc_histograms]. split_and!; [done|done| |right].
      * by rewrite lookup_alter_ne.
      * by rewrite lookup_alter_eq, Herr.
    + split_and!; [done..|]. by left.
Qed.
End Properties.
