(* ===== verification/Adapter.v ===== *)
(** * The EVM chain adapters

    Models of [src/chains/arbitrum/ArbitrumAdapter.cpp] (the [evm_] operations)
    and [src/chains/ethereum/EthereumAdapter.cpp] (the [eth_] operations), two
    copies that are shown to agree, and of the JSON decoding of [RawLog]
    ([include/sentinel/events/RawLog.hpp]).  An adapter holds a reference to the
    RPC client, so its state is the client and the network; [adapter_chain] is
    its class.  It implements the interface of EventSource.v. *)
From stdpp Require Import relations.
From S2P Require Import Prelude Cxx Hex Signal Json Rpc PipelineInterface.
From S2P Require Import Normalize Health EventSource.
From Stdlib Require Import Ascii.

Inductive EvmChain := Arbitrum | Ethereum.

Definition chain_name (c : EvmChain) : string :=
  match c with Arbitrum => "arbitrum" | Ethereum => "ethereum" end.

(** "0x..." to [uint64_t], by [std::stoull]: what follows the digits is ignored. *)
Definition parseHexU64 (hex : string) : result Z :=
  match strip_0x hex with
  | Some ds =>
      if str_empty ds
      then Throw (RuntimeError ("Expected 0x-prefixed hex string, got: " +:+ hex)%stdpp)
      else stoull16 ds
  | None => Throw (RuntimeError ("Expected 0x-prefixed hex string, got: " +:+ hex)%stdpp)
  end.

Section Adapter.
Context {J T : Type} `{Json J} `{Network T}.

(** The fields are read in the order of the macro; every one must be there. *)
Definition RawLog_from_json (j : J) : result RawLog :=
  address ← j_at "address" j ≫= j_get_string;
  topics ← j_at "topics" j ≫= j_get_strings;
  data ← j_at "data" j ≫= j_get_string;
  blockNumber ← j_at "blockNumber" j ≫= j_get_string;
  transactionHash ← j_at "transactionHash" j ≫= j_get_string;
  logIndex ← j_at "logIndex" j ≫= j_get_string;
  transactionIndex ← j_at "transactionIndex" j ≫= j_get_string;
  removed ← j_at "removed" j ≫= j_get_bool;
  Ok (mkRawLog address topics data blockNumber transactionHash logIndex transactionIndex removed).

Record EvmAdapter := mkEvmAdapter {
  adapter_chain : EvmChain;
  rpc : JsonRpcClient;
  network : T;
}.

(** [rpc_.call(method, params)], the default parameters being an empty array. *)
Definition rpc_call (method : string) (params : J) (a : EvmAdapter) : EvmAdapter * result J :=
  let '(c, t, r) := call method params (rpc a) (network a) in
  (mkEvmAdapter (adapter_chain a) c t, r).

Definition evm_name (a : EvmAdapter) : string := chain_name (adapter_chain a).

Definition evm_chainId (a : EvmAdapter) : EvmAdapter * result Z :=
  let '(a, r) := rpc_call "eth_chainId" (j_array []) a in
  (a, res ← r;
      if negb (j_contains "result" res)
      then Throw (RuntimeError "eth_chainId: missing result field")
      else hex ← j_at "result" res ≫= j_get_string; parseHexU64 hex).

Definition evm_latestBlock (a : EvmAdapter) : EvmAdapter * result Z :=
  let '(a, r) := rpc_call "eth_blockNumber" (j_array []) a in
  (a, res ← r;
      if negb (j_contains "result" res)
      then Throw (RuntimeError "eth_blockNumber: missing result field")
      else hex ← j_at "result" res ≫= j_get_string; parseHexU64 hex).

Definition evm_blockTimestamp (block_number : Z) (a : EvmAdapter) : EvmAdapter * result Z :=
  let params := j_array [j_string (to_hex_quantity block_number); j_bool false] in
  let '(a, r) := rpc_call "eth_getBlockByNumber" params a in
  (a, res ← r;
      if negb (j_contains "result" res) || j_is_null (j_field "result" res)
      then Throw (RuntimeError "eth_getBlockByNumber: missing result")
      else
        let result := j_field "result" res in
        if negb (j_contains "timestamp" result)
        then Throw (RuntimeError "eth_getBlockByNumber: missing timestamp")
        else hex ← j_get_string (j_field "timestamp" result); parseHexU64 hex).

Definition log_filter (from_block to_block : Z) : J :=
  j_object [("fromBlock", j_string (to_hex_quantity from_block));
            ("toBlock", j_string (to_hex_quantity to_block))].

Definition evm_getLogs (from_block to_block : Z) (a : EvmAdapter) : EvmAdapter * result (list RawLog) :=
  if to_block <? from_block then (a, Throw (RuntimeError "getLogs: to_block < from_block"))
  else
    let '(a, r) := rpc_call "eth_getLogs" (j_array [log_filter from_block to_block]) a in
    (a, res ← r;
        if negb (j_contains "result" res) || negb (j_is_array (j_field "result" res))
        then Throw (RuntimeError "eth_getLogs: missing result array")
        else mapM RawLog_from_json (j_elements (j_field "result" res))).

(** *** [EthereumAdapter] *)

Definition eth_parseHexU64 (hex : string) : result Z :=
  if (String.length hex <? 3)%nat || negb (String.prefix "0x" hex)
  then Throw (RuntimeError ("Expected 0x-prefixed hex string, got: " +:+ hex)%stdpp)
  else stoull16 (String.substring 2 (String.length hex - 2) hex).

Definition eth_chainId (a : EvmAdapter) : EvmAdapter * result Z :=
  match rpc_call "eth_chainId" (j_array []) a with
  | (a, Throw e) => (a, Throw e)
  | (a, Ok res) =>
      if j_contains "result" res
      then (a, hex ← j_at "result" res ≫= j_get_string; eth_parseHexU64 hex)
      else (a, Throw (RuntimeError "eth_chainId: missing result field"))
  end.

Definition eth_latestBlock (a : EvmAdapter) : EvmAdapter * result Z :=
  match rpc_call "eth_blockNumber" (j_array []) a with
  | (a, Throw e) => (a, Throw e)
  | (a, Ok res) =>
      if j_contains "result" res
      then (a, hex ← j_at "result" res ≫= j_get_string; eth_parseHexU64 hex)
      else (a, Throw (RuntimeError "eth_blockNumber: missing result field"))
  end.

Definition eth_blockTimestamp (block_number : Z) (a : EvmAdapter) : EvmAdapter * result Z :=
  match rpc_call "eth_getBlockByNumber"
          (j_array [j_string (to_hex_quantity block_number); j_bool false]) a with
  | (a, Throw e) => (a, Throw e)
  | (a, Ok res) =>
      if negb (j_contains "result" res) || j_is_null (j_field "result" res)
      then (a, Throw (RuntimeError "eth_getBlockByNumber: missing result"))
      else
        let result := j_field "result" res in
        if j_contains "timestamp" result
        then (a, hex ← j_get_string (j_field "timestamp" result); eth_parseHexU64 hex)
        else (a, Throw (RuntimeError "eth_getBlockByNumber: missing timestamp"))
  end.

(** [for (const auto& jlog : arr) out.push_back(jlog.get<RawLog>())]. *)
Fixpoint eth_push_logs (out : list RawLog) (arr : list J) : result (list RawLog) :=
  match arr with
  | [] => Ok out
  | jlog :: arr =>
      match RawLog_from_json jlog with
      | Ok l => eth_push_logs (out ++ [l]) arr
      | Throw e => Throw e
      end
  end.

Definition eth_getLogs (from_block to_block : Z) (a : EvmAdapter) : EvmAdapter * result (list RawLog) :=
  if to_block <? from_block then (a, Throw (RuntimeError "getLogs: to_block < from_block"))
  else
    match rpc_call "eth_getLogs" (j_array [log_filter from_block to_block]) a with
    | (a, Throw e) => (a, Throw e)
    | (a, Ok res) =>
        if negb (j_contains "result" res) || negb (j_is_array (j_field "result" res))
        then (a, Throw (RuntimeError "eth_getLogs: missing result array"))
        else (a, eth_push_logs [] (j_elements (j_field "result" res)))
    end.

(** The virtual calls. *)
#[export] Instance EvmAdapter_ChainAdapter : ChainAdapter EvmAdapter := {
  chainId a := match adapter_chain a with Arbitrum => evm_chainId a | Ethereum => eth_chainId a end;
  latestBlock a :=
    match adapter_chain a with Arbitrum => evm_latestBlock a | Ethereum => eth_latestBlock a end;
  blockTimestamp n a :=
    match adapter_chain a with Arbitrum => evm_blockTimestamp n a | Ethereum => eth_blockTimestamp n a end;
  getLogs from to a :=
    match adapter_chain a with Arbitrum => evm_getLogs from to a | Ethereum => eth_getLogs from to a end;
}.

(** The two classes. *)
Definition ArbitrumAdapter (c : JsonRpcClient) (t : T) : EvmAdapter := mkEvmAdapter Arbitrum c t.
Definition EthereumAdapter (c : JsonRpcClient) (t : T) : EvmAdapter := mkEvmAdapter Ethereum c t.

(** ** The JSON of a log, as a node sends it *)

(** An object that has the members of the struct; it may have others, like the
    [blockHash] and [blockTimestamp] that nodes send. *)
Definition renders_log (l : RawLog) (j : J) : Prop :=
  exists kvs, j = j_object kvs /\
    member "address" kvs = Some (j_string (raw_address l)) /\
    member "topics" kvs = Some (j_array (j_string <$> raw_topics l)) /\
    member "data" kvs = Some (j_string (raw_data l)) /\
    member "blockNumber" kvs = Some (j_string (raw_blockNumber l)) /\
    member "transactionHash" kvs = Some (j_string (raw_transactionHash l)) /\
    member "logIndex" kvs = Some (j_string (raw_logIndex l)) /\
    member "transactionIndex" kvs = Some (j_string (raw_transactionIndex l)) /\
    member "removed" kvs = Some (j_bool (raw_removed l)).
End Adapter.
Arguments EvmAdapter : clear implicits.

(** * Facts *)

Lemma parseHexU64_quantity v : is_u64 v -> parseHexU64 (to_hex_quantity v) = Ok v.
Proof.
  intros Hv. unfold parseHexU64, to_hex_quantity, format_hex.
  rewrite (proj2 (strip_0x_Some _ (print_base 16 v))) by done.
  destruct (str_empty (print_base 16 v)) eqn:He; [|by apply stoull16_print].
  pose proof (stoull16_print v Hv) as Hs. destruct (print_base 16 v); [|done].
  by vm_compute in Hs.
Qed.

Section Facts.
Context {J T : Type} `{!Json J, !JsonLaws J, !Network T}.

Lemma renders_log_from_json (l : RawLog) (j : J) : renders_log l j -> RawLog_from_json j = Ok l.
Proof using JsonLaws0.
  intros (kvs & -> & ? & ? & ? & ? & ? & ? & ? & ?). unfold RawLog_from_json.
  repeat (erewrite j_at_object by eassumption; cbn [mbind result_bind];
    rewrite ?j_get_string_string, ?j_get_strings_array, ?j_get_bool_bool; cbn [mbind result_bind]).
  by destruct l.
Qed.

Lemma renders_logs_from_json (ls : list RawLog) (js : list J) :
  Forall2 renders_log ls js -> mapM RawLog_from_json js = Ok ls.
Proof using JsonLaws0.
  induction 1 as [|l j ls js Hj _ IH]; [done|]. cbn [mapM].
  rewrite (renders_log_from_json l j) by done. cbn [mbind result_bind]. by rewrite IH.
Qed.

Lemma rpc_call_Ok m params (a a' : EvmAdapter T) (j : J) :
  rpc_call m params a = (a', Ok j) -> returned m params (rpc a) (network a) (network a') j.
Proof.
  unfold rpc_call. destruct (call m params (rpc a) (network a)) as [[c t] r] eqn:Hc.
  intros [= <- ->]. by apply call_Ok in Hc as [? _].
Qed.

(** A call leaves the adapter with the same endpoint. *)
Definition same_node (a a' : EvmAdapter T) : Prop :=
  endpoint (rpc a') = endpoint (rpc a) /\ net_later (network a) (network a').

Lemma rpc_call_kept m (params : J) (a : EvmAdapter T) : same_node a (rpc_call m params a).1.
Proof.
  unfold rpc_call, same_node. destruct (call m params (rpc a) (network a)) as [[c t] r] eqn:Hc.
  by apply call_kept in Hc.
Qed.

(** The two copies agree. *)
Lemma substring_whole s : String.substring 0 (String.length s) s = s.
Proof. induction s as [| c s IH]; [done |]. cbn. by rewrite IH. Qed.

Lemma eth_parseHexU64_eq hex : eth_parseHexU64 hex = parseHexU64 hex.
Proof.
  unfold eth_parseHexU64, parseHexU64.
  destruct hex as [| c1 [| c2 ds]]; [done..|].
  assert (String.prefix "0x" (String c1 (String c2 ds)) = (Ascii.eqb c1 "0" && Ascii.eqb c2 "x")%char) as Hp.
  { cbn [String.prefix].
    destruct (Ascii.eqb_spec c1 "0"), (Ascii.eqb_spec c2 "x"), (ascii_dec "0" c1), (ascii_dec "x" c2);
      try congruence; by destruct ds. }
  rewrite Hp. cbn [strip_0x]. destruct (_ && _); [| by rewrite orb_true_r]. rewrite orb_false_r.
  destruct ds as [| c3 ds]; [done |]. cbn [String.length Nat.ltb Nat.leb str_empty Nat.sub String.substring].
  by rewrite substring_whole.
Qed.

Lemma eth_push_logs_eq out (arr : list J) :
  eth_push_logs out arr = ls ← mapM RawLog_from_json arr; Ok (out ++ ls).
Proof.
  revert out; induction arr as [| j arr IH]; intros out; cbn [eth_push_logs mapM].
  { cbn. by rewrite app_nil_r. }
  destruct (RawLog_from_json j) as [l | e]; [| done]. cbn [mbind result_bind]. rewrite IH.
  destruct (mapM _ arr) as [ls | e]; [| done]. cbn [mbind result_bind]. by rewrite <- app_assoc.
Qed.

Lemma getLogs_evm from to (a : EvmAdapter T) : getLogs from to a = evm_getLogs (J := J) from to a.
Proof.
  cbn. destruct (adapter_chain a); [done |]. unfold eth_getLogs, evm_getLogs.
  destruct (_ <? _); [done |]. destruct (rpc_call _ _ a) as [a' [j | e]]; [| done].
  cbn [mbind result_bind]. destruct (_ || _); [done |]. rewrite eth_push_logs_eq.
  by destruct (mapM _ _).
Qed.

Ltac same_decoding :=
  destruct (j_contains _ _); [| done]; cbn [negb];
  match goal with |- context [(_, mbind _ ?r)] => destruct r as [hex | ?]; [| done] end;
  cbn [mbind result_bind]; by rewrite eth_parseHexU64_eq.

Lemma latestBlock_evm (a : EvmAdapter T) : latestBlock a = evm_latestBlock (J := J) a.
Proof.
  cbn. destruct (adapter_chain a); [done |]. unfold eth_latestBlock, evm_latestBlock.
  destruct (rpc_call _ _ a) as [a' [j | e]]; [| done]. cbn [mbind result_bind]. same_decoding.
Qed.

Lemma chainId_evm (a : EvmAdapter T) : chainId a = evm_chainId (J := J) a.
Proof.
  cbn. destruct (adapter_chain a); [done |]. unfold eth_chainId, evm_chainId.
  destruct (rpc_call _ _ a) as [a' [j | e]]; [| done]. cbn [mbind result_bind]. same_decoding.
Qed.

Lemma blockTimestamp_evm n (a : EvmAdapter T) : blockTimestamp n a = evm_blockTimestamp (J := J) n a.
Proof.
  cbn. destruct (adapter_chain a); [done |]. unfold eth_blockTimestamp, evm_blockTimestamp.
  destruct (rpc_call _ _ a) as [a' [j | e]]; [| done]. cbn [mbind result_bind]. destruct (_ || _); [done |].
  same_decoding.
Qed.

Lemma adapter_call_kept (a a' : EvmAdapter T) : adapter_call a a' -> same_node a a'.
Proof.
  intros [|n|from to].
  - rewrite latestBlock_evm. unfold evm_latestBlock.
    pose proof (rpc_call_kept "eth_blockNumber" (j_array (J := J) []) a). by destruct (rpc_call _ _ a).
  - rewrite blockTimestamp_evm. unfold evm_blockTimestamp.
    match goal with |- context [rpc_call ?m ?p a] => pose proof (rpc_call_kept m p a); by destruct (rpc_call m p a) end.
  - rewrite getLogs_evm. unfold evm_getLogs. destruct (_ <? _); [done|].
    match goal with |- context [rpc_call ?m ?p a] => pose proof (rpc_call_kept m p a); by destruct (rpc_call m p a) end.
Qed.

Lemma later_kept (a a' : EvmAdapter T) : later a a' -> same_node a a'.
Proof.
  induction 1 as [a|a a1 a2 [H1 H2]%adapter_call_kept _ [H3 H4]]; [done|].
  split; [congruence|by etrans].
Qed.

(** The node behind [url] answers as the Ethereum JSON-RPC specification says of
    its chain: a head is a quantity; once a head has been named, a result for a
    range of blocks up to it is the array of their logs, in order, at any later
    time.  It may fail to answer, and nothing is said of blocks beyond the
    head. *)
Record node_serves (url : string) (blocks : Z -> list RawLog) : Prop := {
  node_head (c : JsonRpcClient) (t t' : T) (j : J) :
    endpoint c = url -> returned "eth_blockNumber" (j_array []) c t t' j ->
    exists h, 0 <= h < 2 ^ 63 /\ j_at "result" j = Ok (j_string (to_hex_quantity h));
  node_logs (c c' : JsonRpcClient) (t1 t2 t t' : T) (j1 j : J) h from to :
    endpoint c = url -> returned "eth_blockNumber" (j_array []) c t1 t2 j1 ->
    j_at "result" j1 = Ok (j_string (to_hex_quantity h)) -> net_later t2 t ->
    endpoint c' = url -> 0 <= from <= to -> to <= h ->
    returned "eth_getLogs" (j_array [log_filter from to]) c' t t' j ->
    exists js, j_at "result" j = Ok (j_array js) /\
      Forall2 renders_log (chain_logs blocks from (to + 1)) js;
}.

(** A call throws what it could not return. *)
Lemma rpc_call_returned m params (a : EvmAdapter T) t' (j : J) :
  returned m params (rpc a) (network a) t' j ->
  rpc_call m params a = (mkEvmAdapter (adapter_chain a) (record_success m (unix_now_s t') (rpc a)) t', Ok j).
Proof.
  intros Hret. unfold rpc_call.
  by rewrite (proj2 (call_Ok _ _ _ _ (record_success m (unix_now_s t') (rpc a)) _ _) (conj Hret eq_refl)).
Qed.

Lemma latestBlock_returned url blocks (a : EvmAdapter T) t' (j : J) :
  node_serves url blocks -> endpoint (rpc a) = url ->
  returned "eth_blockNumber" (j_array []) (rpc a) (network a) t' j ->
  exists h, 0 <= h < 2 ^ 63 /\ j_at "result" j = Ok (j_string (to_hex_quantity h)) /\
    (latestBlock a).2 = Ok h.
Proof using JsonLaws0.
  intros Hnode Hurl Hret. destruct (node_head _ _ Hnode _ _ _ _ Hurl Hret) as (h & Hh & Hj).
  exists h. split_and!; [lia|lia|done|]. rewrite latestBlock_evm. unfold evm_latestBlock.
  rewrite (rpc_call_returned _ _ _ _ _ Hret). destruct Hret as (_ & _ & _ & _ & Hr).
  cbn [snd mbind result_bind]. rewrite Hr, Hj. cbn [negb mbind result_bind].
  rewrite j_get_string_string. cbn [mbind result_bind]. by apply parseHexU64_quantity; unfold is_u64; lia.
Qed.

Lemma latestBlock_Ok url blocks (a : EvmAdapter T) h :
  node_serves url blocks -> endpoint (rpc a) = url -> (latestBlock a).2 = Ok h ->
  0 <= h < 2 ^ 63 /\
  exists j, returned "eth_blockNumber" (j_array []) (rpc a) (network a) (network (latestBlock a).1) j /\
    j_at "result" j = Ok (j_string (J := J) (to_hex_quantity h)).
Proof using JsonLaws0.
  intros Hnode Hurl Hh.
  assert (exists j, returned "eth_blockNumber" (j_array (J := J) []) (rpc a) (network a)
    (network (latestBlock a).1) j) as [j Hret].
  { rewrite latestBlock_evm in Hh |- *. unfold evm_latestBlock in *.
    destruct (rpc_call _ _ a) as [a' [j|e]] eqn:Hc; [|done]. exists j. by apply rpc_call_Ok in Hc. }
  destruct (latestBlock_returned _ _ _ _ _ Hnode Hurl Hret) as (h' & ? & Hj & Hh').
  assert (h' = h) as <- by congruence. split; [done|]. by exists j.
Qed.

(** Where the node has answered, the adapter returns the logs. *)
Lemma getLogs_returned url blocks (a0 a : EvmAdapter T) h from to t' (j : J) :
  node_serves url blocks -> endpoint (rpc a0) = url -> announced a0 h a ->
  0 <= from <= to -> to <= h ->
  returned "eth_getLogs" (j_array [log_filter from to]) (rpc a) (network a) t' j ->
  (getLogs from to a).2 = Ok (chain_logs blocks from (to + 1)).
Proof using JsonLaws0.
  intros Hnode Hurl (b & [Hb _]%later_kept & Hh & [Ha Hlater]%later_kept) Hle Hto Hret.
  rewrite Hurl in Hb. destruct (latestBlock_Ok _ _ _ _ Hnode Hb Hh) as (_ & j1 & Hret1 & Hj1).
  assert (endpoint (rpc a) = url) as Hurla.
  { rewrite Ha. destruct (adapter_call_kept b (latestBlock b).1) as [He _]; [constructor|]. congruence. }
  destruct (node_logs _ _ Hnode _ _ _ _ _ _ _ _ _ _ _ Hb Hret1 Hj1 Hlater Hurla Hle Hto Hret)
    as (js & Hjs & Hall).
  rewrite getLogs_evm. unfold evm_getLogs. rewrite (proj2 (Z.ltb_ge to from)) by lia.
  rewrite (rpc_call_returned _ _ _ _ _ Hret). destruct Hret as (_ & _ & _ & _ & Hr).
  cbn [snd mbind result_bind]. rewrite Hr. cbn [negb orb]. unfold j_field.
  by rewrite Hjs, j_is_array_array, j_elements_array, (renders_logs_from_json _ _ Hall).
Qed.

Lemma getLogs_Ok url blocks (a0 a : EvmAdapter T) h from to logs :
  node_serves url blocks -> endpoint (rpc a0) = url -> announced a0 h a ->
  0 <= from <= to -> to <= h -> (getLogs from to a).2 = Ok logs ->
  logs = chain_logs blocks from (to + 1).
Proof using JsonLaws0.
  intros Hnode Hurl Hann Hle Hto Hlogs.
  assert (exists t' j, returned "eth_getLogs" (j_array (J := J) [log_filter from to]) (rpc a) (network a) t' j)
    as (t' & j & Hret).
  { rewrite getLogs_evm in Hlogs. unfold evm_getLogs in Hlogs.
    rewrite (proj2 (Z.ltb_ge to from)) in Hlogs by lia.
    destruct (rpc_call _ _ a) as [a' [j|e]] eqn:Hc; [|done]. apply rpc_call_Ok in Hc. eauto. }
  rewrite (getLogs_returned _ _ _ _ _ _ _ _ _ Hnode Hurl Hann Hle Hto Hret) in Hlogs. congruence.
Qed.

(** Together: what the event source asks of its chain. *)
Lemma evm_serves (blocks : Z -> list RawLog) (a0 : EvmAdapter T)
    (Hnode : node_serves (endpoint (rpc a0)) blocks) :
  serves a0 blocks.
Proof using JsonLaws0.
  split.
  - intros a h [Ha _]%later_kept Hh. by destruct (latestBlock_Ok _ _ a h Hnode Ha Hh).
  - intros h a from to logs Hann Hle Hto. by eapply getLogs_Ok.
Qed.
End Facts.

(** * Properties *)

Section Properties.
Context {J T : Type} `{!Json J, !JsonLaws J, !Network T}.

(** C23: over a node that answers according to the JSON-RPC specification (or not
    at all), the adapter fulfils what the event source asks of its chain: a head is the block number
    the node named, and once it has been named, [getLogs] for blocks up to it either throws or has
    decoded exactly their logs, in order, with every field of [RawLog] as the node sent it.  It throws
    only when the node has not answered: whenever it has, [latestBlock] returns, and [getLogs] too,
    whatever other members the log objects have. *)
Theorem evm_adapter_serves (blocks : Z -> list RawLog) (a0 : EvmAdapter T)
    (Hnode : node_serves (J := J) (T := T) (endpoint (rpc a0)) blocks) :
  serves a0 blocks /\
  (forall a t' j, later a0 a ->
     returned "eth_blockNumber" (j_array []) (rpc a) (network a) t' j ->
     exists h, j_at "result" j = Ok (j_string (to_hex_quantity h)) /\ (latestBlock a).2 = Ok h) /\
  (forall a h from to t' j, announced a0 h a -> 0 <= from <= to -> to <= h ->
     returned "eth_getLogs" (j_array [log_filter from to]) (rpc a) (network a) t' j ->
     (getLogs from to a).2 = Ok (chain_logs blocks from (to + 1))).
Proof using JsonLaws0.
  split_and!.
  - exact (evm_serves blocks a0 Hnode).
  - intros a t' j [Ha _]%later_kept Hret.
    destruct (latestBlock_returned _ _ a t' j Hnode Ha Hret) as (h & _ & ? & ?). by exists h.
  - intros a h from to t' j. by apply (getLogs_returned (endpoint (rpc a0)) blocks a0).
Qed.
End Properties.

(** ** Witnesses: a node serving the sample chain *)

Definition sample_body (j : json) : string :=
  match j with
  | JObject kvs =>
      match member "method" kvs, member "params" kvs with
      | Some (JString m), Some (JArray [JObject f]) =>
          match member "fromBlock" f, member "toBlock" f with
          | Some (JString x), Some (JString y) => (m +:+ ":" +:+ x +:+ ":" +:+ y)%stdpp
          | _, _ => m
          end
      | Some (JString m), _ => m
      | _, _ => ""
      end
  | _ => ""
  end.

(** A log as a node sends it, with members that [RawLog] does not have. *)
Definition sample_log_json (l : RawLog) : json :=
  JObject [("address", JString (raw_address l)); ("blockHash", JString "0x1b");
    ("blockNumber", JString (raw_blockNumber l)); ("blockTimestamp", JString "0x66");
    ("data", JString (raw_data l)); ("logIndex", JString (raw_logIndex l));
    ("removed", JBool (raw_removed l)); ("topics", JArray (JString <$> raw_topics l));
    ("transactionHash", JString (raw_transactionHash l));
    ("transactionIndex", JString (raw_transactionIndex l))].

Definition sample_parse (s : string) : result json :=
  match rsplit_at ":"%char s with
  | None => Ok (JObject [("result", JString (to_hex_quantity 20))])
  | Some (rest, y) =>
      match rsplit_at ":"%char rest with
      | None => Throw (LibraryError "syntax error")
      | Some (_, x) =>
          from ← parseHexU64 x; to ← parseHexU64 y;
          Ok (JObject [("result",
            JArray (sample_log_json <$> chain_logs sample_blocks from (to + 1)))])
      end
  end.

#[local] Instance sample_json : Json json := json_lib (fun j => Ok (sample_body j)) sample_parse.
#[local] Instance sample_json_laws : JsonLaws json.
Proof. apply json_lib_laws. Qed.

(** Every request is answered with its own body. *)
Record EchoNetwork := mkEchoNetwork {}.
#[local] Instance EchoNetwork_network : Network EchoNetwork := {
  curl_easy_init t := (t, true);
  curl_easy_perform url headers body t := (t, (CURLE_OK, 200, body));
  curl_easy_strerror rc := "";
  unix_now_ms t := 1700000000500;
}.

Lemma parseHexU64_quantity_inv v f : parseHexU64 (to_hex_quantity v) = Ok f -> f = v.
Proof.
  intros H. destruct (decide (is_u64 v)) as [Hv|Hv].
  { rewrite parseHexU64_quantity in H by done. congruence. }
  unfold parseHexU64, to_hex_quantity, format_hex in H.
  rewrite (proj2 (strip_0x_Some _ (print_base 16 v))) in H by done.
  destruct (str_empty (print_base 16 v)) eqn:He; [done|].
  destruct (decide (0 <= v)) as [Hpos|Hneg].
  - pose proof (digits_value_print_base 16 ltac:(lia) v Hpos) as Hd.
    apply (stoull16_value _ v) in H; [done|done|done].
  - assert (print_base 16 v = "") as Hp.
    { unfold print_base. rewrite (proj2 (Z.eqb_neq v 0)) by lia.
      destruct (Z.to_nat _); [done|]. cbn [digits_go]. by rewrite (proj2 (Z.leb_le v 0)) by lia. }
    by rewrite Hp in He.
Qed.

Lemma hex_quantity_no_colon v : has_char ":"%char (to_hex_quantity v) = false.
Proof.
  unfold to_hex_quantity, format_hex. rewrite has_char_app.
  rewrite (print_base_not_sep 16); [done|lia|]. intros d Hd. by split_digit d.
Qed.

Lemma sample_logs_rendered ls : Forall2 (renders_log (J := json)) ls (sample_log_json <$> ls).
Proof. induction ls as [|l ls IH]; constructor; [|done]. by eexists. Qed.

Lemma sample_node_serves url : node_serves (J := json) (T := EchoNetwork) url sample_blocks.
Proof.
  split.
  - intros c t t' j _ (response & (t1 & body & _ & Hbody & Hperf) & Hparse & _).
    injection Hbody as <-. apply pair_eq in Hperf as [_ [= <-]]. cbn in Hparse. injection Hparse as <-.
    exists 20. split; [lia|reflexivity].
  - intros c c' t1 t2 t t' j1 j h from to _ _ _ _ _ _ _
      (response & (t3 & body & _ & Hbody & Hperf) & Hparse & _).
    injection Hbody as <-. apply pair_eq in Hperf as [_ [= <-]]. cbn in Hparse. unfold sample_parse in Hparse.
    rewrite (proj2 (rsplit_at_spec ":"%char _ ("eth_getLogs:" +:+ to_hex_quantity from)%stdpp
      (to_hex_quantity to))) in Hparse by (split; [by rewrite str_app_assoc|apply hex_quantity_no_colon]).
    rewrite (proj2 (rsplit_at_spec ":"%char _ "eth_getLogs" (to_hex_quantity from))) in Hparse
      by (split; [done|apply hex_quantity_no_colon]).
    invert_result. repeat match goal with H : parseHexU64 _ = Ok _ |- _ =>
      apply parseHexU64_quantity_inv in H; subst end.
    eexists. split; [reflexivity|apply sample_logs_rendered].
Qed.

Lemma evm_adapter_serves_witness :
  exists c, make_client "http://node" true = Ok c /\
    serves (ArbitrumAdapter c mkEchoNetwork) sample_blocks /\
    (evm_getLogs (J := json) 10 12 (ArbitrumAdapter c (mkEchoNetwork))).2 =
      Ok [encode_log sample_mint].
Proof.
  eexists. split; [reflexivity|]. split; [|vm_compute; reflexivity].
  match goal with |- serves ?a0 _ =>
    exact (proj1 (evm_adapter_serves sample_blocks a0 (sample_node_serves _))) end.
Defined.

Lemma rpc_call_accounting_witness :
  exists c, make_client "http://node" true = Ok c /\
  let '(c', t', r) := call (J := json) "eth_blockNumber" (j_array []) c (mkEchoNetwork) in
  last_rpc_success c' = Some 1700000000 /\
  rpc_counters c' !! counter_key "eth_blockNumber" "success" = Some (0 + 1).
Proof.
  eexists. split; [reflexivity|].
  match goal with |- context [call _ _ ?c ?t] =>
    pose proof (rpc_call_accounting (J := json) "eth_blockNumber" (j_array []) c t 0 0 eq_refl) as H end.
  specialize (H ltac:(vm_compute; reflexivity) ltac:(vm_compute; reflexivity)).
  destruct (call _ _ _ _) as [[c' t'] [j|e]] eqn:Hc; [|vm_compute in Hc; discriminate].
  destruct H as (_ & H1 & H2 & _).
  vm_compute in Hc. injection Hc as <- <-. split; [exact H1|exact H2].
Defined.
