(* ===== verification/Database.v ===== *)
(** * Database access and rule tables

    The interface of the PostgreSQL client ([pqxx]), the error-and-state monad
    in which the loaders of [src/app/app.cpp] run, and the loop that reads rows
    into a table.  A table of rule configurations is an [unordered_map] from a
    key to the vector of the configurations that share it. *)
From S2P Require Import Prelude.

(** [D] is the connection with its current transaction, [R] a result row. *)
Class Pqxx (D R : Type) := {
  pg_work : D -> D * result unit;
  pg_exec : string -> D -> D * result (list R);
  pg_commit : D -> D * result unit;
}.

(** [row["col"].as<T>()], which may throw, and [row["col"].is_null()]. *)
Class PqRow (R : Type) := {
  as_u64 : string -> R -> result Z;
  as_int : string -> R -> result Z;
  as_bool : string -> R -> result bool;
  as_string : string -> R -> result string;
  is_null : string -> R -> bool;
}.

(** ** The loaders' monad: the table survives an exception *)

Definition Db (D S X : Type) : Type := D * S -> (D * S) * result X.

#[export] Instance Db_ret D S : MRet (Db D S) := fun X x w => (w, Ok x).
#[export] Instance Db_bind D S : MBind (Db D S) := fun X Y f m w =>
  match m w with
  | (w, Ok x) => f x w
  | (w, Throw e) => (w, Throw e)
  end.

Section Db.
Context {D R S : Type} `{Pqxx D R}.

Definition with_connection {X} (f : D -> D * result X) : Db D S X := fun w =>
  let '(d, r) := f w.1 in ((d, w.2), r).

Definition work : Db D S unit := with_connection pg_work.
Definition exec (query : string) : Db D S (list R) := with_connection (pg_exec query).
Definition commit : Db D S unit := with_connection pg_commit.
Definition get_table : Db D S S := fun w => (w, Ok w.2).

(** [for (const auto &row : res) { ... }], where a body that throws has not
    changed the table. *)
Fixpoint for_rows (body : R -> S -> result S) (rows : list R) : Db D S unit := fun w =>
  match rows with
  | [] => (w, Ok ())
  | row :: rows =>
      match body row w.2 with
      | Ok s => for_rows body rows (w.1, s)
      | Throw e => (w, Throw e)
      end
  end.

(** [pqxx::work tx; rows = tx.exec(query); for (row : rows) body; tx.commit();] *)
Definition load_rows (query : string) (body : R -> S -> result S) : Db D S unit :=
  _ ← work; rows ← exec query; _ ← for_rows body rows; commit.

(** [try { ... } catch (const std::exception &e) { log }]. *)
Definition catch_std (m : Db D S unit) : Db D S unit := fun w =>
  match m w with
  | (w, Throw NonStdException) => (w, Throw NonStdException)
  | (w, _) => (w, Ok ())
  end.
End Db.

(** The same [try] around a part of a loop's body: the row has no value. *)
Definition skip_std {X : Type} (r : result X) : result (option X) :=
  match r with
  | Throw NonStdException => Throw NonStdException
  | Throw _ => Ok None
  | Ok x => Ok (Some x)
  end.

(** The loop of a row that has a value, and of one that is skipped. *)
Definition if_some {X S : Type} (add : X -> S -> S) (x : option X) (s : S) : S :=
  match x with Some x => add x s | None => s end.

(** [map[key].push_back(config)]. *)
Definition push_config {K C : Type} `{Countable K} (kc : K * C) (m : gmap K (list C)) : gmap K (list C) :=
  <[kc.1 := default [] (m !! kc.1) ++ [kc.2]]> m.

(** * Facts *)

(** The vector of a key. *)
Definition bucket {K C : Type} `{Countable K} (m : gmap K (list C)) (k : K) : list C :=
  default [] (m !! k).

(** The configurations of a key, in order. *)
Definition configs_of {K C : Type} `{EqDecision K} (k : K) (l : list (K * C)) : list C :=
  (filter (fun kc => kc.1 = k) l).*2.

Section Tables.
Context {K C : Type} `{Countable K}.
Implicit Types (m : gmap K (list C)) (l : list (K * C)).

Lemma bucket_push kc m k :
  bucket (push_config kc m) k = bucket m k ++ configs_of k [kc].
Proof.
  unfold bucket, push_config, configs_of. rewrite filter_cons, filter_nil.
  destruct (decide (kc.1 = k)) as [<-|Hk].
  - by rewrite lookup_insert_eq.
  - rewrite lookup_insert_ne by done. by rewrite app_nil_r.
Qed.

Lemma bucket_push_all l m k :
  bucket (for_each push_config l m) k = bucket m k ++ configs_of k l.
Proof.
  revert m; induction l as [|kc l IH]; intros m.
  - by rewrite app_nil_r.
  - rewrite for_each_cons, IH, bucket_push, <- app_assoc. f_equal.
    unfold configs_of. rewrite <- fmap_app. f_equal.
    by rewrite <- list.filter_app.
Qed.

Lemma bucket_empty k : bucket (∅ : gmap K (list C)) k = [].
Proof. unfold bucket. by rewrite lookup_empty. Qed.

Lemma configs_of_elem k c l : c ∈ configs_of k l <-> (k, c) ∈ l.
Proof.
  unfold configs_of. rewrite list_elem_of_fmap. split.
  - intros ([k' c'] & -> & [Hk Hin]%list_elem_of_filter). cbn in *. by subst.
  - intros Hin. exists (k, c). split; [done|]. by apply list_elem_of_filter.
Qed.

Lemma configs_of_Forall (P : K -> C -> Prop) k l :
  Forall (fun kc => P kc.1 kc.2) l -> Forall (P k) (configs_of k l).
Proof.
  rewrite !list.Forall_forall. intros Hall c Hc%configs_of_elem. apply (Hall _ Hc).
Qed.
End Tables.

(** The values of the rows before the first one that throws. *)
Fixpoint ok_prefix {R X : Type} (parse : R -> result X) (rows : list R) : list X :=
  match rows with
  | [] => []
  | row :: rows => match parse row with Ok x => x :: ok_prefix parse rows | Throw _ => [] end
  end.

Lemma for_each_if_some {X S : Type} (add : X -> S -> S) (l : list (option X)) (s : S) :
  for_each (if_some add) l s = for_each add (omap id l) s.
Proof.
  revert s; induction l as [|[x|] l IH]; intros s; [done|..]; rewrite for_each_cons; apply IH.
Qed.

(** The values of all the rows that do not throw. *)
Definition ok_all {R X : Type} (parse : R -> result X) (rows : list R) : list X :=
  omap (fun row => match parse row with Ok x => Some x | Throw _ => None end) rows.

Section RowFacts.
Context {R X : Type}.
Implicit Types (parse : R -> result X) (rows : list R) (P : X -> Prop).

Lemma ok_prefix_Forall P parse rows :
  (forall row x, parse row = Ok x -> P x) -> Forall P (ok_prefix parse rows).
Proof.
  intros HP. induction rows as [|row rows IH]; cbn; [constructor|].
  destruct (parse row) eqn:Hr; constructor; eauto.
Qed.

Lemma ok_all_Forall P parse rows :
  (forall row x, parse row = Ok x -> P x) -> Forall P (ok_all parse rows).
Proof.
  intros HP. apply list.Forall_forall. intros x (row & _ & Hr)%list_elem_of_omap.
  destruct (parse row) eqn:Hp; [|done]. injection Hr as <-. eauto.
Qed.

Lemma ok_prefix_app parse good rest :
  Forall (fun row => is_ok (parse row) = true) good ->
  ok_prefix parse (good ++ rest) = ok_prefix parse good ++ ok_prefix parse rest.
Proof.
  induction 1 as [|row good Hr _ IH]; [done|]. cbn.
  destruct (parse row); [|done]. by rewrite IH.
Qed.

Lemma ok_prefix_all parse rows :
  Forall (fun row => is_ok (parse row) = true) rows -> ok_prefix parse rows = ok_all parse rows.
Proof.
  induction 1 as [|row rows Hr _ IH]; [done|]. cbn. destruct (parse row); [|done]. by rewrite IH.
Qed.
End RowFacts.

Section Loading.
Context {D R S X : Type} `{Pqxx D R}.
Implicit Types (d : D) (s : S) (rows : list R) (parse : R -> result X).

Lemma for_rows_prefix parse (add : X -> S -> S) (body : R -> S -> result S) rows (w : D * S) :
  (forall row s, body row s = x ← parse row; Ok (add x s)) ->
  (for_rows body rows w).1 = (w.1, for_each add (ok_prefix parse rows) w.2).
Proof.
  intros Hbody. revert w; induction rows as [|row rows IH]; intros [d s]; [done|].
  cbn [for_rows fst snd ok_prefix]. rewrite Hbody.
  destruct (parse row); cbn [mbind result_bind]; [|done]. by rewrite IH.
Qed.

(** The transaction opens and the query answers. *)
Definition reads d (query : string) rows : Prop :=
  exists d1 d2, pg_work d = (d1, Ok ()) /\ pg_exec query d1 = (d2, Ok rows).

Lemma load_rows_table query parse (add : X -> S -> S) (body : R -> S -> result S) d s rows :
  (forall row s, body row s = x ← parse row; Ok (add x s)) -> reads d query rows ->
  (catch_std (load_rows query body) (d, s)).1.2 = for_each add (ok_prefix parse rows) s.
Proof.
  intros Hbody (d1 & d2 & Hw & He). unfold catch_std, load_rows.
  unfold mbind, Db_bind, work, exec, commit, with_connection. cbn [fst snd].
  rewrite Hw. cbn [fst snd]. rewrite He.
  pose proof (for_rows_prefix parse add body rows (d2, s) Hbody) as Hfor.
  destruct (for_rows body rows (d2, s)) as [w [[]|e]]; cbn in Hfor; subst w; cbn [fst snd].
  - destruct (pg_commit d2) as [d3 [[]|[]]]; done.
  - by destruct e.
Qed.

End Loading.

(** An invariant of the table that the body keeps is kept by the whole load,
    whatever the database answers. *)
Section Invariant.
Context {D R S : Type} `{Pqxx D R}.
Variable P : S -> Prop.

Definition keeps {X} (m : Db D S X) : Prop := forall w, P w.2 -> P (m w).1.2.

Lemma keeps_bind {X Y} (m : Db D S X) (f : X -> Db D S Y) :
  keeps m -> (forall x, keeps (f x)) -> keeps (m ≫= f).
Proof.
  intros Hm Hf w Hw. unfold mbind, Db_bind. specialize (Hm w Hw).
  destruct (m w) as [w' [x|e]]; [by apply Hf|done].
Qed.

Lemma keeps_with_connection {X} (f : D -> D * result X) : keeps (with_connection f).
Proof. intros [d s] Hs. unfold with_connection. cbn. by destruct (f d). Qed.

Lemma keeps_get_table : keeps get_table.
Proof. by intros w. Qed.

Lemma keeps_for_rows (body : R -> S -> result S) rows :
  (forall row s s', P s -> body row s = Ok s' -> P s') -> keeps (for_rows body rows).
Proof.
  intros Hbody. induction rows as [|row rows IH]; intros [d s] Hs; [done|].
  cbn [for_rows fst snd]. destruct (body row s) eqn:Hb; [|done]. apply IH. cbn. eauto.
Qed.

Lemma keeps_catch_std (m : Db D S unit) : keeps m -> keeps (catch_std m).
Proof.
  intros Hm w Hw. specialize (Hm w Hw). unfold catch_std.
  by destruct (m w) as [w' [|[]]].
Qed.

Lemma keeps_load_rows query (body : R -> S -> result S) :
  (forall row s s', P s -> body row s = Ok s' -> P s') ->
  keeps (catch_std (load_rows query body)).
Proof.
  intros Hbody. apply keeps_catch_std. unfold load_rows, work, exec, commit.
  repeat (apply keeps_bind; [|intros ?]);
    auto using keeps_with_connection, keeps_for_rows.
Qed.
End Invariant.

(** Every configuration of a table satisfies a predicate on it and its key. *)
Definition table_ok {K C : Type} `{Countable K} (P : K -> C -> Prop) (m : gmap K (list C)) : Prop :=
  forall k, Forall (P k) (bucket m k).

Lemma table_ok_empty {K C : Type} `{Countable K} (P : K -> C -> Prop) : table_ok P ∅.
Proof. intros k. by rewrite bucket_empty. Qed.

Lemma table_ok_push {K C : Type} `{Countable K} (P : K -> C -> Prop) kc (m : gmap K (list C)) :
  P kc.1 kc.2 -> table_ok P m -> table_ok P (push_config kc m).
Proof.
  intros Hkc Hm k. rewrite bucket_push. apply Forall_app. split; [apply Hm|].
  apply configs_of_Forall. by constructor.
Qed.
