(* ===== verification/RuleLoaders.v ===== *)
(** * The rule loaders

    Models of the [load_*] functions of [src/app/app.cpp]: each reads the rows
    of a query into the table its rule is built from.  The large-transfer and
    the oracle loader skip a malformed row; the others stop at it.  Log lines
    and the row counters that only feed them are left out. *)
From S2P Require Import Prelude Cxx Hex Signal RuleInterface.
From S2P Require Import LargeTransferRule GovernanceRule MintBurnRule ApprovalRule.
From S2P Require Import BridgeTransferRule OracleUpdateRule Json Database.

Section Loaders.
Context {D R J : Type} `{Pqxx D R} `{PqRow R} `{Json J}.

(** ** Large transfers *)

Definition large_transfer_query : string :=
  "SELECT c.id as customer_id, r.params_jsonb FROM customer_risk_rules r JOIN customers c ON r.customer_id = c.id WHERE r.rule_type = 'large_transfer' AND r.enabled = true".

Definition large_transfer_params (customer_id : Z) (params_str : string)
    : result LargeTransferRuleConfig :=
  params ← j_parse params_str;
  chain_id ← j_value j_get_u64 "chain_id" 42161 params;
  token_str ← j_value j_get_string "token_address"
                "0xFd086bC7CD5C481DCC9C85ebE478A1C0b69FCbb9" params;
  token_address ← parse_hex_bytes token_str (zeros 20);
  threshold_str ← j_value j_get_string "threshold" "10000000000" params;
  threshold_be ← decimal_to_be_256 threshold_str;
  Ok (mkLargeTransferRuleConfig customer_id chain_id token_address threshold_be).

Definition large_transfer_of_row (row : R) : result (option LargeTransferRuleConfig) :=
  customer_id ← as_u64 "customer_id" row;
  params_str ← as_string "params_jsonb" row;
  skip_std (large_transfer_params customer_id params_str).

Definition large_transfer_row (row : R) (configs : list LargeTransferRuleConfig)
    : result (list LargeTransferRuleConfig) :=
  c ← large_transfer_of_row row; Ok (if_some (fun c l => l ++ [c]) c configs).

Definition load_large_transfer_configs : Db D (list LargeTransferRuleConfig) unit :=
  catch_std (load_rows large_transfer_query large_transfer_row).

(** ** Governance *)

Definition governance_query : string :=
  "SELECT customer_id, chain_id, contract_address, enabled FROM customer_governance_rules WHERE enabled = true".

Definition governance_of_row (row : R) : result (GovernanceContractKey * GovernanceRuleConfig) :=
  customer_id ← as_u64 "customer_id" row;
  chain_id ← as_u64 "chain_id" row;
  contract_address ← as_string "contract_address" row;
  enabled ← as_bool "enabled" row;
  let contract_address := str_tolower contract_address in
  Ok (mkGovernanceContractKey chain_id contract_address,
      mkGovernanceRuleConfig customer_id chain_id contract_address enabled None).

Definition governance_row (row : R)
    (m : gmap GovernanceContractKey (list GovernanceRuleConfig)) :=
  kc ← governance_of_row row; Ok (push_config kc m).

Definition load_governance_configs
    : Db D (gmap GovernanceContractKey (list GovernanceRuleConfig)) unit :=
  catch_std (load_rows governance_query governance_row).

(** ** Mint and burn *)

Definition mint_burn_query : string :=
  "SELECT customer_id, chain_id, contract_address, mint_threshold_raw, burn_threshold_raw, enabled FROM customer_mint_burn_rules WHERE enabled = true".

Definition mint_burn_of_row (row : R) : result (MintBurnContractKey * MintBurnRuleConfig) :=
  customer_id ← as_u64 "customer_id" row;
  chain_id ← as_u64 "chain_id" row;
  contract_address ← as_string "contract_address" row;
  mint_threshold_raw ← as_string "mint_threshold_raw" row;
  burn_threshold_raw ← as_string "burn_threshold_raw" row;
  enabled ← as_bool "enabled" row;
  let contract_address := str_tolower contract_address in
  mint_threshold_be ← decimal_to_be_256 mint_threshold_raw;
  burn_threshold_be ← decimal_to_be_256 burn_threshold_raw;
  Ok (mkMintBurnContractKey chain_id contract_address,
      mkMintBurnRuleConfig customer_id chain_id contract_address mint_threshold_be
        burn_threshold_be enabled).

Definition mint_burn_row (row : R) (m : gmap MintBurnContractKey (list MintBurnRuleConfig)) :=
  kc ← mint_burn_of_row row; Ok (push_config kc m).

Definition load_mint_burn_configs
    : Db D (gmap MintBurnContractKey (list MintBurnRuleConfig)) unit :=
  catch_std (load_rows mint_burn_query mint_burn_row).

(** ** Approvals *)

Definition approval_query : string :=
  "SELECT customer_id, chain_id, token_address, threshold_raw, alert_on_infinite, enabled FROM customer_approval_rules WHERE enabled = true".

Definition approval_of_row (row : R) : result (ApprovalContractKey * ApprovalRuleConfig) :=
  customer_id ← as_u64 "customer_id" row;
  chain_id ← as_u64 "chain_id" row;
  token_address ← as_string "token_address" row;
  threshold_raw ← as_string "threshold_raw" row;
  alert_on_infinite ← as_bool "alert_on_infinite" row;
  enabled ← as_bool "enabled" row;
  let token_address := str_tolower token_address in
  token_bytes ← parse_hex_bytes token_address (zeros 20);
  threshold_be ← decimal_to_be_256 threshold_raw;
  Ok (mkApprovalContractKey chain_id token_address,
      mkApprovalRuleConfig customer_id chain_id token_bytes threshold_be alert_on_infinite enabled).

Definition approval_row (row : R) (m : gmap ApprovalContractKey (list ApprovalRuleConfig)) :=
  kc ← approval_of_row row; Ok (push_config kc m).

Definition load_approval_configs
    : Db D (gmap ApprovalContractKey (list ApprovalRuleConfig)) unit :=
  catch_std (load_rows approval_query approval_row).

(** ** Bridges *)

(** The three tables of the bridge rule. *)
Record BridgeTables := mkBridgeTables {
  bt_addresses : gset BridgeAddressKey;
  bt_names : gmap BridgeAddressKey string;
  bt_configs : gmap BridgeRuleKey (list BridgeRuleConfig);
}.

Definition bridge_contracts_query : string :=
  "SELECT chain_id, address, bridge_name FROM bridge_contracts WHERE enabled = true".
Definition bridge_rules_query : string :=
  "SELECT customer_id, chain_id, token_address, threshold_raw FROM customer_bridge_rules WHERE enabled = true".

Definition bridge_contract_of_row (row : R) : result (BridgeAddressKey * string) :=
  chain_id ← as_u64 "chain_id" row;
  address ← as_string "address" row;
  bridge_name ← as_string "bridge_name" row;
  addr_bytes ← parse_hex_bytes (str_tolower address) (zeros 20);
  Ok (mkBridgeAddressKey chain_id addr_bytes, bridge_name).

Definition add_bridge (kn : BridgeAddressKey * string) (t : BridgeTables) : BridgeTables :=
  mkBridgeTables ({[kn.1]} ∪ bt_addresses t) (<[kn.1 := kn.2]> (bt_names t)) (bt_configs t).

Definition bridge_of_row (row : R) : result (BridgeRuleKey * BridgeRuleConfig) :=
  customer_id ← as_u64 "customer_id" row;
  chain_id ← as_u64 "chain_id" row;
  token_address ← as_string "token_address" row;
  threshold_raw ← as_string "threshold_raw" row;
  token_bytes ← parse_hex_bytes (str_tolower token_address) (zeros 20);
  threshold_be ← decimal_to_be_256 threshold_raw;
  Ok (mkBridgeRuleKey chain_id token_bytes,
      mkBridgeRuleConfig customer_id chain_id token_bytes threshold_be true).

Definition add_bridge_rule (kc : BridgeRuleKey * BridgeRuleConfig) (t : BridgeTables)
    : BridgeTables :=
  mkBridgeTables (bt_addresses t) (bt_names t) (push_config kc (bt_configs t)).

Definition bridge_contract_row (row : R) (t : BridgeTables) : result BridgeTables :=
  kn ← bridge_contract_of_row row; Ok (add_bridge kn t).
Definition bridge_row (row : R) (t : BridgeTables) : result BridgeTables :=
  kc ← bridge_of_row row; Ok (add_bridge_rule kc t).

(** One transaction; the second query is made when some bridge was loaded. *)
Definition load_bridge_configs : Db D BridgeTables unit :=
  catch_std (
    _ ← work; res1 ← exec bridge_contracts_query; _ ← for_rows bridge_contract_row res1;
    t ← get_table;
    if bool_decide (bt_addresses t = ∅) then commit
    else res2 ← exec bridge_rules_query; _ ← for_rows bridge_row res2; commit).

(** ** Oracles *)

Definition oracle_query : string :=
  "SELECT customer_id, chain_id, aggregator_address, feed_label, spike_threshold_bps, decimals FROM customer_oracle_rules WHERE enabled = true".

Definition oracle_of_row (row : R) : result (option (OracleFeedKey * OracleRuleConfig)) :=
  customer_id ← as_u64 "customer_id" row;
  chain_id ← as_u64 "chain_id" row;
  aggregator_address ← as_string "aggregator_address" row;
  feed_label ← as_string "feed_label" row;
  spike_threshold_bps ← as_int "spike_threshold_bps" row;
  decimals ← as_int "decimals" row;
  let aggregator_address := str_tolower aggregator_address in
  if (spike_threshold_bps <=? 0) || (100000 <? spike_threshold_bps) then Ok None
  else if (decimals <? 0) || (255 <? decimals) then Ok None
  else
    aggregator_bytes ← skip_std (parse_hex_bytes aggregator_address (zeros 20));
    match aggregator_bytes with
    | None => Ok None
    | Some bytes =>
        Ok (Some (mkOracleFeedKey chain_id bytes,
                  mkOracleRuleConfig customer_id chain_id bytes feed_label
                    (u32 spike_threshold_bps) (u8 decimals) true))
    end.

Definition oracle_row (row : R) (m : gmap OracleFeedKey (list OracleRuleConfig)) :=
  kc ← oracle_of_row row; Ok (if_some push_config kc m).

Definition load_oracle_configs : Db D (gmap OracleFeedKey (list OracleRuleConfig)) unit :=
  catch_std (load_rows oracle_query oracle_row).

(** ** Names for the messages *)

Definition customer_query : string := "SELECT id, customer_key FROM customers;".

Definition customer_of_row (row : R) : result (Z * string) :=
  id ← as_u64 "id" row; key ← as_string "customer_key" row; Ok (id, key).

Definition customer_row (row : R) (m : gmap Z string) : result (gmap Z string) :=
  kv ← customer_of_row row; Ok (<[kv.1 := kv.2]> m).

Definition load_customer_map : Db D (gmap Z string) unit :=
  catch_std (load_rows customer_query customer_row).

Definition load_token_map (m : gmap TokenKey string) : gmap TokenKey string :=
  <[mkTokenKey 42161 "0xfd086bc7cd5c481dcc9c85ebe478a1c0b69fcbb9" := "USDT"]> m.
End Loaders.

(** * What a loaded configuration looks like *)

Definition large_transfer_entry_ok (c : LargeTransferRuleConfig) : Prop :=
  bytes_ok 20 (lt_token_address c) /\ bytes_ok 32 (lt_threshold_be c).

(** The keys of the text-keyed tables are in lower case, as the rules look them up. *)
Definition governance_entry_ok (k : GovernanceContractKey) (c : GovernanceRuleConfig) : Prop :=
  gr_chain_id c = gk_chain_id k /\ gr_contract_address c = gk_contract_address k /\
  str_tolower (gk_contract_address k) = gk_contract_address k /\ gr_action_filter c = None.

Definition mint_burn_entry_ok (k : MintBurnContractKey) (c : MintBurnRuleConfig) : Prop :=
  mr_chain_id c = mk_chain_id k /\ mr_contract_address c = mk_contract_address k /\
  str_tolower (mk_contract_address k) = mk_contract_address k /\ mint_burn_config_ok c.

Definition approval_entry_ok (k : ApprovalContractKey) (c : ApprovalRuleConfig) : Prop :=
  ar_chain_id c = ak_chain_id k /\
  parse_hex_bytes (ak_token_address k) (zeros 20) = Ok (ar_token_address c) /\
  str_tolower (ak_token_address k) = ak_token_address k /\
  bytes_ok 20 (ar_token_address c) /\ bytes_ok 32 (ar_threshold_be c).

Definition bridge_entry_ok (k : BridgeRuleKey) (c : BridgeRuleConfig) : Prop :=
  k = mkBridgeRuleKey (br_chain_id c) (br_token_address c) /\
  bytes_ok 20 (br_token_address c) /\ bytes_ok 32 (br_threshold_be c) /\ br_enabled c = true.

Definition bridge_tables_ok (t : BridgeTables) : Prop :=
  table_ok bridge_entry_ok (bt_configs t) /\
  (forall k, k ∈ bt_addresses t -> bytes_ok 20 (ba_address k) /\ is_Some (bt_names t !! k)).

Definition oracle_entry_ok (k : OracleFeedKey) (c : OracleRuleConfig) : Prop :=
  k = mkOracleFeedKey (oc_chain_id c) (oc_aggregator_address c) /\
  bytes_ok 20 (oc_aggregator_address c) /\ 0 < oc_spike_threshold_bps c <= 100000 /\
  0 <= oc_decimals c <= 255 /\ oc_enabled c = true.

Lemma str_tolower_idem s : str_tolower (str_tolower s) = str_tolower s.
Proof.
  assert (forall c, tolower (tolower c) = tolower c) as Hc.
  { intros [[] [] [] [] [] [] [] []]; reflexivity. }
  induction s as [|c s IH]; [done|]. cbn [str_tolower]. by rewrite Hc, IH.
Qed.

Lemma skip_std_Some {X} (r : result X) x : skip_std r = Ok (Some x) <-> r = Ok x.
Proof. destruct r as [|[]]; cbn; naive_solver. Qed.

Section RowFacts.
Context {R J : Type} `{PqRow R} `{Json J}.
Implicit Types (row : R).

Lemma parsed_address s b : parse_hex_bytes s (zeros 20) = Ok b -> bytes_ok 20 b.
Proof. intros Hp. eapply parse_hex_bytes_ok; [exact Hp|apply zeros_bytes]. Qed.

Lemma parsed_threshold s b : decimal_to_be_256 s = Ok b -> bytes_ok 32 b.
Proof. by intros [? _]%decimal_to_be_256_ok. Qed.

#[local] Hint Resolve parsed_address parsed_threshold str_tolower_idem : sentinel.

Lemma large_transfer_of_row_ok row c :
  large_transfer_of_row row = Ok (Some c) -> large_transfer_entry_ok c.
Proof.
  unfold large_transfer_of_row. intros Hr. invert_result.
  match goal with H : skip_std _ = _ |- _ => apply (proj1 (skip_std_Some _ _)) in H end.
  unfold large_transfer_params in *. invert_result. unfold large_transfer_entry_ok.
  cbn [lt_token_address lt_threshold_be]. split; eauto with sentinel.
Qed.

Lemma governance_of_row_ok row kc :
  governance_of_row row = Ok kc -> governance_entry_ok kc.1 kc.2.
Proof.
  unfold governance_of_row, governance_entry_ok. intros Hr. invert_result.
  cbn [fst snd gr_chain_id gr_contract_address gk_chain_id gk_contract_address gr_action_filter].
  split_and!; auto with sentinel.
Qed.

Lemma mint_burn_of_row_ok row kc :
  mint_burn_of_row row = Ok kc -> mint_burn_entry_ok kc.1 kc.2.
Proof.
  unfold mint_burn_of_row, mint_burn_entry_ok, mint_burn_config_ok. intros Hr. invert_result.
  cbn [fst snd mr_chain_id mr_contract_address mk_chain_id mk_contract_address
       mr_mint_threshold_be mr_burn_threshold_be].
  split_and!; eauto with sentinel.
Qed.

Lemma approval_of_row_ok row kc : approval_of_row row = Ok kc -> approval_entry_ok kc.1 kc.2.
Proof.
  unfold approval_of_row, approval_entry_ok. intros Hr. invert_result.
  cbn [fst snd ar_chain_id ar_token_address ar_threshold_be ak_chain_id ak_token_address].
  split_and!; eauto with sentinel.
Qed.

Lemma bridge_of_row_ok row kc : bridge_of_row row = Ok kc -> bridge_entry_ok kc.1 kc.2.
Proof.
  unfold bridge_of_row, bridge_entry_ok. intros Hr. invert_result.
  cbn [fst snd br_chain_id br_token_address br_threshold_be br_enabled].
  split_and!; eauto with sentinel.
Qed.

Lemma oracle_of_row_ok row kc :
  oracle_of_row row = Ok (Some kc) -> oracle_entry_ok kc.1 kc.2.
Proof.
  unfold oracle_of_row. intros Hr. invert_result.
  match goal with H : (if ?b then _ else _) = Ok _ |- _ => destruct b eqn:Hbps; [done|] end.
  match goal with H : (if ?b then _ else _) = Ok _ |- _ => destruct b eqn:Hdec; [done|] end.
  invert_result. apply orb_false_iff in Hbps as [Hb1 Hb2], Hdec as [Hd1 Hd2].
  match goal with H : skip_std _ = Ok ?o |- _ => destruct o as [bytes|]; [|done] end.
  match goal with H : skip_std _ = Ok _ |- _ => apply (proj1 (skip_std_Some _ _)) in H end.
  invert_result. cbn [fst snd]. unfold oracle_entry_ok. cbn -[u8 u32].
  unfold u8. rewrite u32_id, Z.mod_small by lia. split_and!; eauto with sentinel; lia.
Qed.

Lemma bridge_contract_row_ok row t t' :
  bridge_tables_ok t -> bridge_contract_row row t = Ok t' -> bridge_tables_ok t'.
Proof.
  intros [Hc Ha] Hr. unfold bridge_contract_row, bridge_contract_of_row in Hr. invert_result.
  split; [done|]. cbn [bt_addresses bt_names add_bridge fst snd]. intros k Hk.
  match goal with |- context [<[?k0 := _]> _ !! _] => destruct (decide (k0 = k)) as [<-|Hne] end.
  - rewrite lookup_insert_eq. cbn. eauto with sentinel.
  - rewrite lookup_insert_ne by done. apply Ha. set_solver.
Qed.

Lemma bridge_row_ok row t t' :
  bridge_tables_ok t -> bridge_row row t = Ok t' -> bridge_tables_ok t'.
Proof.
  intros [Hc Ha] Hr. unfold bridge_row in Hr. invert_result.
  split; [|done]. apply table_ok_push; [by eapply bridge_of_row_ok|done].
Qed.

Lemma push_row_ok {K C : Type} `{Countable K} (P : K -> C -> Prop)
    (of_row : R -> result (K * C)) row m m' :
  (forall row kc, of_row row = Ok kc -> P kc.1 kc.2) -> table_ok P m ->
  (kc ← of_row row; Ok (push_config kc m)) = Ok m' -> table_ok P m'.
Proof. intros HP Hm Hr. invert_result. apply table_ok_push; eauto. Qed.
End RowFacts.

Lemma for_each_snoc {X : Type} (l s : list X) : for_each (fun x l => l ++ [x]) l s = s ++ l.
Proof.
  revert s; induction l as [|x l IH]; intros s; [by rewrite app_nil_r|].
  by rewrite for_each_cons, IH, <- app_assoc.
Qed.

(** What a load leaves in a table that was empty. *)
Section Loaded.
Context {D R J : Type} `{Pqxx D R} `{PqRow R} `{Json J}.
Implicit Types (d : D) (rows : list R).

Lemma loaded_bucket {K C : Type} `{Countable K} (of_row : R -> result (K * C)) query
    (body : R -> gmap K (list C) -> result (gmap K (list C))) d rows k :
  (forall row m, body row m = kc ← of_row row; Ok (push_config kc m)) -> reads d query rows ->
  bucket (catch_std (load_rows query body) (d, ∅)).1.2 k = configs_of k (ok_prefix of_row rows).
Proof.
  intros Hbody Hd. rewrite (load_rows_table _ of_row push_config _ _ _ rows) by done.
  by rewrite bucket_push_all, bucket_empty.
Qed.

Lemma loaded_bucket_skip {K C : Type} `{Countable K} (of_row : R -> result (option (K * C))) query
    (body : R -> gmap K (list C) -> result (gmap K (list C))) d rows k :
  (forall row m, body row m = kc ← of_row row; Ok (if_some push_config kc m)) ->
  reads d query rows ->
  bucket (catch_std (load_rows query body) (d, ∅)).1.2 k =
  configs_of k (omap id (ok_prefix of_row rows)).
Proof.
  intros Hbody Hd. rewrite (load_rows_table _ of_row (if_some push_config) _ _ _ rows) by done.
  by rewrite for_each_if_some, bucket_push_all, bucket_empty.
Qed.
End Loaded.

(** The alert of an approval configuration, as the rule words it. *)
Definition approval_alert_of (s : Signal) (evm : EvmLogEvent) (c : ApprovalRuleConfig) : Alert :=
  mkAlert (ar_customer_id c) "approval"
    (if decide (evm_amount evm = 2 ^ 256 - 1)
     then "Infinite approval detected" else "Large approval detected")
    (timestamp_ms (sig_meta s)) 0 (Some (std_to_string (evm_amount evm)))
    (Some (address_to_hex (evm_address evm))) (Some (evm_chain_id evm)).

(** * Properties *)

Section Properties.
Context {D R J : Type} `{Pqxx D R} `{PqRow R} `{Json J}.
Implicit Types (d : D) (rows : list R).

(** When its query answers, a loader fills its empty table with the
    configurations of the rows in order, under their chain and lower-case address: the governance,
    mint/burn and approval loaders up to the first malformed row, which loses all rows after it; the
    large-transfer loader all rows whose columns can be read but for those with malformed
    parameters, and the oracle loader all but those out of range or with a malformed address. *)
Theorem loaders_read_rows d rows :
  (reads d governance_query rows -> forall k,
     bucket (load_governance_configs (d, ∅)).1.2 k = configs_of k (ok_prefix governance_of_row rows)) /\
  (reads d mint_burn_query rows -> forall k,
     bucket (load_mint_burn_configs (d, ∅)).1.2 k = configs_of k (ok_prefix mint_burn_of_row rows)) /\
  (reads d approval_query rows -> forall k,
     bucket (load_approval_configs (d, ∅)).1.2 k = configs_of k (ok_prefix approval_of_row rows)) /\
  (reads d oracle_query rows -> forall k,
     bucket (load_oracle_configs (d, ∅)).1.2 k =
     configs_of k (omap id (ok_prefix oracle_of_row rows))) /\
  (reads d large_transfer_query rows ->
     (load_large_transfer_configs (d, [])).1.2 = omap id (ok_prefix large_transfer_of_row rows)).
Proof.
  split_and!; intros Hd; [intros k; by apply loaded_bucket..| |].
  - intros k. by apply loaded_bucket_skip.
  - unfold load_large_transfer_configs.
    rewrite (load_rows_table _ large_transfer_of_row (if_some (fun c l => l ++ [c])) _ _ _ rows)
      by done.
    by rewrite for_each_if_some, for_each_snoc.
Qed.

(** Whatever the database answers, and even when a load is cut short
    by an exception, every loaded configuration is filed under its own chain and address, has
    thresholds of 32 bytes and addresses of 20, text keys in lower case and, for oracles, a
    threshold and decimals in range; every loaded bridge address has a name. *)
Theorem loaded_tables_well_formed d :
  Forall large_transfer_entry_ok (load_large_transfer_configs (d, [])).1.2 /\
  table_ok governance_entry_ok (load_governance_configs (d, ∅)).1.2 /\
  table_ok mint_burn_entry_ok (load_mint_burn_configs (d, ∅)).1.2 /\
  table_ok approval_entry_ok (load_approval_configs (d, ∅)).1.2 /\
  bridge_tables_ok (load_bridge_configs (d, mkBridgeTables ∅ ∅ ∅)).1.2 /\
  table_ok oracle_entry_ok (load_oracle_configs (d, ∅)).1.2.
Proof.
  split_and!.
  - apply (keeps_load_rows (Forall large_transfer_entry_ok)); [|constructor].
    intros row s s' Hs Hr. unfold large_transfer_row in Hr. invert_result.
    match goal with H : large_transfer_of_row _ = Ok ?c |- _ => destruct c as [c|]; [|done] end.
    apply Forall_app. split; [done|]. constructor; [|done]. by eapply large_transfer_of_row_ok.
  - apply (keeps_load_rows (table_ok governance_entry_ok)); [|apply table_ok_empty].
    intros row s s' Hs. by apply push_row_ok, Hs; apply governance_of_row_ok.
  - apply (keeps_load_rows (table_ok mint_burn_entry_ok)); [|apply table_ok_empty].
    intros row s s' Hs. by apply push_row_ok, Hs; apply mint_burn_of_row_ok.
  - apply (keeps_load_rows (table_ok approval_entry_ok)); [|apply table_ok_empty].
    intros row s s' Hs. by apply push_row_ok, Hs; apply approval_of_row_ok.
  - apply (keeps_catch_std bridge_tables_ok).
    + unfold work, exec, commit.
      repeat (apply keeps_bind; [|intros ?]); auto using keeps_with_connection, keeps_get_table.
      * apply keeps_for_rows. intros row s s' Hs. by apply bridge_contract_row_ok.
      * case_bool_decide; [apply keeps_with_connection|].
        repeat (apply keeps_bind; [|intros ?]); auto using keeps_with_connection.
        apply keeps_for_rows. intros row s s' Hs. by apply bridge_row_ok.
    + split; [apply table_ok_empty|set_solver].
  - apply (keeps_load_rows (table_ok oracle_entry_ok)); [|apply table_ok_empty].
    intros row s s' Hs Hr. unfold oracle_row in Hr. invert_result.
    match goal with H : oracle_of_row _ = Ok ?c |- _ => destruct c as [kc|]; [|done] end.
    apply table_ok_push; [|done]. by eapply oracle_of_row_ok.
Qed.

(** C24: from the database to the alerts: on a usable approval log the
    rule built from the loaded table raises exactly one alert per row before the first malformed one
    whose chain is the log's and whose address, in lower case, is the text of the log's address,
    when the row is enabled and the allowance exceeds its threshold, or is infinite and the row asks
    for that; in row order. *)
Theorem configured_approvals_alert d rows s evm out :
  reads d approval_query rows ->
  sig_type s = Approval -> sig_payload s = PEvm evm -> evm_ok evm -> evm_usable evm ->
  let rule := mkApprovalRule (load_approval_configs (d, ∅)).1.2 in
  evaluate s out rule =
    (rule, out ++ (approval_alert_of s evm <$> filter (approval_fires evm)
       (configs_of (mkApprovalContractKey (evm_chain_id evm) (address_to_hex (evm_address evm)))
          (ok_prefix approval_of_row rows)))).
Proof.
  intros Hd Ht Hp Hok Hu rule. change (evaluate s out rule) with (approval_evaluate s out rule).
  rewrite approval_evaluate_out. do 2 f_equal. unfold approval_alerts_of.
  rewrite Ht, Hp, evm_unusable_spec, bool_decide_eq_false_2 by tauto.
  change (approval_bucket rule evm) with
    (bucket (load_approval_configs (d, ∅)).1.2
       (mkApprovalContractKey (evm_chain_id evm) (address_to_hex (evm_address evm)))).
  unfold load_approval_configs. rewrite (loaded_bucket approval_of_row _ _ d rows) by done.
  rewrite <- omap_when, <- omap_when_dec. apply omap_ext_list.
  apply (configs_of_Forall (fun _ c => when _ _ = _)), ok_prefix_Forall.
  intros row kc (_ & _ & _ & _ & Hthr)%approval_of_row_ok. cbn beta.
  rewrite approval_test_fires by done. f_equal. unfold approval_alert, approval_alert_of.
  rewrite data_decimal, is_infinite_value by done. by case_bool_decide; case_decide.
Qed.
End Properties.

(** ** Witnesses: a database of one table *)

(** A row is an association list of texts. *)
Definition sample_row : Type := list (string * string).

Fixpoint column (k : string) (row : sample_row) : result string :=
  match row with
  | [] => Throw (LibraryError "Unknown column")
  | (k', v) :: row => if decide (k' = k) then Ok v else column k row
  end.

#[local] Instance sample_row_PqRow : PqRow sample_row := {
  as_u64 k row := column k row ≫= stoull10;
  as_int k row := column k row ≫= stoi;
  as_bool k row := v ← column k row; Ok (bool_decide (v = "t"));
  as_string := column;
  is_null k row := negb (is_ok (column k row));
}.

#[local] Instance sample_db : Pqxx (list sample_row) sample_row := {
  pg_work d := (d, Ok ());
  pg_exec _ d := (d, Ok d);
  pg_commit d := (d, Ok ());
}.

Definition sample_approval_row (id address : string) : sample_row :=
  [("customer_id", id); ("chain_id", "1"); ("token_address", address); ("threshold_raw", "500");
   ("alert_on_infinite", "t"); ("enabled", "t")].

Definition sample_approval_rows : list sample_row :=
  [sample_approval_row "1" "0xABABABABABABABABABABABABABABABABABABABAB";
   sample_approval_row "2" "0x00";
   sample_approval_row "3" "abab";
   sample_approval_row "4" "0xABABABABABABABABABABABABABABABABABABABAB"].

Lemma sample_reads query : reads sample_approval_rows query sample_approval_rows.
Proof. by exists sample_approval_rows, sample_approval_rows. Qed.

Lemma loaders_read_rows_witness :
  let k := mkApprovalContractKey 1 (address_to_hex (replicate 20 171)) in
  reads sample_approval_rows approval_query sample_approval_rows /\
  ar_customer_id <$> bucket (load_approval_configs (sample_approval_rows, ∅)).1.2 k = [1].
Proof.
  intros k. split; [apply sample_reads|].
  destruct (loaders_read_rows (J := json) (H1 := json_lib (fun _ => Ok "") (fun _ => Ok JNull))
    sample_approval_rows sample_approval_rows) as (_ & _ & H & _).
  rewrite (H (sample_reads _) k). vm_compute. reflexivity.
Defined.

Lemma configured_approvals_alert_witness :
  let evm := mkEvmLogEvent 1 0 0 false (replicate 20 171) 3 (replicate 4 (zeros 32)) 32
    (to_be_256 501 ++ zeros 224) false in
  let rule := mkApprovalRule (load_approval_configs (sample_approval_rows, ∅)).1.2 in
  (fun a => (al_customer_id a, al_amount_decimal a)) <$>
    (evaluate (sample_signal Approval (PEvm evm)) [] rule).2 = [(1, Some "501")].
Proof.
  intros evm rule. unfold rule.
  rewrite (configured_approvals_alert sample_approval_rows sample_approval_rows
    (sample_signal Approval (PEvm evm)) evm [] (sample_reads _) eq_refl eq_refl).
  - vm_compute. reflexivity.
  - unfold evm_ok. split_and!; first [lia | decide_by_compute].
  - unfold evm_usable. split_and!; first [lia | reflexivity].
Defined.
