(* ===== verification/BacktestConfig.v ===== *)
(** * The backtest configuration

    Model of [src/backtest/backtest_config.cpp].  The YAML library ([yaml-cpp])
    is a parameter; the file system is a function from paths to contents.  An
    [unordered_map] is walked in an unspecified order, which only decides which
    undeclared customer an error names. *)
From S2P Require Import Prelude Cxx Hex Signal RuleInterface.
From S2P Require Import LargeTransferRule GovernanceRule MintBurnRule ApprovalRule.
From S2P Require Import BridgeTransferRule OracleUpdateRule Database RuleLoaders.
From Stdlib Require Import Ascii.

(** What the parser uses of [YAML::Node].  [y_get] is [node["field"]]: [None]
    is an undefined node, and indexing a scalar throws; [y_keys] are the keys of
    a map, each read as a string. *)
Class Yaml (Y : Type) := {
  y_load : string -> result Y;
  y_is_null : Y -> bool;
  y_is_map : Y -> bool;
  y_is_sequence : Y -> bool;
  y_get : string -> Y -> result (option Y);
  y_items : Y -> list Y;
  y_keys : Y -> list (result string);
  y_string : Y -> result string;
  y_u64 : Y -> result Z;
  y_int : Y -> result Z;
  y_bool : Y -> result bool;
}.

(** [as<uint64_t>] returns a [uint64_t]. *)
Class YamlLaws (Y : Type) `{Yaml Y} : Prop := {
  y_u64_range (y : Y) v : y_u64 y = Ok v -> is_u64 v;
}.

Record CustomerEntry := mkCustomerEntry { ce_id : Z; ce_key : string; ce_display_name : string }.

Record BacktestConfig := mkBacktestConfig {
  bc_chain : string;
  bc_start_block : Z;
  bc_end_block : Z;
  bc_output_path : string;
  bc_max_block_range : Z;
  bc_customers : list CustomerEntry;
  bc_large_transfers : list LargeTransferRuleConfig;
  bc_governance : gmap GovernanceContractKey (list GovernanceRuleConfig);
  bc_mint_burn : gmap MintBurnContractKey (list MintBurnRuleConfig);
  bc_approvals : gmap ApprovalContractKey (list ApprovalRuleConfig);
  bc_bridges : BridgeTables;
  bc_oracles : gmap OracleFeedKey (list OracleRuleConfig);
}.

(** An error of the loader. *)
Definition config_error {X : Type} (msg : string) : result X :=
  Throw (RuntimeError ("backtest config: " +:+ msg)%stdpp).

(** [try { return m; } catch (const std::exception &e) { throw ... + e.what(); }]. *)
Definition wrap_std {X : Type} (m : result X) (msg : string) : result X :=
  match m with
  | Throw NonStdException => Throw NonStdException
  | Throw e => config_error (msg +:+ what e)%stdpp
  | Ok x => Ok x
  end.

Definition lower (s : string) : string := str_tolower s.

Definition validate_hex_address (addr context : string) : result unit :=
  if negb (String.length addr =? 42)%nat || negb (bool_decide (is_Some (strip_0x addr)))
  then config_error ("invalid hex address '" +:+ addr +:+
                     "' (expected 0x + 40 hex chars) in " +:+ context)%stdpp
  else wrap_std (validate_hex addr)
         ("invalid hex characters in '" +:+ addr +:+ "' in " +:+ context +:+ ": ")%stdpp.

Section Parser.
Context {Y : Type} `{Yaml Y}.

(** Only its exceptions matter: the unknown keys are logged. *)
Definition warn_unknown_keys (node : Y) : result unit :=
  if negb (y_is_map node) then Ok () else _ ← mapM id (y_keys node); Ok ().

Definition require {X : Type} (as_type : Y -> result X) (a_type : string) (node : Y)
    (field context : string) : result X :=
  v ← y_get field node;
  match v with
  | None => config_error ("missing required field '" +:+ field +:+ "' in " +:+ context)%stdpp
  | Some v =>
      wrap_std (as_type v)
        ("field '" +:+ field +:+ "' in " +:+ context +:+ " is not " +:+ a_type +:+ ": ")%stdpp
  end.

Definition require_string : Y -> string -> string -> result string := require y_string "a string".
Definition require_uint : Y -> string -> string -> result Z := require y_u64 "an unsigned integer".
Definition require_int : Y -> string -> string -> result Z := require y_int "an integer".

(** [item["field"] ? item["field"].as<T>() : default]. *)
Definition optional {X : Type} (as_type : Y -> result X) (node : Y) (field : string) (default : X)
    : result X :=
  v ← y_get field node;
  match v with None => Ok default | Some v => as_type v end.

(** The lower-case address of a field, and its bytes. *)
Definition require_address (node : Y) (field context : string) : result (string * list Z) :=
  s ← require_string node field context;
  let addr := lower s in
  _ ← validate_hex_address addr context;
  bytes ← parse_hex_bytes addr (zeros 20);
  Ok (addr, bytes).

(** ** The items of each section *)

Definition large_transfer_item (ctx : string) (item : Y) : result LargeTransferRuleConfig :=
  _ ← warn_unknown_keys item;
  customer_id ← require_uint item "customer_id" ctx;
  chain_id ← require_uint item "chain_id" ctx;
  '(_, token_address) ← require_address item "token_address" ctx;
  thr_str ← require_string item "threshold_decimal" ctx;
  threshold_be ← decimal_to_be_256 thr_str;
  Ok (mkLargeTransferRuleConfig customer_id chain_id token_address threshold_be).

Definition governance_item (ctx : string) (item : Y)
    : result (GovernanceContractKey * GovernanceRuleConfig) :=
  _ ← warn_unknown_keys item;
  customer_id ← require_uint item "customer_id" ctx;
  chain_id ← require_uint item "chain_id" ctx;
  s ← require_string item "contract_address" ctx;
  let contract_address := lower s in
  _ ← validate_hex_address contract_address ctx;
  Ok (mkGovernanceContractKey chain_id contract_address,
      mkGovernanceRuleConfig customer_id chain_id contract_address true None).

Definition mint_burn_item (ctx : string) (item : Y)
    : result (MintBurnContractKey * MintBurnRuleConfig) :=
  _ ← warn_unknown_keys item;
  customer_id ← require_uint item "customer_id" ctx;
  chain_id ← require_uint item "chain_id" ctx;
  s ← require_string item "contract_address" ctx;
  let contract_address := lower s in
  _ ← validate_hex_address contract_address ctx;
  mint_thr ← require_string item "mint_threshold_decimal" ctx;
  burn_thr ← require_string item "burn_threshold_decimal" ctx;
  mint_threshold_be ← decimal_to_be_256 mint_thr;
  burn_threshold_be ← decimal_to_be_256 burn_thr;
  Ok (mkMintBurnContractKey chain_id contract_address,
      mkMintBurnRuleConfig customer_id chain_id contract_address mint_threshold_be
        burn_threshold_be true).

Definition approval_item (ctx : string) (item : Y)
    : result (ApprovalContractKey * ApprovalRuleConfig) :=
  _ ← warn_unknown_keys item;
  customer_id ← require_uint item "customer_id" ctx;
  chain_id ← require_uint item "chain_id" ctx;
  '(token, token_address) ← require_address item "token_address" ctx;
  thr_str ← require_string item "threshold_decimal" ctx;
  threshold_be ← decimal_to_be_256 thr_str;
  alert_on_infinite ← optional y_bool item "alert_on_infinite" false;
  Ok (mkApprovalContractKey chain_id token,
      mkApprovalRuleConfig customer_id chain_id token_address threshold_be alert_on_infinite true).

Definition bridge_item (ctx : string) (item : Y) : result (BridgeRuleKey * BridgeRuleConfig) :=
  _ ← warn_unknown_keys item;
  customer_id ← require_uint item "customer_id" ctx;
  chain_id ← require_uint item "chain_id" ctx;
  '(_, token_address) ← require_address item "token_address" ctx;
  thr_str ← require_string item "threshold_decimal" ctx;
  threshold_be ← decimal_to_be_256 thr_str;
  Ok (mkBridgeRuleKey chain_id token_address,
      mkBridgeRuleConfig customer_id chain_id token_address threshold_be true).

Definition oracle_item (ctx : string) (item : Y) : result (OracleFeedKey * OracleRuleConfig) :=
  _ ← warn_unknown_keys item;
  customer_id ← require_uint item "customer_id" ctx;
  chain_id ← require_uint item "chain_id" ctx;
  '(_, aggregator_address) ← require_address item "aggregator_address" ctx;
  feed_label ← require_string item "feed_label" ctx;
  bps ← require_int item "spike_threshold_bps" ctx;
  if (bps <=? 0) || (100000 <? bps)
  then config_error ("spike_threshold_bps out of range in " +:+ ctx)%stdpp
  else
    dec ← require_int item "decimals" ctx;
    if (dec <? 0) || (255 <? dec)
    then config_error ("decimals out of range in " +:+ ctx)%stdpp
    else
      Ok (mkOracleFeedKey chain_id aggregator_address,
          mkOracleRuleConfig customer_id chain_id aggregator_address feed_label (u32 bps) (u8 dec)
            true).

Definition bridge_contract_item (ctx : string) (item : Y) : result (BridgeAddressKey * string) :=
  _ ← warn_unknown_keys item;
  chain_id ← require_uint item "chain_id" ctx;
  s ← require_string item "address" ctx;
  let addr_str := lower s in
  _ ← validate_hex_address addr_str ctx;
  name ← require_string item "bridge_name" ctx;
  addr_bytes ← parse_hex_bytes addr_str (zeros 20);
  Ok (mkBridgeAddressKey chain_id addr_bytes, name).

Definition customer_item (ctx : string) (item : Y) : result CustomerEntry :=
  _ ← warn_unknown_keys item;
  id ← require_uint item "id" ctx;
  key ← require_string item "key" ctx;
  display_name ← optional y_string item "display_name" "";
  Ok (mkCustomerEntry id key display_name).

(** ** Sections *)

(** [for (const auto &item : items)], with [ctx = label[idx++]]. *)
Fixpoint for_items {X S : Type} (label : string) (parse : string -> Y -> result X)
    (add : X -> S -> S) (idx : Z) (items : list Y) (s : S) : result S :=
  match items with
  | [] => Ok s
  | item :: items =>
      x ← parse (label +:+ "[" +:+ std_to_string idx +:+ "]")%stdpp item;
      for_items label parse add (idx + 1) items (add x s)
  end.

Definition parse_section {X S : Type} (label : string) (parse : string -> Y -> result X)
    (add : X -> S -> S) (items : option Y) (s : S) : result S :=
  match items with
  | None => Ok s
  | Some items =>
      if y_is_null items then Ok s
      else if negb (y_is_sequence items)
      then config_error (label +:+ " must be a sequence")%stdpp
      else for_items label parse add 0 (y_items items) s
  end.

Definition parse_customers := parse_section "customers" customer_item (fun c l => l ++ [c]).
Definition parse_large_transfer :=
  parse_section "rules.large_transfer" large_transfer_item (fun c l => l ++ [c]).
Definition parse_governance := parse_section "rules.governance" governance_item push_config.
Definition parse_mint_burn := parse_section "rules.mint_burn" mint_burn_item push_config.
Definition parse_approval := parse_section "rules.approval" approval_item push_config.
Definition parse_bridge_transfers :=
  parse_section "rules.bridge_transfers" bridge_item add_bridge_rule.
Definition parse_oracle_update := parse_section "rules.oracle_update" oracle_item push_config.
Definition parse_bridge_contracts :=
  parse_section "bridge_contracts" bridge_contract_item add_bridge.
End Parser.

(** ** Customer ids *)

Definition check_customer (declared : gset Z) (section : string) (customer_id : Z) : result unit :=
  if bool_decide (customer_id ∈ declared) then Ok ()
  else config_error ("rule section '" +:+ section +:+ "' references undeclared customer_id=" +:+
                     std_to_string customer_id +:+ "; add it to the customers section")%stdpp.

(** [for (const auto &[key, vec] : map) for (const auto &c : vec)]. *)
Definition all_configs {K C : Type} `{Countable K} (m : gmap K (list C)) : list C :=
  (map_to_list m).*2 ≫= id.

Definition validate_customer_ids (cfg : BacktestConfig) : result unit :=
  let declared := list_to_set (ce_id <$> bc_customers cfg) in
  let check section ids := mapM (check_customer declared section) ids in
  _ ← check "large_transfer" (lt_customer_id <$> bc_large_transfers cfg);
  _ ← check "governance" (gr_customer_id <$> all_configs (bc_governance cfg));
  _ ← check "mint_burn" (mr_customer_id <$> all_configs (bc_mint_burn cfg));
  _ ← check "approval" (ar_customer_id <$> all_configs (bc_approvals cfg));
  _ ← check "bridge_transfer" (br_customer_id <$> all_configs (bt_configs (bc_bridges cfg)));
  _ ← check "oracle_update" (oc_customer_id <$> all_configs (bc_oracles cfg));
  Ok ().

(** ** The whole file *)

Section Loader.
Context {Y : Type} `{Yaml Y}.

Definition parse_max_block_range (node : option Y) : result Z :=
  match node with
  | None => Ok 1000
  | Some node =>
      range ← y_u64 node;
      if range =? 0 then config_error "max_block_range must be > 0" else Ok range
  end.

Definition parse_rules (rules : option Y) (cfg : BacktestConfig) : result BacktestConfig :=
  match rules with
  | None => Ok cfg
  | Some rules =>
      if y_is_null rules then Ok cfg
      else if negb (y_is_map rules) then config_error "rules must be a map"
      else
        _ ← warn_unknown_keys rules;
        lt ← y_get "large_transfer" rules; lt ← parse_large_transfer lt (bc_large_transfers cfg);
        g ← y_get "governance" rules; g ← parse_governance g (bc_governance cfg);
        mb ← y_get "mint_burn" rules; mb ← parse_mint_burn mb (bc_mint_burn cfg);
        a ← y_get "approval" rules; a ← parse_approval a (bc_approvals cfg);
        b ← y_get "bridge_transfers" rules; b ← parse_bridge_transfers b (bc_bridges cfg);
        o ← y_get "oracle_update" rules; o ← parse_oracle_update o (bc_oracles cfg);
        Ok (mkBacktestConfig (bc_chain cfg) (bc_start_block cfg) (bc_end_block cfg)
              (bc_output_path cfg) (bc_max_block_range cfg) (bc_customers cfg) lt g mb a b o)
  end.

Definition with_bridges (b : BridgeTables) (cfg : BacktestConfig) : BacktestConfig :=
  mkBacktestConfig (bc_chain cfg) (bc_start_block cfg) (bc_end_block cfg) (bc_output_path cfg)
    (bc_max_block_range cfg) (bc_customers cfg) (bc_large_transfers cfg) (bc_governance cfg)
    (bc_mint_burn cfg) (bc_approvals cfg) b (bc_oracles cfg).

Definition load_backtest_config (files : string -> option string) (yaml_path : string)
    : result BacktestConfig :=
  match files yaml_path with
  | None => config_error ("cannot open '" +:+ yaml_path +:+ "'")%stdpp
  | Some content =>
      root ← wrap_std (y_load content) ("YAML parse error in '" +:+ yaml_path +:+ "': ")%stdpp;
      if negb (y_is_map root)
      then config_error ("top-level YAML must be a map in '" +:+ yaml_path +:+ "'")%stdpp
      else
        _ ← warn_unknown_keys root;
        chain ← require_string root "chain" "<root>";
        if negb (bool_decide (chain = "ethereum")) && negb (bool_decide (chain = "arbitrum"))
        then config_error ("chain must be 'ethereum' or 'arbitrum', got '" +:+ chain +:+ "'")%stdpp
        else
          start_block ← require_uint root "start_block" "<root>";
          end_block ← require_uint root "end_block" "<root>";
          if end_block <=? start_block
          then config_error ("start_block (" +:+ std_to_string start_block +:+
                 ") must be < end_block (" +:+ std_to_string end_block +:+ ")")%stdpp
          else
            output_path ← require_string root "output_path" "<root>";
            if str_empty output_path then config_error "output_path must not be empty"
            else
              max_node ← y_get "max_block_range" root;
              max_block_range ← parse_max_block_range max_node;
              items ← y_get "customers" root;
              customers ← parse_customers items [];
              rules ← y_get "rules" root;
              cfg ← parse_rules rules
                      (mkBacktestConfig chain start_block end_block output_path max_block_range
                         customers [] ∅ ∅ ∅ (mkBridgeTables ∅ ∅ ∅) ∅);
              contracts ← y_get "bridge_contracts" root;
              bridges ← parse_bridge_contracts contracts (bc_bridges cfg);
              let cfg := with_bridges bridges cfg in
              _ ← validate_customer_ids cfg;
              Ok cfg
  end.
End Loader.

(** * Facts *)

(** ** Addresses *)

Lemma lower_nibble c d : tolower c = c -> hex_nibble c = Ok d -> digit_char d = c.
Proof.
  intros Hl Hd. destruct c as [[] [] [] [] [] [] [] []]; vm_compute in Hl; try discriminate Hl;
    vm_compute in Hd; try discriminate Hd; injection Hd as <-; reflexivity.
Qed.

Lemma lower_hex_bytes (n : nat) s out b :
  str_tolower s = s -> String.length s = (2 * n)%nat -> length out = n ->
  hex_bytes_loop s out = Ok b -> bytes_to_hex b = s.
Proof.
  revert s out b; induction n as [|n IH]; intros s out b Hl Hs Hout Hb.
  { destruct s; [|done]. destruct out; [|done]. cbn in Hb. by injection Hb as <-. }
  destruct s as [|h [|l s]]; cbn in Hs; [lia..|]. destruct out as [|o out]; [done|].
  cbn [str_tolower] in Hl. injection Hl as Hh Hl Hs'. cbn [hex_bytes_loop] in Hb. invert_result.
  pose proof (lower_nibble h _ Hh ltac:(eassumption)) as Hdh.
  pose proof (lower_nibble l _ Hl ltac:(eassumption)) as Hdl.
  match goal with H1 : hex_nibble h = Ok ?x, H2 : hex_nibble l = Ok ?y |- _ =>
    apply hex_nibble_bound in H1, H2; rename x into hi; rename y into lo end.
  injection Hout as Hout.
  match goal with H : hex_bytes_loop s out = Ok ?r |- _ =>
    pose proof (IH s out r Hs' ltac:(lia) Hout H) as Hrest end.
  cbn [bytes_to_hex]. rewrite Hrest. unfold snprintf_02x.
  assert (byte_of_nibbles hi lo = hi * 16 + lo) as -> by (by rewrite byte_of_nibbles_val).
  rewrite Z.div_add_l, Z.div_small, Z.add_0_r by lia.
  rewrite Z.add_comm, Z_mod_plus_full, Z.mod_small by lia. by rewrite Hdh, Hdl.
Qed.

(** A validated address is the text form of its bytes. *)
Definition is_address (s : string) (b : list Z) : Prop := bytes_ok 20 b /\ s = address_to_hex b.

Lemma validate_hex_loop_bytes s out :
  validate_hex_loop s = Ok () -> exists b, hex_bytes_loop s out = Ok b.
Proof.
  revert s; induction out as [|o out IH]; intros s Hv.
  { by destruct s as [|? [|? ?]]; eexists. }
  destruct s as [|h [|l s]]; [by eexists..|]. cbn [validate_hex_loop hex_bytes_loop] in *.
  invert_result. match goal with H : validate_hex_loop s = Ok ?u |- _ =>
    destruct u; destruct (IH s H) as [b Hb] end.
  eexists. repeat match goal with H : hex_nibble _ = Ok _ |- _ => rewrite H; clear H end.
  cbn [mbind result_bind]. rewrite Hb. reflexivity.
Qed.

Lemma wrap_std_Ok {X} (m : result X) msg x : wrap_std m msg = Ok x <-> m = Ok x.
Proof. destruct m as [|[]]; cbn; naive_solver. Qed.

Lemma validated_address s ctx :
  validate_hex_address (lower s) ctx = Ok () ->
  exists b, parse_hex_bytes (lower s) (zeros 20) = Ok b /\ is_address (lower s) b.
Proof.
  unfold validate_hex_address. intros Hv.
  destruct (negb _ || _) eqn:Hlen; [done|]. apply wrap_std_Ok in Hv.
  apply orb_false_iff in Hlen as [Hlen%negb_false_iff%Nat.eqb_eq Hpre].
  unfold validate_hex, parse_hex_bytes in *.
  destruct (strip_0x (lower s)) as [ds|] eqn:Hs; [|done].
  destruct (Nat.even _); [|done]. cbn [negb] in *.
  destruct (validate_hex_loop_bytes ds (zeros 20) Hv) as [b Hb].
  exists b. split; [done|]. apply strip_0x_Some in Hs.
  rewrite Hs, str_length_app in Hlen. cbn in Hlen.
  split; [|rewrite Hs; unfold address_to_hex; f_equal; symmetry].
  - destruct (hex_bytes_loop_ok _ _ _ Hb) as [Hl Hf]. split; [done|]. apply Hf, zeros_bytes.
  - apply (lower_hex_bytes 20 ds (zeros 20)); [|lia|done|done].
    pose proof (str_tolower_idem s) as Hi. unfold lower in Hs. rewrite Hs in Hi.
    by injection Hi.
Qed.

(** ** Sections *)

Section SectionFacts.
Context {Y X S : Type} `{Yaml Y}.
Implicit Types (parse : string -> Y -> result X) (add : X -> S -> S).

Definition item_context (label : string) (idx : Z) : string :=
  (label +:+ "[" +:+ std_to_string idx +:+ "]")%stdpp.

(** The values of a section's items, each parsed with its own context. *)
Definition items_parsed label parse (items : list Y) (l : list X) : Prop :=
  length l = length items /\
  forall i item x, items !! i = Some item -> l !! i = Some x ->
    parse (item_context label (Z.of_nat i)) item = Ok x.

Lemma for_items_Ok label parse add n items s s' :
  for_items label parse add (Z.of_nat n) items s = Ok s' <->
  exists l, length l = length items /\
    (forall i item x, items !! i = Some item -> l !! i = Some x ->
       parse (item_context label (Z.of_nat (n + i))) item = Ok x) /\
    s' = for_each add l s.
Proof.
  revert n s; induction items as [|item items IH]; intros n s; cbn [for_items].
  - split; [intros [= <-]; by exists []|]. intros ([|] & ? & _ & ->); done.
  - rewrite bind_Ok_inv. replace (Z.of_nat n + 1) with (Z.of_nat (Datatypes.S n)) by lia. split.
    + intros (x & Hx & (l & Hlen & Hl & ->)%IH). exists (x :: l).
      split_and!; [cbn; congruence| |done]. intros [|i] item' x'; cbn.
      * intros [= <-] [= <-]. by rewrite Nat.add_0_r.
      * intros Hi Hx'. rewrite Nat.add_succ_r. by apply (Hl i).
    + intros ([|x l] & Hlen & Hl & ->); [done|]. injection Hlen as Hlen. exists x. split.
      * rewrite <- (Nat.add_0_r n). by apply (Hl 0%nat).
      * apply IH. exists l. split_and!; [done| |done]. intros i item' x' Hi Hx'.
        replace (Datatypes.S n + i)%nat with (n + Datatypes.S i)%nat by lia.
        by apply (Hl (Datatypes.S i)).
Qed.

Lemma parse_section_Ok label parse add (node : Y) s s' :
  y_is_null node = false ->
  parse_section label parse add (Some node) s = Ok s' <->
  y_is_sequence node = true /\
  exists l, items_parsed label parse (y_items node) l /\ s' = for_each add l s.
Proof.
  intros Hnull. cbn [parse_section]. rewrite Hnull.
  destruct (y_is_sequence node); cbn [negb]; [|naive_solver].
  rewrite (for_items_Ok label parse add 0). unfold items_parsed. naive_solver.
Qed.

Lemma items_parsed_total label parse (items : list Y) :
  (forall i item, items !! i = Some item ->
     is_ok (parse (item_context label (Z.of_nat i)) item) = true) ->
  exists l, items_parsed label parse items l.
Proof.
  induction items as [|item items IH] using rev_ind; intros Hall; [by exists []|].
  destruct IH as (l & Hlen & Hl).
  { intros i it Hi. apply Hall. rewrite lookup_app_l; [done|]. by eapply lookup_lt_Some. }
  specialize (Hall (length items) item (list_lookup_middle items [] item _ eq_refl)).
  destruct (parse _ item) as [x|] eqn:Hx; [|done]. exists (l ++ [x]).
  split; [rewrite !length_app; cbn; lia|]. intros i it y Hi Hy.
  destruct (decide (i < length items)%nat).
  - rewrite lookup_app_l in Hi by done. rewrite lookup_app_l in Hy by lia. by eapply Hl.
  - apply lookup_snoc_Some in Hi as [[? ?]|[-> <-]]; [done|].
    apply lookup_snoc_Some in Hy as [[? ?]|[_ <-]]; [lia|done].
Qed.

Lemma parse_section_inv (P : S -> Prop) label parse add (items : option Y) s s' :
  (forall ctx item x s, parse ctx item = Ok x -> P s -> P (add x s)) ->
  parse_section label parse add items s = Ok s' -> P s -> P s'.
Proof.
  intros Hadd. destruct items as [node|]; [|by intros [= <-]].
  destruct (y_is_null node) eqn:Hn; [cbn; rewrite Hn; by intros [= <-]|].
  rewrite parse_section_Ok by done. intros (_ & l & [Hlen Hl] & ->) Hs.
  apply for_each_inv; [|done]. intros x s0 Hx. apply list_elem_of_lookup in Hx as [i Hi].
  assert (is_Some (y_items node !! i)) as [item Hitem].
  { apply lookup_lt_is_Some. rewrite <- Hlen. by eapply lookup_lt_Some. }
  by eapply Hadd, Hl.
Qed.
End SectionFacts.

(** ** What a loaded configuration looks like *)

Definition bt_governance_ok (k : GovernanceContractKey) (c : GovernanceRuleConfig) : Prop :=
  gr_chain_id c = gk_chain_id k /\ gr_contract_address c = gk_contract_address k /\
  (exists b, is_address (gk_contract_address k) b) /\
  gr_enabled c = true /\ gr_action_filter c = None.

Definition bt_mint_burn_ok (k : MintBurnContractKey) (c : MintBurnRuleConfig) : Prop :=
  mr_chain_id c = mk_chain_id k /\ mr_contract_address c = mk_contract_address k /\
  (exists b, is_address (mk_contract_address k) b) /\ mint_burn_config_ok c /\ mr_enabled c = true.

Definition bt_approval_ok (k : ApprovalContractKey) (c : ApprovalRuleConfig) : Prop :=
  ar_chain_id c = ak_chain_id k /\ is_address (ak_token_address k) (ar_token_address c) /\
  bytes_ok 32 (ar_threshold_be c) /\ ar_enabled c = true.

Section ItemFacts.
Context {Y : Type} `{Yaml Y}.
Implicit Types (ctx : string) (item : Y).

Lemma require_address_ok item field ctx s b :
  require_address item field ctx = Ok (s, b) -> is_address s b.
Proof.
  unfold require_address. intros Hr. invert_result.
  match goal with H : validate_hex_address _ _ = Ok ?u |- _ =>
    destruct u; apply validated_address in H as (b' & Hb & Ha) end.
  match goal with H : Ok _ = Ok _ |- _ => injection H as <- <- | _ => idtac end.
  congruence.
Qed.

Lemma large_transfer_item_ok ctx item c :
  large_transfer_item ctx item = Ok c -> large_transfer_entry_ok c.
Proof.
  unfold large_transfer_item. intros Hr. invert_result.
  match goal with p : string * list Z |- _ => destruct p as [s b] end. invert_result.
  split; [by eapply require_address_ok|by eapply parsed_threshold].
Qed.
Lemma governance_item_ok ctx item kc :
  governance_item ctx item = Ok kc -> bt_governance_ok kc.1 kc.2.
Proof.
  unfold governance_item. intros Hr. invert_result.
  match goal with H : validate_hex_address _ _ = Ok ?u |- _ =>
    destruct u; apply validated_address in H as (b & _ & Ha) end.
  unfold bt_governance_ok. cbn. split_and!; eauto.
Qed.

Lemma mint_burn_item_ok ctx item kc : mint_burn_item ctx item = Ok kc -> bt_mint_burn_ok kc.1 kc.2.
Proof.
  unfold mint_burn_item. intros Hr. invert_result.
  match goal with H : validate_hex_address _ _ = Ok ?u |- _ =>
    destruct u; apply validated_address in H as (b & _ & Ha) end.
  unfold bt_mint_burn_ok, mint_burn_config_ok. cbn. split_and!; eauto using parsed_threshold.
Qed.

Lemma approval_item_ok ctx item kc : approval_item ctx item = Ok kc -> bt_approval_ok kc.1 kc.2.
Proof.
  unfold approval_item. intros Hr. invert_result.
  match goal with p : string * list Z |- _ => destruct p as [s b] end. invert_result.
  unfold bt_approval_ok. cbn. split_and!; eauto using parsed_threshold, require_address_ok.
Qed.

Lemma bridge_item_ok ctx item kc : bridge_item ctx item = Ok kc -> bridge_entry_ok kc.1 kc.2.
Proof.
  unfold bridge_item. intros Hr. invert_result.
  match goal with p : string * list Z |- _ => destruct p as [s b] end. invert_result.
  match goal with H : require_address _ _ _ = _ |- _ => apply require_address_ok in H as [Hb _] end.
  unfold bridge_entry_ok. cbn. split_and!; eauto using parsed_threshold.
Qed.

Lemma oracle_item_ok ctx item kc : oracle_item ctx item = Ok kc -> oracle_entry_ok kc.1 kc.2.
Proof.
  unfold oracle_item. intros Hr. invert_result.
  match goal with p : string * list Z |- _ => destruct p as [s b] end. invert_result.
  match goal with H : require_address _ _ _ = _ |- _ => apply require_address_ok in H as [Hb _] end.
  match goal with H : (if ?b then _ else _) = Ok _ |- _ => destruct b eqn:Hbps; [done|] end.
  invert_result.
  match goal with H : (if ?b then _ else _) = Ok _ |- _ => destruct b eqn:Hdec; [done|] end.
  invert_result. apply orb_false_iff in Hbps as [Hb1 Hb2], Hdec as [Hd1 Hd2].
  unfold oracle_entry_ok. cbn -[u8 u32]. unfold u8. rewrite u32_id, Z.mod_small by lia.
  split_and!; auto; lia.
Qed.

Lemma bridge_contract_item_ok ctx item kn t :
  bridge_contract_item ctx item = Ok kn -> bridge_tables_ok t -> bridge_tables_ok (add_bridge kn t).
Proof.
  unfold bridge_contract_item. intros Hr [Hc Ha]. invert_result.
  split; [done|]. cbn [bt_addresses bt_names add_bridge fst snd]. intros k Hk.
  match goal with |- context [<[?k0 := _]> _ !! _] => destruct (decide (k0 = k)) as [<-|Hne] end.
  - rewrite lookup_insert_eq. cbn. eauto using parsed_address.
  - rewrite lookup_insert_ne by done. apply Ha. set_solver.
Qed.
End ItemFacts.

(** ** Customers *)

Definition declared (cfg : BacktestConfig) (id : Z) : Prop := id ∈ ce_id <$> bc_customers cfg.

Definition customers_declared (cfg : BacktestConfig) : Prop :=
  Forall (fun c => declared cfg (lt_customer_id c)) (bc_large_transfers cfg) /\
  table_ok (fun _ c => declared cfg (gr_customer_id c)) (bc_governance cfg) /\
  table_ok (fun _ c => declared cfg (mr_customer_id c)) (bc_mint_burn cfg) /\
  table_ok (fun _ c => declared cfg (ar_customer_id c)) (bc_approvals cfg) /\
  table_ok (fun _ c => declared cfg (br_customer_id c)) (bt_configs (bc_bridges cfg)) /\
  table_ok (fun _ c => declared cfg (oc_customer_id c)) (bc_oracles cfg).

Lemma all_configs_elem {K C : Type} `{Countable K} (m : gmap K (list C)) c :
  c ∈ all_configs m <-> exists k, c ∈ bucket m k.
Proof.
  unfold all_configs, bucket. rewrite list_elem_of_bind. split.
  - intros (l & Hc & Hl). apply list_elem_of_fmap in Hl as ([k l'] & -> & Hkl).
    apply elem_of_map_to_list in Hkl. exists k. by rewrite Hkl.
  - intros [k Hc]. destruct (m !! k) as [l|] eqn:Hl; [|by apply not_elem_of_nil in Hc].
    exists l. split; [done|]. apply list_elem_of_fmap. exists (k, l). split; [done|].
    by apply elem_of_map_to_list.
Qed.

Lemma check_customers (cfg : BacktestConfig) section ids r :
  mapM (check_customer (list_to_set (ce_id <$> bc_customers cfg)) section) ids = Ok r <->
  Forall (declared cfg) ids /\ r = replicate (length ids) ().
Proof.
  rewrite mapM_result_Forall2. split.
  - induction 1 as [|id u ids r Hid _ IH]; [done|]. destruct IH as [IH ->].
    unfold check_customer in Hid. case_bool_decide as Hin; [|done].
    apply elem_of_list_to_set in Hin. destruct u. split; [by constructor|done].
  - intros [Hall ->]. induction Hall as [|id ids Hid _ IH]; constructor; [|done].
    unfold check_customer. by rewrite bool_decide_eq_true_2 by by apply elem_of_list_to_set.
Qed.

Lemma declared_table {K C : Type} `{Countable K} (cfg : BacktestConfig) (id_of : C -> Z)
    (m : gmap K (list C)) :
  Forall (declared cfg) (id_of <$> all_configs m) <->
  table_ok (fun _ c => declared cfg (id_of c)) m.
Proof.
  rewrite Forall_fmap, list.Forall_forall. unfold table_ok.
  split; [intros Hall k; apply list.Forall_forall|intros Hall]; intros c Hc.
  - apply Hall, all_configs_elem. by exists k.
  - apply all_configs_elem in Hc as [k Hc]. specialize (Hall k).
    rewrite list.Forall_forall in Hall. by apply Hall.
Qed.

Lemma validate_customer_ids_Ok cfg :
  validate_customer_ids cfg = Ok () <-> customers_declared cfg.
Proof.
  unfold validate_customer_ids, customers_declared. cbv zeta.
  rewrite <- !declared_table.
  assert (Forall (fun c => declared cfg (lt_customer_id c)) (bc_large_transfers cfg) <->
          Forall (declared cfg) (lt_customer_id <$> bc_large_transfers cfg)) as ->
    by (by rewrite Forall_fmap).
  repeat setoid_rewrite bind_Ok_inv. repeat setoid_rewrite check_customers. naive_solver.
Qed.

(** What a loaded configuration promises the application. *)
Record backtest_config_ok (cfg : BacktestConfig) : Prop := {
  ok_chain : bc_chain cfg = "ethereum" \/ bc_chain cfg = "arbitrum";
  ok_blocks : 0 <= bc_start_block cfg < bc_end_block cfg;
  ok_end : bc_end_block cfg < 2 ^ 64;
  ok_output : bc_output_path cfg <> "";
  ok_range : 0 < bc_max_block_range cfg < 2 ^ 64;
  ok_large_transfers : Forall large_transfer_entry_ok (bc_large_transfers cfg);
  ok_governance : table_ok bt_governance_ok (bc_governance cfg);
  ok_mint_burn : table_ok bt_mint_burn_ok (bc_mint_burn cfg);
  ok_approvals : table_ok bt_approval_ok (bc_approvals cfg);
  ok_bridges : bridge_tables_ok (bc_bridges cfg);
  ok_oracles : table_ok oracle_entry_ok (bc_oracles cfg);
  ok_customers : customers_declared cfg;
}.

(** [invert_result] through the checks that throw. *)
Ltac invert_config :=
  repeat (invert_result;
    match goal with H : (if ?b then config_error _ else _) = Ok _ |- _ =>
      destruct b eqn:?; [discriminate H|] end);
  invert_result.

Section LoaderFacts.
Context {Y : Type} `{!Yaml Y, !YamlLaws Y}.

Lemma require_uint_ok (node : Y) field ctx v : require_uint node field ctx = Ok v -> is_u64 v.
Proof using YamlLaws0.
  unfold require_uint, require. intros Hr. invert_result.
  match goal with H : match ?o with _ => _ end = Ok _ |- _ => destruct o as [y|]; [|done] end.
  match goal with H : wrap_std _ _ = Ok _ |- _ => apply wrap_std_Ok in H end.
  by eapply y_u64_range.
Qed.

Lemma parse_max_block_range_ok (node : option Y) v :
  parse_max_block_range node = Ok v -> 0 < v < 2 ^ 64.
Proof using YamlLaws0.
  unfold parse_max_block_range. destruct node as [node|]; [|intros [= <-]; lia].
  intros Hr. invert_config.
  match goal with H : y_u64 _ = Ok _ |- _ => apply y_u64_range in H; unfold is_u64 in H end.
  lia.
Qed.

(** The tables of a configuration that is being read. *)
Definition tables_ok (cfg : BacktestConfig) : Prop :=
  Forall large_transfer_entry_ok (bc_large_transfers cfg) /\
  table_ok bt_governance_ok (bc_governance cfg) /\ table_ok bt_mint_burn_ok (bc_mint_burn cfg) /\
  table_ok bt_approval_ok (bc_approvals cfg) /\ bridge_tables_ok (bc_bridges cfg) /\
  table_ok oracle_entry_ok (bc_oracles cfg).

Lemma parse_table_inv {K C : Type} `{Countable K} (P : K -> C -> Prop) label
    (parse : string -> Y -> result (K * C)) items (m m' : gmap K (list C)) :
  (forall ctx item kc, parse ctx item = Ok kc -> P kc.1 kc.2) ->
  parse_section label parse push_config items m = Ok m' -> table_ok P m -> table_ok P m'.
Proof using.
  intros HP. apply parse_section_inv. intros ctx item kc m0 Hkc. apply table_ok_push. eauto.
Qed.

Lemma parse_rules_ok rules cfg cfg' :
  parse_rules (Y := Y) rules cfg = Ok cfg' -> tables_ok cfg ->
  tables_ok cfg' /\
  (bc_chain cfg', bc_start_block cfg', bc_end_block cfg') =
  (bc_chain cfg, bc_start_block cfg, bc_end_block cfg) /\
  (bc_output_path cfg', bc_max_block_range cfg', bc_customers cfg') =
  (bc_output_path cfg, bc_max_block_range cfg, bc_customers cfg).
Proof using.
  unfold parse_rules. destruct rules as [rules|]; [|by intros [= <-]].
  destruct (y_is_null rules); [by intros [= <-]|]. intros Hr Hok. invert_config.
  split; [|done]. destruct Hok as (Hlt & Hg & Hmb & Ha & [Hb1 Hb2] & Ho). unfold tables_ok. cbn.
  split_and!.
  - eapply parse_section_inv; [|eassumption|done]. intros ctx item c l Hc Hl.
    apply Forall_app. split; [done|]. constructor; [|done]. by eapply large_transfer_item_ok.
  - eapply parse_table_inv; [|eassumption|done]. apply governance_item_ok.
  - eapply parse_table_inv; [|eassumption|done]. apply mint_burn_item_ok.
  - eapply parse_table_inv; [|eassumption|done]. apply approval_item_ok.
  - eapply parse_section_inv; [|eassumption|done]. intros ctx item kc t Hkc [Ht1 Ht2].
    split; [|done]. apply table_ok_push; [|done]. by eapply bridge_item_ok.
  - eapply parse_table_inv; [|eassumption|done]. apply oracle_item_ok.
Qed.
End LoaderFacts.

(** * Properties *)

Section Properties.
Context {Y : Type} `{!Yaml Y, !YamlLaws Y}.

(** C32: a configuration file that loads names a supported chain, a
    non-empty block range, an output path and a positive batch size; every rule belongs to a
    declared customer, has 32-byte thresholds and oracle bounds in range, and its address is 20
    bytes whose 0x text is the key of its table, so that a log of that address finds it. *)
Theorem load_backtest_config_valid (files : string -> option string) (path : string)
    (cfg : BacktestConfig) :
  load_backtest_config files path = Ok cfg -> backtest_config_ok cfg.
Proof using YamlLaws0.
  unfold load_backtest_config. intros Hr. destruct (files path) as [content|]; [|done].
  invert_result.
  repeat match goal with H : (if ?b then config_error _ else _) = Ok _ |- _ =>
    destruct b eqn:?; [done|] end; invert_result.
  repeat match goal with H : (if ?b then config_error _ else _) = Ok _ |- _ =>
    destruct b eqn:?; [done|]; invert_result end.
  repeat match goal with H : require_uint _ _ _ = Ok _ |- _ =>
    apply require_uint_ok in H; unfold is_u64 in H end.
  match goal with H : parse_max_block_range _ = Ok _ |- _ =>
    apply parse_max_block_range_ok in H end.
  match goal with H : validate_customer_ids _ = Ok ?u |- _ =>
    destruct u; apply validate_customer_ids_Ok in H end.
  match goal with H : parse_rules _ _ = Ok _ |- _ => apply parse_rules_ok in H as (Ht & Hk1 & Hk2) end.
  2: { split_and!; try apply table_ok_empty; [constructor|split; [apply table_ok_empty|set_solver]]. }
  cbn in Hk1, Hk2. injection Hk1 as Hc Hs He. injection Hk2 as Ho Hm Hcu.
  destruct Ht as (? & ? & ? & ? & Hb & ?).
  match goal with H : parse_bridge_contracts _ _ = Ok _ |- _ =>
    apply (parse_section_inv bridge_tables_ok) in H; [|apply bridge_contract_item_ok|done] end.
  split; cbn; rewrite ?Hc, ?Hs, ?He, ?Ho, ?Hm; try done; try lia.
  - match goal with H : negb _ && negb _ = false |- _ =>
      apply andb_false_iff in H as [H|H]; apply negb_false_iff, bool_decide_eq_true in H; auto end.
  - intros ->. done.
Qed.

(** A section of the file is read whole or not at all: it is
    accepted exactly when every item parses, and then each key of the table holds exactly the
    configurations of the items with that key, in the order of the file, every one read with its own
    index in the error messages. *)
Theorem backtest_sections_all_or_nothing {K C : Type} `{Countable K} (label : string)
    (parse : string -> Y -> result (K * C)) (node : Y) (Hnull : y_is_null node = false) :
  (is_ok (parse_section label parse push_config (Some node) ∅) = true <->
   y_is_sequence node = true /\
   forall i item, y_items node !! i = Some item ->
     is_ok (parse (item_context label (Z.of_nat i)) item) = true) /\
  (forall m, parse_section label parse push_config (Some node) ∅ = Ok m ->
   exists l, items_parsed label parse (y_items node) l /\ forall k, bucket m k = configs_of k l).
Proof using.
  split.
  - split.
    + destruct (parse_section _ _ _ _ _) as [m|] eqn:Hm; [|done]. intros _.
      apply parse_section_Ok in Hm as (Hseq & l & [Hlen Hl] & ->); [|done]. split; [done|].
      intros i item Hi. destruct (lookup_lt_is_Some_2 l i) as [x Hx].
      { rewrite Hlen. by eapply lookup_lt_Some. }
      by rewrite (Hl i item x).
    + intros [Hseq Hall].
      destruct (items_parsed_total label parse _ Hall) as [l Hl].
      rewrite (proj2 (parse_section_Ok label parse push_config node ∅ (for_each push_config l ∅) Hnull)); [done|].
      split; [done|]. by exists l.
  - intros m Hm. apply parse_section_Ok in Hm as (_ & l & Hl & ->); [|done].
    exists l. split; [done|]. intros k. by rewrite bucket_push_all, bucket_empty.
Qed.
End Properties.

(** ** Witnesses: a document type with these laws *)

Inductive yaml :=
  | YNull
  | YScalar (s : string)
  | YSequence (l : list yaml)
  | YMap (kvs : list (string * yaml)).

Fixpoint yaml_field (k : string) (kvs : list (string * yaml)) : option yaml :=
  match kvs with
  | [] => None
  | (k', v) :: kvs => if decide (k' = k) then Some v else yaml_field k kvs
  end.

Definition yaml_scalar {X : Type} (f : string -> result X) (y : yaml) : result X :=
  match y with YScalar s => f s | _ => Throw (LibraryError "bad conversion") end.

#[local] Instance sample_Yaml (doc : yaml) : Yaml yaml := {
  y_load _ := Ok doc;
  y_is_null y := match y with YNull => true | _ => false end;
  y_is_map y := match y with YMap _ => true | _ => false end;
  y_is_sequence y := match y with YSequence _ => true | _ => false end;
  y_get k y :=
    match y with
    | YMap kvs => Ok (yaml_field k kvs)
    | YScalar _ => Throw (LibraryError "operator[] call on a scalar")
    | _ => Ok None
    end;
  y_items y := match y with YSequence l => l | _ => [] end;
  y_keys y := match y with YMap kvs => Ok <$> kvs.*1 | _ => [] end;
  y_string := yaml_scalar Ok;
  y_u64 := yaml_scalar (fun s => v ← stoull10 s; Ok (u64 v));
  y_int := yaml_scalar stoi;
  y_bool := yaml_scalar (fun s => Ok (bool_decide (s = "true")));
}.

Lemma sample_Yaml_laws doc : @YamlLaws yaml (sample_Yaml doc).
Proof.
  split. intros [|s| |] v; cbn; try done. destruct (stoull10 s); [|done].
  intros [= <-]. apply u64_bound.
Qed.

Definition sample_approval_item (address : string) : yaml :=
  YMap [("customer_id", YScalar "1"); ("chain_id", YScalar "1");
        ("token_address", YScalar address); ("threshold_decimal", YScalar "500")].

Definition sample_config (address : string) : yaml :=
  YMap [("chain", YScalar "ethereum"); ("start_block", YScalar "100"); ("end_block", YScalar "200");
        ("output_path", YScalar "out.jsonl");
        ("customers", YSequence [YMap [("id", YScalar "1"); ("key", YScalar "acme")]]);
        ("rules", YMap [("approval", YSequence [sample_approval_item address])])].

Definition upper_address : string := "0xABABABABABABABABABABABABABABABABABABABAB".

Lemma load_backtest_config_valid_witness :
  exists cfg,
    @load_backtest_config _ (sample_Yaml (sample_config upper_address)) (fun _ => Some "") "c.yaml"
      = Ok cfg /\
    backtest_config_ok cfg /\
    ar_customer_id <$> bucket (bc_approvals cfg)
      (mkApprovalContractKey 1 (address_to_hex (replicate 20 171))) = [1].
Proof.
  eexists. split; [vm_compute; reflexivity|]. split; [|vm_compute; reflexivity].
  eapply (@load_backtest_config_valid yaml (sample_Yaml (sample_config upper_address))
    (sample_Yaml_laws _) (fun _ => Some "") "c.yaml").
  vm_compute. reflexivity.
Defined.

Lemma backtest_sections_all_or_nothing_witness :
  let good := sample_approval_item upper_address in
  let parse node :=
    @parse_section yaml (sample_Yaml YNull) _ _ "rules.approval"
      (@approval_item yaml (sample_Yaml YNull)) push_config (Some node) ∅ in
  is_ok (parse (YSequence [good; good])) = true /\
  ~ is_ok (parse (YSequence [good; sample_approval_item "0xab"])) = true.
Proof.
  intros good parse. unfold parse. split.
  - apply (@backtest_sections_all_or_nothing yaml (sample_Yaml YNull) _ _ _ _ "rules.approval"
      (@approval_item yaml (sample_Yaml YNull)) (YSequence [good; good]) eq_refl).
    split; [reflexivity|]. intros [|[|i]] item Hi; [..|done]; injection Hi as <-;
      vm_compute; reflexivity.
  - intros Hok. apply (@backtest_sections_all_or_nothing yaml (sample_Yaml YNull) _ _ _ _
      "rules.approval" (@approval_item yaml (sample_Yaml YNull))
      (YSequence [good; sample_approval_item "0xab"]) eq_refl) in Hok as [_ Hall].
    specialize (Hall 1%nat _ eq_refl). vm_compute in Hall. discriminate Hall.
Defined.
