(* ===== verification/Formatter.v ===== *)
(** * Alert texts

    Model of [src/risk/alert_formatter.cpp].  The two maps are pointers that may
    be null. *)
From S2P Require Import Prelude Cxx Signal.
From Stdlib Require Import Ascii.
Local Open Scope stdpp_scope.

(** [map && map->contains(k)], then [map->at(k)]. *)
Definition map_at {K : Type} `{Countable K} (m : option (gmap K string)) (k : K) : option string :=
  m ≫= fun m => m !! k.

(** [if (o && !o->empty())]. *)
Definition nonempty (o : option string) : option string :=
  match o with
  | Some s => if str_empty s then None else Some s
  | None => None
  end.

(** [text += label + *value + "\n"] under such a condition. *)
Definition add_line (label : string) (value : option string) (text : string) : string :=
  match value with
  | Some v => text +:+ label +:+ v +:+ nl
  | None => text
  end.

Section Telegram.
Variable token_map : option (gmap TokenKey string).

(** The symbol of the alert's token on its chain. *)
Definition token_symbol (alert : Alert) (token : string) : option string :=
  chain_id ← al_chain_id alert; map_at token_map (mkTokenKey chain_id token).

(** The "Token" line of the approval, mint/burn and bridge messages. *)
Definition token_line (alert : Alert) : option string :=
  match nonempty (al_token_address alert) with
  | Some token =>
      Some match token_symbol alert token with
           | Some symbol => symbol +:+ " (" +:+ token +:+ ")"
           | None => token
           end
  | None => None
  end.

(** Chain, amount and token, as three of the branches append them. *)
Definition token_details (alert : Alert) (text : string) : string :=
  let text := add_line "Chain ID: " (std_to_string <$> al_chain_id alert) text in
  let text := add_line "Amount: " (nonempty (al_amount_decimal alert)) text in
  add_line "Token: " (token_line alert) text.

(** The last branch, for the large-transfer rule and unknown types. *)
Definition plain_details (alert : Alert) (text : string) : string :=
  match nonempty (al_amount_decimal alert) with
  | Some amount =>
      let symbol_or_contract :=
        match nonempty (al_token_address alert) with
        | Some token => default token (token_symbol alert token)
        | None => default "" (al_token_address alert)
        end in
      let text := text +:+ "Amount: " +:+ amount +:+ nl in
      text +:+ "Token: " +:+ symbol_or_contract +:+ nl
  | None => text
  end.

Definition oracle_details (alert : Alert) (text : string) : string :=
  let text := add_line "Chain ID: " (std_to_string <$> al_chain_id alert) text in
  let text := add_line "Current value: " (nonempty (al_amount_decimal alert)) text in
  add_line "Aggregator: " (nonempty (al_token_address alert)) text.

Definition format_telegram (customer_map : option (gmap Z string)) (alert : Alert) : string :=
  let customer_key := default (std_to_string (al_customer_id alert))
                        (map_at customer_map (al_customer_id alert)) in
  let text := "[Risk Sentinel Alert]" +:+ nl in
  let text := text +:+ "Customer: " +:+ customer_key +:+ nl in
  let rule := al_rule_type alert in
  let message text := text +:+ "Message: " +:+ al_message alert +:+ nl in
  let text :=
    if decide (rule = "governance") then message (text +:+ "Type: Governance" +:+ nl)
    else if decide (rule = "approval") then
      token_details alert (message (text +:+ "Type: Approval" +:+ nl))
    else if decide (rule = "mint_burn") then
      token_details alert (message (text +:+ "Type: Mint/Burn" +:+ nl))
    else if decide (rule = "bridge_transfer") then
      token_details alert (message (text +:+ "Type: Bridge Transfer" +:+ nl))
    else if decide (rule = "oracle_update") then
      oracle_details alert (message (text +:+ "Type: Oracle Update" +:+ nl))
    else plain_details alert (message text) in
  text +:+ "Time: " +:+ std_to_string (al_timestamp_ms alert).
End Telegram.

Definition format_console (alert : Alert) : string :=
  let out := "[AlertDispatcher] Executing Webhook for: " +:+ al_message alert +:+
             " [Time: " +:+ std_to_string (al_timestamp_ms alert) +:+ "]" in
  let part label value out :=
    match nonempty value with Some v => out +:+ label +:+ v +:+ "]" | None => out end in
  let out :=
    if decide (al_rule_type alert <> "governance")
    then part " [Token: " (al_token_address alert) (part " [Amount: " (al_amount_decimal alert) out)
    else out in
  out +:+ nl.

(** * Specification: a message is a list of lines *)

Definition line (label value : string) : string := label +:+ value.

Fixpoint join_lines (ls : list string) : string :=
  match ls with
  | [] => ""
  | [l] => l
  | l :: ls => l +:+ nl +:+ join_lines ls
  end.

(** The name of a rule type in the messages. *)
Definition rule_title (rule : string) : option string :=
  list_to_map (M := gmap string string)
    [("governance", "Governance"); ("approval", "Approval"); ("mint_burn", "Mint/Burn");
     ("bridge_transfer", "Bridge Transfer"); ("oracle_update", "Oracle Update")] !! rule.

(** Each kind of detail as a table of optional lines. *)
Definition details (token_map : option (gmap TokenKey string)) (a : Alert) : list (option string) :=
  let chain := line "Chain ID: " ∘ std_to_string <$> al_chain_id a in
  let amount label := line label <$> nonempty (al_amount_decimal a) in
  match rule_title (al_rule_type a) with
  | Some "Governance" => []
  | Some "Oracle Update" =>
      [chain; amount "Current value: "; line "Aggregator: " <$> nonempty (al_token_address a)]
  | Some _ => [chain; amount "Amount: "; line "Token: " <$> token_line token_map a]
  | None =>
      [amount "Amount: ";
       nonempty (al_amount_decimal a) ≫= fun _ => Some (line "Token: "
         (default (default "" (al_token_address a))
            (nonempty (al_token_address a) ≫= token_symbol token_map a)))]
  end.

Definition telegram_lines (customer_map : option (gmap Z string))
    (token_map : option (gmap TokenKey string)) (a : Alert) : list string :=
  ["[Risk Sentinel Alert]";
   line "Customer: " (default (std_to_string (al_customer_id a))
                        (map_at customer_map (al_customer_id a)))] ++
  omap (fun o => o) [line "Type: " <$> rule_title (al_rule_type a)] ++
  [line "Message: " (al_message a)] ++
  omap (fun o => o) (details token_map a) ++
  [line "Time: " (std_to_string (al_timestamp_ms a))].

(** Lines ended by a newline each, before the last one. *)
Fixpoint unlines (ls : list string) : string :=
  match ls with [] => "" | l :: ls => l +:+ nl +:+ unlines ls end.

Lemma join_lines_snoc ls l : join_lines (ls ++ [l]) = unlines ls +:+ l.
Proof.
  induction ls as [|x ls IH]; [done|]. cbn [app unlines].
  destruct (ls ++ [l]) eqn:Hls; [by destruct ls|].
  change (join_lines (x :: s :: l0)) with (x +:+ nl +:+ join_lines (s :: l0)).
  by rewrite IH, !str_app_assoc.
Qed.

Lemma unlines_app l1 l2 : unlines (l1 ++ l2) = unlines l1 +:+ unlines l2.
Proof.
  induction l1 as [|x l1 IH]; [done|]. cbn [app unlines]. by rewrite IH, !str_app_assoc.
Qed.

(** Appending an optional line to a text that is made of lines. *)
Lemma add_line_unlines label v ls :
  add_line label v (unlines ls) = unlines (ls ++ option_list (line label <$> v)).
Proof.
  rewrite unlines_app. destruct v as [v|]; cbn; [|by rewrite str_app_nil_r].
  unfold line. by rewrite !str_app_assoc, str_app_nil_r.
Qed.

Lemma push_line_unlines label v ls :
  unlines ls +:+ label +:+ v +:+ nl = unlines (ls ++ [line label v]).
Proof. exact (add_line_unlines label (Some v) ls). Qed.

Lemma rule_title_cases rule :
  rule_title rule =
  if decide (rule = "governance") then Some "Governance"
  else if decide (rule = "approval") then Some "Approval"
  else if decide (rule = "mint_burn") then Some "Mint/Burn"
  else if decide (rule = "bridge_transfer") then Some "Bridge Transfer"
  else if decide (rule = "oracle_update") then Some "Oracle Update" else None.
Proof.
  unfold rule_title. repeat case_decide; subst; try reflexivity.
  rewrite !list_to_map_cons. cbn [fst snd]. by rewrite !lookup_insert_ne.
Qed.

Lemma omap_id_app {X} (l1 l2 : list (option X)) :
  omap (fun o => o) (l1 ++ l2) = omap (fun o => o) l1 ++ omap (fun o => o) l2.
Proof. apply omap_app. Qed.

Lemma omap_id_cons {X} (o : option X) l :
  omap (fun o => o) (o :: l) = option_list o ++ omap (fun o => o) l.
Proof. by destruct o. Qed.

Lemma token_details_unlines tm a ls :
  token_details tm a (unlines ls) =
  unlines (ls ++ omap (fun o => o)
    [line "Chain ID: " ∘ std_to_string <$> al_chain_id a;
     line "Amount: " <$> nonempty (al_amount_decimal a); line "Token: " <$> token_line tm a]).
Proof.
  unfold token_details. rewrite !add_line_unlines, !omap_id_cons. cbn [omap list_omap].
  by rewrite <- !app_assoc, app_nil_r, <- option_fmap_compose.
Qed.

Lemma oracle_details_unlines a ls :
  oracle_details a (unlines ls) =
  unlines (ls ++ omap (fun o => o)
    [line "Chain ID: " ∘ std_to_string <$> al_chain_id a;
     line "Current value: " <$> nonempty (al_amount_decimal a);
     line "Aggregator: " <$> nonempty (al_token_address a)]).
Proof.
  unfold oracle_details. rewrite !add_line_unlines, !omap_id_cons. cbn [omap list_omap].
  by rewrite <- !app_assoc, app_nil_r, <- option_fmap_compose.
Qed.

Lemma plain_details_unlines tm a ls :
  plain_details tm a (unlines ls) =
  unlines (ls ++ omap (fun o => o)
    [line "Amount: " <$> nonempty (al_amount_decimal a);
     nonempty (al_amount_decimal a) ≫= fun _ => Some (line "Token: "
       (default (default "" (al_token_address a))
          (nonempty (al_token_address a) ≫= token_symbol tm a)))]).
Proof.
  unfold plain_details. destruct (nonempty (al_amount_decimal a)) as [amount|];
    [|by rewrite app_nil_r].
  rewrite !push_line_unlines, <- app_assoc. cbn. do 4 f_equal. unfold nonempty.
  destruct (al_token_address a) as [t|]; [|done]. destruct (str_empty t); [done|].
  cbn. by destruct (token_symbol tm a t).
Qed.

(** * Properties *)

(** A Telegram message is exactly these lines: the banner, the
    customer's key (its number when the key is unknown), the rule's title when it has one, the
    message, the details of that kind of rule that the alert has, a token under its symbol when the
    map knows it on the alert's chain, and the time; a governance alert shows no amount or token. *)
Theorem format_telegram_lines (customer_map : option (gmap Z string))
    (token_map : option (gmap TokenKey string)) (a : Alert) :
  format_telegram token_map customer_map a = join_lines (telegram_lines customer_map token_map a).
Proof.
  unfold telegram_lines. cbn [app]. rewrite !app_comm_cons, !app_assoc, join_lines_snoc.
  unfold format_telegram. cbv zeta. f_equal.
  assert ("[Risk Sentinel Alert]" +:+ nl = unlines ["[Risk Sentinel Alert]"]) as -> by done.
  rewrite push_line_unlines. unfold details. rewrite rule_title_cases.
  change ("Type: Governance" +:+ nl) with ("Type: " +:+ "Governance" +:+ nl).
  change ("Type: Approval" +:+ nl) with ("Type: " +:+ "Approval" +:+ nl).
  change ("Type: Mint/Burn" +:+ nl) with ("Type: " +:+ "Mint/Burn" +:+ nl).
  change ("Type: Bridge Transfer" +:+ nl) with ("Type: " +:+ "Bridge Transfer" +:+ nl).
  change ("Type: Oracle Update" +:+ nl) with ("Type: " +:+ "Oracle Update" +:+ nl).
  rewrite !push_line_unlines, !token_details_unlines, oracle_details_unlines,
    plain_details_unlines.
  repeat case_decide; cbn [app]; by rewrite ?app_nil_r.
Qed.
