(* ===== verification/Security.v ===== *)
(** * Secrets

    Model of [src/security/crypto.cpp] and [src/admin/encrypt_secret.cpp], and
    of [parse_pg_bytea] of [src/app/app.cpp].  OpenSSL is a parameter: [Evp]
    says what a sequence of its calls may answer, a failing call being named by
    the text the code reports. *)
From S2P Require Import Prelude Cxx Hex.
From Stdlib Require Import Ascii.

(** The bytes of a [std::string]. *)
Fixpoint string_bytes (s : string) : list Z :=
  match s with
  | EmptyString => []
  | String c s => char_code c :: string_bytes s
  end.

Fixpoint bytes_string (l : list Z) : string :=
  match l with
  | [] => EmptyString
  | b :: l => String (char_of b) (bytes_string l)
  end.

(** [evp_encrypt key nonce plaintext] is the ciphertext and its 16-byte tag;
    [evp_decrypt key nonce ciphertext tag] the plaintext. *)
Class Evp := {
  evp_encrypt : list Z -> list Z -> list Z -> string + list Z * list Z;
  evp_decrypt : list Z -> list Z -> list Z -> list Z -> string + list Z;
  evp_hmac_sha256 : list Z -> list Z -> string + list Z;
}.

(** What AES-GCM promises: what was encrypted is decrypted, with a tag of 16
    bytes. *)
Class EvpLaws `{Evp} : Prop := {
  evp_roundtrip key nonce plaintext ciphertext tag :
    evp_encrypt key nonce plaintext = inr (ciphertext, tag) ->
    evp_decrypt key nonce ciphertext tag = inr plaintext;
  evp_encrypt_bytes key nonce plaintext ciphertext tag :
    evp_encrypt key nonce plaintext = inr (ciphertext, tag) ->
    length tag = 16%nat /\ Forall is_byte ciphertext /\ Forall is_byte tag;
}.

Definition TAG_LEN : nat := 16.

(** ** The byte parsers *)

(** The two local [nibble] functions differ in their message. *)
Definition nibble (invalid : ascii -> string) (c : ascii) : result Z :=
  match hex_nibble c with
  | Ok d => Ok d
  | Throw _ => Throw (RuntimeError (invalid c))
  end.

Definition quote_char (c : ascii) : string := ("'" +:+ String c "'")%stdpp.

(** Pairs of digits; a last single digit is not looked at. *)
Fixpoint byte_pairs (invalid : ascii -> string) (s : string) : result (list Z) :=
  match s with
  | String h (String l s) =>
      hi ← nibble invalid h; lo ← nibble invalid l;
      rest ← byte_pairs invalid s;
      Ok (byte_of_nibbles hi lo :: rest)
  | _ => Ok []
  end.

Definition parse_master_key_hex (hex : string) : result (list Z) :=
  if negb (String.length hex =? 64)%nat
  then Throw (RuntimeError ("parse_master_key_hex: must be exactly 64 hex characters, got " +:+
                            std_to_string (Z.of_nat (String.length hex)))%stdpp)
  else byte_pairs (fun c => "parse_master_key_hex: invalid hex character " +:+ quote_char c)%stdpp hex.

(** "\x0123..." to bytes. *)
Definition parse_pg_bytea (s : string) : result (list Z) :=
  match s with
  | String "\" (String "x" s) =>
      byte_pairs (fun c => "invalid hex nibble in BYTEA: " +:+ quote_char c)%stdpp s
  | _ => Throw (RuntimeError "unexpected BYTEA format (expected \x prefix)")
  end.

(** [std::ostringstream] with [std::hex] and [std::setfill('0')]: an unsigned
    number below 256 in as many digits as it has, after [std::setw(2)]. *)
Definition stream_hex (n : Z) : string :=
  if n <? 16 then String (digit_char n) "" else String (digit_char (n / 16)) (String (digit_char (n mod 16)) "").
Definition setw (width : nat) (fill : ascii) (text : string) : string :=
  Nat.iter (width - String.length text) (String fill) text.

(** The two [bytes_to_hex], of the crypto module and of the command. *)
Definition stream_bytes_to_hex (data : list Z) : string :=
  for_each (fun b oss => (oss +:+ setw 2 "0" (stream_hex b))%stdpp) data "".

Section Crypto.
Context `{Evp}.

Definition aes_gcm_decrypt (master_key nonce ciphertext : list Z) : result string :=
  if negb (length master_key =? 32)%nat
  then Throw (RuntimeError "aes_gcm_decrypt: master_key must be 32 bytes")
  else if negb (length nonce =? 12)%nat
  then Throw (RuntimeError "aes_gcm_decrypt: nonce must be 12 bytes")
  else if (length ciphertext <? TAG_LEN)%nat
  then Throw (RuntimeError "aes_gcm_decrypt: ciphertext too short (< 16 bytes)")
  else
    let enc_len := (length ciphertext - TAG_LEN)%nat in
    match evp_decrypt master_key nonce (take enc_len ciphertext) (drop enc_len ciphertext) with
    | inl failed => Throw (RuntimeError ("aes_gcm_decrypt: " +:+ failed)%stdpp)
    | inr plaintext => Ok (bytes_string plaintext)
    end.

Definition aes_gcm_encrypt (master_key nonce : list Z) (plaintext : string) : result (list Z) :=
  if negb (length master_key =? 32)%nat
  then Throw (RuntimeError "aes_gcm_encrypt: master_key must be 32 bytes")
  else if negb (length nonce =? 12)%nat
  then Throw (RuntimeError "aes_gcm_encrypt: nonce must be 12 bytes")
  else
    match evp_encrypt master_key nonce (string_bytes plaintext) with
    | inl failed => Throw (RuntimeError ("aes_gcm_encrypt: " +:+ failed)%stdpp)
    | inr (ciphertext, tag) => Ok (ciphertext ++ tag)
    end.

Definition hmac_sha256_hex (key data : string) : result string :=
  match evp_hmac_sha256 (string_bytes key) (string_bytes data) with
  | inl failed => Throw (RuntimeError ("hmac_sha256_hex: " +:+ failed)%stdpp)
  | inr digest => Ok (stream_bytes_to_hex digest)
  end.
End Crypto.

(** ** [sentinel admin encrypt-secret] *)

Record EncryptArgs := mkEncryptArgs {
  ea_customer_id : option Z;
  ea_url : string;
  ea_secret : string;
}.

Definition usage (prog : string) : string :=
  ("Usage: " +:+ prog +:+ " admin encrypt-secret --customer-id <uint64> --url <url>" +:+
   " [--secret <plaintext>]" +:+ nl +:+ nl +:+
   "  Reads SENTINEL_SECRET_MASTER_KEY from env." +:+ nl +:+
   "  If --secret is omitted, a random 64-char hex secret is generated." +:+ nl)%stdpp.

Definition error_line (message : string) : string := ("Error: " +:+ message +:+ nl)%stdpp.

Definition unknown_argument (prog arg : string) : string :=
  (error_line ("unknown argument '" +:+ arg +:+ "'") +:+ usage prog)%stdpp.

(** The argument loop, after the first three; an error is what is printed on
    [stderr]. *)
Fixpoint parse_args (prog : string) (args : list string) (st : EncryptArgs) : string + EncryptArgs :=
  match args with
  | [] => inr st
  | arg :: args =>
      match args with
      | v :: args =>
          if decide (arg = "--customer-id") then
            match stoull10 v with
            | Ok id => parse_args prog args (mkEncryptArgs (Some id) (ea_url st) (ea_secret st))
            | Throw _ => inl (error_line "--customer-id must be a valid uint64")
            end
          else if decide (arg = "--url") then
            parse_args prog args (mkEncryptArgs (ea_customer_id st) v (ea_secret st))
          else if decide (arg = "--secret") then
            parse_args prog args (mkEncryptArgs (ea_customer_id st) (ea_url st) v)
          else inl (unknown_argument prog arg)
      | [] => inl (unknown_argument prog arg)
      end
  end.

(** What the command prints: the secret for the customer and the row to insert. *)
Record Provisioned := mkProvisioned {
  pv_customer_id : Z;
  pv_url : string;
  pv_secret : string;
  pv_ciphertext_hex : string;
  pv_nonce_hex : string;
}.

Definition provision_output (p : Provisioned) : string :=
  (nl +:+ "=== Risk Sentinel — webhook secret provisioned ===" +:+ nl +:+ nl +:+
   "Customer ID: " +:+ std_to_string (pv_customer_id p) +:+ nl +:+
   "URL:         " +:+ pv_url p +:+ nl +:+ nl +:+
   "Plaintext secret (share with customer ONCE, never store):" +:+ nl +:+
   "    " +:+ pv_secret p +:+ nl +:+ nl +:+
   "SQL to run:" +:+ nl +:+
   "    INSERT INTO customer_webhook_channels" +:+ nl +:+
   "        (customer_id, url, hmac_secret_encrypted, hmac_secret_nonce, enabled)" +:+ nl +:+
   "    VALUES (" +:+ nl +:+
   "        " +:+ std_to_string (pv_customer_id p) +:+ "," +:+ nl +:+
   "        '" +:+ pv_url p +:+ "'," +:+ nl +:+
   "        decode('" +:+ pv_ciphertext_hex p +:+ "', 'hex')," +:+ nl +:+
   "        decode('" +:+ pv_nonce_hex p +:+ "', 'hex')," +:+ nl +:+
   "        true" +:+ nl +:+ "    );" +:+ nl +:+ nl)%stdpp.

(** [RAND_bytes] for a number of bytes, twice at most: the secret, the nonce. *)
Definition generate_random_hex64 (rand : option (list Z)) : result string :=
  match rand with
  | Some buf => Ok (stream_bytes_to_hex buf)
  | None => Throw (RuntimeError "RAND_bytes failed")
  end.

(** The output when the exit code is 0, or the code and what is printed on
    [stderr]. *)
Definition encrypt_secret_command `{Evp} (prog : string) (args : list string)
    (master_key_env : option string) (rand_secret rand_nonce : option (list Z))
    : Z * string + Provisioned :=
  match parse_args prog args (mkEncryptArgs None "" "") with
  | inl message => inl (1, message)
  | inr st =>
      match ea_customer_id st with
      | None => inl (1, usage prog)
      | Some customer_id =>
          if str_empty (ea_url st) then inl (1, usage prog)
          else
            let key_hex := default "" master_key_env in
            if str_empty key_hex
            then inl (2, error_line "SENTINEL_SECRET_MASTER_KEY is not set or empty")
            else
              match parse_master_key_hex key_hex with
              | Throw e => inl (2, error_line ("invalid SENTINEL_SECRET_MASTER_KEY: " +:+ what e)%stdpp)
              | Ok master_key =>
                  match (if str_empty (ea_secret st) then generate_random_hex64 rand_secret
                         else Ok (ea_secret st)) with
                  | Throw e => inl (3, error_line ("failed to generate random secret: " +:+ what e)%stdpp)
                  | Ok secret =>
                      match rand_nonce with
                      | None => inl (3, error_line "RAND_bytes failed for nonce generation")
                      | Some nonce =>
                          match aes_gcm_encrypt master_key nonce secret with
                          | Throw e => inl (3, error_line ("encryption failed: " +:+ what e)%stdpp)
                          | Ok ciphertext =>
                              inr (mkProvisioned customer_id (ea_url st) secret
                                     (stream_bytes_to_hex ciphertext) (stream_bytes_to_hex nonce))
                          end
                      end
                  end
              end
      end
  end.

(** * Facts *)

Lemma nibble_digit invalid d : 0 <= d < 16 -> nibble invalid (digit_char d) = Ok d.
Proof. intros Hd. unfold nibble. by rewrite hex_nibble_digit. Qed.

Lemma byte_pairs_print invalid l :
  Forall is_byte l -> byte_pairs invalid (bytes_to_hex l) = Ok l.
Proof.
  induction 1 as [|b l Hb _ IH]; [done|]. unfold is_byte in Hb.
  assert (0 <= b / 16 < 16) by (split; [apply Z.div_pos|apply Z.div_lt_upper_bound]; lia).
  pose proof (Z.mod_pos_bound b 16 ltac:(lia)). pose proof (Z.div_mod b 16 ltac:(lia)).
  change (bytes_to_hex (b :: l)) with
    (String (digit_char (b / 16)) (String (digit_char (b mod 16)) (bytes_to_hex l))).
  cbn [byte_pairs]. rewrite !nibble_digit by lia. cbn [mbind result_bind].
  rewrite IH. cbn [mbind result_bind]. rewrite byte_of_nibbles_val by lia. do 2 f_equal. lia.
Qed.

(** They print what the rules print with [snprintf]. *)
Lemma setw_hex_snprintf b : is_byte b -> setw 2 "0" (stream_hex b) = snprintf_02x b.
Proof.
  intros Hb.
  assert (forallb (fun b => bool_decide (setw 2 "0" (stream_hex b) = snprintf_02x b))
    (seqZ 0 256) = true) as Hall by (vm_compute; reflexivity).
  rewrite forallb_forall in Hall. specialize (Hall b).
  eapply bool_decide_eq_true, Hall. apply list_elem_of_In, elem_of_seqZ. unfold is_byte in Hb. lia.
Qed.

Lemma stream_bytes_to_hex_spec data : Forall is_byte data -> stream_bytes_to_hex data = bytes_to_hex data.
Proof.
  intros Hd. unfold stream_bytes_to_hex.
  enough (forall acc, for_each (fun b oss => (oss +:+ setw 2 "0" (stream_hex b))%stdpp) data acc =
    (acc +:+ bytes_to_hex data)%stdpp) as -> by done.
  induction Hd as [|b data Hb _ IH]; intros acc; [by rewrite str_app_nil_r|].
  rewrite for_each_cons, IH, setw_hex_snprintf by done.
  change (bytes_to_hex (b :: data)) with (snprintf_02x b +:+ bytes_to_hex data)%stdpp.
  by rewrite str_app_assoc.
Qed.

(** How PostgreSQL prints a [BYTEA]: [bytea_output = hex]. *)
Definition pg_bytea (l : list Z) : string := ("\x" +:+ bytes_to_hex l)%stdpp.

Lemma parse_pg_bytea_print l : Forall is_byte l -> parse_pg_bytea (pg_bytea l) = Ok l.
Proof. intros Hl. change (parse_pg_bytea (pg_bytea l)) with (byte_pairs
  (fun c => "invalid hex nibble in BYTEA: " +:+ quote_char c)%stdpp (bytes_to_hex l)).
  by apply byte_pairs_print.
Qed.

Lemma bytes_string_bytes s : bytes_string (string_bytes s) = s.
Proof. induction s as [|c s IH]; [done|]. cbn. by rewrite char_of_code, IH. Qed.

Section CryptoFacts.
Context `{!Evp, !EvpLaws}.

Lemma aes_gcm_roundtrip key nonce plaintext ciphertext :
  aes_gcm_encrypt key nonce plaintext = Ok ciphertext ->
  aes_gcm_decrypt key nonce ciphertext = Ok plaintext /\ Forall is_byte ciphertext.
Proof.
  unfold aes_gcm_encrypt, aes_gcm_decrypt. intros He.
  destruct (negb (length key =? 32)%nat); [done|].
  destruct (negb (length nonce =? 12)%nat); [done|].
  destruct (evp_encrypt _ _ _) as [|[ct tag]] eqn:Hc; [done|]. injection He as <-.
  destruct (evp_encrypt_bytes _ _ _ _ _ Hc) as (Htag & Hct & Hb).
  split; [|by apply Forall_app].
  rewrite length_app, Htag, (proj2 (Nat.ltb_ge _ _)) by (unfold TAG_LEN; lia).
  replace (length ct + 16 - TAG_LEN)%nat with (length ct) by (unfold TAG_LEN; lia).
  rewrite take_app_length, drop_app_length.
  by rewrite (evp_roundtrip _ _ _ _ _ Hc), bytes_string_bytes.
Qed.

(** A successful command. *)
Lemma encrypt_secret_command_Ok prog args env rs rn p :
  encrypt_secret_command prog args env rs rn = inr p ->
  exists master_key nonce ciphertext,
    parse_master_key_hex (default "" env) = Ok master_key /\ rn = Some nonce /\
    aes_gcm_encrypt master_key nonce (pv_secret p) = Ok ciphertext /\
    pv_ciphertext_hex p = stream_bytes_to_hex ciphertext /\
    pv_nonce_hex p = stream_bytes_to_hex nonce.
Proof using.
  unfold encrypt_secret_command. intros Hc.
  destruct (parse_args _ _ _) as [|st]; [done|]. destruct (ea_customer_id st) as [id|]; [|done].
  destruct (str_empty (ea_url st)); [done|]. cbv zeta in Hc. destruct (str_empty _); [done|].
  destruct (parse_master_key_hex _) as [master_key|] eqn:Hk; [|done].
  destruct (if str_empty (ea_secret st) then _ else _) as [secret|] eqn:Hs; [|done].
  destruct rn as [nonce|]; [|done].
  destruct (aes_gcm_encrypt _ _ _) as [ciphertext|] eqn:He; [|done].
  injection Hc as <-. by exists master_key, nonce, ciphertext.
Qed.
End CryptoFacts.
