(* ===== verification/Webhooks.v ===== *)
(** * Webhooks

    Model of [src/risk/webhook_alert_channel.cpp] and of
    [App::load_webhook_channels_] ([src/app/app.cpp]).  A channel holds the
    network it sends on; the outcome of a delivery is only logged. *)
From S2P Require Import Prelude Cxx Hex Signal Json Rpc Security.
From S2P Require Import Dedup Health Dispatcher Database.

Record WebhookEndpoint := mkWebhookEndpoint { wh_url : string; wh_hmac_secret : string }.

Section Channel.
Context {J T : Type} `{Json J} `{Network T} `{Evp}.

Record WebhookAlertChannel := mkWebhookAlertChannel {
  customer_webhooks : gmap Z (list WebhookEndpoint);
  wh_network : T;
}.

(** [if (o.has_value()) payload[key] = *o]. *)
Definition field {X : Type} (key : string) (mk : X -> J) (o : option X) : list (string * J) :=
  match o with Some x => [(key, mk x)] | None => [] end.

Definition webhook_payload (alert : Alert) : J :=
  j_object ([("customer_id", j_number (al_customer_id alert));
             ("rule_type", j_string (al_rule_type alert));
             ("message", j_string (al_message alert));
             ("timestamp_ms", j_number (al_timestamp_ms alert))] ++
            field "chain_id" j_number (al_chain_id alert) ++
            field "token_address" j_string (al_token_address alert) ++
            field "amount_decimal" j_string (al_amount_decimal alert)).

(** The signature of a body for an endpoint, empty without a secret. *)
Definition webhook_signature (endpoint : WebhookEndpoint) (timestamp_ms_str body : string)
    : result string :=
  if str_empty (wh_hmac_secret endpoint) then Ok ""
  else
    let signing_string := (timestamp_ms_str +:+ "." +:+ body)%stdpp in
    hex ← hmac_sha256_hex (wh_hmac_secret endpoint) signing_string;
    Ok ("sha256=" +:+ hex)%stdpp.

Definition webhook_headers (timestamp_ms_str signature : string) : list string :=
  ["Content-Type: application/json"; ("X-Risk-Sentinel-Timestamp: " +:+ timestamp_ms_str)%stdpp] ++
  (if str_empty signature then [] else [("X-Risk-Sentinel-Signature: " +:+ signature)%stdpp]).

(** The loop over the endpoints: one that curl cannot handle is skipped, a
    failed transfer is logged, a failing signature ends the call. *)
Fixpoint send_endpoints (body timestamp_ms_str : string) (endpoints : list WebhookEndpoint) (t : T)
    : T * result unit :=
  match endpoints with
  | [] => (t, Ok ())
  | endpoint :: endpoints =>
      match webhook_signature endpoint timestamp_ms_str body with
      | Throw e => (t, Throw e)
      | Ok signature =>
          let '(t, curl) := curl_easy_init t in
          if negb curl then send_endpoints body timestamp_ms_str endpoints t
          else
            let headers := webhook_headers timestamp_ms_str signature in
            let '(t, _) := curl_easy_perform (wh_url endpoint) headers body t in
            send_endpoints body timestamp_ms_str endpoints t
      end
  end.

Definition webhook_send (alert : Alert) (c : WebhookAlertChannel) : WebhookAlertChannel * result unit :=
  match customer_webhooks c !! al_customer_id alert with
  | None | Some [] => (c, Ok ())
  | Some endpoints =>
      match j_dump (webhook_payload alert) with
      | Throw e => (c, Throw e)
      | Ok body =>
          let timestamp_ms_str := std_to_string (unix_now_ms (wh_network c)) in
          let '(t, r) := send_endpoints body timestamp_ms_str endpoints (wh_network c) in
          (mkWebhookAlertChannel (customer_webhooks c) t, r)
      end
  end.

#[export] Instance WebhookAlertChannel_IAlertChannel : IAlertChannel WebhookAlertChannel := {
  name _ := "webhook";
  send := webhook_send;
}.

#[export] Instance WebhookAlertChannel_laws : ChannelLaws WebhookAlertChannel.
Proof. by split. Qed.
End Channel.
Arguments WebhookAlertChannel : clear implicits.

(** ** The loader *)

Section Loader.
Context {D R : Type} `{Pqxx D R} `{PqRow R} `{Evp}.

Definition webhook_query : string :=
  "SELECT customer_id, url, hmac_secret_encrypted, hmac_secret_nonce FROM customer_webhook_channels WHERE enabled = true".

(** The [try] block around the decryption of a row's secret. *)
Definition decrypt_secret (master_key : list Z) (row : R) : result string :=
  enc_raw ← as_string "hmac_secret_encrypted" row;
  nonce_raw ← as_string "hmac_secret_nonce" row;
  enc_bytes ← parse_pg_bytea enc_raw;
  nonce_bytes ← parse_pg_bytea nonce_raw;
  aes_gcm_decrypt master_key nonce_bytes enc_bytes.

Definition webhook_of_row (master_key : list Z) (row : R) : result (option (Z * WebhookEndpoint)) :=
  customer_id ← as_u64 "customer_id" row;
  url ← as_string "url" row;
  if negb (is_null "hmac_secret_encrypted" row) && negb (is_null "hmac_secret_nonce" row) then
    hmac_secret ← skip_std (decrypt_secret master_key row);
    match hmac_secret with
    | None => Ok None
    | Some hmac_secret => Ok (Some (customer_id, mkWebhookEndpoint url hmac_secret))
    end
  else Ok (Some (customer_id, mkWebhookEndpoint url "")).

Definition webhook_row (master_key : list Z) (row : R) (m : gmap Z (list WebhookEndpoint))
    : result (gmap Z (list WebhookEndpoint)) :=
  kc ← webhook_of_row master_key row; Ok (if_some push_config kc m).

(** Without a usable master key no webhook is loaded. *)
Definition load_webhook_channels (master_key_env : option string)
    : Db D (gmap Z (list WebhookEndpoint)) unit :=
  if str_empty (default "" master_key_env) then mret ()
  else
    match parse_master_key_hex (default "" master_key_env) with
    | Throw NonStdException => fun w => (w, Throw NonStdException)
    | Throw _ => mret ()
    | Ok master_key => catch_std (load_rows webhook_query (webhook_row master_key))
    end.
End Loader.

(** * Specification *)

Section Fanout.
Context {J T : Type} `{!Json J, !Network T, !Evp}.
Implicit Types (t : T) (endpoint : WebhookEndpoint).

(** A request: where, with which headers, and the body. *)
Record Request := mkRequest { rq_url : string; rq_headers : list string; rq_body : string }.

(** One attempt, whatever comes of it. *)
Definition post_request (r : Request) t : T :=
  let '(t, curl) := curl_easy_init t in
  if curl then (curl_easy_perform (rq_url r) (rq_headers r) (rq_body r) t).1 else t.

(** What an endpoint must receive: the signature header is there exactly when it
    has a secret, and covers the timestamp and the body. *)
Definition webhook_request (timestamp body : string) endpoint : Request :=
  mkRequest (wh_url endpoint)
    (["Content-Type: application/json"; ("X-Risk-Sentinel-Timestamp: " +:+ timestamp)%stdpp] ++
     match hmac_sha256_hex (wh_hmac_secret endpoint) (timestamp +:+ "." +:+ body)%stdpp with
     | Ok hex =>
         if str_empty (wh_hmac_secret endpoint) then []
         else [("X-Risk-Sentinel-Signature: sha256=" +:+ hex)%stdpp]
     | Throw _ => []
     end) body.

(** The HMAC of a message can be computed with the endpoint's secret, if any. *)
Definition can_sign (timestamp body : string) endpoint : Prop :=
  wh_hmac_secret endpoint = "" \/
  is_ok (hmac_sha256_hex (wh_hmac_secret endpoint) (timestamp +:+ "." +:+ body)%stdpp) = true.

Lemma send_endpoints_spec body timestamp endpoints t :
  Forall (can_sign timestamp body) endpoints ->
  send_endpoints body timestamp endpoints t =
  (for_each post_request (webhook_request timestamp body <$> endpoints) t, Ok ()).
Proof.
  intros Hs. revert t; induction Hs as [|endpoint endpoints Hsign _ IH]; intros t; [done|].
  rewrite fmap_cons, for_each_cons. cbn [send_endpoints].
  assert (exists signature, webhook_signature endpoint timestamp body = Ok signature /\
    webhook_headers timestamp signature =
    rq_headers (webhook_request timestamp body endpoint)) as (signature & -> & ->).
  { unfold webhook_signature, webhook_request, webhook_headers. cbn [rq_headers].
    destruct Hsign as [->|Hok].
    - exists "". split; [done|]. by destruct (hmac_sha256_hex _ _).
    - destruct (hmac_sha256_hex _ _) as [hex|]; [|done].
      destruct (str_empty _); [by exists ""|]. by eexists. }
  unfold post_request at 2.
  destruct (curl_easy_init t) as [t1 []]; cbn [negb]; [|apply IH].
  change (rq_url (webhook_request timestamp body endpoint)) with (wh_url endpoint).
  change (rq_body (webhook_request timestamp body endpoint)) with body.
  destruct (curl_easy_perform _ _ _ t1) as [t2 x]. apply IH.
Qed.
End Fanout.

(** * Properties *)

Section Properties.
Context {J T D R : Type} `{!Json J, !Network T, !Evp, EL : !EvpLaws, !Pqxx D R, !PqRow R}.

(** C33: an alert of a customer with webhooks is posted once to each of its
    endpoints, in order, whatever happens to the others: all get the same body and timestamp, and
    those with a secret the HMAC of timestamp and body; the channel reports success even when every
    delivery fails, so the dispatcher counts the alert as sent. *)
Theorem webhook_fan_out (a : Alert) (c : WebhookAlertChannel T) (endpoints : list WebhookEndpoint)
    (body : string) :
  customer_webhooks c !! al_customer_id a = Some endpoints ->
  j_dump (webhook_payload (J := J) a) = Ok body ->
  let timestamp := std_to_string (unix_now_ms (wh_network c)) in
  Forall (can_sign timestamp body) endpoints ->
  send (C := WebhookAlertChannel T) a c =
  (mkWebhookAlertChannel (customer_webhooks c)
     (for_each post_request (webhook_request timestamp body <$> endpoints) (wh_network c)), Ok ()).
Proof using.
  intros Hc Hb timestamp Hs. cbn [send WebhookAlertChannel_IAlertChannel]. unfold webhook_send.
  rewrite Hc. destruct endpoints as [|endpoint endpoints]; [by destruct c|].
  by rewrite Hb, send_endpoints_spec.
Qed.

(** C34: a secret that [admin encrypt-secret] has encrypted and whose
    ciphertext and nonce were inserted as it prints them is decrypted by the webhook loader under the
    same master key: the endpoint gets exactly the plaintext secret. *)
Theorem provisioned_secret_loaded (prog : string) (args : list string) (env : option string)
    (rand_secret rand_nonce : option (list Z)) (p : Provisioned) (row : R)
    (Hnonce : forall nonce, rand_nonce = Some nonce -> Forall is_byte nonce)
    (Hcmd : encrypt_secret_command prog args env rand_secret rand_nonce = inr p)
    (Hid : as_u64 "customer_id" row = Ok (pv_customer_id p))
    (Hurl : as_string "url" row = Ok (pv_url p))
    (Henc : as_string "hmac_secret_encrypted" row = Ok ("\x" +:+ pv_ciphertext_hex p)%stdpp)
    (Hnon : as_string "hmac_secret_nonce" row = Ok ("\x" +:+ pv_nonce_hex p)%stdpp)
    (Hnull1 : is_null "hmac_secret_encrypted" row = false)
    (Hnull2 : is_null "hmac_secret_nonce" row = false) :
  exists master_key,
    parse_master_key_hex (default "" env) = Ok master_key /\
    webhook_of_row master_key row =
      Ok (Some (pv_customer_id p, mkWebhookEndpoint (pv_url p) (pv_secret p))).
Proof using EL.
  destruct (encrypt_secret_command_Ok _ _ _ _ _ _ Hcmd)
    as (master_key & nonce & ciphertext & Hk & Hn & He & Hc & Hnh).
  destruct (aes_gcm_roundtrip _ _ _ _ He) as [Hd Hb].
  exists master_key. split; [done|]. unfold webhook_of_row, decrypt_secret.
  rewrite Hid, Hurl, Henc, Hnon, Hnull1, Hnull2. cbn [mbind result_bind negb andb].
  rewrite Hc, Hnh, !stream_bytes_to_hex_spec by eauto. fold (pg_bytea ciphertext) (pg_bytea nonce).
  rewrite !parse_pg_bytea_print by eauto. cbn [mbind result_bind]. by rewrite Hd.
Qed.
End Properties.

(** ** Witnesses *)

(** A cipher that checks only its tag. *)
#[local] Instance sample_Evp : Evp := {
  evp_encrypt key nonce plaintext :=
    if bool_decide (Forall is_byte plaintext) then inr (plaintext, zeros 16) else inl "failed";
  evp_decrypt key nonce ciphertext tag :=
    if bool_decide (tag = zeros 16) then inr ciphertext
    else inl "authentication tag verification failed";
  evp_hmac_sha256 key data := inr (zeros 32);
}.

#[local] Instance sample_Evp_laws : EvpLaws.
Proof.
  split; intros key nonce plaintext ciphertext tag; cbn; case_bool_decide as Hb; try done;
    intros [= <- <-]; [done|split_and!; [done|done|apply (zeros_bytes 16)]].
Qed.

(** A network on which every transfer times out; it keeps the requests. *)
#[local] Instance failing_network : Network (list Request) := {
  curl_easy_init t := (t, true);
  curl_easy_perform url headers body t := (t ++ [mkRequest url headers body], (28, 0, ""));
  curl_easy_strerror rc := "Timeout was reached";
  unix_now_ms t := 1700000000000;
}.

#[local] Instance plain_json : Json json := json_lib (fun _ => Ok "{}") (fun _ => Ok JNull).

Definition sample_channel : WebhookAlertChannel (list Request) :=
  mkWebhookAlertChannel {[ 7 := [mkWebhookEndpoint "https://a" "k"; mkWebhookEndpoint "https://b" ""] ]} [].

Definition sample_webhook_alert : Alert :=
  mkAlert 7 "approval" "Large approval detected" 1000 0 None None None.

Lemma webhook_fan_out_witness :
  let r := send (C := WebhookAlertChannel (list Request)) (IAlertChannel :=
             WebhookAlertChannel_IAlertChannel (J := json)) sample_webhook_alert sample_channel in
  (fun q => (rq_url q, length (rq_headers q))) <$> wh_network r.1 =
    [("https://a", 3%nat); ("https://b", 2%nat)] /\ r.2 = Ok ().
Proof.
  intros r. unfold r.
  rewrite (webhook_fan_out (Json0 := plain_json) sample_webhook_alert sample_channel
    [mkWebhookEndpoint "https://a" "k"; mkWebhookEndpoint "https://b" ""] "{}" eq_refl eq_refl).
  - vm_compute. split; reflexivity.
  - constructor; [right; vm_compute; reflexivity|constructor; [left; reflexivity|constructor]].
Defined.

Definition sample_key : string :=
  "000102030405060708090a0b0c0d0e0f101112131415161718191a1b1c1d1e1f".

(** Rows are association lists; a missing column is null. *)
Fixpoint text_column (k : string) (row : list (string * string)) : result string :=
  match row with
  | [] => Throw (LibraryError "null")
  | (k', v) :: row => if decide (k' = k) then Ok v else text_column k row
  end.

#[local] Instance text_row : PqRow (list (string * string)) := {
  as_u64 k row := text_column k row ≫= stoull10;
  as_int k row := text_column k row ≫= stoi;
  as_bool k row := v ← text_column k row; Ok (bool_decide (v = "t"));
  as_string := text_column;
  is_null k row := negb (is_ok (text_column k row));
}.

Definition sample_args : list string :=
  ["--customer-id"; "7"; "--url"; "https://a"; "--secret"; "s3cret"].

Lemma provisioned_secret_loaded_witness :
  exists p master_key,
    encrypt_secret_command "sentinel" sample_args (Some sample_key) None (Some (zeros 12)) = inr p /\
    webhook_of_row master_key
      [("customer_id", "7"); ("url", "https://a");
       ("hmac_secret_encrypted", "\x733363726574" +:+ "00000000000000000000000000000000");
       ("hmac_secret_nonce", "\x000000000000000000000000")]%stdpp =
    Ok (Some (7, mkWebhookEndpoint "https://a" "s3cret")).
Proof.
  eexists. destruct (provisioned_secret_loaded "sentinel" sample_args (Some sample_key) None (Some (zeros 12))
    (mkProvisioned 7 "https://a" "s3cret" "73336372657400000000000000000000000000000000"
       "000000000000000000000000")
    [("customer_id", "7"); ("url", "https://a");
     ("hmac_secret_encrypted", "\x733363726574" +:+ "00000000000000000000000000000000");
     ("hmac_secret_nonce", "\x000000000000000000000000")]%stdpp) as (master_key & _ & H).
  - intros nonce [= <-]. apply (zeros_bytes 12).
  - vm_compute. reflexivity.
  - vm_compute. reflexivity.
  - vm_compute. reflexivity.
  - vm_compute. reflexivity.
  - vm_compute. reflexivity.
  - reflexivity.
  - reflexivity.
  - exists master_key. split; [vm_compute; reflexivity|exact H].
Defined.
