(* ===== verification/Channels.v ===== *)
(** * The other channels, and the channels of the application

    Models of [src/risk/console_alert_channel.cpp],
    [src/risk/file_alert_channel.cpp] and [src/risk/telegram_alert_channel.cpp],
    and the type of the channels the application adds to its dispatcher. *)
From S2P Require Import Prelude Cxx Hex Signal Json Rpc Security Formatter.
From S2P Require Import Dedup Health Dispatcher Database Webhooks.

(** ** Console: the text written to [std::cout] *)

Record ConsoleAlertChannel := mkConsoleAlertChannel { console_out : string }.

Definition console_send (alert : Alert) (c : ConsoleAlertChannel)
    : ConsoleAlertChannel * result unit :=
  (mkConsoleAlertChannel (console_out c +:+ format_console alert)%stdpp, Ok ()).

#[export] Instance ConsoleAlertChannel_IAlertChannel : IAlertChannel ConsoleAlertChannel := {
  name _ := "console";
  send := console_send;
}.

(** ** File: one JSON object per line *)

(** A file stream: write, flush and [good()]. *)
Class Stream (F : Type) := { stream_write : string -> F -> F * bool }.

Section File.
Context {J F : Type} `{Json J} `{Stream F}.

Record FileAlertChannel := mkFileAlertChannel {
  output_path : string;
  stream : F;
  alert_count : Z;
}.

(** The constructor: the parent directory is made when the path has one
    ([create_directories] answers its error, if any), then the file is opened. *)
Definition make_file_channel (path : string) (parent : option string)
    (create_directories : string -> option string) (open : string -> option F)
    : result FileAlertChannel :=
  match parent ≫= fun p => pair p <$> create_directories p with
  | Some (p, message) =>
      Throw (RuntimeError ("FileAlertChannel: failed to create parent directory '" +:+ p +:+
                           "': " +:+ message)%stdpp)
  | None =>
      match open path with
      | Some f => Ok (mkFileAlertChannel path f 0)
      | None =>
          Throw (RuntimeError ("FileAlertChannel: failed to open output file '" +:+ path +:+
                               "'")%stdpp)
      end
  end.

Definition file_payload (index : Z) (alert : Alert) : J :=
  j_object ([("alert_index", j_number index);
             ("customer_id", j_number (al_customer_id alert));
             ("rule_type", j_string (al_rule_type alert));
             ("message", j_string (al_message alert));
             ("timestamp_ms", j_number (al_timestamp_ms alert))] ++
            field "chain_id" j_number (al_chain_id alert) ++
            field "token_address" j_string (al_token_address alert) ++
            field "amount_decimal" j_string (al_amount_decimal alert)).

(** The index is kept only when the line was written. *)
Definition file_send (alert : Alert) (c : FileAlertChannel) : FileAlertChannel * result unit :=
  let tentative_index := alert_count c + 1 in
  match j_dump (file_payload tentative_index alert) with
  | Throw NonStdException => (c, Throw NonStdException)
  | Throw _ => (c, Ok ())
  | Ok text =>
      let '(f, good) := stream_write (text +:+ nl)%stdpp (stream c) in
      (mkFileAlertChannel (output_path c) f (if good then tentative_index else alert_count c), Ok ())
  end.

#[export] Instance FileAlertChannel_IAlertChannel : IAlertChannel FileAlertChannel := {
  name _ := "file";
  send := file_send;
}.

(** The lines written for a list of alerts, each with its index. *)
Definition file_line (alert : Alert) (c : FileAlertChannel) : option (Z * Alert) :=
  let index := alert_count c + 1 in
  match j_dump (file_payload index alert) with
  | Ok text => if (stream_write (text +:+ nl)%stdpp (stream c)).2 then Some (index, alert) else None
  | Throw _ => None
  end.

Fixpoint file_lines (alerts : list Alert) (c : FileAlertChannel) : list (Z * Alert) :=
  match alerts with
  | [] => []
  | a :: alerts => option_list (file_line a c) ++ file_lines alerts (send a c).1
  end.

Lemma file_send_count a c :
  alert_count (send a c).1 = alert_count c + Z.of_nat (length (option_list (file_line a c))) /\
  (forall l, file_line a c = Some l -> l = (alert_count c + 1, a)).
Proof.
  cbn [send FileAlertChannel_IAlertChannel]. unfold file_send, file_line.
  destruct (j_dump _) as [text|[]]; cbn; try (split; [lia|done]).
  destruct (stream_write _ _) as [f []]; cbn; (split; [lia|]); [|done]. by intros l [= <-].
Qed.

(** The count after a list of alerts. *)
Lemma file_receive_count l c :
  alert_count (receive c l) = alert_count c + Z.of_nat (length (file_lines l c)).
Proof.
  revert c; induction l as [|a l IH]; intros c; [cbn; lia|].
  unfold receive. rewrite for_each_cons. fold (receive (send a c).1 l).
  rewrite IH. destruct (file_send_count a c) as [-> _]. cbn [file_lines]. rewrite length_app. lia.
Qed.
End File.
Arguments FileAlertChannel : clear implicits.

(** ** Telegram *)

Section Telegram.
Context {J T : Type} `{Json J} `{Network T}.

Record TelegramAlertChannel := mkTelegramAlertChannel {
  bot_token : string;
  chat_id : string;
  customer_map : option (gmap Z string);
  token_map : option (gmap TokenKey string);
  tg_network : T;
}.

Definition telegram_payload (alert : Alert) (c : TelegramAlertChannel) : J :=
  j_object [("chat_id", j_string (chat_id c));
            ("text", j_string (format_telegram (token_map c) (customer_map c) alert))].

Definition telegram_url (c : TelegramAlertChannel) : string :=
  ("https://api.telegram.org/bot" +:+ bot_token c +:+ "/sendMessage")%stdpp.

Definition with_network (c : TelegramAlertChannel) (t : T) : TelegramAlertChannel :=
  mkTelegramAlertChannel (bot_token c) (chat_id c) (customer_map c) (token_map c) t.

(** The outcome of the transfer is only logged. *)
Definition telegram_send (alert : Alert) (c : TelegramAlertChannel)
    : TelegramAlertChannel * result unit :=
  let '(t, curl) := curl_easy_init (tg_network c) in
  if negb curl then (with_network c t, Ok ())
  else
    match j_dump (telegram_payload alert c) with
    | Throw e => (with_network c t, Throw e)
    | Ok body =>
        let '(t, _) := curl_easy_perform (telegram_url c) ["Content-Type: application/json"] body t in
        (with_network c t, Ok ())
    end.

#[export] Instance TelegramAlertChannel_IAlertChannel : IAlertChannel TelegramAlertChannel := {
  name _ := "telegram";
  send := telegram_send;
}.
End Telegram.
Arguments TelegramAlertChannel : clear implicits.

(** ** The channels of a dispatcher *)

Section Channels.
Context {J F T : Type} `{Json J} `{Stream F} `{Network T} `{Evp}.

Inductive Channel :=
  | CConsole (c : ConsoleAlertChannel)
  | CFile (c : FileAlertChannel F)
  | CTelegram (c : TelegramAlertChannel T)
  | CWebhook (c : WebhookAlertChannel T).

Definition on_channel {X : Type} (f : X -> Channel) (p : X * result unit) : Channel * result unit :=
  (f p.1, p.2).

#[export] Instance Channel_IAlertChannel : IAlertChannel Channel := {
  name c :=
    match c with
    | CConsole c => name c | CFile c => name c | CTelegram c => name c | CWebhook c => name c
    end;
  send a c :=
    match c with
    | CConsole c => on_channel CConsole (send a c)
    | CFile c => on_channel CFile (send a c)
    | CTelegram c => on_channel CTelegram (send a c)
    | CWebhook c => on_channel CWebhook (send a c)
    end;
}.

#[export] Instance Channel_laws : ChannelLaws Channel.
Proof. split. by intros a []. Qed.
End Channels.
Arguments Channel : clear implicits.

(** * Properties *)

Section Properties.
Context {J F T : Type} `{!Json J, !Stream F, !Network T, !Evp}.

Lemma send_endpoints_Throw body timestamp endpoints (t : T) e :
  (send_endpoints body timestamp endpoints t).2 = Throw e ->
  exists endpoint, endpoint ∈ endpoints /\ webhook_signature endpoint timestamp body = Throw e.
Proof.
  revert t; induction endpoints as [|endpoint endpoints IH]; intros t; cbn [send_endpoints]; [done|].
  destruct (webhook_signature _ _ _) as [s|e'] eqn:Hs.
  2: { cbn. intros [= ->]. exists endpoint. split; [left|done]. }
  destruct (curl_easy_init t) as [t1 []]; cbn [negb].
  - destruct (curl_easy_perform _ _ _ t1) as [t2 x].
    intros (ep & Hin & He)%IH. exists ep. split; [by right|done].
  - intros (ep & Hin & He)%IH. exists ep. split; [by right|done].
Qed.

(** The payload a channel prints, if any. *)
Definition channel_payload (a : Alert) (c : Channel F T) : option J :=
  match c with
  | CConsole _ => None
  | CFile c => Some (file_payload (alert_count c + 1) a)
  | CTelegram c => Some (telegram_payload a c)
  | CWebhook c => Some (webhook_payload a)
  end.

(** C35: a channel never reports a failed delivery: [send] throws
    only when the alert cannot be printed as JSON or a webhook body cannot be signed; a refused
    connection, an HTTP error or a full disk returns normally, so the dispatcher counts the alert as
    sent and its failure counters stand for these two causes only. *)
Theorem channel_throws_only_before_sending (a : Alert) (c : Channel F T) (e : exn) :
  (send (C := Channel F T) (IAlertChannel := Channel_IAlertChannel (J := J)) a c).2 = Throw e ->
  (exists payload, channel_payload a c = Some payload /\ j_dump payload = Throw e) \/
  (exists hooks endpoint timestamp body, c = CWebhook hooks /\
     endpoint ∈ bucket (customer_webhooks hooks) (al_customer_id a) /\
     webhook_signature endpoint timestamp body = Throw e).
Proof.
  destruct c as [c|c|c|c]; cbn [send Channel_IAlertChannel on_channel snd]; unfold on_channel.
  - done.
  - cbn [snd send FileAlertChannel_IAlertChannel]. unfold file_send. intros He. left.
    eexists. split; [reflexivity|].
    destruct (j_dump _) as [text|[]]; cbn in He; [by destruct (stream_write _ _) as [? []]|done..|].
    by injection He as <-.
  - cbn [snd send TelegramAlertChannel_IAlertChannel]. unfold telegram_send. intros He. left.
    destruct (curl_easy_init _) as [t1 []]; cbn [negb] in He; [|done].
    eexists. split; [reflexivity|]. destruct (j_dump _); [|by injection He as <-].
    by destruct (curl_easy_perform _ _ _ t1).
  - cbn [snd send WebhookAlertChannel_IAlertChannel]. unfold webhook_send. intros He.
    destruct (customer_webhooks c !! _) as [[|endpoint endpoints]|] eqn:Hc; [done| |done].
    destruct (j_dump (webhook_payload a)) as [body|] eqn:Hd.
    2: { left. eexists. split; [reflexivity|]. by injection He as <-. }
    right. destruct (send_endpoints body _ _ _) as [t r] eqn:Hs. cbn in He.
    assert ((send_endpoints body (std_to_string (unix_now_ms (wh_network c)))
      (endpoint :: endpoints) (wh_network c)).2 = Throw e) as Hthrow by by rewrite Hs.
    apply send_endpoints_Throw in Hthrow as (ep & Hin & Hsig).
    eexists _, ep, _, body. split_and!; [done| |done]. unfold bucket. by rewrite Hc.
Qed.

(** Over any alerts and any write failures, the file channel numbers the
    lines it writes consecutively from its count, in the order of the alerts, and its count is the
    number of lines written; an alert whose line is not written leaves no gap. *)
Theorem file_lines_numbered (c : FileAlertChannel F) (l : list Alert) :
  alert_count (receive c l) = alert_count c + Z.of_nat (length (file_lines l c)) /\
  (file_lines l c).*1 =
    (fun i => alert_count c + 1 + Z.of_nat i) <$> seq 0 (length (file_lines l c)) /\
  (file_lines l c).*2 `sublist_of` l.
Proof.
  split; [apply file_receive_count|].
  revert c; induction l as [|a l IH]; intros c; [done|]. cbn [file_lines].
  destruct (file_send_count a c) as [Hn Hl]. destruct (IH (send a c).1) as (Hi & Hs).
  rewrite length_app, !fmap_app, Hi, Hn.
  destruct (file_line a c) as [x|]; cbn [option_list app length fmap list_fmap Nat.add].
  - rewrite (Hl x eq_refl). split; [|by constructor].
    cbn. f_equal; [lia|]. rewrite <- (fmap_S_seq 0), <- list_fmap_compose.
    apply list_fmap_ext. intros i j _. cbn. lia.
  - split; [|by constructor]. apply list_fmap_ext. intros i j _. cbn. lia.
Qed.
End Properties.

(** ** Witness: a text that is not UTF-8 cannot be printed *)

#[local] Instance no_disk : Stream unit := { stream_write _ f := (f, false) }.

#[local] Instance no_network : Network unit := {
  curl_easy_init t := (t, true);
  curl_easy_perform url headers body t := (t, (7, 0, ""));
  curl_easy_strerror rc := "Could not connect to server";
  unix_now_ms t := 0;
}.

#[local] Instance no_cipher : Evp := {
  evp_encrypt _ _ _ := inl "failed";
  evp_decrypt _ _ _ _ := inl "failed";
  evp_hmac_sha256 _ _ := inl "EVP_MAC_fetch failed";
}.

Definition strict_json : Json json :=
  json_lib (fun _ => Throw (LibraryError "invalid UTF-8 byte")) (fun _ => Ok JNull).
Definition lenient_json : Json json := json_lib (fun _ => Ok "{}") (fun _ => Ok JNull).

Definition sample_text_alert : Alert := mkAlert 1 "approval" "?" 0 0 None None None.
Definition sample_telegram : Channel unit unit :=
  CTelegram (mkTelegramAlertChannel "token" "chat" None None tt).

Lemma channel_throws_only_before_sending_witness :
  (exists payload, channel_payload (Json0 := strict_json) sample_text_alert sample_telegram = Some payload /\
     j_dump (Json := strict_json) payload = Throw (LibraryError "invalid UTF-8 byte")) /\
  (send (C := Channel unit unit) (IAlertChannel := Channel_IAlertChannel (H := lenient_json))
     sample_text_alert sample_telegram).2 = Ok ().
Proof.
  split; [|reflexivity].
  destruct (channel_throws_only_before_sending (Json0 := strict_json) (Stream0 := no_disk)
    (Network0 := no_network) (H := no_cipher) sample_text_alert
    sample_telegram (LibraryError "invalid UTF-8 byte") eq_refl) as [H|(hooks & ? & ? & ? & H & _)].
  - exact H.
  - discriminate H.
Defined.
