(* ===== verification/Log.v ===== *)
(** * Logging

    Model of [src/log.cpp]: the loggers of the components, made once by whichever
    call comes first.  What a logger does with a message is left to the
    library. *)
From S2P Require Import Prelude.

Inductive LogComponent := Core | Rpc | EventSource | Adapter | Db | Alert | Risk.

#[export] Instance LogComponent_eq_dec : EqDecision LogComponent.
Proof. solve_decision. Defined.

(** [static_cast<int>(c)], and the components below [_Count]. *)
Definition component_index (c : LogComponent) : nat :=
  match c with
  | Core => 0 | Rpc => 1 | EventSource => 2 | Adapter => 3 | Db => 4 | Alert => 5 | Risk => 6
  end.
Definition component_of (i : nat) : option LogComponent :=
  [Core; Rpc; EventSource; Adapter; Db; Alert; Risk] !! i.
Definition component_count : nat := 7.

Definition component_name (c : option LogComponent) : string :=
  match c with
  | Some Core => "core" | Some Rpc => "rpc" | Some EventSource => "source"
  | Some Adapter => "adapter" | Some Db => "db" | Some Alert => "alert" | Some Risk => "risk"
  | None => "unknown"
  end.

Record Logger := mkLogger { lg_name : string; lg_debug : bool }.

(** The flag of [call_once] and the array of the loggers. *)
Record Loggers := mkLoggers { g_init_flag : bool; g_loggers : list (option Logger) }.

Definition initial_loggers : Loggers := mkLoggers false (replicate component_count None).

Definition init_logging (debug : bool) (l : Loggers) : Loggers :=
  if g_init_flag l then l
  else
    mkLoggers true
      (for_each (fun i loggers =>
                   <[i := Some (mkLogger (component_name (component_of i)) debug)]> loggers)
         (seq 0 component_count) (g_loggers l)).

(** The logger found; [None] is the null pointer the code would follow. *)
Definition logger (c : LogComponent) (l : Loggers) : Loggers * option Logger :=
  let l := init_logging false l in
  (l, (g_loggers l !! component_index c) ≫= id).

(** * Facts *)

(** Reached from the start by the two operations. *)
Inductive logging : Loggers -> Prop :=
  | logging_start : logging initial_loggers
  | logging_init debug l : logging l -> logging (init_logging debug l)
  | logging_logger c l : logging l -> logging (logger c l).1.

Lemma component_of_index c : component_of (component_index c) = Some c.
Proof. by destruct c. Qed.

(** Whatever was called before, every component has its logger, and the level
    is the one of the first call. *)
Lemma logging_spec l :
  logging l ->
  l = initial_loggers \/ exists debug, l = init_logging debug initial_loggers.
Proof.
  induction 1 as [|debug l _ IH|c l _ IH]; [by left| |]; right; cbn [logger fst];
    (destruct IH as [->|[debug' ->]]; [by eexists|by exists debug']).
Qed.

Lemma logger_found c l :
  logging l ->
  exists debug, (logger c l).2 = Some (mkLogger (component_name (Some c)) debug) /\
    (g_init_flag l = false -> debug = false).
Proof.
  intros [->|[debug ->]]%logging_spec; [exists false|exists debug]; by destruct c.
Qed.
