(* ===== verification/Metrics.v ===== *)
(** * The metrics registry

    Model of the constructor in [src/metrics/metrics.cpp]: the families it
    registers and the instruments it adds for its chain.  The exposer and the
    registry are the Prometheus client's, a class here; [G] is the two together. *)
From S2P Require Import Prelude.

Inductive MetricKind := Counter | Gauge | Histogram.

#[export] Instance MetricKind_eq_dec : EqDecision MetricKind.
Proof. solve_decision. Defined.

Record Family := mkFamily { fam_kind : MetricKind; fam_name : string; fam_help : string }.

(** [Exposer(address)], [Build*().Name().Help().Register(registry)],
    [RegisterCollectable] and [family.Add({{"chain", chain}})]. *)
Class Prometheus (G : Type) := {
  make_exposer : string -> result G;
  register_family : Family -> G -> result G;
  register_collectable : G -> result G;
  add_instrument : string -> string * string -> G -> result G;
}.

(** In the order of the members. *)
Definition metric_families : list Family := [
  mkFamily Counter "events_ingested_total" "Total number of events ingested from RPC";
  mkFamily Counter "signals_normalized_total" "Total number of successfully normalized signals";
  mkFamily Counter "alerts_generated_total" "Total number of alerts generated by rules";
  mkFamily Counter "alerts_sent_total" "Total number of alerts successfully sent";
  mkFamily Counter "alerts_send_failures_total" "Total number of alert send failures";
  mkFamily Counter "alerts_deduplicated_total"
    "Total number of alerts suppressed by the deduplicator";
  mkFamily Counter "rpc_calls_total" "Total number of RPC calls made";
  mkFamily Gauge "ring_buffer_depth" "Current number of items in the main signal ring buffer";
  mkFamily Gauge "alert_queue_depth" "Current number of items in the alert dispatcher queue";
  mkFamily Gauge "last_rpc_success_timestamp_seconds"
    "Unix timestamp of the last successful RPC call";
  mkFamily Gauge "last_alert_success_timestamp_seconds"
    "Unix timestamp of the last successful alert send";
  mkFamily Gauge "last_seen_block" "Highest block number seen from the chain RPC";
  mkFamily Gauge "last_processed_block"
    "Highest block number successfully processed by the system";
  mkFamily Histogram "alert_send_duration_seconds"
    "Time taken to send an alert across all channels";
  mkFamily Histogram "signal_to_alert_seconds"
    "End-to-end latency from signal ingress to alert sent";
  mkFamily Histogram "rpc_call_duration_seconds" "Duration of RPC calls in seconds"].

Definition chain_instruments : list string :=
  ["events_ingested_total"; "signals_normalized_total"; "ring_buffer_depth"; "alert_queue_depth";
   "last_rpc_success_timestamp_seconds"; "last_alert_success_timestamp_seconds";
   "last_seen_block"; "last_processed_block"].

(** A loop whose body may throw. *)
Fixpoint for_result {X S : Type} (body : X -> S -> result S) (l : list X) (s : S) : result S :=
  match l with
  | [] => Ok s
  | x :: l => s ← body x s; for_result body l s
  end.

Section Metrics.
Context {G : Type} `{Prometheus G}.

Definition make_metrics (listen_address chain : string) : result G :=
  g ← make_exposer listen_address;
  g ← for_result register_family metric_families g;
  g ← register_collectable g;
  for_result (fun name => add_instrument name ("chain", chain)) chain_instruments g.
End Metrics.

(** No family is registered twice, and every instrument belongs to one that is
    not a histogram. *)
Lemma metric_families_consistent :
  NoDup (fam_name <$> metric_families) /\
  Forall (fun n => Exists (fun f => fam_name f = n /\ fam_kind f <> Histogram) metric_families)
    chain_instruments.
Proof. split; apply (bool_decide_unpack _); vm_compute; exact I. Qed.
