(* ===== verification/CheckpointStore.v ===== *)
(** * The checkpoint store and the database start-up

    Models of [src/db_checkpoint_store.cpp] and of [App::init_db_]
    ([src/app/app.cpp]).  The database is the class [Pqxx] extended with
    parametrised statements; [CheckpointLaws] says what the three statements do
    to a table of checkpoints. *)
From S2P Require Import Prelude Cxx Database.

(** ** The store *)

(** A parameter bound to [$1], [$2]. *)
Inductive SqlParam := PText (s : string) | PBigint (v : Z).

(** [tx.exec_params] and [r[0][0].as<long long>(0)], which is 0 for a null. *)
Class PqParams (D R : Type) := {
  pg_exec_params : string -> list SqlParam -> D -> D * result (list R);
  first_i64 : R -> result Z;
}.

(** [static_cast<long long>] of a [uint64_t]. *)
Definition i64 (v : Z) : Z := if v <? 2 ^ 63 then v else v - 2 ^ 64.

Section CheckpointStore.
Context {D R : Type} `{Pqxx D R} `{PqParams D R}.

Definition schema_sql : string := "
    CREATE TABLE IF NOT EXISTS checkpoints (
      chain TEXT PRIMARY KEY,
      last_block BIGINT NOT NULL,
      updated_at TIMESTAMPTZ NOT NULL DEFAULT now()
    );
  ".
Definition select_sql : string := "SELECT last_block FROM checkpoints WHERE chain = $1".
Definition insert_sql : string :=
  "INSERT INTO checkpoints(chain, last_block) VALUES ($1, 0) ON CONFLICT DO NOTHING".
Definition upsert_sql : string := "
      INSERT INTO checkpoints(chain, last_block)
      VALUES ($1, $2)
      ON CONFLICT (chain)
      DO UPDATE SET last_block = EXCLUDED.last_block, updated_at = now();
    ".

Definition exec_params (query : string) (params : list SqlParam) : Db D () (list R) :=
  with_connection (pg_exec_params query params).

Definition ensure_schema : Db D () unit :=
  _ ← work; _ ← exec schema_sql; commit.

Definition get_or_init_checkpoint (chain : string) : Db D () Z :=
  _ ← work;
  r ← exec_params select_sql [PText chain];
  match r with
  | [row] =>
      v ← with_connection (fun d => (d, first_i64 row)); _ ← commit; mret (u64 v)
  | _ => _ ← exec_params insert_sql [PText chain]; _ ← commit; mret 0
  end.

Definition upsert_checkpoint (chain : string) (last_block : Z) : Db D () unit :=
  _ ← work; _ ← exec_params upsert_sql [PText chain; PBigint (i64 last_block)]; commit.

(** ** [init_db_] *)

(** The connection attempts: the outcome of each [make_shared<connection>], the
    test [is_open()] on the result. *)
Variable attempt : nat -> result D.
Variable is_open : D -> bool.

Definition max_retries : nat := 15.

(** [i] counts the attempts made; the loop ends on an open connection.  A throw
    that is not a [std::exception] leaves it. *)
Fixpoint connect_loop (retries i : nat) (conn : option D) : result (option D * nat) :=
  match retries with
  | O => Ok (conn, i)
  | S retries =>
      match attempt i with
      | Throw NonStdException => Throw NonStdException
      | Throw _ => connect_loop retries (S i) conn
      | Ok c => if is_open c then Ok (Some c, S i) else connect_loop retries (S i) (Some c)
      end
  end.

(** [try { m } catch (const std::exception &) { return false; }]. *)
Definition or_fail {X Y : Type} (m : D -> (D * ()) * result X) (d : D) (k : D -> X -> result (option Y))
    : result (option Y) :=
  match m d with
  | ((d, _), Ok x) => k d x
  | (_, Throw NonStdException) => Throw NonStdException
  | (_, Throw _) => Ok None
  end.

(** [None] is [return false]; the connection and the block to start from
    otherwise. *)
Definition init_db (database_url chain : string) : result (option (D * Z)) :=
  if str_empty database_url then Ok None
  else
    '(conn, _) ← connect_loop max_retries 0 None;
    match conn with
    | None => Ok None
    | Some d =>
        if negb (is_open d) then Ok None
        else
          or_fail (fun d => ensure_schema (d, ())) d (fun d _ =>
          or_fail (fun d => get_or_init_checkpoint chain (d, ())) d (fun d last => Ok (Some (d, last))))
    end.
End CheckpointStore.

(** * Facts *)

(** The [n]-th attempt gives no open connection, but may be followed by another. *)
Definition failed_attempt {D : Type} (attempt : nat -> result D) (is_open : D -> bool) (n : nat) : Prop :=
  match attempt n with
  | Ok c => is_open c = false
  | Throw e => e <> NonStdException
  end.

Lemma connect_loop_open {D : Type} (attempt : nat -> result D) is_open retries i conn c k :
  (forall c', conn = Some c' -> is_open c' = false) ->
  connect_loop attempt is_open retries i conn = Ok (Some c, k) -> is_open c = true ->
  (i < k <= i + retries)%nat /\ attempt (k - 1)%nat = Ok c /\
  forall n, (i <= n < k - 1)%nat -> failed_attempt attempt is_open n.
Proof.
  revert i conn; induction retries as [|retries IH]; intros i conn Hconn; cbn [connect_loop].
  { intros [= -> <-] Hopen. by rewrite Hconn in Hopen. }
  assert (forall conn', (forall c', conn' = Some c' -> is_open c' = false) ->
    failed_attempt attempt is_open i ->
    connect_loop attempt is_open retries (S i) conn' = Ok (Some c, k) -> is_open c = true ->
    (i < k <= i + S retries)%nat /\ attempt (k - 1)%nat = Ok c /\
    forall n, (i <= n < k - 1)%nat -> failed_attempt attempt is_open n) as Hnext.
  { intros conn' Hconn' Hfail Hloop Hopen.
    destruct (IH _ _ Hconn' Hloop Hopen) as (Hk & Hc & Hn). split_and!; [lia..|done|].
    intros n Hn'. destruct (decide (n = i)) as [->|]; [done|]. apply Hn. lia. }
  destruct (attempt i) as [c'|e] eqn:Ha.
  - destruct (is_open c') eqn:Ho.
    + intros [= -> <-] _. split_and!; [lia..| |intros; lia].
      by replace (S i - 1)%nat with i by lia.
    + apply Hnext; [by intros ? [= <-]|]. unfold failed_attempt. by rewrite Ha.
  - destruct e; try done; (apply Hnext; [done|]; unfold failed_attempt; by rewrite Ha).
Qed.

Lemma connect_loop_finds {D : Type} (attempt : nat -> result D) is_open retries i conn n d :
  (i <= n < i + retries)%nat -> attempt n = Ok d -> is_open d = true ->
  (forall k, (i <= k < n)%nat -> failed_attempt attempt is_open k) ->
  connect_loop attempt is_open retries i conn = Ok (Some d, S n).
Proof.
  revert i conn; induction retries as [|retries IH]; intros i conn Hn Hd Ho Hfail; [lia|].
  cbn [connect_loop]. destruct (decide (i = n)) as [->|Hne]; [by rewrite Hd, Ho|].
  pose proof (Hfail i ltac:(lia)) as Hi. unfold failed_attempt in Hi.
  assert (forall conn', connect_loop attempt is_open retries (S i) conn' = Ok (Some d, S n)) as Hnext.
  { intros conn'. apply IH; [lia|done..|]. intros k Hk. apply Hfail. lia. }
  destruct (attempt i) as [c|[]]; rewrite ?Hi; by rewrite ?Hnext.
Qed.

Lemma or_fail_Some {D X Y : Type} (m : D -> (D * ()) * result X) d
    (k : D -> X -> result (option Y)) y :
  or_fail m d k = Ok (Some y) <->
  exists d' x, m d = ((d', ()), Ok x) /\ k d' x = Ok (Some y).
Proof.
  unfold or_fail. destruct (m d) as [[d' []] [x|e]]; [naive_solver|].
  split; [by destruct e|naive_solver].
Qed.

Lemma or_fail_Throw {D X Y : Type} (m : D -> (D * ()) * result X) d
    (k : D -> X -> result (option Y)) e :
  (forall d' x, k d' x = Throw e -> e = NonStdException) ->
  or_fail m d k = Throw e -> e = NonStdException.
Proof.
  intros Hk. unfold or_fail. destruct (m d) as [[d' []] [x|e']]; [apply Hk|].
  by destruct e'; intros [= <-].
Qed.

Lemma connect_loop_Throw {D : Type} (attempt : nat -> result D) is_open retries i conn e :
  connect_loop attempt is_open retries i conn = Throw e -> e = NonStdException.
Proof.
  revert i conn; induction retries as [|retries IH]; intros i conn; cbn [connect_loop]; [done|].
  destruct (attempt i) as [c|[]]; try apply IH; [destruct (is_open c); [done|apply IH]|].
  by intros [= <-].
Qed.

(** A failure of the database is reported, never thrown, unless it is no
    [std::exception]. *)
Lemma init_db_Throw {D R : Type} `{!Pqxx D R, !PqParams D R} attempt is_open url chain e :
  init_db (D := D) (R := R) attempt is_open url chain = Throw e -> e = NonStdException.
Proof.
  unfold init_db. destruct (str_empty url); [done|].
  destruct (connect_loop _ _ _ _ _) as [[conn k]|e'] eqn:Hc; cbn [mbind result_bind].
  2: { apply connect_loop_Throw in Hc. by intros [= <-]. }
  destruct conn as [d|]; [|done]. destruct (is_open d); [|done]. cbn [negb].
  apply or_fail_Throw. intros d' []. by apply or_fail_Throw.
Qed.

(** A start-up that succeeds: the attempt it used, the schema and the read. *)
Lemma init_db_inv {D R : Type} `{!Pqxx D R, !PqParams D R} (attempt : nat -> result D)
    (is_open : D -> bool) (url chain : string) (d' : D) (start : Z) :
  init_db (R := R) attempt is_open url chain = Ok (Some (d', start)) ->
  url <> "" /\
  exists n d d1, (n < 15)%nat /\ attempt n = Ok d /\ is_open d = true /\
    (forall k, (k < n)%nat -> failed_attempt attempt is_open k) /\
    ensure_schema (R := R) (d, ()) = ((d1, ()), Ok ()) /\
    get_or_init_checkpoint (R := R) chain (d1, ()) = ((d', ()), Ok start).
Proof.
  unfold init_db. destruct (str_empty url) eqn:Hurl; [done|]. intros Hr.
  apply bind_Ok_inv in Hr as ([conn k] & Hloop & Hr).
  destruct conn as [d|]; [|done]. destruct (is_open d) eqn:Ho; [|done]. cbn [negb] in Hr.
  destruct (connect_loop_open attempt is_open _ _ None d k ltac:(done) Hloop Ho) as (Hk & Hd & Hf).
  apply or_fail_Some in Hr as (d1 & [] & Hs & Hr).
  apply or_fail_Some in Hr as (d2 & last & Hg & [= <- <-]).
  split; [by intros ->|]. unfold max_retries in Hk. exists (k - 1)%nat, d, d1.
  split_and!; try done; [lia|]. intros n Hn. apply Hf. lia.
Qed.

(** What the statements do, on the table of the checkpoints of the open
    transaction. *)
Class CheckpointLaws (D R : Type) `{Pqxx D R, PqParams D R} := {
  checkpoints : D -> gmap string Z;
  work_checkpoints d : checkpoints (pg_work d).1 = checkpoints d;
  commit_checkpoints d d' : pg_commit d = (d', Ok ()) -> checkpoints d' = checkpoints d;
  select_checkpoint chain d d' rows :
    pg_exec_params select_sql [PText chain] d = (d', Ok rows) ->
    checkpoints d' = checkpoints d /\
    match checkpoints d !! chain with
    | Some v => exists row, rows = [row] /\ first_i64 row = Ok v
    | None => rows = []
    end;
  insert_checkpoint chain d d' rows :
    pg_exec_params insert_sql [PText chain] d = (d', Ok rows) ->
    checkpoints d' = match checkpoints d !! chain with
                     | Some _ => checkpoints d | None => <[chain := 0]> (checkpoints d) end;
  upsert_checkpoint_row chain v d d' rows :
    pg_exec_params upsert_sql [PText chain; PBigint v] d = (d', Ok rows) ->
    checkpoints d' = <[chain := v]> (checkpoints d);
}.

Lemma i64_u64 v : is_u64 v -> u64 (i64 v) = v.
Proof.
  unfold is_u64, i64, u64. intros Hv. destruct (Z.ltb_spec v (2 ^ 63)).
  - by rewrite Z.mod_small by lia.
  - rewrite <- (Z_mod_plus_full _ 1), Z.mod_small; lia.
Qed.

Section StoreFacts.
Context {D R : Type} `{!Pqxx D R, !PqParams D R, CL : !CheckpointLaws D R}.
Implicit Types (d : D) (w : D * ()).

Lemma db_bind_Ok {X Y} (m : Db D () X) (f : X -> Db D () Y) w w' y :
  (m ≫= f) w = (w', Ok y) <-> exists w1 x, m w = (w1, Ok x) /\ f x w1 = (w', Ok y).
Proof. unfold mbind, Db_bind. destruct (m w) as [w1 [x|e]]; naive_solver. Qed.

Lemma with_connection_Ok {X} (f : D -> D * result X) w w' x :
  with_connection f w = (w', Ok x) <-> f w.1 = (w'.1, Ok x).
Proof.
  unfold with_connection. destruct w as [d []], w' as [d' []]. cbn [fst snd].
  destruct (f d) as [d1 r]. split; [by intros [= -> ->]|by intros [= -> ->]].
Qed.

Lemma work_Ok w w' : work w = (w', Ok ()) -> checkpoints w'.1 = checkpoints w.1.
Proof. intros Hw%with_connection_Ok. by rewrite <- (work_checkpoints w.1), Hw. Qed.

Lemma commit_Ok w w' : commit w = (w', Ok ()) -> checkpoints w'.1 = checkpoints w.1.
Proof. intros Hw%with_connection_Ok. by apply commit_checkpoints in Hw. Qed.

Lemma upsert_checkpoint_Ok chain b w w' :
  upsert_checkpoint (R := R) chain b w = (w', Ok ()) ->
  checkpoints w'.1 = <[chain := i64 b]> (checkpoints w.1).
Proof.
  unfold upsert_checkpoint. rewrite db_bind_Ok. intros (w1 & [] & H1%work_Ok & H2).
  apply db_bind_Ok in H2 as (w2 & rows & H2%with_connection_Ok & H3%commit_Ok).
  apply upsert_checkpoint_row in H2. congruence.
Qed.

Lemma get_or_init_checkpoint_Ok chain b w w' :
  get_or_init_checkpoint (R := R) chain w = (w', Ok b) ->
  match checkpoints w.1 !! chain with
  | Some v => b = u64 v /\ checkpoints w'.1 = checkpoints w.1
  | None => b = 0 /\ checkpoints w'.1 = <[chain := 0]> (checkpoints w.1)
  end.
Proof.
  unfold get_or_init_checkpoint. rewrite db_bind_Ok. intros (w1 & [] & H1%work_Ok & H2).
  apply db_bind_Ok in H2 as (w2 & rows & H2%with_connection_Ok & H3).
  apply select_checkpoint in H2 as [H2 Hrows]. rewrite H1 in *.
  destruct (checkpoints w.1 !! chain) as [v|] eqn:Hv.
  - destruct Hrows as (row & -> & Hrow).
    apply db_bind_Ok in H3 as (w3 & v' & H3%with_connection_Ok & H4). rewrite Hrow in H3.
    apply db_bind_Ok in H4 as (w4 & [] & H4%commit_Ok & [= <- <-]).
    injection H3 as H3 <-. split; [done|congruence].
  - subst rows. apply db_bind_Ok in H3 as (w3 & rows & H3%with_connection_Ok & H4).
    apply db_bind_Ok in H4 as (w4 & [] & H4%commit_Ok & [= <- <-]).
    apply insert_checkpoint in H3. rewrite H2, Hv in H3. split; [done|congruence].
Qed.
End StoreFacts.

(** * Properties *)

Section Properties.
Context {D R : Type} `{!Pqxx D R, !PqParams D R}.

(** Start-up succeeds exactly when a database URL is configured, some of the
    first fifteen attempts gives an open connection, none before it ended with an exception that is
    not a [std::exception], the schema can be ensured and the chain's checkpoint read; the block to
    start from is that checkpoint. *)
Theorem init_db_contract (attempt : nat -> result D) (is_open : D -> bool) (url chain : string)
    (d' : D) (start : Z) :
  init_db (R := R) attempt is_open url chain = Ok (Some (d', start)) <->
  url <> "" /\
  exists n d d1, (n < 15)%nat /\ attempt n = Ok d /\ is_open d = true /\
    (forall k, (k < n)%nat -> failed_attempt attempt is_open k) /\
    ensure_schema (R := R) (d, ()) = ((d1, ()), Ok ()) /\
    get_or_init_checkpoint (R := R) chain (d1, ()) = ((d', ()), Ok start).
Proof.
  split; [apply init_db_inv|]. unfold init_db.
  intros (Hurl & n & d & d1 & Hn & Hd & Ho & Hf & Hs & Hg).
  destruct (str_empty url) eqn:He; [by destruct url|].
  rewrite (connect_loop_finds _ _ _ _ _ n d) by (done || (unfold max_retries; lia) ||
    (intros; apply Hf; lia)).
  cbn [mbind result_bind]. rewrite Ho. cbn [negb]. apply or_fail_Some.
  exists d1, (). split; [done|]. apply or_fail_Some. by exists d', start.
Qed.

(** A checkpoint that was stored is read back, for every 64-bit block number
    (the column is signed: the conversions are inverse); the first read of a chain without a
    checkpoint answers 0 and stores it, so every later read answers 0 too; neither call changes
    another chain's checkpoint. *)
Theorem checkpoint_roundtrip `{CL : !CheckpointLaws D R} (chain : string) (b c : Z) (d d1 d2 : D)
    (Hb : is_u64 b) :
  (upsert_checkpoint (R := R) chain b (d, ()) = ((d1, ()), Ok ()) ->
   get_or_init_checkpoint (R := R) chain (d1, ()) = ((d2, ()), Ok c) ->
   c = b /\ delete chain (checkpoints d2) = delete chain (checkpoints d)) /\
  (checkpoints d !! chain = None ->
   get_or_init_checkpoint (R := R) chain (d, ()) = ((d1, ()), Ok b) ->
   get_or_init_checkpoint (R := R) chain (d1, ()) = ((d2, ()), Ok c) ->
   b = 0 /\ c = 0 /\ delete chain (checkpoints d2) = delete chain (checkpoints d)).
Proof.
  split.
  - intros Hu%upsert_checkpoint_Ok Hg%get_or_init_checkpoint_Ok. cbn [fst] in *.
    rewrite Hu, lookup_insert_eq, i64_u64 in Hg by done. destruct Hg as [-> ->].
    split; [done|]. apply delete_insert_eq.
  - intros Hnone H1%get_or_init_checkpoint_Ok H2%get_or_init_checkpoint_Ok. cbn [fst] in *.
    rewrite Hnone in H1. destruct H1 as [-> H1]. rewrite H1, lookup_insert_eq in H2.
    destruct H2 as [-> ->]. split_and!; [done..|]. rewrite ?H1. apply delete_insert_eq.
Qed.
End Properties.

(** ** Witnesses *)

(** A database whose table of checkpoints is a map; commits always succeed. *)
#[local] Notation SampleDb := (gmap string Z).

#[local] Instance sample_pqxx : Pqxx SampleDb Z := {
  pg_work d := (d, Ok ());
  pg_exec _ d := (d, Ok []);
  pg_commit d := (d, Ok ());
}.
#[local] Instance sample_params : PqParams SampleDb Z := {
  pg_exec_params query params d :=
    match params with
    | [PText chain] =>
        if decide (query = select_sql) then (d, Ok (option_list (d !! chain)))
        else (match d !! chain with Some _ => d | None => <[chain := 0]> d end, Ok [])
    | [PText chain; PBigint v] =>
        (if decide (query = upsert_sql) then <[chain := v]> d else d, Ok [])
    | _ => (d, Ok [])
    end;
  first_i64 row := Ok row;
}.

(** The third attempt succeeds. *)
Definition sample_attempt (n : nat) : result SampleDb :=
  if (n <? 2)%nat then Throw (LibraryError "connection refused") else Ok {[ "arbitrum" := 1234 ]}.

Lemma init_db_contract_witness :
  init_db (R := Z) sample_attempt (fun _ => true) "postgres://" "arbitrum" =
    Ok (Some ({[ "arbitrum" := 1234 ]}, 1234)).
Proof.
  apply (init_db_contract (R := Z) sample_attempt (fun _ => true) "postgres://" "arbitrum").
  split; [done|]. exists 2%nat, {[ "arbitrum" := 1234 ]}, {[ "arbitrum" := 1234 ]}.
  split_and!; [lia|reflexivity|reflexivity| |reflexivity|vm_compute; reflexivity].
  intros [|[|k]] Hk; [done|done|lia].
Defined.

#[local] Instance sample_checkpoint_laws : CheckpointLaws SampleDb Z.
Proof.
  refine {| checkpoints := fun d : SampleDb => d |}.
  - done.
  - by intros d d' [= <-].
  - intros chain d d' rows. cbn [pg_exec_params sample_params].
    rewrite decide_True by done. intros Heq. injection Heq as <- <-. split; [done|].
    destruct (d !! chain) as [v|].
    { exists v; split; reflexivity. }
    reflexivity.
  - intros chain d d' rows. cbn [pg_exec_params sample_params].
    rewrite decide_False by done. intros Heq. injection Heq as <- <-. reflexivity.
  - intros chain v d d' rows. cbn [pg_exec_params sample_params].
    rewrite decide_True by done. intros Heq. injection Heq as <- <-. reflexivity.
Defined.

(** The largest 64-bit block. *)
Lemma checkpoint_roundtrip_witness :
  let stored : SampleDb := {[ "ethereum" := -1 ]} in
  upsert_checkpoint (R := Z) "ethereum" (2 ^ 64 - 1) (∅, ()) = ((stored, ()), Ok ()) /\
  get_or_init_checkpoint (R := Z) "ethereum" (stored, ()) = ((stored, ()), Ok (2 ^ 64 - 1)) /\
  delete "ethereum" (checkpoints (R := Z) stored) = delete "ethereum" (checkpoints (R := Z) ∅).
Proof.
  intros stored.
  assert (upsert_checkpoint (R := Z) "ethereum" (2 ^ 64 - 1) (∅, ()) = ((stored, ()), Ok ())) as Hu
    by (vm_compute; reflexivity).
  assert (get_or_init_checkpoint (R := Z) "ethereum" (stored, ()) = ((stored, ()), Ok (2 ^ 64 - 1)))
    as Hg by (vm_compute; reflexivity).
  split_and!; [exact Hu|exact Hg|].
  exact (proj2 (proj1 (checkpoint_roundtrip (R := Z) "ethereum" (2 ^ 64 - 1) (2 ^ 64 - 1)
    (∅ : SampleDb) stored stored ltac:(decide_by_compute)) Hu Hg)).
Defined.
