(* ===== verification/Lifecycle.v ===== *)
(** * Shutdown and the run of the application

    Models of [App::run] and [App::stop_orderly_] ([src/app/app.cpp]), and of the
    end of [BacktestApp::run] ([src/backtest/backtest_app.cpp]), which drains the
    pipeline with the same loops.  What the shutdown sees of the process is a
    class: the clock, and what the other threads do while the main thread waits. *)
From S2P Require Import Prelude Cxx.

(** ** [stop_orderly_] *)

(** What the shutdown sees of the process.  While it sleeps the other threads
    run. *)
Class Process (W : Type) := {
  steady_ms : W -> Z;
  sleep_ms : Z -> W -> W;
  try_push_pill : W -> W * bool;
  is_finished : W -> bool;
  stop_health : W -> W;
  stop_source : W -> W;
  stop_engine : W -> W;
  stop_dispatcher : W -> W;
}.

(** Which modules exist when the shutdown begins. *)
Record Modules := mkModules {
  health_server : bool;
  event_source : bool;
  risk_engine : bool;
  dispatcher : bool;
}.

Section Shutdown.
Context {W : Type} `{Process W}.

(** [while (now - start < timeout) { if (try_push) break; sleep(1ms); }]. *)
Fixpoint push_loop (fuel : nat) (start timeout : Z) (w : W) : option (W * bool) :=
  match fuel with
  | O => None
  | S fuel =>
      if steady_ms w - start <? timeout then
        let '(w, pushed) := try_push_pill w in
        if pushed then Some (w, true) else push_loop fuel start timeout (sleep_ms 1 w)
      else Some (w, false)
  end.

(** The same around [is_finished()], with its own pause. *)
Fixpoint drain_loop (poll : Z) (fuel : nat) (start timeout : Z) (w : W) : option (W * bool) :=
  match fuel with
  | O => None
  | S fuel =>
      if steady_ms w - start <? timeout then
        if is_finished w then Some (w, true)
        else drain_loop poll fuel start timeout (sleep_ms poll w)
      else Some (w, false)
  end.

(** The block of the engine; the flag is [drained], false too when the pill was
    not accepted (each of these is a warning in the log). *)
Definition stop_risk_engine (fuel : nat) (timeout : Z) (w : W) : option (W * bool) :=
  '(w, pushed) ← push_loop fuel (steady_ms w) timeout w;
  '(w, drained) ← (if pushed : bool then drain_loop 50 fuel (steady_ms w) timeout w
                   else Some (w, false));
  Some (stop_engine w, drained).

(** The flag [stopped_], the process after the call, and whether the engine
    drained (or did not exist). *)
Definition stop_orderly (fuel : nat) (m : Modules) (timeout : Z) (stopped : bool) (w : W)
    : option (bool * W * bool) :=
  if stopped then Some (true, w, true)
  else
    let w := if health_server m then stop_health w else w in
    let w := if event_source m then stop_source w else w in
    '(w, drained) ← (if risk_engine m then stop_risk_engine fuel timeout w else Some (w, true));
    Some (true, if dispatcher m then stop_dispatcher w else w, drained).
End Shutdown.

(** ** [App::run] *)

(** The steps of a run after the database is up. *)
Inductive RunStep :=
  | InitModules
  | RegisterRules
  | StartThreads
  | WriteReadiness
  | WaitStop
  | RemoveReadiness
  | StopOrderly
  | JoinThreads.

Definition startup_steps : list RunStep := [InitModules; RegisterRules; StartThreads; WriteReadiness].

(** The steps tried, up to the first that throws. *)
Fixpoint run_steps (outcome : RunStep -> result unit) (steps : list RunStep)
    : list RunStep * result unit :=
  match steps with
  | [] => ([], Ok ())
  | s :: steps =>
      match outcome s with
      | Throw e => ([s], Throw e)
      | Ok _ => let '(tried, r) := run_steps outcome steps in (s :: tried, r)
      end
  end.

(** The two [catch] clauses. *)
Definition fatal (e : exn) : list RunStep * Z :=
  ([StopOrderly; JoinThreads], match e with NonStdException => 4 | _ => 3 end).

(** The steps tried and the exit code. *)
Definition app_run (init_db : result bool) (outcome : RunStep -> result unit) : list RunStep * Z :=
  match init_db with
  | Ok false => ([], 2)
  | Throw e => fatal e
  | Ok true =>
      match run_steps outcome startup_steps with
      | (tried, Throw e) => (tried ++ (fatal e).1, (fatal e).2)
      | (tried, Ok _) => (tried ++ [WaitStop; RemoveReadiness; StopOrderly; JoinThreads], 0)
      end
  end.

(** * Facts *)

(** What a process promises the shutdown: the clock never goes back, and a sleep
    takes its time. *)
Class ProcessLaws (W : Type) `{Process W} : Prop := {
  sleep_advances ms (w : W) : 0 <= ms -> steady_ms w + ms <= steady_ms (sleep_ms ms w);
  push_monotone (w : W) : steady_ms w <= steady_ms (try_push_pill w).1;
}.

Section ShutdownFacts.
Context {W : Type} `{!Process W, !ProcessLaws W}.
Implicit Types (w : W).

Lemma push_loop_ends fuel start timeout w :
  (0 < fuel)%nat -> timeout - (steady_ms w - start) < Z.of_nat fuel ->
  exists w' pushed, push_loop fuel start timeout w = Some (w', pushed) /\
    (pushed = false -> timeout <= steady_ms w' - start).
Proof using ProcessLaws0.
  revert w; induction fuel as [|fuel IH]; intros w Hpos Hfuel; [lia|]. cbn [push_loop].
  destruct (Z.ltb_spec (steady_ms w - start) timeout).
  2: { eexists _, _. split; [done|]. cbn; lia. }
  pose proof (push_monotone w) as Hmono. destruct (try_push_pill w) as [w1 []]; cbn in Hmono.
  { by eexists _, _. }
  pose proof (sleep_advances 1 w1 ltac:(lia)). apply IH; lia.
Qed.

Lemma drain_loop_ends poll fuel start timeout w :
  1 <= poll -> (0 < fuel)%nat -> timeout - (steady_ms w - start) < Z.of_nat fuel ->
  exists w' drained, drain_loop poll fuel start timeout w = Some (w', drained) /\
    (if drained : bool then is_finished w' = true else timeout <= steady_ms w' - start).
Proof using ProcessLaws0.
  intros Hpoll. revert w; induction fuel as [|fuel IH]; intros w Hpos Hfuel; [lia|].
  cbn [drain_loop].
  destruct (Z.ltb_spec (steady_ms w - start) timeout).
  2: { eexists _, _. split; [done|]. cbn; lia. }
  destruct (is_finished w) eqn:Hf; [by eexists _, _|].
  pose proof (sleep_advances poll w ltac:(lia)). apply IH; lia.
Qed.

(** Why the engine is stopped: it drained, the pill was never accepted in time, or
    it did not drain in time. *)
Inductive stop_reason (timeout : Z) (w : W) : W -> bool -> Prop :=
  | engine_drained w1 : is_finished w1 = true -> stop_reason timeout w w1 true
  | pill_refused w1 : timeout <= steady_ms w1 - steady_ms w -> stop_reason timeout w w1 false
  | drain_timed_out w1 w2 : timeout <= steady_ms w2 - steady_ms w1 -> stop_reason timeout w w2 false.

Lemma stop_risk_engine_ends fuel timeout w :
  (0 < fuel)%nat -> timeout < Z.of_nat fuel ->
  exists w' drained, stop_risk_engine fuel timeout w = Some (stop_engine w', drained) /\
    stop_reason timeout w w' drained.
Proof using ProcessLaws0.
  intros Hpos Hfuel. unfold stop_risk_engine.
  destruct (push_loop_ends fuel (steady_ms w) timeout w) as (w1 & pushed & -> & Hp); [lia..|].
  cbn [mbind option_bind]. destruct pushed.
  - destruct (drain_loop_ends 50 fuel (steady_ms w1) timeout w1) as (w2 & drained & -> & Hd); [lia..|].
    cbn [mbind option_bind]. exists w2, drained. split; [done|].
    destruct drained; [by constructor|by econstructor 3].
  - cbn [mbind option_bind]. exists w1, false. split; [done|]. constructor 2. auto.
Qed.
End ShutdownFacts.

(** ** The steps of a run *)

Definition ok_in (outcome : RunStep -> result unit) (s : RunStep) : Prop := outcome s = Ok ().

Lemma run_steps_spec outcome steps :
  match run_steps outcome steps with
  | (tried, Ok _) => tried = steps /\ Forall (ok_in outcome) steps
  | (tried, Throw e) => exists pre s post,
      steps = pre ++ s :: post /\ tried = pre ++ [s] /\ Forall (ok_in outcome) pre /\
      outcome s = Throw e
  end.
Proof.
  induction steps as [|s steps IH]; cbn [run_steps]; [done|].
  destruct (outcome s) as [[]|e] eqn:Hs.
  2: { by exists [], s, steps. }
  destruct (run_steps outcome steps) as [tried [x|e]].
  - destruct IH as [-> Hall]. split; [done|]. by constructor.
  - destruct IH as (pre & s' & post & -> & -> & Hall & He). exists (s :: pre), s', post.
    split_and!; [done..| |done]. by constructor.
Qed.

(** The exit codes of a run whose database never throws a [std::exception]: 0
    when nothing fails, 2 without a database, 3 and 4 when some step of the
    start-up throws. *)
Inductive run_exit (init_db : result bool) (outcome : RunStep -> result unit) : list RunStep -> Z -> Prop :=
  | exit_ok : init_db = Ok true -> Forall (ok_in outcome) startup_steps ->
      run_exit init_db outcome
        (startup_steps ++ [WaitStop; RemoveReadiness; StopOrderly; JoinThreads]) 0
  | exit_no_db : init_db = Ok false -> run_exit init_db outcome [] 2
  | exit_db_fatal e : init_db = Throw e -> run_exit init_db outcome (fatal e).1 (fatal e).2
  | exit_fatal pre s post e : init_db = Ok true -> startup_steps = pre ++ s :: post ->
      Forall (ok_in outcome) pre -> outcome s = Throw e ->
      run_exit init_db outcome (pre ++ [s] ++ (fatal e).1) (fatal e).2.

Lemma app_run_exit init_db outcome :
  run_exit init_db outcome (app_run init_db outcome).1 (app_run init_db outcome).2.
Proof.
  unfold app_run. destruct init_db as [[]|e] eqn:Hdb; [|by constructor..].
  pose proof (run_steps_spec outcome startup_steps) as Hs.
  destruct (run_steps outcome startup_steps) as [tried [x|e]].
  - destruct Hs as [-> Hall]. by constructor.
  - destruct Hs as (pre & s & post & Hpre & -> & Hall & He). cbn [fst snd].
    rewrite <- app_assoc. by econstructor.
Qed.

(** * Properties *)

Section ShutdownProperties.
Context {W : Type} `{!Process W, !ProcessLaws W}.

(** Whatever the other threads do, the first [stop_orderly_] returns: it waits
    at most its timeout for the poison pill to be accepted and again for the engine to drain
    (polling every 1 and 50 ms), then stops the engine, and the dispatcher only after it; the health
    server and the event source were stopped first; every later call does nothing. *)
Theorem stop_orderly_ends (fuel : nat) (m : Modules) (timeout : Z) (w : W)
    (Ht : 0 <= timeout < Z.of_nat fuel) :
  let w0 := if health_server m then stop_health w else w in
  let w1 := if event_source m then stop_source w0 else w0 in
  (exists w2 drained w3,
     stop_orderly fuel m timeout false w = Some (true, w3, drained) /\
     (if risk_engine m then stop_reason timeout w1 w2 drained else w2 = w1 /\ drained = true) /\
     w3 = (let w2 := if risk_engine m then stop_engine w2 else w2 in
           if dispatcher m then stop_dispatcher w2 else w2)) /\
  stop_orderly fuel m timeout true w = Some (true, w, true).
Proof using ProcessLaws0.
  intros w0 w1. split; [|done]. unfold stop_orderly. fold w0. fold w1.
  destruct (risk_engine m).
  - destruct (stop_risk_engine_ends fuel timeout w1) as (w2 & drained & -> & Hr); [lia..|].
    cbn [mbind option_bind]. by eexists w2, drained, _.
  - cbn [mbind option_bind]. by eexists w1, true, _.
Qed.
End ShutdownProperties.

(** ** Witnesses *)

(** A process whose queue has room and whose engine is finished after 120 ms. *)
Record SampleProcess := mkSampleProcess { sp_clock : Z; sp_log : list string }.

Definition logged (what : string) (p : SampleProcess) : SampleProcess :=
  mkSampleProcess (sp_clock p) (sp_log p ++ [what]).

#[local] Instance sample_process : Process SampleProcess := {
  steady_ms := sp_clock;
  sleep_ms ms p := mkSampleProcess (sp_clock p + ms) (sp_log p);
  try_push_pill p := (logged "pill" p, true);
  is_finished p := 120 <? sp_clock p;
  stop_health := logged "health";
  stop_source := logged "source";
  stop_engine := logged "engine";
  stop_dispatcher := logged "dispatcher";
}.
#[local] Instance sample_process_laws : ProcessLaws SampleProcess.
Proof. split; intros; cbn; lia. Qed.

Lemma stop_orderly_ends_witness :
  (exists drained w3, stop_orderly 5001 (mkModules true true true true) 5000 false (mkSampleProcess 0 []) =
     Some (true, w3, drained)) /\
  stop_orderly 5001 (mkModules true true true true) 5000 false (mkSampleProcess 0 []) =
    Some (true, mkSampleProcess 150 ["health"; "source"; "pill"; "engine"; "dispatcher"], true).
Proof.
  split; [|vm_compute; reflexivity].
  destruct (stop_orderly_ends 5001 (mkModules true true true true) 5000 (mkSampleProcess 0 []))
    as [(w2 & drained & w3 & H & _) _]; [vm_compute; split; congruence|].
  exists drained, w3. exact H.
Defined.
