(* ===== verification/System.v ===== *)
(** * The threads together

    The process as the main thread sees it while it shuts down: the event source
    pushing signals, the engine and the dispatcher taking their steps, and the
    clock.  Before every action of the main thread, and while it sleeps, the
    other threads run for a while; what they do is a list the theorems quantify
    over.  The class [Process] of Lifecycle.v is instantiated with this system,
    so the shutdown loops run over the real engine and dispatcher. *)
From S2P Require Import Prelude Cxx Signal RuleInterface Health PipelineInterface.
From S2P Require Import Dedup Dispatcher Engine Rules Lifecycle.

(** The engine's sink is the dispatcher's run: [dispatch] is called on it. *)
#[export] Instance dispatcher_sink {C : Type} `{IAlertChannel C} : AlertSink (Dispatcher.Run C) := {
  sink_dispatch a r := Dispatcher.step (Dispatcher.Dispatched a) r;
  sink_log r := (Dispatcher.run_popped r).*1 ++ Dispatcher.queue (Dispatcher.run_dispatcher r);
}.

#[export] Instance dispatcher_sink_laws {C : Type} `{IAlertChannel C} :
  AlertSinkLaws (Dispatcher.Run C).
Proof. split. intros a [d f p]. cbn. by rewrite app_assoc. Qed.

Section System.
Context {R Q C : Type} `{IRiskRule R} `{RingBuffer Q} `{IAlertChannel C}.

(** One step of another thread.  The stop tokens of the threads are requested
    only when the threads are joined, so they read false. *)
Inductive thread_step :=
  | SourcePush (s : Signal)
  | EngineStep (now_ms : Z)
  | DispatcherStep (e : Dispatcher.Env).

Definition no_stop (e : Dispatcher.Env) : Dispatcher.Env :=
  Dispatcher.mkEnv (Dispatcher.hb_now_ms e) false (Dispatcher.now_ms e) (Dispatcher.send_start e)
    (Dispatcher.system_now_s e) (Dispatcher.send_end_ms e).

Definition on_sink {D : Type} (f : D -> D) (r : Engine.Run R Q D) : Engine.Run R Q D :=
  let p := run_pipeline r in
  Engine.mkRun (mkPipeline (engine p) (rules p) (input_queue p) (f (sink p)) (drain_mode p))
    (run_pushed r).

Definition Threads : Type := Engine.Run R Q (Dispatcher.Run C).

Definition thread_step_run (ev : thread_step) (r : Threads) : Threads :=
  match ev with
  | SourcePush s => Engine.step (Engine.Pushed s) r
  | EngineStep now => Engine.step (Engine.Iteration (Engine.mkEnv now false)) r
  | DispatcherStep e => on_sink (Dispatcher.step (Dispatcher.Iteration (no_stop e))) r
  end.

Definition run_threads (evs : list thread_step) (r : Threads) : Threads :=
  for_each thread_step_run evs r.

(** The steps the threads take at each turn, with the time that passes beyond
    the one asked for. *)
Record System := mkSystem {
  threads : Threads;
  clock_ms : Z;
  turns : list (nat * list thread_step);
}.

Definition turn (ms : Z) (s : System) : System :=
  match turns s with
  | [] => mkSystem (threads s) (clock_ms s + ms) []
  | (delay, evs) :: rest =>
      mkSystem (run_threads evs (threads s)) (clock_ms s + ms + Z.of_nat delay) rest
  end.

Definition on_threads (f : Threads -> Threads) (s : System) : System :=
  mkSystem (f (threads s)) (clock_ms s) (turns s).

Definition poison_pill : Signal :=
  mkSignal Control (mkSignalMeta 0 0 None None false 0) (PControl Stop).

Definition push_pill (s : System) : System * bool :=
  let s := turn 0 s in
  match rb_try_push poison_pill (input_queue (run_pipeline (threads s))) with
  | Some _ => (on_threads (Engine.step (Engine.Pushed poison_pill)) s, true)
  | None => (s, false)
  end.

#[export] Instance System_Process : Process System := {
  steady_ms := clock_ms;
  sleep_ms := turn;
  try_push_pill := push_pill;
  is_finished s := finished (engine (run_pipeline (threads s)));
  stop_health := turn 0;
  stop_source := turn 0;
  stop_engine s := on_threads (Engine.step Engine.Stopped) (turn 0 s);
  stop_dispatcher s := on_threads (on_sink (Dispatcher.step Dispatcher.Stopped)) (turn 0 s);
}.

#[export] Instance System_laws : ProcessLaws System.
Proof.
  split.
  - intros ms s Hms. cbn. unfold turn. destruct (turns s) as [|[delay evs] rest]; cbn; lia.
  - intros s. cbn. unfold push_pill, turn.
    destruct (turns s) as [|[delay evs] rest]; cbn -[rb_try_push]; by destruct (rb_try_push _ _); cbn; lia.
Qed.

(** The signals the event source pushes in some steps. *)
Definition source_pushes (evs : list thread_step) : list Signal :=
  omap (fun ev => match ev with SourcePush s => Some s | _ => None end) evs.

(** The iterations of the dispatcher in them. *)
Definition dispatcher_envs (evs : list thread_step) : list Dispatcher.Env :=
  omap (fun ev => match ev with DispatcherStep e => Some (no_stop e) | _ => None end) evs.
End System.
Arguments Threads : clear implicits.
Arguments System : clear implicits.

(** * Facts *)

(** What the event source pushes in some steps; it never pushes a stop pill. *)
Definition pushes_in (P : Signal -> Prop) (evs : list thread_step) : Prop :=
  Forall P (source_pushes evs).
Definition not_pill (s : Signal) : Prop := is_stop_pill s = false.
Definition pill_free : list thread_step -> Prop := pushes_in not_pill.

Section Facts.
Context {R Q C : Type} `{!IRiskRule R, !RiskRuleLaws R} `{!RingBuffer Q, !RingBufferLaws Q}
  `{!IAlertChannel C, CL : !ChannelLaws C}.
Implicit Types (r : Threads R Q C) (s : System R Q C) (evs : list thread_step) (d : AlertDispatcher C).

(** ** What the queue accepts *)

Lemma run_threads_app evs1 evs2 r :
  run_threads (evs1 ++ evs2) r = run_threads evs2 (run_threads evs1 r).
Proof. apply for_each_app. Qed.

Lemma source_pushes_app evs1 evs2 :
  source_pushes (evs1 ++ evs2) = source_pushes evs1 ++ source_pushes evs2.
Proof. apply omap_app. Qed.

Lemma pushes_in_app P evs1 evs2 :
  pushes_in P evs1 -> pushes_in P evs2 -> pushes_in P (evs1 ++ evs2).
Proof. intros H1 H2. unfold pushes_in. rewrite source_pushes_app. by apply Forall_app. Qed.

Lemma pushes_in_app_inv P evs1 evs2 :
  pushes_in P (evs1 ++ evs2) -> pushes_in P evs1 /\ pushes_in P evs2.
Proof. unfold pushes_in. rewrite source_pushes_app. apply Forall_app. Qed.

Lemma pushes_in_concat P (l : list (nat * list thread_step)) :
  pushes_in P (concat l.*2) -> Forall (fun t => pushes_in P t.2) l.
Proof.
  induction l as [|t l IH]; [constructor|]. cbn [fmap list_fmap concat].
  intros [Ht Hl]%pushes_in_app_inv. constructor; [done|by apply IH].
Qed.

Lemma pushes_in_impl (P P' : Signal -> Prop) evs :
  (forall sig, P sig -> P' sig) -> pushes_in P evs -> pushes_in P' evs.
Proof. intros HP. by apply Forall_impl. Qed.

Lemma thread_step_pushed ev r :
  exists l, run_pushed (thread_step_run ev r) = run_pushed r ++ l /\ l `sublist_of` source_pushes [ev].
Proof.
  destruct ev as [sig|now|e]; cbn [thread_step_run].
  - cbn [Engine.step]. destruct (rb_try_push _ _).
    + by exists [sig].
    + exists []. rewrite app_nil_r. split; [done|apply sublist_nil_l].
  - exists []. cbn [Engine.step]. rewrite app_nil_r.
    split; [by destruct (finished _)|done].
  - exists []. by rewrite app_nil_r.
Qed.

Lemma run_threads_pushed evs r :
  exists l, run_pushed (run_threads evs r) = run_pushed r ++ l /\ l `sublist_of` source_pushes evs.
Proof.
  revert r; induction evs as [|ev evs IH]; intros r.
  { exists []. by rewrite app_nil_r. }
  unfold run_threads. rewrite for_each_cons. fold (run_threads evs (thread_step_run ev r)).
  destruct (thread_step_pushed ev r) as (l1 & H1 & Hs1).
  destruct (IH (thread_step_run ev r)) as (l2 & H2 & Hs2).
  exists (l1 ++ l2). rewrite H2, H1, <- app_assoc. split; [done|].
  change (ev :: evs) with ([ev] ++ evs). rewrite source_pushes_app. by apply sublist_app.
Qed.

(** ** The invariant of the running threads *)

(** [done] are the signals the engine has processed since [r0]. *)
Record threads_ok r0 d0 r (done : list Signal) : Prop := {
  tok_engine : Engine.run_ok r0 r done;
  tok_drain : drain_mode (run_pipeline r) = existsb is_stop_pill done;
  tok_running : Engine.running (engine (run_pipeline r)) = true;
  tok_finished : finished (engine (run_pipeline r)) = true -> drain_mode (run_pipeline r) = true;
  tok_dispatcher : exists devs, sink (run_pipeline r) = Dispatcher.exec devs (Dispatcher.start d0);
  tok_dispatcher_running : Dispatcher.running (run_dispatcher (sink (run_pipeline r))) = true;
  tok_dispatcher_alive : Dispatcher.run_finished (sink (run_pipeline r)) = false;
}.

Lemma dispatch_step_alive ev (dr : Dispatcher.Run C) :
  match ev with Dispatcher.Stopped => False | Dispatcher.Iteration e => Dispatcher.stop_requested e = false
  | Dispatcher.Dispatched _ => True end ->
  Dispatcher.running (run_dispatcher dr) = true -> Dispatcher.run_finished dr = false ->
  Dispatcher.running (run_dispatcher (Dispatcher.step ev dr)) = true /\
  Dispatcher.run_finished (Dispatcher.step ev dr) = false.
Proof using CL.
  intros Hev Hrun Hfin. destruct dr as [d f p]; cbn in *; subst f. destruct ev as [a| |e]; [done|done|].
  cbn. unfold Dispatcher.run_iteration. cbn. rewrite Hrun, Hev. cbn.
  destruct (queue d) as [|a rest]; [done|]. split; [|done].
  destruct (deliver_spec e a (set_queue (mkAlertDispatcher (channels d) (a :: rest) true
    (Dispatcher.has_metrics d) (record (Dispatcher.hb_now_ms e) <$> Dispatcher.heartbeat d)
    (deduplicator d) (instruments d) (error_log d)) rest)) as (_ & Hr & _).
  cbn in Hr. etransitivity; [exact Hr|done].
Qed.

Lemma dispatcher_exec_app devs1 devs2 (dr : Dispatcher.Run C) :
  Dispatcher.exec (devs1 ++ devs2) dr = Dispatcher.exec devs2 (Dispatcher.exec devs1 dr).
Proof. apply for_each_app. Qed.

Lemma exec_dispatched l (dr : Dispatcher.Run C) :
  for_each sink_dispatch l dr = Dispatcher.exec (Dispatcher.Dispatched <$> l) dr.
Proof.
  revert dr; induction l as [|a l IH]; intros dr; [done|].
  unfold Dispatcher.exec. rewrite fmap_cons, !for_each_cons. apply IH.
Qed.

Lemma exec_alive devs (dr : Dispatcher.Run C) :
  Forall (fun ev => match ev with Dispatcher.Stopped => False
    | Dispatcher.Iteration e => Dispatcher.stop_requested e = false
    | Dispatcher.Dispatched _ => True end) devs ->
  Dispatcher.running (run_dispatcher dr) = true -> Dispatcher.run_finished dr = false ->
  Dispatcher.running (run_dispatcher (Dispatcher.exec devs dr)) = true /\
  Dispatcher.run_finished (Dispatcher.exec devs dr) = false.
Proof using CL.
  intros Hdevs. revert dr; induction Hdevs as [|ev devs Hev _ IH]; intros dr Hrun Hfin; [done|].
  unfold Dispatcher.exec. rewrite for_each_cons.
  destruct (dispatch_step_alive ev dr Hev Hrun Hfin). by apply IH.
Qed.

(** An iteration moves an alert from the queue to those popped. *)
Lemma iteration_sink_log e (dr : Dispatcher.Run C) :
  sink_log (Dispatcher.step (Dispatcher.Iteration e) dr) = sink_log dr.
Proof using CL.
  destruct dr as [d [] p]; [done|]. cbn. unfold Dispatcher.run_iteration. cbn [queue].
  destruct (queue d) as [|a rest] eqn:Hq.
  - destruct (_ || _); cbn; by rewrite ?Hq, !app_nil_r.
  - cbn [run_popped run_dispatcher]. set (d1 := set_queue _ _).
    destruct (deliver_spec e a d1) as (Hd & _). rewrite Hd. unfold d1. cbn [queue set_queue]. by rewrite fmap_app, <- app_assoc.
Qed.

(** A step that runs the dispatcher for a while. *)
Lemma threads_ok_sink r0 d0 p p' pushed pushed' done done' devs :
  threads_ok r0 d0 (Engine.mkRun p pushed) done ->
  Engine.run_ok r0 (Engine.mkRun p' pushed') done' ->
  drain_mode p' = existsb is_stop_pill done' -> Engine.running (engine p') = true ->
  (finished (engine p') = true -> drain_mode p' = true) ->
  sink p' = Dispatcher.exec devs (sink p) ->
  Forall (fun ev => match ev with Dispatcher.Stopped => False
    | Dispatcher.Iteration e => Dispatcher.stop_requested e = false
    | Dispatcher.Dispatched _ => True end) devs ->
  threads_ok r0 d0 (Engine.mkRun p' pushed') done'.
Proof using CL.
  intros [_ _ _ _ [devs0 Hsink] Hr Hf] Hok Hd Hrun Hfin Hs Hdevs. cbn [run_pipeline] in *.
  destruct (exec_alive devs (sink p) Hdevs Hr Hf). split; cbn [run_pipeline]; rewrite ?Hs; try done.
  exists (devs0 ++ devs). by rewrite Hsink, dispatcher_exec_app.
Qed.

(** Whoever steps, the invariant stays, and a finished engine processes nothing
    more. *)
Lemma threads_ok_step r0 d0 r done ev :
  threads_ok r0 d0 r done ->
  exists done', threads_ok r0 d0 (thread_step_run ev r) done' /\
    (finished (engine (run_pipeline r)) = true ->
     done' = done /\ finished (engine (run_pipeline (thread_step_run ev r))) = true).
Proof using CL RiskRuleLaws0 RingBufferLaws0.
  destruct r as [p pushed]. intros Hok. pose proof Hok as [Re Rd Rr Rf _ _ _].
  cbn [run_pipeline] in *. destruct ev as [sig|now|e]; cbn [thread_step_run].
  - cbn [Engine.step run_pipeline run_pushed].
    pose proof (rb_try_push_spec sig (input_queue p)) as Hpush.
    destruct (rb_try_push _ _) as [q|]; [|by exists done]. destruct Hpush as [Hpush _].
    exists done. split; [|done].
    eapply (threads_ok_sink r0 d0 p _ _ _ done done []); [exact Hok| |done..].
    destruct Re as [Rq ? ? ? ?]. split; cbn in *; try done. by rewrite Hpush, !app_assoc, Rq.
  - cbn [Engine.step run_pipeline run_pushed]. destruct (finished (engine p)) eqn:Hf; [by exists done|].
    destruct (engine_run_ok_running r0 (Engine.mkEnv now false) p pushed done Re Rd Rr eq_refl Hf)
      as (done' & H1 & H2 & H3 & H4).
    destruct (loop_step_sink (Engine.mkEnv now false) p) as [l Hl]. rewrite exec_dispatched in Hl.
    exists done'. split; [|done]. eapply threads_ok_sink; [exact Hok|exact H1|done..|exact Hl|].
    apply list.Forall_fmap, list.Forall_true. done.
  - exists done. split; [|done]. unfold on_sink. cbn [run_pipeline run_pushed].
    eapply (threads_ok_sink r0 d0 p _ _ _ done done [Dispatcher.Iteration (no_stop e)]); [exact Hok| |done..|].
    + destruct Re as [Rq Rok Rrules Rs Rc]. split;
        cbn [run_pipeline run_pushed input_queue rules sink engine] in *; try done.
      by rewrite iteration_sink_log.
    + by constructor.
Qed.

Lemma threads_ok_run r0 d0 evs : forall r done,
  threads_ok r0 d0 r done ->
  exists done', threads_ok r0 d0 (run_threads evs r) done' /\
    (finished (engine (run_pipeline r)) = true ->
     done' = done /\ finished (engine (run_pipeline (run_threads evs r))) = true).
Proof using CL RiskRuleLaws0 RingBufferLaws0.
  induction evs as [|ev evs IH]; intros r done Hok; [by exists done|].
  unfold run_threads. rewrite for_each_cons. fold (run_threads evs (thread_step_run ev r)).
  destruct (threads_ok_step r0 d0 r done ev Hok) as (done1 & Hok1 & Hf1).
  destruct (IH _ _ Hok1) as (done2 & Hok2 & Hf2). exists done2. split; [done|].
  intros [-> Hf]%Hf1. by apply Hf2 in Hf.
Qed.

Definition start_threads (metrics : bool) (hb : option Heartbeat) (rs : list R) (q : Q) d
    : Threads R Q C :=
  Engine.start metrics hb rs q (Dispatcher.start d).

Lemma threads_ok_start metrics hb rs q d :
  threads_ok (start_threads metrics hb rs q d) d (start_threads metrics hb rs q d) [].
Proof.
  destruct (register_all_flags rs (seq 0 (length rs)) (make_engine metrics hb)) as (Hr & Hf & _).
  split; [|done|exact Hr|by cbn [start_threads Engine.start run_pipeline engine]; rewrite Hf
    |by exists []|done|done].
  split; cbn; [by rewrite app_nil_r|apply register_all_engine_ok|done|by rewrite app_nil_r|].
  intros n. apply lookup_add_zero.
Qed.

(** ** A finished engine *)

Lemma finished_threads evs : forall r, finished (engine (run_pipeline r)) = true ->
  finished (engine (run_pipeline (run_threads evs r))) = true /\
  sink (run_pipeline (run_threads evs r)) =
    Dispatcher.exec (Dispatcher.Iteration <$> dispatcher_envs evs) (sink (run_pipeline r)).
Proof.
  induction evs as [|ev evs IH]; intros [p pushed] Hf; [done|].
  unfold run_threads. rewrite for_each_cons. fold (run_threads evs).
  cbn [run_pipeline] in Hf. destruct ev as [sig|now|e]; cbn [thread_step_run].
  - cbn [Engine.step run_pipeline run_pushed]. destruct (rb_try_push _ _); by apply IH.
  - cbn [Engine.step run_pipeline run_pushed]. rewrite Hf. by apply IH.
  - destruct (IH (on_sink (Dispatcher.step (Dispatcher.Iteration (no_stop e)))
      (Engine.mkRun p pushed)) Hf) as [H1 H2]. split; [done|]. exact H2.
Qed.

(** ** The main thread's loops *)

(** [P] holds of the signals the event source may push meanwhile. *)
Section MainThread.
Variable P : Signal -> Prop.

Definition clean s : Prop := Forall (fun t => pushes_in P (snd t)) (turns s).

(** The other threads have run, and nothing else happened to them. *)
Definition moved s s' : Prop :=
  clean s -> clean s' /\ exists evs, pushes_in P evs /\ threads s' = run_threads evs (threads s).

Lemma moved_trans s1 s2 s3 : moved s1 s2 -> moved s2 s3 -> moved s1 s3.
Proof.
  intros H12 H23 (Hc & evs1 & Hp1 & H1)%H12. destruct (H23 Hc) as (Hc3 & evs2 & Hp2 & H2).
  split; [done|]. exists (evs1 ++ evs2). split; [by apply pushes_in_app|].
  by rewrite run_threads_app, <- H1, <- H2.
Qed.

Lemma moved_turn ms s : moved s (turn ms s).
Proof.
  intros Hc. unfold turn, clean in *. destruct (turns s) as [|[delay evs] rest].
  - split; [done|]. exists []. split; [constructor|done].
  - apply Forall_cons_iff in Hc as [Hp Hc]. split; [done|]. by exists evs.
Qed.

Lemma push_loop_accepted fuel start timeout s s' :
  push_loop fuel start timeout s = Some (s', true) ->
  exists s1, moved s s1 /\ s' = on_threads (Engine.step (Engine.Pushed poison_pill)) s1 /\
    is_Some (rb_try_push poison_pill (input_queue (run_pipeline (threads s1)))).
Proof.
  revert s; induction fuel as [|fuel IH]; intros s; cbn [push_loop]; [done|].
  destruct (_ <? _); [|done]. cbn [try_push_pill System_Process]. unfold push_pill.
  destruct (rb_try_push _ _) eqn:Hpush.
  - intros [= <-]. exists (turn 0 s). split_and!; [apply moved_turn|done|by rewrite Hpush].
  - intros (s1 & Hm & H1)%IH. exists s1. split; [|done].
    eapply moved_trans; [apply (moved_turn 0)|]. eapply moved_trans; [|exact Hm].
    apply (moved_turn 1).
Qed.

Lemma moved_refl s : moved s s.
Proof. intros Hc. split; [done|]. exists []. split; [constructor|done]. Qed.

Lemma drain_loop_moved poll fuel start timeout s s' drained :
  drain_loop poll fuel start timeout s = Some (s', drained) ->
  moved s s' /\ (drained = true -> finished (engine (run_pipeline (threads s'))) = true).
Proof.
  revert s; induction fuel as [|fuel IH]; intros s; cbn [drain_loop]; [done|].
  destruct (_ <? _).
  - destruct (is_finished s) eqn:Hf.
    + intros [= <- <-]. split; [apply moved_refl|done].
    + intros [Hm H1]%IH. split; [|done]. eapply moved_trans; [|exact Hm]. apply (moved_turn poll).
  - intros [= <- <-]. split; [apply moved_refl|done].
Qed.

(** What a shutdown that drained has done to the threads. *)
Definition drained_shutdown r r' : Prop :=
  exists evs1 evs2 evs3 evs4,
    let r1 := run_threads evs1 r in
    let r2 := run_threads evs2 (Engine.step (Engine.Pushed poison_pill) r1) in
    Forall (pushes_in P) [evs1; evs2; evs3; evs4] /\ is_Some (rb_try_push poison_pill (input_queue (run_pipeline r1))) /\
    finished (engine (run_pipeline r2)) = true /\
    r' = on_sink (Dispatcher.step Dispatcher.Stopped)
           (run_threads evs4 (Engine.step Engine.Stopped (run_threads evs3 r2))).

(** The pill is accepted, the engine ends while the main thread waits, and then
    it is stopped and the dispatcher after it. *)
Lemma drained_shutdown_intro fuel start timeout s s1 s2 :
  clean s -> push_loop fuel start timeout s = Some (s1, true) -> moved s1 s2 ->
  finished (engine (run_pipeline (threads s2))) = true ->
  drained_shutdown (threads s) (threads (stop_dispatcher (stop_engine s2))).
Proof.
  intros Hc Hpush Hm2 Hf. apply push_loop_accepted in Hpush as (s0 & Hm & -> & Hroom).
  destruct (Hm Hc) as (Hc0 & evs1 & Hp1 & H1). destruct (Hm2 Hc0) as (Hc2 & evs2 & Hp2 & H2).
  destruct (moved_turn 0 s2 Hc2) as (Hc3 & evs3 & Hp3 & H3).
  set (s3 := on_threads (Engine.step Engine.Stopped) (turn 0 s2)).
  destruct (moved_turn 0 s3 Hc3) as (_ & evs4 & Hp4 & H4).
  exists evs1, evs2, evs3, evs4. cbv zeta. rewrite <- H1. cbn [threads on_threads] in H2.
  rewrite <- H2, <- H3. split_and!; [by repeat constructor|done..|].
  cbn [stop_dispatcher stop_engine System_Process threads on_threads]. fold s3. by rewrite H4.
Qed.

Lemma stop_engine_drained fuel timeout s s' :
  clean s -> stop_risk_engine fuel timeout s = Some (s', true) ->
  drained_shutdown (threads s) (threads (stop_dispatcher s')).
Proof.
  intros Hc. unfold stop_risk_engine. cbn [mbind option_bind].
  destruct (push_loop _ _ _ _) as [[s1 []]|] eqn:Hpush; cbn [mbind option_bind]; [|done..].
  destruct (drain_loop _ _ _ _ _) as [[s2 []]|] eqn:Hdrain; cbn [mbind option_bind]; [|done..].
  intros [= <-]. apply drain_loop_moved in Hdrain as [Hm Hf].
  by eapply drained_shutdown_intro; [| | |apply Hf].
Qed.

(** [stop_orderly] when it reports that the engine drained. *)
Lemma stop_orderly_drained fuel m timeout s s' :
  risk_engine m = true -> dispatcher m = true -> clean s ->
  stop_orderly fuel m timeout false s = Some (true, s', true) ->
  exists evs, pushes_in P evs /\ drained_shutdown (run_threads evs (threads s)) (threads s').
Proof.
  intros Hm1 Hm2 Hc. unfold stop_orderly. rewrite Hm1, Hm2.
  set (s1 := if health_server m then _ else _). set (s2 := if event_source m then _ else _).
  assert (moved s s2) as Hmoved.
  { assert (forall b s1, moved s1 (if b : bool then turn 0 s1 else s1)) as Hif.
    { intros [] s0; [apply moved_turn|]. intros H0. split; [done|]. exists []. by split; [constructor|]. }
    eapply moved_trans; apply Hif. }
  destruct (Hmoved Hc) as (Hc2 & evs & Hp & He).
  destruct (stop_risk_engine fuel timeout s2) as [[s3 drained]|] eqn:Hstop;
    cbn [mbind option_bind]; [|done]. intros [= <- ->]. exists evs. split; [done|]. rewrite <- He.
  by eapply stop_engine_drained.
Qed.

End MainThread.

Lemma sink_log_iterations envs (dr : Dispatcher.Run C) :
  sink_log (Dispatcher.exec (Dispatcher.Iteration <$> envs) dr) = sink_log dr.
Proof using CL.
  revert dr; induction envs as [|e envs IH]; intros dr; [done|].
  unfold Dispatcher.exec. rewrite fmap_cons, for_each_cons. etransitivity; [apply IH|].
  apply iteration_sink_log.
Qed.

(** A prefix that contains a pill reaches past the first one. *)
Lemma prefix_past_pill l a b :
  l `prefix_of` a ++ poison_pill :: b -> Forall not_pill a ->
  existsb is_stop_pill l = true -> a ++ [poison_pill] `prefix_of` l.
Proof.
  intros Hl Ha Hpill.
  assert (a ++ [poison_pill] `prefix_of` a ++ poison_pill :: b) as Hp by (exists b; by rewrite <- app_assoc).
  destruct (prefix_weak_total _ _ _ Hp Hl) as [?|[k Hk]]; [done|].
  destruct k as [|x k _] using rev_ind.
  - rewrite app_nil_r in Hk. by rewrite Hk.
  - rewrite app_assoc in Hk. apply app_inj_tail in Hk as [-> _]. exfalso.
    apply existsb_exists in Hpill as (sig & Hin & Hs).
    apply Forall_app in Ha as [Ha _]. rewrite list.Forall_forall in Ha.
    apply list_elem_of_In in Hin. rewrite Ha in Hs by done. done.
Qed.

(** ** What a drained shutdown has done *)

(** The signals accepted, the alerts they cause, the channels that received
    them. *)
Record all_delivered rs d0 r r' (done : list Signal) : Prop := {
  ad_accepted : exists since, (run_pushed r ++ since) ++ [poison_pill] `prefix_of` done;
  ad_processed : done `prefix_of` run_pushed r';
  ad_ended : finished (engine (run_pipeline r')) = true /\ run_finished (sink (run_pipeline r')) = true;
  ad_queue : queue (run_dispatcher (sink (run_pipeline r'))) = [];
  ad_alerts : (run_popped (sink (run_pipeline r'))).*1 = (spec_run rs done).2;
  ad_channels : channels (run_dispatcher (sink (run_pipeline r'))) =
    (fun c => receive c (passed (deduplicator d0) (run_popped (sink (run_pipeline r')))))
      <$> channels d0;
}.

Lemma run_threads_pill_free evs r :
  pill_free evs -> Forall not_pill (run_pushed r) ->
  Forall not_pill (run_pushed (run_threads evs r)).
Proof.
  intros Hevs Hr. destruct (run_threads_pushed evs r) as (l & -> & Hl).
  apply Forall_app. split; [done|]. by eapply sublist_Forall.
Qed.

(** The pill is queued behind everything else, and the engine ends by itself. *)
Lemma pill_processed r0 d0 r evs1 evs2 done0 :
  threads_ok r0 d0 r done0 -> rb_contents (input_queue (run_pipeline r0)) = [] ->
  Forall not_pill (run_pushed r) -> pill_free evs1 ->
  let r1 := run_threads evs1 r in
  let r2 := run_threads evs2 (Engine.step (Engine.Pushed poison_pill) r1) in
  is_Some (rb_try_push poison_pill (input_queue (run_pipeline r1))) ->
  finished (engine (run_pipeline r2)) = true ->
  exists done, threads_ok r0 d0 r2 done /\ done `prefix_of` run_pushed r2 /\
    exists since, (run_pushed r ++ since) ++ [poison_pill] `prefix_of` done.
Proof using CL RiskRuleLaws0 RingBufferLaws0.
  intros Hok Hq Hfree Hevs1 r1 r2 Hroom Hf.
  destruct (threads_ok_run r0 d0 evs1 r done0 Hok) as (done1 & Hok1 & _).
  destruct (threads_ok_step r0 d0 r1 done1 (SourcePush poison_pill) Hok1) as (done1' & Hok1' & _).
  destruct (threads_ok_run r0 d0 evs2 _ _ Hok1') as (done & Hok2 & _).
  cbn [thread_step_run] in Hok1', Hok2. fold r2 in Hok2.
  pose proof (run_threads_pill_free evs1 r Hevs1 Hfree) as Hfree1. fold r1 in Hfree1.
  destruct (run_threads_pushed evs2 (Engine.step (Engine.Pushed poison_pill) r1)) as (l2 & Hl2 & _).
  fold r2 in Hl2.
  assert (run_pushed (Engine.step (Engine.Pushed poison_pill) r1) = run_pushed r1 ++ [poison_pill]) as Hpush.
  { cbn [Engine.step]. by destruct Hroom as [q1 ->]. }
  assert (done `prefix_of` run_pushed r2) as Hpre.
  { pose proof (ok_queue _ _ _ (tok_engine _ _ _ _ Hok2)) as Hqueue. rewrite Hq in Hqueue.
    exists (rb_contents (input_queue (run_pipeline r2))). symmetry. exact Hqueue. }
  exists done. split_and!; [done..|].
  destruct (run_threads_pushed evs1 r) as (since & Hsince & _). exists since. fold r1 in Hsince.
  rewrite <- Hsince. eapply prefix_past_pill; [|exact Hfree1|].
  - rewrite Hl2, Hpush, <- app_assoc in Hpre. exact Hpre.
  - rewrite <- (tok_drain _ _ _ _ Hok2). by apply (tok_finished _ _ _ _ Hok2).
Qed.

(** After that the shutdown only stops the engine and the dispatcher. *)
Lemma drained_shutdown_processed (P : Signal -> Prop) metrics hb rs q d0 r r' before :
  (forall sig, P sig -> not_pill sig) ->
  rb_contents q = [] -> queue d0 = [] -> pill_free before ->
  r = run_threads before (start_threads metrics hb rs q d0) -> drained_shutdown P r r' ->
  exists done devs,
    (exists since, (run_pushed r ++ since) ++ [poison_pill] `prefix_of` done) /\
    done `prefix_of` run_pushed r' /\ finished (engine (run_pipeline r')) = true /\
    sink (run_pipeline r') = Dispatcher.step Dispatcher.Stopped (Dispatcher.exec devs (Dispatcher.start d0)) /\
    run_finished (sink (run_pipeline r')) = false /\
    sink_log (sink (run_pipeline r')) = (spec_run rs done).2.
Proof using CL RiskRuleLaws0 RingBufferLaws0.
  intros HP Hq Hd Hbefore -> (evs1 & evs2 & evs3 & evs4 & Hp & Hroom & Hf2 & ->).
  apply Forall_cons_iff in Hp as [Hp1%(pushes_in_impl P not_pill) _]; [|done].
  set (r0 := start_threads metrics hb rs q d0) in *.
  destruct (threads_ok_run r0 d0 before r0 [] (threads_ok_start _ _ _ _ _)) as (done0 & Hok0 & _).
  pose proof (run_threads_pill_free before r0 Hbefore (Forall_nil_2 _)) as Hfree.
  destruct (pill_processed r0 d0 _ evs1 evs2 done0 Hok0 Hq Hfree Hp1 Hroom Hf2)
    as (done & Hok2 & Hpre & Hsince).
  set (r2 := run_threads evs2 _) in *.
  destruct (threads_ok_run r0 d0 evs3 r2 done Hok2) as (done' & Hok3 & Hdone).
  destruct (Hdone Hf2) as [-> Hf3]. set (r3 := run_threads evs3 r2) in *.
  set (r3' := Engine.step Engine.Stopped r3).
  destruct (finished_threads evs4 r3' Hf3) as [Hf4 Hs4].
  destruct (run_threads_pushed evs3 r2) as (l3 & Hl3 & _).
  destruct (run_threads_pushed evs4 r3') as (l4 & Hl4 & _).
  destruct Hok3 as [Hrun _ _ _ [devs Hdevs] Hdr Hda].
  exists done, (devs ++ (Dispatcher.Iteration <$> dispatcher_envs evs4)).
  unfold on_sink. cbn [run_pipeline run_pushed sink engine]. rewrite Hs4.
  change (sink (run_pipeline r3')) with (sink (run_pipeline r3)).
  rewrite dispatcher_exec_app, <- Hdevs.
  split_and!; [exact Hsince| |exact Hf4|done| |].
  - rewrite Hl4. apply prefix_app_r. change (run_pushed r3') with (run_pushed r3).
    unfold r3. rewrite Hl3. by apply prefix_app_r.
  - apply (exec_alive (Dispatcher.Iteration <$> dispatcher_envs evs4)); [|done..].
    apply list.Forall_fmap, list.Forall_forall. intros e He. apply list_elem_of_omap in He as ([] & _ & He); try done.
    by injection He as <-.
  - etransitivity; [apply (sink_log_iterations (dispatcher_envs evs4))|].
    rewrite (ok_sink _ _ _ Hrun). cbn. by rewrite Hd.
Qed.

(** When the event source has exited, the pill is the last signal. *)
Lemma run_threads_no_pushes evs r :
  pushes_in (fun _ => False) evs -> run_pushed (run_threads evs r) = run_pushed r.
Proof.
  unfold pushes_in. intros Hevs. destruct (run_threads_pushed evs r) as (l & -> & Hl).
  apply (sublist_Forall (fun _ => False)) in Hl; [|done]. destruct l; [by rewrite app_nil_r|].
  by inversion Hl.
Qed.

Lemma drained_shutdown_pushed r r' :
  drained_shutdown (fun _ => False) r r' -> run_pushed r' = run_pushed r ++ [poison_pill].
Proof.
  intros (evs1 & evs2 & evs3 & evs4 & Hp & [q Hroom] & _ & ->).
  rewrite !Forall_cons_iff in Hp. destruct Hp as (H1 & H2 & H3 & H4 & _).
  unfold on_sink. cbn [run_pushed]. rewrite run_threads_no_pushes by done. cbn [Engine.step run_pushed].
  rewrite !run_threads_no_pushes by done. cbn [Engine.step]. rewrite Hroom. by cbn [run_pushed].
Qed.
End Facts.

(** * Properties *)

Section Properties.
Context {R Q C : Type} `{!IRiskRule R, !RiskRuleLaws R} `{!RingBuffer Q, !RingBufferLaws Q}
  `{!IAlertChannel C, CL : !ChannelLaws C}.

(** Joining a dispatcher that has been stopped. *)
Lemma joined_delivered (P : Signal -> Prop) metrics hb (rs : list R) (q : Q) (d0 : AlertDispatcher C)
    r r' before after :
  (forall sig, P sig -> not_pill sig) ->
  rb_contents q = [] -> queue d0 = [] -> pill_free before ->
  r = run_threads before (start_threads metrics hb rs q d0) -> drained_shutdown P r r' ->
  (length (queue (run_dispatcher (sink (run_pipeline r')))) < length (dispatcher_envs after))%nat ->
  exists done, all_delivered rs d0 r (run_threads after r') done.
Proof using CL RiskRuleLaws0 RingBufferLaws0.
  intros HP Hq Hd Hbefore Hr Hdrained Hjoin.
  destruct (drained_shutdown_processed P metrics hb rs q d0 r r' before HP Hq Hd Hbefore Hr Hdrained)
    as (done & devs & Hsince & Hpre & Hf & Hsink & Halive & Hlog).
  destruct (finished_threads after r' Hf) as [Hf' Hs'].
  destruct (dispatcher_loop_drains (sink (run_pipeline r')) (dispatcher_envs after) Halive)
    as (Hend & Hqueue & Hpopped); [by rewrite Hsink|].
  destruct (run_threads_pushed after r') as (l & Hl & _).
  assert (sink (run_pipeline (run_threads after r')) =
    Dispatcher.exec ((devs ++ [Dispatcher.Stopped]) ++ (Dispatcher.Iteration <$> dispatcher_envs after))
      (Dispatcher.start d0)) as Hall.
  { rewrite Hs', !dispatcher_exec_app. by rewrite Hsink. }
  exists done. split.
  - exact Hsince.
  - rewrite Hl. by apply prefix_app_r.
  - split; [done|]. rewrite Hs', Hend. by apply bool_decide_eq_true_2.
  - rewrite Hs', Hqueue. apply drop_ge. lia.
  - rewrite Hs', Hpopped, take_ge by lia. exact Hlog.
  - rewrite Hall. apply (ok_channels _ _ _ (dispatcher_run_ok_exec d0 _)).
Qed.

(** What a shutdown that drained has delivered. *)
Lemma stopped_delivered (metrics : bool) (hb : option Heartbeat) (rs : list R) (q : Q)
    (d0 : AlertDispatcher C) (before after : list thread_step) (clock : Z)
    (meanwhile : list (nat * list thread_step)) (fuel : nat) (m : Modules) (timeout : Z)
    (s' : System R Q C)
    (Hempty : rb_contents q = [] /\ queue d0 = []) (Hm : risk_engine m = true /\ dispatcher m = true)
    (Hsource : pill_free before /\ Forall (fun t => pill_free t.2) meanwhile) :
  let r := run_threads before (start_threads metrics hb rs q d0) in
  stop_orderly fuel m timeout false (mkSystem r clock meanwhile) = Some (true, s', true) ->
  (length (queue (run_dispatcher (sink (run_pipeline (threads s'))))) <
     length (dispatcher_envs after))%nat ->
  exists done, all_delivered rs d0 r (run_threads after (threads s')) done.
Proof using CL RiskRuleLaws0 RingBufferLaws0.
  intros r Hstop Hjoin. destruct Hempty as [Hq Hd], Hm as [Hm1 Hm2], Hsource as [Hbefore Hmean].
  destruct (stop_orderly_drained not_pill fuel m timeout (mkSystem r clock meanwhile) s' Hm1 Hm2 Hmean Hstop)
    as (evs & Hevs & Hdrained).
  destruct (joined_delivered not_pill metrics hb rs q d0 (run_threads evs r) (threads s')
    (before ++ evs) after) as (done & [Hsince Hp He Hqu Ha Hc]); [auto|exact Hq|exact Hd| | |exact Hdrained|exact Hjoin|].
  - by apply pushes_in_app.
  - by rewrite run_threads_app.
  - exists done. split; [|exact Hp|exact He|exact Hqu|exact Ha|exact Hc]. destruct Hsince as [since Hsince].
    destruct (run_threads_pushed evs r) as (l & Hl & _). exists (l ++ since).
    by rewrite app_assoc, <- Hl.
Qed.

(** C6: a shutdown that reports no timeout loses nothing, whatever the threads were
    doing and do meanwhile: every signal the ring buffer had accepted when [stop_orderly_] was
    called, and every later one queued before the poison pill, has been evaluated, in order, and once
    the dispatcher has been joined every alert they caused has been delivered: consumed in order, and
    sent to every channel unless the deduplicator suppressed it. *)
Theorem graceful_shutdown (metrics : bool) (hb : option Heartbeat) (rs : list R) (q : Q)
    (d0 : AlertDispatcher C) (before after : list thread_step) (clock : Z)
    (meanwhile : list (nat * list thread_step)) (fuel : nat) (m : Modules) (timeout : Z)
    (s' : System R Q C)
    (Hempty : rb_contents q = [] /\ queue d0 = []) (Hm : risk_engine m = true /\ dispatcher m = true)
    (Hsource : pill_free before /\ Forall (fun t => pill_free t.2) meanwhile) :
  let r := run_threads before (start_threads metrics hb rs q d0) in
  stop_orderly fuel m timeout false (mkSystem r clock meanwhile) = Some (true, s', true) ->
  (length (queue (run_dispatcher (sink (run_pipeline (threads s'))))) <
     length (dispatcher_envs after))%nat ->
  exists done, all_delivered rs d0 r (run_threads after (threads s')) done.
Proof using CL RiskRuleLaws0 RingBufferLaws0.
  exact (stopped_delivered metrics hb rs q d0 before after clock meanwhile fuel m timeout s'
    Hempty Hm Hsource).
Qed.
End Properties.

(** ** Witness: two transfers queued before the shutdown, one during it *)

Definition sample_threads_before : list thread_step :=
  [SourcePush (transfer_signal 500); EngineStep 1; SourcePush (transfer_signal 700)].
Definition sample_meanwhile : list (nat * list thread_step) :=
  [(0%nat, []); (2%nat, [SourcePush (transfer_signal 900)]); (0%nat, []);
   (5%nat, EngineStep <$> [2; 3; 4; 5])].
Definition sample_system : System Rule ListQueue RecordingChannel :=
  mkSystem (run_threads sample_threads_before
    (start_threads true None sample_rules (mkListQueue 4 []) sample_dispatcher)) 0 sample_meanwhile.
Definition sample_after : list thread_step :=
  DispatcherStep <$> [sample_env 10; sample_env 200; sample_env 400; sample_env 500].

Definition sample_stopped : System Rule ListQueue RecordingChannel :=
  match stop_orderly 6000 (mkModules false true true true) 5000 false sample_system with
  | Some (_, s', _) => s'
  | None => sample_system
  end.

Lemma graceful_shutdown_witness :
  length (run_pushed (threads sample_stopped)) = 4%nat /\
  length (run_popped (sink (run_pipeline (run_threads sample_after (threads sample_stopped))))) = 3%nat /\
  exists done, all_delivered sample_rules sample_dispatcher (threads sample_system)
    (run_threads sample_after (threads sample_stopped)) done.
Proof.
  split; [vm_compute; reflexivity|]. split; [vm_compute; reflexivity|].
  apply (graceful_shutdown true None sample_rules (mkListQueue 4 []) sample_dispatcher
    sample_threads_before sample_after 0 sample_meanwhile 6000 (mkModules false true true true) 5000
    sample_stopped).
  - split; reflexivity.
  - split; reflexivity.
  - split; [repeat constructor|]. repeat constructor.
  - vm_compute. reflexivity.
  - apply Nat.ltb_lt. vm_compute. reflexivity.
Defined.
