(* ===== verification/Drain.v ===== *)
(** * When a shutdown drains

    The complement of System.v: not what a shutdown that drained has done, but
    when it does drain.  The threads are scheduled fairly: while the main thread
    pauses the engine takes some number of steps, and the pause is not much
    longer than asked for. *)
From S2P Require Import Prelude Cxx Signal RuleInterface Health PipelineInterface.
From S2P Require Import Dedup Dispatcher Engine Rules Lifecycle System.

(** ** Measures *)

Definition engine_steps (evs : list thread_step) : nat :=
  length (omap (fun ev => match ev with EngineStep now => Some now | _ => None end) evs).

(** No signal is pushed. *)
Definition quiet_source : list thread_step -> Prop := pushes_in (fun _ => False).

(** Each turn lets the engine take [k] steps and oversleeps by at most [delta]
    milliseconds; the event source has stopped pushing. *)
Definition fair (k delta : nat) (t : nat * list thread_step) : Prop :=
  quiet_source t.2 /\ (k <= engine_steps t.2)%nat /\ (t.1 <= delta)%nat.

Section Drain.
Context {R Q C : Type} `{!IRiskRule R, !RiskRuleLaws R} `{!RingBuffer Q, !RingBufferLaws Q}
  `{!IAlertChannel C, CL : !ChannelLaws C}.
Implicit Types (r : Threads R Q C) (s : System R Q C) (evs : list thread_step).

Definition pending r : nat := length (rb_contents (input_queue (run_pipeline r))).
Definition capacity r : nat := rb_capacity (input_queue (run_pipeline r)).
Definition ended r : Prop := finished (engine (run_pipeline r)) = true.

(** A stop pill is queued or has been seen. *)
Definition pilled r : Prop :=
  drain_mode (run_pipeline r) || existsb is_stop_pill (rb_contents (input_queue (run_pipeline r))) = true.

(** ** Single steps *)

Lemma loop_step_queue env (p : Pipeline R Q (Dispatcher.Run C)) :
  let q := input_queue p in
  let q' := input_queue (loop_step env p) in
  rb_capacity q' = rb_capacity q /\ (length (rb_contents q') <= length (rb_contents q))%nat.
Proof using RingBufferLaws0.
  cbv zeta. unfold loop_step. destruct (_ && _); [|done].
  pose proof (run_iteration_queue env p) as Hq.
  destruct (run_iteration env p) as [[] p']; cbn [snd with_engine input_queue] in *; rewrite Hq;
    rewrite rb_front_spec; (destruct (rb_contents _) as [|x l] eqn:Hc; cbn [head];
      [by rewrite Hc|destruct (rb_pop_spec _ _ _ Hc) as [-> ->]; cbn; auto with lia]).
Qed.

Lemma thread_step_quiet ev r :
  quiet_source [ev] ->
  capacity (thread_step_run ev r) = capacity r /\ (pending (thread_step_run ev r) <= pending r)%nat.
Proof using RingBufferLaws0.
  intros Hq. destruct ev as [sig|now|e]; [by inversion Hq| |done].
  unfold capacity, pending. cbn [thread_step_run Engine.step].
  destruct (finished _); [done|]. apply loop_step_queue.
Qed.

Lemma quiet_cons ev evs : quiet_source (ev :: evs) -> quiet_source [ev] /\ quiet_source evs.
Proof. unfold quiet_source, pushes_in. change (ev :: evs) with ([ev] ++ evs).
  rewrite source_pushes_app. apply Forall_app. Qed.

Lemma run_threads_cons ev evs r :
  run_threads (ev :: evs) r = run_threads evs (thread_step_run ev r).
Proof. apply for_each_cons. Qed.

Lemma run_threads_quiet evs r :
  quiet_source evs ->
  capacity (run_threads evs r) = capacity r /\ (pending (run_threads evs r) <= pending r)%nat.
Proof using RingBufferLaws0.
  revert r; induction evs as [|ev evs IH]; intros r; [done|].
  intros [Hev Hevs]%quiet_cons. rewrite run_threads_cons.
  destruct (IH (thread_step_run ev r) Hevs) as [-> ?].
  destruct (thread_step_quiet ev r Hev) as [-> ?]. split; [done|lia].
Qed.

(** A step of the engine takes a signal off the queue, or ends the engine. *)
Lemma engine_step_progress r0 d0 r done now :
  threads_ok r0 d0 r done -> pilled r -> ~ ended r ->
  let r' := thread_step_run (EngineStep now) r in
  ended r' \/ pilled r' /\ S (pending r') = pending r.
Proof using RiskRuleLaws0 RingBufferLaws0.
  destruct r as [p pushed]. intros [[_ Hok _ _ _] _ Hrun _ _ _ _] Hpill Hfin.
  unfold pilled, pending, ended in *. cbn [run_pipeline] in *. cbn [thread_step_run Engine.step run_pipeline].
  destruct (finished (engine p)); [done|]. cbn [run_pipeline]. unfold loop_step. rewrite Hrun. cbn [negb andb Engine.stop_requested].
  destruct (rb_contents (input_queue p)) as [|s l] eqn:Hq.
  - rewrite run_iteration_none by done. cbn [existsb] in Hpill. rewrite orb_false_r in Hpill.
    rewrite Hpill. by left.
  - right. destruct (run_iteration_some (Engine.mkEnv now false) p s l _ Hq Hok eq_refl)
      as (p' & -> & -> & _ & _ & -> & _).
    cbn [existsb] in Hpill. by rewrite <- orb_assoc.
Qed.

(** Unless it ends, the engine takes one signal at each of its steps. *)
Lemma threads_progress r0 d0 evs : forall r done,
  threads_ok r0 d0 r done -> quiet_source evs -> pilled r ->
  ended (run_threads evs r) \/
  pilled (run_threads evs r) /\ (pending (run_threads evs r) + engine_steps evs <= pending r)%nat.
Proof using CL RiskRuleLaws0 RingBufferLaws0.
  induction evs as [|ev evs IH]; intros r done Hok Hquiet Hpill.
  { right. split; [done|]. cbn. lia. }
  apply quiet_cons in Hquiet as [Hev Hevs]. rewrite run_threads_cons.
  destruct (threads_ok_step r0 d0 r done ev Hok) as (done' & Hok' & Hstay).
  destruct (threads_ok_run r0 d0 evs _ _ Hok') as (done2 & _ & Hstay2).
  destruct (decide (ended r)) as [Hended|Hended].
  { left. by apply Hstay2, Hstay. }
  destruct ev as [sig|now|e]; [by inversion Hev| |].
  - destruct (engine_step_progress r0 d0 r done now Hok Hpill Hended) as [He|[Hp Hpend]].
    { left. by apply Hstay2. }
    destruct (IH _ _ Hok' Hevs Hp) as [?|[? ?]]; [by left|right; split; [done|]].
    unfold engine_steps in *. cbn [omap list_omap length]. lia.
  - destruct (IH _ _ Hok' Hevs Hpill) as [?|[? ?]]; [by left|right; split; [done|]].
    done.
Qed.

(** ** The main thread's loops *)

Definition fair_turns (k delta : nat) s : Prop := Forall (fair k delta) (turns s).

(** The threads of [s] have an invariant. *)
Definition sound s : Prop := exists r0 d0 done, threads_ok r0 d0 (threads s) done.

(** What one fair turn does. *)
Lemma fair_turn k delta ms s n :
  sound s -> fair_turns k delta s -> (S n <= length (turns s))%nat ->
  let s' := turn ms s in
  sound s' /\ fair_turns k delta s' /\ (n <= length (turns s'))%nat /\
  (clock_ms s' <= clock_ms s + ms + Z.of_nat delta) /\
  capacity (threads s') = capacity (threads s) /\ (pending (threads s') <= pending (threads s))%nat /\
  (pilled (threads s) -> ended (threads s') \/
     pilled (threads s') /\ (pending (threads s') + k <= pending (threads s))%nat).
Proof using CL RiskRuleLaws0 RingBufferLaws0.
  intros (r0 & d0 & done & Hok) Hfair Hn. unfold turn, fair_turns in *.
  destruct (turns s) as [|[delay evs] rest]; [cbn in Hn; lia|]. cbn [length] in Hn.
  apply Forall_cons_iff in Hfair as [(Hquiet & Hk & Hdelay) Hfair]. cbn [fst snd threads clock_ms turns] in *.
  destruct (threads_ok_run r0 d0 evs _ _ Hok) as (done' & Hok' & _).
  destruct (run_threads_quiet evs (threads s) Hquiet) as [Hcap Hpend].
  split_and!; [by exists r0, d0, done'|done|lia..|done|done|].
  intros Hpill. destruct (threads_progress r0 d0 evs _ _ Hok Hquiet Hpill) as [He|[Hp Hle]]; [by left|right].
  split; [done|lia].
Qed.

(** [n] polls are enough for fewer than [k * n] signals. *)
Lemma drain_loop_drains k delta poll n : forall fuel start timeout s,
  0 <= poll -> sound s -> fair_turns k delta s -> (n <= length (turns s))%nat -> (n < fuel)%nat ->
  clock_ms s - start + Z.of_nat n * (poll + Z.of_nat delta) < timeout ->
  ended (threads s) \/ pilled (threads s) /\ (pending (threads s) < k * n)%nat ->
  exists s', drain_loop poll fuel start timeout s = Some (s', true).
Proof using CL RiskRuleLaws0 RingBufferLaws0.
  induction n as [|n IH]; intros fuel start timeout s Hpoll Hsound Hfair Hturns Hfuel Htime Hs;
    (destruct fuel as [|fuel]; [lia|]); cbn [drain_loop steady_ms sleep_ms is_finished System_Process];
    rewrite (proj2 (Z.ltb_lt _ _)) by nia;
    (destruct (finished (engine (run_pipeline (threads s)))) eqn:Hf; [by eexists|]);
    (destruct Hs as [Hs|[Hpill Hs]]; [by unfold ended in Hs; rewrite Hf in Hs|]); [lia|].
  destruct (fair_turn k delta poll s n Hsound Hfair Hturns)
    as (Hsound' & Hfair' & Hturns' & Hclock & _ & _ & Hprogress).
  apply IH; [done..|lia|rewrite Nat2Z.inj_succ, Z.mul_succ_l in Htime; lia|]. destruct (Hprogress Hpill) as [?|[? ?]]; [by left|right; split; [done|lia]].
Qed.

(** With room in the queue the pill is accepted at once. *)
Lemma push_loop_room k delta n fuel timeout s :
  sound s -> fair_turns k delta s -> (S n <= length (turns s))%nat -> (0 < fuel)%nat -> 0 < timeout ->
  (pending (threads s) < capacity (threads s))%nat ->
  exists s', push_loop fuel (clock_ms s) timeout s = Some (s', true) /\
    sound s' /\ fair_turns k delta s' /\ (n <= length (turns s'))%nat /\ pilled (threads s') /\
    (pending (threads s') <= S (pending (threads s)))%nat.
Proof using CL RiskRuleLaws0 RingBufferLaws0.
  intros Hsound Hfair Hturns Hfuel Htimeout Hroom. destruct fuel as [|fuel]; [lia|].
  cbn [push_loop steady_ms try_push_pill System_Process]. rewrite (proj2 (Z.ltb_lt _ _)) by lia.
  destruct (fair_turn k delta 0 s n Hsound Hfair Hturns) as (Hs' & Hf' & Ht' & _ & Hcap & Hpend & _).
  unfold push_pill. set (s1 := turn 0 s) in *.
  pose proof (rb_try_push_spec poison_pill (input_queue (run_pipeline (threads s1)))) as Hpush.
  pose proof (rb_try_push_room poison_pill (input_queue (run_pipeline (threads s1)))) as Hnone.
  unfold pending, capacity in Hcap, Hpend, Hroom.
  destruct (rb_try_push _ _) as [q'|] eqn:Hq; [|by destruct Hnone; [lia|]]. destruct Hpush as (Hcont & _ & _).
  eexists. split; [done|]. destruct Hs' as (r0 & d0 & done & Hok).
  destruct (threads_ok_step r0 d0 (threads s1) done (SourcePush poison_pill) Hok) as (done' & Hok' & _).
  cbn [thread_step_run] in Hok'. split_and!; [by exists r0, d0, done'|done|done|..];
    unfold pilled, pending; cbn [on_threads threads Engine.step]; rewrite Hq;
    cbn [run_pipeline input_queue drain_mode]; rewrite Hcont.
  - rewrite existsb_app. cbn. by rewrite !orb_true_r.
  - rewrite length_app. cbn [length]. lia.
Qed.

Lemma stop_risk_engine_drains k delta n fuel timeout s :
  sound s -> fair_turns k delta s -> (S n <= length (turns s))%nat -> (n < fuel)%nat ->
  Z.of_nat n * (50 + Z.of_nat delta) < timeout ->
  (pending (threads s) < capacity (threads s))%nat -> (S (pending (threads s)) < k * n)%nat ->
  exists s', stop_risk_engine fuel timeout s = Some (s', true).
Proof using CL RiskRuleLaws0 RingBufferLaws0.
  intros Hsound Hfair Hturns Hfuel Htime Hroom Hn. unfold stop_risk_engine. cbn [steady_ms System_Process].
  destruct (push_loop_room k delta n fuel timeout s) as (s1 & -> & Hs1 & Hf1 & Ht1 & Hp1 & Hle1);
    [done..|lia|nia|done|].
  cbn [mbind option_bind].
  destruct (drain_loop_drains k delta 50 n fuel (clock_ms s1) timeout s1) as [s2 ->];
    [lia|done|done|done|done|lia|right; split; [done|lia]|].
  by eexists.
Qed.
End Drain.

(** * Properties *)

Section Properties.
Context {R Q C : Type} `{!IRiskRule R, !RiskRuleLaws R} `{!RingBuffer Q, !RingBufferLaws Q}
  `{!IAlertChannel C, CL : !ChannelLaws C}.

(** C30: once the event source is quiet, a shutdown of an engine that keeps working
    does drain: if at every pause of the main thread the engine takes [k] steps and the pause
    oversleeps by at most [delta] milliseconds, then with room for the pill and fewer than [k * n]
    signals, where [n] polls of 50 ms fit in the timeout, [stop_orderly_] returns with the engine
    finished (so that nothing is lost), whatever the threads did before. *)
Theorem shutdown_drains (metrics : bool) (hb : option Heartbeat) (rs : list R) (q : Q)
    (d0 : AlertDispatcher C) (before : list thread_step) (clock : Z)
    (meanwhile : list (nat * list thread_step)) (fuel : nat) (m : Modules) (timeout : Z)
    (k delta n : nat) :
  let r := run_threads before (start_threads metrics hb rs q d0) in
  forall (Hfair : Forall (fair k delta) meanwhile) (Hturns : (n + 3 <= length meanwhile)%nat)
    (Hfuel : (n < fuel)%nat) (Htime : Z.of_nat n * (50 + Z.of_nat delta) < timeout)
    (Hroom : (pending r < capacity r)%nat) (Hn : (S (pending r) < k * n)%nat),
  exists s', stop_orderly fuel m timeout false (mkSystem r clock meanwhile) = Some (true, s', true).
Proof using CL RiskRuleLaws0 RingBufferLaws0.
  intros r Hfair Hturns Hfuel Htime Hroom Hn. unfold stop_orderly.
  set (s0 := mkSystem r clock meanwhile).
  assert (sound s0) as Hsound.
  { destruct (threads_ok_run _ d0 before _ _ (threads_ok_start metrics hb rs q d0)) as (done & Hok & _).
    by eexists _, d0, done. }
  set (ready j s := sound s /\ fair_turns k delta s /\ (n + j <= length (turns s))%nat /\
    capacity (threads s) = capacity r /\ (pending (threads s) <= pending r)%nat).
  assert (forall (b : bool) j s, ready (S j) s -> ready j (if b then turn 0 s else s)) as Hstop.
  { intros b j s (H1 & H2 & H3 & H4 & H5). destruct b; [|split_and!; try done; lia].
    destruct (fair_turn k delta 0 s (n + j) H1 H2) as (? & ? & ? & _ & ? & ? & _); [lia|].
    split_and!; try done; [congruence|lia]. }
  assert (ready 3%nat s0) as H3 by (split_and!; done).
  apply (Hstop (health_server m)), (Hstop (event_source m)) in H3.
  cbn [stop_health stop_source System_Process].
  destruct H3 as (Hs & Hf & Ht & Hcap & Hpend). destruct (risk_engine m).
  - destruct (stop_risk_engine_drains k delta n fuel timeout
      (if event_source m then turn 0 (if health_server m then turn 0 s0 else s0)
       else if health_server m then turn 0 s0 else s0)) as [s' ->]; try done; [lia..|].
    cbn [mbind option_bind]. by eexists.
  - cbn [mbind option_bind]. by eexists.
Qed.
End Properties.

(** ** Witness: the default timeout, one step of the engine per poll *)

Definition quiet_turns : list (nat * list thread_step) :=
  replicate 20 (2%nat, [EngineStep 1; DispatcherStep (sample_env 5)]).

Lemma shutdown_drains_witness :
  exists s', stop_orderly 6000 (mkModules true true true true) 5000 false
    (mkSystem (run_threads sample_threads_before
      (start_threads true None sample_rules (mkListQueue 4 []) sample_dispatcher)) 0 quiet_turns) =
    Some (true, s', true).
Proof.
  apply (shutdown_drains true None sample_rules (mkListQueue 4 []) sample_dispatcher
    sample_threads_before 0 quiet_turns 6000 (mkModules true true true true) 5000 1 2 10).
  - apply Forall_replicate. split; [constructor|]. split; apply Nat.leb_le; reflexivity.
  - apply Nat.leb_le. reflexivity.
  - apply Nat.ltb_lt. vm_compute. reflexivity.
  - reflexivity.
  - apply Nat.ltb_lt. vm_compute. reflexivity.
  - apply Nat.ltb_lt. vm_compute. reflexivity.
Defined.
