(* ===== verification/Latency.v ===== *)
(** * How long an alert takes

    The complement of Drain.v for a service that is not being stopped: in how
    many steps of the engine and of the dispatcher the signals that are queued
    are evaluated and their alerts sent, whatever the event source pushes
    meanwhile. *)
From S2P Require Import Prelude Cxx Signal RuleInterface Health PipelineInterface.
From S2P Require Import Dedup Dispatcher Engine Rules Lifecycle System Drain.

Section Latency.
Context {R Q C : Type} `{!IRiskRule R, !RiskRuleLaws R} `{!RingBuffer Q, !RingBufferLaws Q}
  `{!IAlertChannel C, CL : !ChannelLaws C}.
Implicit Types (r : Threads R Q C) (evs : list thread_step).

(** How many signals the engine has taken, and alerts the dispatcher. *)
Definition taken r : nat := length (run_pushed r) - pending r.
Definition popped r : list Alert := (run_popped (sink (run_pipeline r))).*1.
Definition alert_log r : list Alert := sink_log (sink (run_pipeline r)).
Definition queued_alerts r : nat := length (queue (run_dispatcher (sink (run_pipeline r)))).

(** A service nobody is stopping. *)
Record serving r0 d0 r : Prop := {
  sv_ok : exists done, threads_ok r0 d0 r done;
  sv_start : rb_contents (input_queue (run_pipeline r0)) = [];
  sv_pushed : Forall not_pill (run_pushed r);
}.

Lemma serving_done r0 d0 r done :
  serving r0 d0 r -> threads_ok r0 d0 r done -> done ++ rb_contents (input_queue (run_pipeline r)) = run_pushed r.
Proof. intros [_ Hq _] [[Hr _ _ _ _] _ _ _ _ _ _]. by rewrite Hq in Hr. Qed.

Lemma serving_alive r0 d0 r : serving r0 d0 r -> finished (engine (run_pipeline r)) = false.
Proof.
  intros Hs. pose proof Hs as [[done Hok] _ Hpush]. apply not_true_iff_false. intros Hf.
  pose proof (serving_done _ _ _ _ Hs Hok) as Hdone.
  pose proof (tok_finished _ _ _ _ Hok Hf) as Hd. rewrite (tok_drain _ _ _ _ Hok) in Hd.
  apply existsb_exists in Hd as (sig & Hin & Hpill). apply list_elem_of_In in Hin.
  rewrite <- Hdone, Forall_app, list.Forall_forall in Hpush. destruct Hpush as [Hpush _].
  apply Hpush in Hin. unfold not_pill in Hin. congruence.
Qed.

Lemma serving_run r0 d0 evs r : serving r0 d0 r -> pill_free evs -> serving r0 d0 (run_threads evs r).
Proof using CL RiskRuleLaws0 RingBufferLaws0.
  intros [[done Hok] Hq Hpush] Hfree. destruct (threads_ok_run r0 d0 evs r done Hok) as (done' & Hok' & _).
  split; [by exists done'|done|by apply run_threads_pill_free].
Qed.

Lemma pill_free_cons ev evs : pill_free (ev :: evs) -> pill_free [ev] /\ pill_free evs.
Proof. apply (pushes_in_app_inv not_pill [ev] evs). Qed.

(** ** One step *)

Lemma taken_step r0 d0 r ev :
  serving r0 d0 r ->
  (Nat.min (length (run_pushed r)) (taken r + engine_steps [ev]) <= taken (thread_step_run ev r))%nat /\
  run_pushed r `prefix_of` run_pushed (thread_step_run ev r).
Proof using RiskRuleLaws0 RingBufferLaws0.
  intros Hs. pose proof (serving_alive _ _ _ Hs) as Hf. pose proof Hs as [[done Hok] _ _].
  pose proof (serving_done _ _ _ _ Hs Hok) as Hdone. destruct Hok as [[_ Hen _ _ _] _ Hrun _ _ _ _].
  destruct r as [p pushed]. unfold taken, pending in *. cbn [run_pipeline run_pushed] in *.
  destruct ev as [sig|now|e]; cbn [thread_step_run].
  - change (engine_steps [SourcePush sig]) with 0%nat. cbn [Engine.step run_pipeline run_pushed].
    pose proof (rb_try_push_spec sig (input_queue p)) as Hpush.
    destruct (rb_try_push _ _) as [q|]; cbn [run_pipeline run_pushed input_queue]; [|split; [lia|done]].
    destruct Hpush as [-> _]. split; [rewrite !length_app; cbn [length]; lia|by eexists].
  - change (engine_steps [EngineStep now]) with 1%nat.
    cbn [Engine.step run_pipeline run_pushed]. rewrite Hf. cbn [run_pipeline run_pushed]. split; [|done].
    assert (length pushed = (length done + length (rb_contents (input_queue p)))%nat) as Hlen
      by (rewrite <- Hdone; apply length_app).
    unfold loop_step. rewrite Hrun. cbn [negb andb Engine.stop_requested].
    destruct (rb_contents (input_queue p)) as [|s l] eqn:Hq; [|].
    { rewrite run_iteration_none by done.
      destruct (drain_mode p); cbn [with_engine input_queue]; rewrite Hq; cbn [length] in *; lia. }
    destruct (run_iteration_some (Engine.mkEnv now false) p s l _ Hq Hen eq_refl) as (p' & -> & -> & _).
    cbn [length] in *. lia.
  - change (engine_steps [DispatcherStep e]) with 0%nat. cbn. split; [lia|done].
Qed.

Lemma popped_step r0 d0 r ev :
  serving r0 d0 r ->
  (Nat.min (length (alert_log r)) (length (popped r) + length (dispatcher_envs [ev])) <=
     length (popped (thread_step_run ev r)))%nat /\
  alert_log r `prefix_of` alert_log (thread_step_run ev r).
Proof using CL.
  intros [[done Hok] _ _]. destruct Hok as [_ _ _ _ _ _ Halive].
  destruct r as [p pushed]. unfold alert_log, popped in *. cbn [run_pipeline run_pushed] in *.
  destruct ev as [sig|now|e]; cbn [thread_step_run dispatcher_envs omap list_omap length].
  - cbn [Engine.step]. destruct (rb_try_push _ _); cbn [run_pipeline sink]; (split; [lia|done]).
  - cbn [Engine.step run_pipeline]. destruct (finished _); cbn [run_pipeline]; [split; [lia|done]|].
    destruct (loop_step_sink (Engine.mkEnv now false) p) as [l ->].
    rewrite exec_dispatched. generalize (sink p). intros d.
    induction l as [|a l IH] using rev_ind; [cbn; split; [lia|done]|].
    rewrite fmap_app, dispatcher_exec_app. destruct IH as [IH1 IH2].
    split; [exact IH1|]. etrans; [exact IH2|]. exists [a]. cbn. by rewrite <- !app_assoc.
  - unfold on_sink. cbn [run_pipeline sink]. split; [|by rewrite iteration_sink_log].
    destruct (sink p) as [d f pop]. cbn [run_finished run_popped run_dispatcher] in *. subst f.
    cbn [Dispatcher.step run_dispatcher run_finished run_popped sink_log dispatcher_sink].
    unfold Dispatcher.run_iteration. cbn [queue]. rewrite length_app.
    destruct (queue d) as [|a rest]; [destruct (_ || _); cbn; rewrite ?app_nil_r; lia|].
    cbn. rewrite fmap_app, length_app. cbn. lia.
Qed.

(** ** Many steps *)

Lemma taken_run r0 d0 evs : forall r n, serving r0 d0 r -> pill_free evs -> (n <= length (run_pushed r))%nat ->
  (Nat.min n (taken r + engine_steps evs) <= taken (run_threads evs r))%nat /\
  run_pushed r `prefix_of` run_pushed (run_threads evs r).
Proof using CL RiskRuleLaws0 RingBufferLaws0.
  induction evs as [|ev evs IH]; intros r n Hs Hfree Hn; [unfold engine_steps; cbn; split; [lia|done]|].
  apply pill_free_cons in Hfree as [Hev Hevs]. rewrite run_threads_cons.
  destruct (taken_step r0 d0 r ev Hs) as [Hstep Hpre].
  pose proof (serving_run r0 d0 [ev] r Hs Hev) as Hs'. pose proof (prefix_length _ _ Hpre) as Hlen.
  destruct (IH (thread_step_run ev r) n Hs' Hevs) as [Hrun Hpre']; [lia|].
  split; [|by etrans]. change (ev :: evs) with ([ev] ++ evs) in *.
  assert (engine_steps ([ev] ++ evs) = engine_steps [ev] + engine_steps evs)%nat as ->
    by (unfold engine_steps; by rewrite omap_app, length_app).
  lia.
Qed.

Lemma popped_run r0 d0 evs : forall r n, serving r0 d0 r -> pill_free evs -> (n <= length (alert_log r))%nat ->
  (Nat.min n (length (popped r) + length (dispatcher_envs evs)) <= length (popped (run_threads evs r)))%nat /\
  alert_log r `prefix_of` alert_log (run_threads evs r).
Proof using CL RiskRuleLaws0 RingBufferLaws0.
  induction evs as [|ev evs IH]; intros r n Hs Hfree Hn; [cbn; split; [lia|done]|].
  apply pill_free_cons in Hfree as [Hev Hevs]. rewrite run_threads_cons.
  destruct (popped_step r0 d0 r ev Hs) as [Hstep Hpre].
  pose proof (serving_run r0 d0 [ev] r Hs Hev) as Hs'. pose proof (prefix_length _ _ Hpre) as Hlen.
  destruct (IH (thread_step_run ev r) n Hs' Hevs) as [Hrun Hpre']; [lia|].
  split; [|by etrans]. change (ev :: evs) with ([ev] ++ evs).
  assert (length (dispatcher_envs ([ev] ++ evs)) =
    length (dispatcher_envs [ev]) + length (dispatcher_envs evs))%nat as ->
    by (unfold dispatcher_envs; by rewrite omap_app, length_app).
  lia.
Qed.

Lemma spec_run_prefix (rs : list R) l l' :
  l `prefix_of` l' -> (spec_run rs l).2 `prefix_of` (spec_run rs l').2.
Proof.
  intros [k ->]. induction k as [|s k IH] using rev_ind; [by rewrite app_nil_r|].
  rewrite app_assoc, spec_run_snoc. cbn [snd]. etrans; [exact IH|]. by eexists.
Qed.

(** Two prefixes of one list, by length. *)
Lemma prefix_by_length {A : Type} (l1 l2 l : list A) :
  l1 `prefix_of` l -> l2 `prefix_of` l -> (length l1 <= length l2)%nat -> l1 `prefix_of` l2.
Proof.
  intros H1 H2 Hlen. destruct (prefix_weak_total _ _ _ H1 H2) as [?|H]; [done|].
  destruct H as [k ->]. rewrite length_app in Hlen. destruct k; [by rewrite app_nil_r|cbn in Hlen; lia].
Qed.
End Latency.

(** * Properties *)

Section Properties.
Context {R Q C : Type} `{!IRiskRule R, !RiskRuleLaws R} `{!RingBuffer Q, !RingBufferLaws Q}
  `{!IAlertChannel C, CL : !ChannelLaws C}.

(** C15: while nobody stops the service, and whatever the threads have done and the
    event source pushes meanwhile: once the engine has taken as many steps as there were signals in
    the ring, every signal accepted before has been evaluated, and once the dispatcher has then
    taken as many as there were alerts in its queue, every alert these signals cause has been taken
    off the queue, in order, and sent to every channel unless the deduplicator suppressed it. *)
Theorem alert_latency (metrics : bool) (hb : option Heartbeat) (rs : list R) (q : Q)
    (d0 : AlertDispatcher C) (before evs1 evs2 : list thread_step)
    (Hempty : rb_contents q = [] /\ queue d0 = []) (Hfree : pill_free (before ++ evs1 ++ evs2)) :
  let r := run_threads before (start_threads metrics hb rs q d0) in
  let r1 := run_threads evs1 r in
  let d2 := sink (run_pipeline (run_threads evs2 r1)) in
  forall (Hengine : (pending r <= engine_steps evs1)%nat)
    (Hdispatcher : (queued_alerts r1 <= length (dispatcher_envs evs2))%nat),
  (spec_run rs (run_pushed r)).2 `prefix_of` (run_popped d2).*1 /\
  channels (run_dispatcher d2) =
    (fun c => receive c (passed (deduplicator d0) (run_popped d2))) <$> channels d0.
Proof using CL RiskRuleLaws0 RingBufferLaws0.
  intros r r1 d2 Hengine Hdispatcher. destruct Hempty as [Hq Hd].
  apply pushes_in_app_inv in Hfree as [Hfree [Hfree1 Hfree2]%pushes_in_app_inv].
  set (r0 := start_threads metrics hb rs q d0) in *.
  assert (serving r0 d0 r0) as Hs0.
  { split; [exists []; apply threads_ok_start|exact Hq|constructor]. }
  pose proof (serving_run r0 d0 before r0 Hs0 Hfree) as Hs. fold r in Hs.
  pose proof (serving_run r0 d0 evs1 r Hs Hfree1) as Hs1. fold r1 in Hs1.
  pose proof (serving_run r0 d0 evs2 r1 Hs1 Hfree2) as Hs2.
  destruct (taken_run r0 d0 evs1 r (length (run_pushed r)) Hs Hfree1) as [Htaken Hpushed]; [lia|].
  destruct (popped_run r0 d0 evs2 r1 (length (alert_log r1)) Hs1 Hfree2) as [Hpopped Hlog]; [lia|].
  fold r1 in Htaken, Hpushed. split.
  - pose proof Hs1 as [[done1 Hok1] _ _]. pose proof (serving_done _ _ _ _ Hs1 Hok1) as Hdone1.
    assert (run_pushed r `prefix_of` done1) as Hpre.
    { eapply prefix_by_length; [exact Hpushed|by eexists|].
      assert (length (run_pushed r1) = (length done1 + pending r1)%nat) as Hlen
        by (rewrite <- Hdone1; apply length_app).
      unfold taken in Htaken. lia. }
    assert (alert_log r1 = (spec_run rs done1).2) as Halerts.
    { unfold alert_log. rewrite (ok_sink _ _ _ (tok_engine _ _ _ _ Hok1)). cbn. by rewrite Hd. }
    etrans; [by apply spec_run_prefix|]. rewrite <- Halerts.
    eapply prefix_by_length; [exact Hlog|by eexists|].
    assert (length (alert_log r1) = (length (popped r1) + queued_alerts r1)%nat) as Hlen
      by apply length_app.
    unfold popped, d2 in *. lia.
  - destruct Hs2 as [[done2 Hok2] _ _]. destruct (tok_dispatcher _ _ _ _ Hok2) as [devs Hdevs].
    unfold d2. rewrite Hdevs. apply (ok_channels _ _ _ (dispatcher_run_ok_exec d0 _)).
Qed.
End Properties.

(** ** Witness: two transfers queued, a third comes while they are served *)

Definition latency_before : list thread_step :=
  [SourcePush (transfer_signal 500); SourcePush (transfer_signal 700)].
Definition latency_engine : list thread_step :=
  [EngineStep 1; SourcePush (transfer_signal 900); EngineStep 2].
Definition latency_dispatcher : list thread_step :=
  DispatcherStep <$> [sample_env 10; sample_env 200].

Lemma alert_latency_witness :
  let r0 := start_threads true None sample_rules (mkListQueue 4 []) sample_dispatcher in
  length (spec_run sample_rules (run_pushed (run_threads latency_before r0))).2 = 2%nat /\
  (spec_run sample_rules (run_pushed (run_threads latency_before r0))).2 `prefix_of`
    (run_popped (sink (run_pipeline (run_threads latency_dispatcher
       (run_threads latency_engine (run_threads latency_before r0)))))).*1.
Proof.
  split; [vm_compute; reflexivity|].
  apply (alert_latency true None sample_rules (mkListQueue 4 []) sample_dispatcher
    latency_before latency_engine latency_dispatcher).
  - split; reflexivity.
  - repeat constructor.
  - apply Nat.leb_le. vm_compute. reflexivity.
  - apply Nat.leb_le. vm_compute. reflexivity.
Defined.
