(* ===== verification/ServiceMachine.v ===== *)
(** * The threads of the service as a transition system

    [main] and its signal thread ([src/main.cpp]), [App::run], [request_stop],
    [start_threads_], [stop_orderly_], [join_threads_] and the destructor
    ([src/app/app.cpp]), and the loops of the three worker threads, one atomic
    action at a time: each load or store of a flag, each push and pop, each
    creation and join is a step of its own.  What a worker does with a signal or
    an alert is in Engine.v and Dispatcher.v; here only the number of alerts
    matters.  The health server (AppLifetimes.v has it) and exceptions that are
    not [std::exception]s are left out. *)
From stdpp Require Import relations.
From S2P Require Import Prelude.

(** ** The program counters *)

(** The main thread, from [start_threads_] to the end of [main]. *)
Inductive MainPc :=
  | StartDispatcher | StartEngine | StartSource
  | WriteReadiness
  | TestStop        (* the predicate of [run_cv_.wait], under the lock *)
  | Block           (* it was false: about to wait *)
  | Waiting
  | RemoveReadiness
  | ClaimStop       (* [stopped_.compare_exchange_strong] *)
  | StopSource | PushPill | AwaitEngine | StopEngine | StopDispatcher
  | JoinSource | JoinEngine | JoinDispatcher
  | Return          (* [run] returns; the signal thread is asked to stop *)
  | JoinWaiter
  | Destroy         (* [~App] *)
  | Exited.

(** The signal thread: waiting for a signal; in [request_stop], before the store
    and before the notification. *)
Inductive WaiterPc := Polling | Store | Notify | WaiterDone.

Inductive SourcePc := SAbsent | SCreated | SLoop | SPushing (logs : nat) | SEnded.

(** [ETest] is the loop's test, [EBody] its body. *)
Inductive EnginePc := EAbsent | ECreated | ETest | EBody | EEnded.

Inductive DispatcherPc := DAbsent | DCreated | DLoop | DEnded.

#[export] Instance MainPc_eq_dec : EqDecision MainPc.
Proof. solve_decision. Defined.

(** The readiness file: whether it is there, whether it was there before the
    process started (an earlier one was killed), and whether [std::remove] has
    failed on it. *)
Record ReadinessFile := mkReadinessFile {
  present : bool;
  left_over : bool;
  unremoved : bool;
}.

(** [ok] says whether the file could be opened. *)
Definition write_readiness_file (ok : bool) (f : ReadinessFile) : ReadinessFile :=
  if ok then mkReadinessFile true (left_over f) (unremoved f) else f.

(** [ok] says whether [std::remove] returned 0; otherwise there is a warning and
    the file stays as it is. *)
Definition remove_readiness_file (ok : bool) (f : ReadinessFile) : ReadinessFile :=
  if ok then mkReadinessFile false (left_over f) (unremoved f)
  else mkReadinessFile (present f) (left_over f) true.

(** A slot of [ring] is [true] for a poison pill.  [drain] is the engine's local
    variable; [alerts] the length of the dispatcher's queue; [timed_out] whether
    a loop of [stop_orderly_] reached its deadline. *)
Record Machine := mkMachine {
  main : MainPc;
  waiter : WaiterPc;
  source : SourcePc;
  engine : EnginePc;
  dispatcher : DispatcherPc;
  stop_requested : bool;
  stopped : bool;
  readiness : ReadinessFile;
  token : bool;
  source_running : bool;
  engine_running : bool;
  dispatcher_running : bool;
  ring : list bool;
  drain : bool;
  alerts : nat;
  exit_code : Z;
  timed_out : bool;
}.

Definition set_main (x : MainPc) (s : Machine) : Machine :=
  mkMachine x (waiter s) (source s)
    (engine s) (dispatcher s) (stop_requested s) (stopped s) (readiness s) (token s)
    (source_running s) (engine_running s) (dispatcher_running s) (ring s) (drain s) (alerts s)
    (exit_code s) (timed_out s).
Definition set_waiter (x : WaiterPc) (s : Machine) : Machine :=
  mkMachine (main s) x (source s)
    (engine s) (dispatcher s) (stop_requested s) (stopped s) (readiness s) (token s)
    (source_running s) (engine_running s) (dispatcher_running s) (ring s) (drain s) (alerts s)
    (exit_code s) (timed_out s).
Definition set_source (x : SourcePc) (s : Machine) : Machine :=
  mkMachine (main s) (waiter s) x
    (engine s) (dispatcher s) (stop_requested s) (stopped s) (readiness s) (token s)
    (source_running s) (engine_running s) (dispatcher_running s) (ring s) (drain s) (alerts s)
    (exit_code s) (timed_out s).
Definition set_engine (x : EnginePc) (s : Machine) : Machine :=
  mkMachine (main s) (waiter s)
    (source s) x (dispatcher s) (stop_requested s) (stopped s) (readiness s) (token s)
    (source_running s) (engine_running s) (dispatcher_running s) (ring s) (drain s) (alerts s)
    (exit_code s) (timed_out s).
Definition set_dispatcher (x : DispatcherPc) (s : Machine) : Machine :=
  mkMachine (main s)
    (waiter s) (source s) (engine s) x (stop_requested s) (stopped s) (readiness s) (token s)
    (source_running s) (engine_running s) (dispatcher_running s) (ring s) (drain s) (alerts s)
    (exit_code s) (timed_out s).
Definition set_stop_requested (x : bool) (s : Machine) : Machine :=
  mkMachine (main s) (waiter
    s) (source s) (engine s) (dispatcher s) x (stopped s) (readiness s) (token s) (source_running
    s) (engine_running s) (dispatcher_running s) (ring s) (drain s) (alerts s) (exit_code s)
    (timed_out s).
Definition set_stopped (x : bool) (s : Machine) : Machine :=
  mkMachine (main s) (waiter s)
    (source s) (engine s) (dispatcher s) (stop_requested s) x (readiness s) (token s)
    (source_running s) (engine_running s) (dispatcher_running s) (ring s) (drain s) (alerts s)
    (exit_code s) (timed_out s).
Definition set_readiness (x : ReadinessFile) (s : Machine) : Machine :=
  mkMachine (main s) (waiter s)
    (source s) (engine s) (dispatcher s) (stop_requested s) (stopped s) x (token s)
    (source_running s) (engine_running s) (dispatcher_running s) (ring s) (drain s) (alerts s)
    (exit_code s) (timed_out s).
Definition set_token (x : bool) (s : Machine) : Machine :=
  mkMachine (main s) (waiter s) (source
    s) (engine s) (dispatcher s) (stop_requested s) (stopped s) (readiness s) x (source_running s)
    (engine_running s) (dispatcher_running s) (ring s) (drain s) (alerts s) (exit_code s)
    (timed_out s).
Definition set_source_running (x : bool) (s : Machine) : Machine :=
  mkMachine (main s) (waiter
    s) (source s) (engine s) (dispatcher s) (stop_requested s) (stopped s) (readiness s) (token s)
    x (engine_running s) (dispatcher_running s) (ring s) (drain s) (alerts s) (exit_code s)
    (timed_out s).
Definition set_engine_running (x : bool) (s : Machine) : Machine :=
  mkMachine (main s) (waiter
    s) (source s) (engine s) (dispatcher s) (stop_requested s) (stopped s) (readiness s) (token s)
    (source_running s) x (dispatcher_running s) (ring s) (drain s) (alerts s) (exit_code s)
    (timed_out s).
Definition set_dispatcher_running (x : bool) (s : Machine) : Machine :=
  mkMachine (main s)
    (waiter s) (source s) (engine s) (dispatcher s) (stop_requested s) (stopped s) (readiness s)
    (token s) (source_running s) (engine_running s) x (ring s) (drain s) (alerts s) (exit_code s)
    (timed_out s).
Definition set_ring (x : list bool) (s : Machine) : Machine :=
  mkMachine (main s) (waiter s)
    (source s) (engine s) (dispatcher s) (stop_requested s) (stopped s) (readiness s) (token s)
    (source_running s) (engine_running s) (dispatcher_running s) x (drain s) (alerts s) (exit_code
    s) (timed_out s).
Definition set_drain (x : bool) (s : Machine) : Machine :=
  mkMachine (main s) (waiter s) (source
    s) (engine s) (dispatcher s) (stop_requested s) (stopped s) (readiness s) (token s)
    (source_running s) (engine_running s) (dispatcher_running s) (ring s) x (alerts s) (exit_code
    s) (timed_out s).
Definition set_alerts (x : nat) (s : Machine) : Machine :=
  mkMachine (main s) (waiter s) (source
    s) (engine s) (dispatcher s) (stop_requested s) (stopped s) (readiness s) (token s)
    (source_running s) (engine_running s) (dispatcher_running s) (ring s) (drain s) x (exit_code
    s) (timed_out s).
Definition set_exit_code (x : Z) (s : Machine) : Machine :=
  mkMachine (main s) (waiter s)
    (source s) (engine s) (dispatcher s) (stop_requested s) (stopped s) (readiness s) (token s)
    (source_running s) (engine_running s) (dispatcher_running s) (ring s) (drain s) (alerts s) x
    (timed_out s).
Definition set_timed_out (x : bool) (s : Machine) : Machine :=
  mkMachine (main s) (waiter s)
    (source s) (engine s) (dispatcher s) (stop_requested s) (stopped s) (readiness s) (token s)
    (source_running s) (engine_running s) (dispatcher_running s) (ring s) (drain s) (alerts s)
    (exit_code s) x.

(** Before [start_threads_], with or without a file of an earlier process. *)
Definition starting (left_over : bool) : Machine :=
  mkMachine StartDispatcher Polling SAbsent EAbsent DAbsent false false
    (mkReadinessFile left_over left_over false) false true true false [] false 0 0 false.

Definition initial : Machine := starting false.

(** ** The actions *)

Inductive Action :=
  | MainStep
  | MainFails           (* a thread cannot be created *)
  | MainFileFails       (* the readiness file cannot be written, or removed *)
  | MainTimeout         (* a deadline of [stop_orderly_] *)
  | Spurious            (* a wakeup nobody asked for *)
  | WaiterSignal        (* SIGINT, SIGTERM or an unexpected error *)
  | WaiterToken
  | WaiterStore
  | WaiterNotify
  | SourceEnter
  | SourceFetch (logs : nat)
  | SourcePush
  | SourceDone
  | SourceExit
  | EngineEnter
  | EngineTest
  | EngineBody (raised : nat)
  | DispatcherEnter
  | DispatcherDeliver
  | DispatcherExit.

Section Actions.
Variable capacity : nat.

Definition has_room (s : Machine) : bool := (length (ring s) <? capacity)%nat.

(** What the main thread does next; [None] while it has to wait. *)
Definition main_step (s : Machine) : option Machine :=
  match main s with
  | StartDispatcher => Some (set_main StartEngine (set_dispatcher DCreated s))
  | StartEngine => Some (set_main StartSource (set_engine ECreated s))
  | StartSource => Some (set_main WriteReadiness (set_source SCreated s))
  | WriteReadiness => Some (set_main TestStop (set_readiness (write_readiness_file true (readiness s)) s))
  | TestStop => Some (set_main (if stop_requested s then RemoveReadiness else Block) s)
  | Block => Some (set_main Waiting s)
  | Waiting => None
  | RemoveReadiness =>
      Some (set_main ClaimStop (set_readiness (remove_readiness_file true (readiness s)) s))
  | ClaimStop =>
      if stopped s then Some (set_main JoinSource s)
      else Some (set_main StopSource (set_stopped true s))
  | StopSource => Some (set_main PushPill (set_source_running false s))
  | PushPill =>
      if has_room s then Some (set_main AwaitEngine (set_ring (ring s ++ [true]) s)) else None
  | AwaitEngine => match engine s with EEnded => Some (set_main StopEngine s) | _ => None end
  | StopEngine => Some (set_main StopDispatcher (set_engine_running false s))
  | StopDispatcher => Some (set_main JoinSource (set_dispatcher_running false s))
  | JoinSource =>
      match source s with SAbsent | SEnded => Some (set_main JoinEngine s) | _ => None end
  | JoinEngine =>
      match engine s with EAbsent | EEnded => Some (set_main JoinDispatcher s) | _ => None end
  | JoinDispatcher =>
      match dispatcher s with DAbsent | DEnded => Some (set_main Return s) | _ => None end
  | Return => Some (set_main JoinWaiter (set_token true s))
  | JoinWaiter => match waiter s with WaiterDone => Some (set_main Destroy s) | _ => None end
  | Destroy => if stopped s then Some (set_main Exited s) else Some (set_main ClaimStop s)
  | Exited => None
  end.

Definition main_fails (s : Machine) : option Machine :=
  match main s with
  | StartDispatcher | StartEngine | StartSource => Some (set_main ClaimStop (set_exit_code 3 s))
  | _ => None
  end.

(** Neither failure is an exception: the main thread goes on. *)
Definition main_file_fails (s : Machine) : option Machine :=
  match main s with
  | WriteReadiness =>
      Some (set_main TestStop (set_readiness (write_readiness_file false (readiness s)) s))
  | RemoveReadiness =>
      Some (set_main ClaimStop (set_readiness (remove_readiness_file false (readiness s)) s))
  | _ => None
  end.

Definition main_timeout (s : Machine) : option Machine :=
  match main s with
  | PushPill | AwaitEngine => Some (set_main StopEngine (set_timed_out true s))
  | _ => None
  end.

(** A notification, or a spurious wakeup, of the condition variable. *)
Definition wake (s : Machine) : Machine :=
  match main s with Waiting => set_main TestStop s | _ => s end.

Definition waiter_act (a : Action) (s : Machine) : option Machine :=
  match a, waiter s with
  | WaiterSignal, Polling => Some (set_waiter Store s)
  | WaiterToken, Polling => if token s then Some (set_waiter WaiterDone s) else None
  | WaiterStore, Store => Some (set_waiter Notify (set_stop_requested true s))
  | WaiterNotify, Notify => Some (set_waiter WaiterDone (wake s))
  | _, _ => None
  end.

(** One turn of the signal thread's loop: the stop token, then what
    [sigtimedwait] returned, with [errno] when it failed. *)
Inductive Polled := Signalled (sig : Z) | PollFailed (errno : Z).

Definition SIGINT : Z := 2.
Definition SIGTERM : Z := 15.
Definition EINTR : Z := 4.
Definition EAGAIN : Z := 11.

Definition waiter_poll (token : bool) (p : Polled) : WaiterPc :=
  if token then WaiterDone
  else
    match p with
    | Signalled sig => if (sig =? SIGINT) || (sig =? SIGTERM) then Store else Polling
    | PollFailed errno => if (errno =? EAGAIN) || (errno =? EINTR) then Polling else Store
    end.

(** [EventSource::run]: a poll that pushes some number of logs, then the test. *)
Definition source_act (a : Action) (s : Machine) : option Machine :=
  match a, source s with
  | SourceEnter, SCreated => Some (set_source SLoop s)
  | SourceFetch logs, SLoop =>
      if source_running s then Some (set_source (SPushing logs) s) else None
  | SourcePush, SPushing (S logs) =>
      if has_room s then Some (set_source (SPushing logs) (set_ring (ring s ++ [false]) s)) else None
  | SourceDone, SPushing 0 => Some (set_source SLoop s)
  | SourceExit, SLoop => if source_running s then None else Some (set_source SEnded s)
  | _, _ => None
  end.

(** [RiskEngine::run]; [raised] is how many alerts the rules raise. *)
Definition engine_act (a : Action) (s : Machine) : option Machine :=
  match a, engine s with
  | EngineEnter, ECreated => Some (set_engine ETest s)
  | EngineTest, ETest => Some (set_engine (if engine_running s then EBody else EEnded) s)
  | EngineBody raised, EBody =>
      match ring s with
      | true :: ring => Some (set_engine ETest (set_ring ring (set_drain true s)))
      | false :: ring => Some (set_engine ETest (set_ring ring (set_alerts (alerts s + raised) s)))
      | [] => Some (set_engine (if drain s then EEnded else ETest) s)
      end
  | _, _ => None
  end.

(** [AlertDispatcher::run], which sets its flag as it begins. *)
Definition dispatcher_act (a : Action) (s : Machine) : option Machine :=
  match a, dispatcher s with
  | DispatcherEnter, DCreated => Some (set_dispatcher DLoop (set_dispatcher_running true s))
  | DispatcherDeliver, DLoop =>
      match alerts s with S n => Some (set_alerts n s) | O => None end
  | DispatcherExit, DLoop =>
      match alerts s with
      | O => if dispatcher_running s then None else Some (set_dispatcher DEnded s)
      | S _ => None
      end
  | _, _ => None
  end.

Definition act (a : Action) (s : Machine) : option Machine :=
  match a with
  | MainStep => main_step s
  | MainFails => main_fails s
  | MainFileFails => main_file_fails s
  | MainTimeout => main_timeout s
  | Spurious => match main s with Waiting => Some (wake s) | _ => None end
  | WaiterSignal | WaiterToken | WaiterStore | WaiterNotify => waiter_act a s
  | SourceEnter | SourceFetch _ | SourcePush | SourceDone | SourceExit => source_act a s
  | EngineEnter | EngineTest | EngineBody _ => engine_act a s
  | DispatcherEnter | DispatcherDeliver | DispatcherExit => dispatcher_act a s
  end.

Fixpoint acts (l : list Action) (s : Machine) : option Machine :=
  match l with
  | [] => Some s
  | a :: l => s ← act a s; acts l s
  end.

(** ** Runs *)

Definition any_step (s s' : Machine) : Prop := exists a, act a s = Some s'.

(** The system may wake a waiting thread for no reason, but nothing may depend
    on it. *)
Definition step (s s' : Machine) : Prop := exists a, a <> Spurious /\ act a s = Some s'.

Definition reachable (s : Machine) : Prop := exists left_over, rtc any_step (starting left_over) s.

(** The service can still come to its end. *)
Definition can_exit (s : Machine) : Prop := exists s', rtc step s s' /\ main s' = Exited.
End Actions.

(** * Facts *)

(** The place of a program counter in the program. *)
Definition rank (pc : MainPc) : nat :=
  match pc with
  | StartDispatcher => 0 | StartEngine => 1 | StartSource => 2 | WriteReadiness => 3
  | TestStop => 4 | Block => 5 | Waiting => 6 | RemoveReadiness => 7 | ClaimStop => 8
  | StopSource => 9 | PushPill => 10 | AwaitEngine => 11 | StopEngine => 12
  | StopDispatcher => 13 | JoinSource => 14 | JoinEngine => 15 | JoinDispatcher => 16
  | Return => 17 | JoinWaiter => 18 | Destroy => 19 | Exited => 20
  end.

Definition source_gone (s : Machine) : Prop := source s = SAbsent \/ source s = SEnded.
Definition engine_gone (s : Machine) : Prop := engine s = EAbsent \/ engine s = EEnded.
Definition dispatcher_gone (s : Machine) : Prop := dispatcher s = DAbsent \/ dispatcher s = DEnded.

Definition from (n : nat) (s : Machine) : bool := (n <=? rank (main s))%nat.
Definition upto (n : nat) (s : Machine) : bool := (rank (main s) <=? n)%nat.

(** The flags, by the point the main thread has reached. *)
Record flags_inv (s : Machine) : Prop := {
  fl_stopped : stopped s = from 9 s;
  fl_source_running : source_running s = upto 9 s;
  fl_engine_running : engine_running s = upto 12 s;
  fl_token : token s = from 18 s;
}.

(** Why the readiness file is there. *)
Record readiness_inv (s : Machine) : Prop := {
  rd_before : upto 3 s = true ->
    present (readiness s) = left_over (readiness s) /\ unremoved (readiness s) = false;
  rd_unremoved : unremoved (readiness s) = true -> from 8 s = true;
  rd_after : from 8 s = true -> present (readiness s) = true ->
    unremoved (readiness s) = true \/ exit_code s = 3 /\ left_over (readiness s) = true;
}.

(** Which threads have been created. *)
Record created_inv (s : Machine) : Prop := {
  cr_dispatcher : upto 0 s = true -> dispatcher s = DAbsent;
  cr_engine : upto 1 s = true \/ dispatcher s = DAbsent -> engine s = EAbsent;
  cr_source : upto 2 s = true \/ engine s = EAbsent -> source s = SAbsent;
  cr_code : exit_code s = 0 \/ exit_code s = 3 /\ from 8 s = true;
  cr_all : exit_code s = 0 ->
    (from 1 s = true -> dispatcher s <> DAbsent) /\
    (from 2 s = true -> engine s <> EAbsent) /\
    (from 3 s = true -> source s <> SAbsent);
}.

(** Which threads have ended when the main thread has joined them. *)
Record joined_inv (s : Machine) : Prop := {
  jo_source : from 15 s = true -> source_gone s;
  jo_engine : from 16 s = true -> engine_gone s;
  jo_dispatcher : from 17 s = true -> dispatcher_gone s;
  jo_waiter : from 19 s = true -> waiter s = WaiterDone;
}.

(** What the signal thread has done. *)
Record waiter_inv (s : Machine) : Prop := {
  wa_notify : waiter s = Notify -> stop_requested s = true;
  wa_done : waiter s = WaiterDone -> stop_requested s = true \/ token s = true;
  wa_requested : stop_requested s = true -> waiter s = Notify \/ waiter s = WaiterDone;
  wa_stop : exit_code s = 0 -> from 7 s = true -> stop_requested s = true;
}.

(** When the workers end. *)
Record worker_inv (s : Machine) : Prop := {
  wo_drain : drain s = true \/ true ∈ ring s -> from 11 s = true;
  wo_engine : engine s = EEnded -> engine_running s = false \/ drain s = true;
  wo_source : source s = SEnded -> source_running s = false;
  wo_fresh : dispatcher s = DAbsent \/ dispatcher s = DCreated -> dispatcher_running s = false;
  wo_loop : dispatcher s = DLoop -> upto 13 s = true -> dispatcher_running s = true;
  wo_dispatcher : dispatcher s = DEnded -> from 14 s = true;
}.

(** A shutdown that has met no deadline. *)
Record graceful_inv (s : Machine) : Prop := {
  gr_timed_out : timed_out s = true -> from 12 s = true;
  gr_engine : timed_out s = false -> from 12 s = true -> engine s = EEnded;
  gr_delivered : timed_out s = false -> dispatcher s = DEnded -> alerts s = 0%nat;
}.

Record machine_inv (s : Machine) : Prop := {
  mi_flags : flags_inv s;
  mi_readiness : readiness_inv s;
  mi_created : created_inv s;
  mi_joined : joined_inv s;
  mi_waiter : waiter_inv s;
  mi_worker : worker_inv s;
  mi_graceful : graceful_inv s;
}.

Lemma starting_inv left_over : machine_inv (starting left_over).
Proof. split; split; cbn; try done; try set_solver; naive_solver. Qed.

Lemma initial_reachable capacity : reachable capacity initial.
Proof. exists false. apply rtc_refl. Qed.

(** Case analysis of an action that has been taken: the new state is written out
    in every case. *)
Ltac taken H :=
  match type of H with act _ ?a ?s = _ => destruct a; destruct s as [m w so e d sr st [pr lo un] tk sf ef df rg dr al ec tm] end;
  cbn in H; unfold main_step, main_fails, main_file_fails, main_timeout, wake, waiter_act, source_act, engine_act, dispatcher_act, has_room in H; cbn in H;
  repeat (case_match; simplify_eq/=; try done).

Lemma flags_step capacity a s s' : flags_inv s -> act capacity a s = Some s' -> flags_inv s'.
Proof. intros [] H. taken H. all: by split. Qed.

Lemma readiness_step capacity a s s' : readiness_inv s -> act capacity a s = Some s' -> readiness_inv s'.
Proof. intros [] H. taken H. all: split; cbn in *; try done; intuition congruence. Qed.

Lemma created_step capacity a s s' : created_inv s -> act capacity a s = Some s' -> created_inv s'.
Proof. intros [] H. taken H. all: split; cbn in *; try done; intuition congruence. Qed.

Lemma joined_step capacity a s s' : joined_inv s -> act capacity a s = Some s' -> joined_inv s'.
Proof.
  intros [] H. unfold source_gone, engine_gone, dispatcher_gone in *. taken H.
  all: split; unfold source_gone, engine_gone, dispatcher_gone; cbn in *; try done; intuition congruence.
Qed.

Lemma waiter_step capacity a s s' :
  flags_inv s -> created_inv s -> waiter_inv s -> act capacity a s = Some s' -> waiter_inv s'.
Proof.
  intros [_ _ _ Htoken] [_ _ _ Hcode _] [] H.
  taken H. all: split; cbn in *; try done; intuition congruence.
Qed.

Lemma from_or_upto n s : upto n s = true \/ from (S n) s = true.
Proof. unfold from, upto. destruct (Nat.leb_spec (S n) (rank (main s))), (Nat.leb_spec (rank (main s)) n); first [lia | auto]. Qed.

Lemma worker_step capacity a s s' :
  flags_inv s -> created_inv s -> worker_inv s -> act capacity a s = Some s' -> worker_inv s'.
Proof.
  intros [Hstopped Hsf Hef _] [Hd _ _ _ _] [] H. pose proof (from_or_upto 13 s) as H13.
  taken H.
  all: split; cbn in *; rewrite ?elem_of_app, ?elem_of_cons, ?elem_of_nil in *; try done; intuition congruence.
Qed.

Lemma from_le m n s : (m <=? n)%nat = true -> from n s = true -> from m s = true.
Proof. unfold from. rewrite !Nat.leb_le. lia. Qed.

Lemma from_upto n s : from (S n) s = negb (upto n s).
Proof. unfold from, upto. destruct (Nat.leb_spec (S n) (rank (main s))), (Nat.leb_spec (rank (main s)) n); first [lia | done]. Qed.

Lemma upto_le n m s : (n <=? m)%nat = true -> upto n s = true -> upto m s = true.
Proof. unfold upto. rewrite !Nat.leb_le. lia. Qed.

Lemma graceful_step capacity a s s' :
  flags_inv s -> worker_inv s -> graceful_inv s -> act capacity a s = Some s' -> graceful_inv s'.
Proof.
  intros [Hstopped _ Hef _] [_ _ _ _ _ Hd] [] H.
  assert (from 14 s = true -> from 12 s = true) as H14 by (by apply from_le).
  taken H. all: split; cbn in *; try done; intuition congruence.
Qed.

Lemma machine_step capacity a s s' : machine_inv s -> act capacity a s = Some s' -> machine_inv s'.
Proof.
  intros [] H.
  split; eauto using flags_step, readiness_step, created_step, joined_step, waiter_step, worker_step, graceful_step.
Qed.

Lemma reachable_inv capacity s : reachable capacity s -> machine_inv s.
Proof.
  intros [left_over Hs]. revert s Hs. apply rtc_ind_r; [apply starting_inv |].
  intros ? ? _ [a H] IH. eauto using machine_step.
Qed.

(** A turn of the signal thread is one of its actions, or none. *)
Lemma waiter_poll_acts capacity p s :
  waiter s = Polling ->
  exists l, (length l <= 1)%nat /\ acts capacity l s = Some (set_waiter (waiter_poll (token s) p) s).
Proof.
  intros Hw. unfold waiter_poll. destruct (token s) eqn:Ht.
  { exists [WaiterToken]. cbn. rewrite Hw, Ht. auto. }
  assert (forall pc, pc = Store \/ pc = Polling ->
    exists l, (length l <= 1)%nat /\ acts capacity l s = Some (set_waiter pc s)) as H.
  { intros pc [-> | ->]; [exists [WaiterSignal] | exists []]; cbn; rewrite ?Hw; [auto |].
    split; [lia |]. by destruct s; cbn in *; subst. }
  apply H. destruct p; destruct (_ || _); auto.
Qed.

(** ** The ring never holds more than its capacity *)

Lemma ring_step capacity a s s' :
  (length (ring s) <= capacity)%nat -> act capacity a s = Some s' ->
  (length (ring s') <= capacity)%nat.
Proof.
  intros Hl H. taken H. all: repeat match goal with H : (_ <? _)%nat = true |- _ => apply Nat.ltb_lt in H end.
  all: rewrite ?length_app; cbn in *; lia.
Qed.

Lemma reachable_ring capacity s : reachable capacity s -> (length (ring s) <= capacity)%nat.
Proof.
  intros [left_over Hs]. revert s Hs.
  apply (rtc_ind_r (fun s => (length (ring s) <= capacity)%nat)); [cbn; lia |].
  intros ? ? _ [a H] IH. eauto using ring_step.
Qed.

Lemma reachable_step capacity a s s' : reachable capacity s -> act capacity a s = Some s' -> reachable capacity s'.
Proof. intros [lo Hs] H. exists lo. eapply rtc_r; [exact Hs | by exists a]. Qed.

Lemma reachable_steps capacity s s' : reachable capacity s -> rtc (step capacity) s s' -> reachable capacity s'.
Proof.
  intros Hs. induction 1 as [| s1 s2 s3 (a & _ & H) _ IH]; [done |].
  apply IH. eauto using reachable_step.
Qed.

Lemma acts_reachable capacity l s s' : reachable capacity s -> acts capacity l s = Some s' -> reachable capacity s'.
Proof.
  revert s; induction l as [| a l IH]; intros s Hs H; cbn in H; [by simplify_eq |].
  apply bind_Some in H as (s1 & H1 & H2). eauto using reachable_step.
Qed.

(** ** Safety *)

Definition past (pc : MainPc) (s : Machine) : bool := (rank pc <=? rank (main s))%nat.

(** C7: In every state that the service can reach, under every schedule of its
    threads and wherever the readiness file could not be written or removed: until the shutdown is
    claimed, a file that is there was left over by an earlier process, or all three workers have been
    created and no shutdown has begun; after that it is there only because removing it failed, or
    because a thread could not be created and it was left over; the shutdown begins
    only after a request, or because a thread could not be created (exit code 3);
    the workers' flags are cleared in order, so none of them ends early; a
    shutdown that met no deadline has seen the engine end, and its dispatcher ends
    only with an empty queue; and when [main] returns, every thread that was
    created has ended and the shutdown has been claimed. *)
Theorem service_machine_safe capacity s :
  reachable capacity s ->
  (present (readiness s) = true ->
     if past ClaimStop s
     then unremoved (readiness s) = true \/ exit_code s = 3 /\ left_over (readiness s) = true
     else stopped s = false /\
       (left_over (readiness s) = true \/
        source s <> SAbsent /\ engine s <> EAbsent /\ dispatcher s <> DAbsent)) /\
  (stopped s = true -> stop_requested s = true \/ exit_code s = 3) /\
  (source s = SEnded -> stopped s = true) /\
  (engine s = EEnded -> past AwaitEngine s = true) /\
  (dispatcher s = DEnded -> past JoinSource s = true) /\
  (timed_out s = false -> past StopEngine s = true -> engine s = EEnded) /\
  (timed_out s = false -> dispatcher s = DEnded -> alerts s = 0%nat) /\
  (main s = Exited ->
     stopped s = true /\ waiter s = WaiterDone /\
     source_gone s /\ engine_gone s /\ dispatcher_gone s /\
     (exit_code s = 0 /\ stop_requested s = true \/ exit_code s = 3)).
Proof.
  intros [[Hst Hsf Hef _] [Hbefore _ Hafter] [_ _ _ Hcode Hall] [Hjs Hje Hjd Hjw] [_ _ _ Hreq] [Hdr Hwe Hws _ _ Hwd] [_ Hge Hgd]]%reachable_inv.
  split_and!; change past with (fun pc => from (rank pc)); cbn [rank].
  - intros Hp. destruct (from 8 s) eqn:H8; [by apply Hafter |].
    assert (upto 7 s = true) as H7 by (by rewrite from_upto in H8; destruct (upto 7 s)).
    split; [by rewrite Hst, from_upto, (upto_le 7 8) |].
    assert (exit_code s = 0) as H0 by (destruct Hcode as [| [_ ?]]; congruence).
    destruct (upto 3 s) eqn:H3; [left; by destruct (Hbefore eq_refl) as [<- _] | right].
    assert (from 4 s = true) as H4 by (by rewrite from_upto, H3).
    destruct (Hall H0) as (Ha & Hb & Hc).
    split_and!; [apply Hc, (from_le 3 4) | apply Hb, (from_le 2 4) | apply Ha, (from_le 1 4)]; done.
  - rewrite Hst. intros H9. destruct Hcode as [H0 | [H3 _]]; [| by right].
    left. apply Hreq; [done |]. by apply (from_le 7 9).
  - intros E. specialize (Hws E). rewrite Hst. apply (from_le 9 10); [done |]. by rewrite from_upto, <- Hsf, Hws.
  - intros [E | E]%Hwe; [| auto]. apply (from_le 11 13); [done |]. by rewrite from_upto, <- Hef, E.
  - exact Hwd.
  - exact Hge.
  - exact Hgd.
  - intros E. assert (forall n, (n <=? 20)%nat = true -> from n s = true) as Hf.
    { intros n. unfold from. by rewrite E. }
    rewrite Hst, !Hf by done. split_and!; auto.
    destruct Hcode as [H0 | [H3 _]]; [left | by right]. auto.
Qed.

(** A run in which one log raises one alert. *)
Definition whole_run : list Action :=
  [MainStep; MainStep; MainStep; MainStep; MainStep; MainStep;
   DispatcherEnter; EngineEnter; SourceEnter; SourceFetch 1; SourcePush; SourceDone; EngineTest;
   EngineBody 1; DispatcherDeliver; WaiterSignal; WaiterStore; WaiterNotify;
   MainStep; MainStep; MainStep; MainStep; MainStep; SourceExit; EngineTest; EngineBody 0;
   EngineTest; EngineBody 0; MainStep; MainStep; MainStep; DispatcherExit;
   MainStep; MainStep; MainStep; MainStep; MainStep; MainStep].

Lemma service_machine_safe_witness :
  exists s, acts 2 whole_run initial = Some s /\ main s = Exited /\
    present (readiness s) = false /\ waiter s = WaiterDone /\ dispatcher_gone s.
Proof.
  eexists. split; [vm_compute; reflexivity |]. split; [reflexivity |]. split; [reflexivity |].
  match goal with |- waiter ?s = _ /\ _ =>
    destruct (service_machine_safe 2 s) as (_ & _ & _ & _ & _ & _ & _ & H);
      [| destruct (H eq_refl) as (_ & Hw & _ & _ & Hd & _); auto] end.
  eapply (acts_reachable 2 whole_run); [apply initial_reachable | vm_compute; reflexivity].
Defined.

(** A service that shuts down and cannot remove its file leaves it behind; a file
    that was left behind outlives a service that could not start. *)
Example readiness_file_left :
  let run := (fun old l => option_map (fun s => (main s, exit_code s, present (readiness s)))
                             (acts 2 l (starting old))) in
  let asked := [MainStep; MainStep; MainStep; MainStep; WaiterSignal; WaiterStore; MainStep] in
  run false (asked ++ [MainFileFails]) = Some (ClaimStop, 0, true) /\
  run false (asked ++ [MainStep]) = Some (ClaimStop, 0, false) /\
  run true [] = Some (StartDispatcher, 0, true) /\
  run true ([MainFails; MainStep; MainStep; MainStep; MainTimeout] ++ replicate 6 MainStep ++
    [WaiterToken; MainStep; MainStep]) = Some (Exited, 3, true).
Proof. split_and!; vm_compute; reflexivity. Qed.
