(* ===== verification/ServiceLiveness.v ===== *)
(** * When the service ends

    Over the transition system of ServiceMachine.v: the three ways in which the
    threads block each other for good, and a scheduler that brings the service
    to its end from every other state. *)
From stdpp Require Import relations.
From S2P Require Import Prelude.
From S2P Require Import ServiceMachine.

(** ** The states from which the service cannot end *)

(** The signal thread has notified before the main thread waited. *)
Definition lost_wakeup (s : Machine) : Prop :=
  waiter s = WaiterDone /\ (main s = Block \/ main s = Waiting).

(** The dispatcher sets its flag after [stop] has cleared it, or will. *)
Definition lost_stop (s : Machine) : Prop :=
  from 14 s = true /\
  (dispatcher s = DCreated \/ dispatcher s = DLoop /\ dispatcher_running s = true).

(** How often the engine can still pop; [None] for any number of times. *)
Definition pops (s : Machine) : option nat :=
  match engine s with
  | EAbsent | EEnded => Some 0%nat
  | ECreated | ETest => if engine_running s then None else Some 0%nat
  | EBody => if engine_running s then None else Some 1%nat
  end.

(** [push_blocking] waits for room that the engine will not make. *)
Definition stuck_source (capacity : nat) (s : Machine) : Prop :=
  match source s, pops s with
  | SPushing logs, Some n => (capacity + n < length (ring s) + logs)%nat
  | _, _ => False
  end.

Definition stuck (capacity : nat) (s : Machine) : Prop :=
  lost_wakeup s \/ lost_stop s \/ stuck_source capacity s.

Lemma lost_wakeup_step capacity a s s' :
  a <> Spurious -> act capacity a s = Some s' -> lost_wakeup s -> lost_wakeup s'.
Proof. unfold lost_wakeup. intros Ha H. taken H. all: cbn in *; intuition congruence. Qed.

Lemma lost_stop_step capacity a s s' :
  flags_inv s -> act capacity a s = Some s' -> lost_stop s -> lost_stop s'.
Proof. unfold lost_stop. intros [Hst _ _ _] H. taken H. all: cbn in *; intuition congruence. Qed.

Lemma stuck_source_step capacity a s s' :
  created_inv s -> (length (ring s) <= capacity)%nat ->
  act capacity a s = Some s' -> stuck_source capacity s -> stuck_source capacity s'.
Proof.
  unfold stuck_source, pops. intros [_ _ Hc _ _] Hl H. taken H.
  all: cbn in *; repeat (case_match; simplify_eq/=; try done).
  all: rewrite ?length_app; cbn in *; try lia; intuition congruence.
Qed.

Lemma stuck_step capacity s s' :
  reachable capacity s -> step capacity s s' -> stuck capacity s -> stuck capacity s'.
Proof.
  intros Hs (a & Ha & H) Ht. pose proof (reachable_inv _ _ Hs) as [Hfl _ Hcr _ _ _ _].
  pose proof (reachable_ring _ _ Hs).
  destruct Ht as [Ht | [Ht | Ht]];
    [left; eauto using lost_wakeup_step | right; left; eauto using lost_stop_step
    | right; right; eauto using stuck_source_step].
Qed.

Lemma exited_not_stuck capacity s : machine_inv s -> main s = Exited -> ~ stuck capacity s.
Proof.
  intros [_ _ _ [Hs He Hd _] _ _ _] E. unfold from, source_gone, dispatcher_gone in *. rewrite E in *. cbn in *.
  unfold stuck, lost_wakeup, lost_stop, stuck_source.
  destruct Hs as [E1 | E1], Hd as [E2 | E2]; rewrite ?E, ?E1, ?E2; try done; intuition congruence.
Qed.

Lemma stuck_forever capacity s : reachable capacity s -> stuck capacity s -> ~ can_exit capacity s.
Proof.
  intros Hs Ht (s' & Hr & E). revert Hs Ht E.
  induction Hr as [s | s s1 s2 H Hr IH]; intros Hs Ht E.
  - by eapply exited_not_stuck; [apply (reachable_inv capacity) | |].
  - apply IH; [| eauto using stuck_step | done]. destruct H as (a & _ & H). eauto using reachable_step.
Qed.

(** ** A scheduler that ends the service *)

Definition engine_next (s : Machine) : Action :=
  match engine s with ECreated => EngineEnter | EBody => EngineBody 0 | _ => EngineTest end.

Definition source_next (capacity : nat) (s : Machine) : Action :=
  match source s with
  | SCreated => SourceEnter
  | SPushing (S _) => if has_room capacity s then SourcePush else engine_next s
  | SPushing O => SourceDone
  | _ => SourceExit
  end.

Definition waiter_next (s : Machine) : Action :=
  match waiter s with
  | Polling => if token s then WaiterToken else WaiterSignal
  | Store => WaiterStore
  | _ => WaiterNotify
  end.

(** The source thread first, then [a]. *)
Definition source_first (capacity : nat) (a : Action) (s : Machine) : Action :=
  match source s with SAbsent | SEnded => a | _ => source_next capacity s end.

Definition next (capacity : nat) (s : Machine) : Action :=
  match main s with
  | TestStop => if stop_requested s then MainStep else waiter_next s
  | Waiting => waiter_next s
  | PushPill | AwaitEngine => source_first capacity MainTimeout s
  | StopDispatcher =>
      source_first capacity
        (match dispatcher s with DCreated => DispatcherEnter | _ => MainStep end) s
  | StopEngine | JoinSource => source_first capacity MainStep s
  | JoinEngine => match engine s with EAbsent | EEnded => MainStep | _ => engine_next s end
  | JoinDispatcher =>
      match dispatcher s with
      | DAbsent | DEnded => MainStep
      | _ => match alerts s with S _ => DispatcherDeliver | O => DispatcherExit end
      end
  | JoinWaiter => match waiter s with WaiterDone => MainStep | _ => waiter_next s end
  | _ => MainStep
  end.

(** What it uses up. *)
Definition waiter_left (s : Machine) : nat :=
  match waiter s with Polling => 3 | Store => 2 | Notify => 1 | WaiterDone => 0 end.
Definition source_left (s : Machine) : nat :=
  match source s with
  | SAbsent | SEnded => 0 | SLoop => 1 | SCreated => 2 | SPushing logs => 2 + 8 * logs
  end.
Definition engine_left (s : Machine) : nat :=
  match engine s with
  | EAbsent | EEnded => 0
  | ECreated => 3
  | ETest => if engine_running s then 2 else 1
  | EBody => if engine_running s then 1 else 2
  end.
Definition dispatcher_left (s : Machine) : nat :=
  match dispatcher s with DAbsent | DEnded => 0 | DLoop => 1 | DCreated => 2 end.
Definition left (s : Machine) : nat :=
  4 * (20 - rank (main s)) + 10 * waiter_left s + source_left s + engine_left s +
  dispatcher_left s + 5 * length (ring s) + alerts s.

Definition advances (capacity : nat) (s : Machine) (a : Action) : Prop :=
  a <> Spurious /\
  exists s', act capacity a s = Some s' /\ (left s' < left s)%nat /\ ~ stuck capacity s'.

(** The goal of an [advances] lemma on a state that is written out. *)
Ltac advance :=
  split; [done |]; eexists; split; [by cbn |];
  unfold stuck, lost_wakeup, lost_stop, stuck_source, pops, left, waiter_left, source_left, engine_left,
    dispatcher_left, from in *; cbn -[Nat.mul Nat.sub Nat.leb] in *; rewrite ?length_app;
  cbn -[Nat.mul Nat.sub Nat.leb].

Lemma engine_advances capacity s :
  engine s <> EAbsent -> engine s <> EEnded ->
  (engine s = EBody -> ring s = [] -> engine_running s = false /\ source_gone s) ->
  ~ stuck capacity s -> advances capacity s (engine_next s).
Proof.
  destruct s as [m w so e d sr st rd tk sf ef df rg dr al ec tm].
  unfold advances, engine_next, act, engine_act, source_gone. cbn.
  intros H1 H2 Hr Hs.
  destruct e; try done; [destruct ef | destruct ef | destruct rg as [| [|] rg], ef, dr].
  all: try (destruct Hr as [? Hr]; [done | done |]; simplify_eq).
  all: advance; split; [lia |].
  all: intros [T | [T | T]]; apply Hs; [by left | by right; left | right; right].
  all: destruct so; first [done | lia | by destruct Hr].
Qed.

(** A producer that finds no room has the engine make some. *)
Lemma blocked_advances capacity logs s :
  (0 < capacity)%nat -> (length (ring s) <= capacity)%nat ->
  source s = SPushing (S logs) -> has_room capacity s = false ->
  ~ stuck capacity s -> advances capacity s (engine_next s).
Proof.
  intros H0 Hl E Hroom Hs. unfold has_room in Hroom. apply Nat.ltb_ge in Hroom.
  apply engine_advances; [.. | done].
  1, 2: intros He; apply Hs; right; right; unfold stuck_source, pops; rewrite E, He; lia.
  intros _ Hr. rewrite Hr in *. cbn in *. lia.
Qed.

Lemma source_advances capacity s :
  (0 < capacity)%nat -> (length (ring s) <= capacity)%nat ->
  source s <> SAbsent -> source s <> SEnded -> (source s = SLoop -> source_running s = false) ->
  ~ stuck capacity s -> advances capacity s (source_next capacity s).
Proof.
  intros H0 Hl H1 H2 Hr Hs. pose proof (blocked_advances capacity) as Hb.
  unfold source_next. destruct (source s) as [| | | [| logs] |] eqn:E; try done.
  4: destruct (has_room capacity s) eqn:Hroom; [clear Hb | by apply (Hb logs)].
  1, 2, 3: clear Hb.
  all: destruct s as [m w so e d sr st rd tk sf ef df rg dr al ec tm];
    unfold advances, act, source_act; cbn in *; subst; rewrite ?Hroom, ?Hr by done.
  all: advance; split; [lia |].
  all: intros [T | [T | T]]; apply Hs; [by left | by right; left | right; right].
  all: try done; destruct e, ef; done || lia.
Qed.

Lemma source_first_advances capacity a s :
  (0 < capacity)%nat -> (length (ring s) <= capacity)%nat ->
  (source s = SLoop -> source_running s = false) -> ~ stuck capacity s ->
  (source_gone s -> advances capacity s a) -> advances capacity s (source_first capacity a s).
Proof.
  intros H0 Hl Hr Hs Ha. unfold source_first, source_gone in *.
  destruct (source s) eqn:E; auto; apply source_advances; rewrite ?E; auto.
Qed.

(** An action on a state whose program counters are known. *)
Ltac advance_known Hs :=
  unfold advances, act, main_step, main_timeout, waiter_act, dispatcher_act, waiter_next; cbn -[left];
  split; [done |]; eexists; split; [reflexivity |];
  unfold stuck, lost_wakeup, lost_stop, stuck_source, pops, left, waiter_left, source_left, engine_left,
    dispatcher_left, from, upto in *; cbn -[Nat.mul Nat.sub Nat.add] in *;
  split; [lia |];
  intros [T | [T | T]];
  [ naive_solver | naive_solver | first [ done | by apply Hs; right; right ] ].

Lemma next_advances capacity s :
  (0 < capacity)%nat -> (length (ring s) <= capacity)%nat -> machine_inv s ->
  ~ stuck capacity s -> main s <> Exited -> advances capacity s (next capacity s).
Proof.
  intros H0 Hl [[Hst Hsf Hef Htk] _ [Hcd Hce Hcs _ _] [Hjs _ _ _] [Hwn Hwd Hwr _] _ _] Hs Hm.
  unfold next. destruct (main s) eqn:E; try done.
  all: try (apply source_first_advances; [done | done | intros _; rewrite Hsf; unfold upto; by rewrite E | done |];
            unfold source_gone; intros Hg).
  all: unfold from, upto in *; rewrite E in *; cbn in Hst, Hsf, Hef, Htk, Hcd, Hce, Hcs, Hjs.
  all: destruct s as [m w so e d sr st rd tk sf ef df rg dr al ec tm]; cbn in *; subst.
  all: clear Hm; try (destruct Hg; subst).
  (* Starting. *)
  - rewrite ->Hcs, Hce, Hcd in * by auto. advance_known Hs.
  - rewrite ->Hcs, Hce in * by auto. advance_known Hs.
  - rewrite ->Hcs in * by auto. advance_known Hs.
  - advance_known Hs.
  (* Waiting for the request. *)
  - destruct sr; [advance_known Hs |]. destruct w; [advance_known Hs | advance_known Hs | naive_solver ..].
  - advance_known Hs.
  - destruct w; [advance_known Hs .. |]. destruct Hs. left. by split; [| right].
  (* Stopping; the source thread has ended where the main thread goes on. *)
  - advance_known Hs.
  - advance_known Hs.
  - advance_known Hs.
  - advance_known Hs.
  - advance_known Hs.
  - advance_known Hs.
  - advance_known Hs.
  - destruct e; advance_known Hs.
  - destruct e; advance_known Hs.
  - destruct d; advance_known Hs.
  - destruct d; advance_known Hs.
  (* Joining. *)
  - advance_known Hs.
  - advance_known Hs.
  - destruct e; [advance_known Hs | | | | advance_known Hs].
    all: by apply engine_advances; auto.
  - destruct d; [advance_known Hs | | | advance_known Hs].
    + destruct Hs. right; left. by split; [| left].
    + destruct df; [| destruct al; advance_known Hs]. destruct Hs. right; left. by split; [| right].
  - advance_known Hs.
  - destruct w; advance_known Hs.
  - advance_known Hs.
Qed.

(** A schedule without spurious wakeups that ends the service in [n] actions at
    most. *)
Definition exits_within (capacity n : nat) (s : Machine) : Prop :=
  exists l s', (length l <= n)%nat /\ Forall (fun a => a <> Spurious) l /\
    acts capacity l s = Some s' /\ main s' = Exited.

Lemma not_stuck_exits capacity s :
  (0 < capacity)%nat -> reachable capacity s -> ~ stuck capacity s -> exits_within capacity (left s) s.
Proof.
  intros H0. remember (left s) as n eqn:En. revert s En.
  induction (lt_wf n) as [n _ IH]. intros s -> Hr Hs.
  destruct (decide (main s = Exited)) as [E | Hm].
  { exists [], s. split_and!; [cbn; lia | constructor | done | done]. }
  destruct (next_advances capacity s) as (Ha & s' & H & Hlt & Hs');
    [done | by apply reachable_ring | by eapply reachable_inv | done | done |].
  destruct (IH (left s') Hlt s') as (l & s2 & Hlen & Hl & Hacts & E); eauto using reachable_step.
  exists (next capacity s :: l), s2. split_and!; [cbn [length]; lia | by constructor | | done].
  cbn [acts]. by rewrite H.
Qed.

Lemma exits_can_exit capacity n s : exits_within capacity n s -> can_exit capacity s.
Proof.
  intros (l & s' & _ & Hl & Hacts & E). exists s'. split; [| done].
  revert s Hacts; induction Hl as [| a l Ha _ IH]; intros s; cbn; [by intros [= ->] |].
  intros (s1 & H1 & H2)%bind_Some. eapply rtc_l; [by exists a | by apply IH].
Qed.

(** C4: From a state that the service can reach, it can still come to its end
    exactly when none of three things has happened: the signal thread has stored
    the request and notified while the main thread, having found no request, was
    not yet waiting; the dispatcher was started, or set its flag, after [stop]
    cleared it; or the event source is pushing more logs than the ring has room
    for and the engine will pop.  Otherwise some schedule ends it in as many
    actions as [left] counts. *)
Theorem service_ends_iff capacity s :
  (0 < capacity)%nat -> reachable capacity s ->
  (can_exit capacity s <-> ~ (lost_wakeup s \/ lost_stop s \/ stuck_source capacity s)) /\
  (can_exit capacity s -> exits_within capacity (left s) s).
Proof.
  intros H0 Hs.
  assert (can_exit capacity s -> ~ stuck capacity s) as Hn by (intros Hc Ht; by eapply stuck_forever).
  split; [split; [exact Hn |] |].
  - intros Ht. eapply exits_can_exit. by apply not_stuck_exits.
  - intros Hc. apply not_stuck_exits; auto.
Qed.

(** ** When no hazard arises *)

(** The dispatcher enters its loop before the main thread stops it, nobody
    notifies between the test and the wait, the shutdown meets no deadline and no
    poll fetches more logs than the ring holds. *)
Definition prompt (capacity : nat) (a : Action) (s : Machine) : Prop :=
  match a with
  | MainStep => main s = StopDispatcher -> dispatcher s <> DCreated
  | MainTimeout => False
  | WaiterNotify => main s <> Block
  | SourceFetch logs => (logs <= capacity)%nat
  | _ => True
  end.

Definition prompt_step (capacity : nat) (s s' : Machine) : Prop :=
  exists a, prompt capacity a s /\ act capacity a s = Some s'.

Definition to_push (s : Machine) : nat := match source s with SPushing logs => logs | _ => 0 end.

Record prompt_inv (capacity : nat) (s : Machine) : Prop := {
  pr_timed_out : timed_out s = false;
  pr_wakeup : ~ lost_wakeup s;
  pr_stop : ~ lost_stop s;
  pr_poll : (to_push s <= capacity)%nat;
  pr_room : engine s = EEnded -> (length (ring s) + to_push s <= capacity)%nat;
}.

Lemma initial_prompt capacity : prompt_inv capacity initial.
Proof. split; cbn; try done; try lia; unfold lost_wakeup, lost_stop; cbn; intuition congruence. Qed.

(** Without a deadline the engine ends before its flag is cleared and after the
    source's has been. *)
Lemma engine_ends_between s :
  machine_inv s ->
  (engine s = EEnded -> from 11 s = true /\ source_running s = false) /\
  (timed_out s = false -> engine_running s = false -> engine s = EEnded).
Proof.
  intros [[_ Hsf Hef _] _ _ _ _ [Hdr Hwe _ _ _ _] [_ Hge _]]. split.
  - intros E. assert (from 11 s = true) as H11.
    { destruct (Hwe E) as [H | H]; [| auto]. apply (from_le 11 13); [done |]. by rewrite from_upto, <- Hef, H. }
    split; [done |]. rewrite Hsf. apply negb_true_iff. rewrite <- from_upto. by apply (from_le 10 11).
  - intros Hto H. apply Hge; [done |]. apply (from_le 12 13); [done |]. by rewrite from_upto, <- Hef, H.
Qed.

Lemma prompt_room capacity a s s' :
  machine_inv s -> prompt_inv capacity s -> prompt capacity a s -> act capacity a s = Some s' ->
  (to_push s' <= capacity)%nat /\ (engine s' = EEnded -> (length (ring s') + to_push s' <= capacity)%nat).
Proof.
  intros [He1 He2]%engine_ends_between [Hto _ _ Hn Hr] Hp H. unfold to_push in *.
  specialize (He2 Hto). taken H. all: cbn in *; rewrite ?length_app; cbn.
  all: split; [lia | intros T].
  all: first [discriminate T | specialize (Hr T); lia | intuition (congruence || lia)].
Qed.

Lemma prompt_flags capacity a s s' :
  machine_inv s -> prompt_inv capacity s -> prompt capacity a s -> act capacity a s = Some s' ->
  timed_out s' = false /\ ~ lost_wakeup s' /\ ~ lost_stop s'.
Proof.
  intros [[Hst _ _ Htk] _ _ _ [Hwn Hwd Hwr _] [_ _ _ Hfr _ _] _] [Hto Hw Hs _ _] Hp H.
  unfold lost_wakeup, lost_stop in *. taken H.
  all: cbn in *; split_and!; first [intuition congruence | intros [_ [-> | ->]]; discriminate Htk].
Qed.

Lemma prompt_reachable capacity s :
  rtc (prompt_step capacity) initial s -> reachable capacity s /\ prompt_inv capacity s.
Proof.
  apply (rtc_ind_r (fun s => reachable capacity s /\ prompt_inv capacity s)).
  { split; [apply initial_reachable | apply initial_prompt]. }
  intros s1 s2 _ (a & Hp & H) [Hr Hi]. split; [by eapply reachable_step |].
  pose proof (reachable_inv _ _ Hr) as Hm.
  destruct (prompt_flags capacity a s1 s2) as (? & ? & ?); [done..|].
  destruct (prompt_room capacity a s1 s2) as [? ?]; [done..|]. by split.
Qed.

Lemma prompt_not_stuck capacity s : machine_inv s -> prompt_inv capacity s -> ~ stuck capacity s.
Proof.
  intros Hm [Hto Hw Hs Hn Hr]. pose proof (engine_ends_between s Hm) as [_ He]. specialize (He Hto).
  destruct Hm as [_ _ [_ _ Hc _ _] _ _ _ _]. unfold stuck, stuck_source, pops, to_push in *.
  intros [H | [H | H]]; [done | done |].
  destruct (source s); try done.
  destruct (engine s), (engine_running s); try done; try (by discriminate (He eq_refl)).
  - by discriminate (Hc (or_intror eq_refl)).
  - specialize (Hr eq_refl). lia.
  - specialize (Hr eq_refl). lia.
Qed.

(** A service whose dispatcher has entered its loop when it is stopped, whose
    main thread is waiting (or has not looked yet) when it is notified, whose
    shutdown meets no deadline and whose polls fetch no more logs than the ring
    holds can always come to its end: none of the hazards arises, wherever it
    is. *)
Theorem prompt_service_ends capacity s :
  (0 < capacity)%nat -> rtc (prompt_step capacity) initial s -> exits_within capacity (left s) s.
Proof.
  intros H0 [Hr Hi]%prompt_reachable. apply not_stuck_exits; [done | done |].
  apply prompt_not_stuck; [by eapply reachable_inv | done].
Qed.

(** ** Schedules *)

Definition started : list Action := [MainStep; MainStep; MainStep; MainStep].
Definition requested : list Action := [WaiterSignal; WaiterStore; WaiterNotify].

(** From the request to the pill in the ring. *)
Definition pill_pushed : list Action := [MainStep; MainStep; MainStep; MainStep; MainStep].

(** The engine takes the pill and leaves. *)
Definition drained : list Action :=
  [EngineEnter; EngineTest; EngineBody 0; EngineTest; EngineBody 0].

Definition wakeup_lost : list Action := started ++ [MainStep] ++ requested.

Definition stop_lost : list Action :=
  started ++ requested ++ pill_pushed ++ drained ++
  [MainStep; MainStep; MainStep; SourceEnter; SourceExit; MainStep; MainStep; DispatcherEnter].

Definition source_stuck (capacity : nat) : list Action :=
  started ++ [SourceEnter; SourceFetch (S capacity)] ++ requested ++ pill_pushed ++ drained.

(** Two threads at [try_push]. *)
Definition both_push : list Action :=
  started ++ [SourceEnter; SourceFetch 1] ++ requested ++ [MainStep; MainStep; MainStep; MainStep].

(** The source is still pushing when the engine leaves. *)
Definition log_dropped : list Action :=
  started ++ [SourceEnter; SourceFetch 1; DispatcherEnter] ++ requested ++ pill_pushed ++ drained ++
  [SourcePush; SourceDone; SourceExit; MainStep; MainStep; MainStep; DispatcherExit] ++
  [MainStep; MainStep; MainStep; MainStep; MainStep; MainStep].

Lemma trace capacity l (P : Machine -> Prop) :
  match acts capacity l initial with Some s => P s | None => False end ->
  exists s, reachable capacity s /\ P s.
Proof.
  destruct (acts capacity l initial) as [s |] eqn:H; [| done].
  intros Hs. exists s. split; [eapply acts_reachable; [apply initial_reachable | exact H] | done].
Qed.

(** C26: Each of the three hazards is reachable, for every size of the ring, with
    all threads started and no deadline met; the service then never ends.  The
    first is the time between [request_stop]'s store, made without the mutex, and
    the wait; the second needs a dispatcher thread slow to start; the third, one
    poll that fetched more logs than the ring holds as the stop came. *)
Theorem service_can_hang capacity :
  (0 < capacity)%nat ->
  forall hazard, hazard ∈ [lost_wakeup; lost_stop; stuck_source capacity] ->
  exists s, reachable capacity s /\
    hazard s /\ exit_code s = 0 /\ timed_out s = false /\ stop_requested s = true /\
    ~ can_exit capacity s.
Proof.
  intros H0 hazard Hh.
  assert (exists s, reachable capacity s /\
    (hazard s /\ exit_code s = 0 /\ timed_out s = false /\ stop_requested s = true)) as (s & Hs & Hz & ? & ? & ?).
  { destruct capacity as [| capacity]; [lia |].
    rewrite !elem_of_cons, elem_of_nil in Hh. destruct Hh as [-> | [-> | [-> | []]]].
    - apply (trace _ wakeup_lost). vm_compute. auto 10.
    - apply (trace _ stop_lost). vm_compute. auto 10.
    - eexists. split; [eapply (acts_reachable _ (source_stuck (S capacity))); [apply initial_reachable | vm_compute; reflexivity] |].
      unfold stuck_source. cbn. split_and!; auto; lia. }
  exists s. split_and!; auto. apply stuck_forever; [done |].
  rewrite !elem_of_cons, elem_of_nil in Hh.
  unfold stuck. destruct Hh as [-> | [-> | [-> | []]]]; auto.
Qed.

(** C28: The main thread and the event source can both be about to push into the
    ring, which allows one producer only; and the service can end with exit
    code 0 and without a timeout while a log that the event source pushed after
    the engine had left stays in the ring. *)
Theorem shutdown_races capacity :
  (0 < capacity)%nat ->
  (exists s, reachable capacity s /\
     main s = PushPill /\ is_Some (act capacity MainStep s) /\ is_Some (act capacity SourcePush s)) /\
  (exists s, reachable capacity s /\
     main s = Exited /\ exit_code s = 0 /\ timed_out s = false /\ ring s = [false]).
Proof.
  intros H0. destruct capacity as [| capacity]; [lia |]. split.
  - apply (trace _ both_push). vm_compute. eauto 10.
  - apply (trace _ log_dropped). vm_compute. auto 10.
Qed.

Lemma service_ends_iff_witness :
  exists s, acts 2 (started ++ requested) initial = Some s /\ can_exit 2 s.
Proof.
  eexists. split; [vm_compute; reflexivity |]. apply (service_ends_iff 2); [lia | |].
  - eapply (acts_reachable 2 (started ++ requested)); [apply initial_reachable | vm_compute; reflexivity].
  - intros [[_ [E | E]] | [[E _] | []]]; discriminate E.
Defined.

Lemma service_can_hang_witness : exists s, reachable 2 s /\ lost_wakeup s /\ ~ can_exit 2 s.
Proof.
  destruct (service_can_hang 2 ltac:(lia) lost_wakeup) as (s & Hs & Hz & _ & _ & _ & Hc).
  - rewrite elem_of_cons. auto.
  - eauto.
Defined.

Lemma shutdown_races_witness :
  exists s, reachable 2 s /\ main s = Exited /\ exit_code s = 0 /\ ring s = [false].
Proof.
  destruct (shutdown_races 2 ltac:(lia)) as [_ (s & ? & ? & ? & ? & ?)]. eauto 10.
Defined.

Lemma prompt_service_ends_witness :
  exists s, rtc (prompt_step 2) initial s /\ main s = StartEngine /\ exits_within 2 (left s) s.
Proof.
  assert (rtc (prompt_step 2) initial (set_main StartEngine (set_dispatcher DCreated initial))) as H.
  { eapply rtc_l; [exists MainStep; split; [done | reflexivity] | apply rtc_refl]. }
  eexists. split; [exact H |]. split; [reflexivity |]. apply (prompt_service_ends 2); [lia | exact H].
Defined.
