(* ===== verification/ServiceFairness.v ===== *)
(** * The service ends under every fair schedule

    Over the transition system of ServiceMachine.v: once a stop has been asked
    for, every schedule in which each thread keeps getting its turns ends the
    service, unless it leads into one of the three states of ServiceLiveness.v
    that block it for good. *)
From stdpp Require Import relations.
From S2P Require Import Prelude.
From S2P Require Import ServiceMachine ServiceLiveness.

(** ** Rounds *)

(** What a fair round attempts; how many alerts an iteration raises is open. *)
Definition owed : list Action :=
  [MainStep; MainTimeout; WaiterToken; WaiterStore; WaiterNotify;
   SourceEnter; SourcePush; SourceDone; SourceExit; EngineEnter; EngineTest;
   DispatcherEnter; DispatcherDeliver; DispatcherExit].

(** A round attempts every action that somebody waits for at least once, in any
    order and among any others; no wakeup is spurious. *)
Definition fair (l : list Action) : Prop :=
  Forall (fun a => a <> Spurious) l /\ Forall (fun a => a ∈ l) owed /\ exists n, EngineBody n ∈ l.

Section Rounds.
Variable capacity : nat.

(** A thread whose action cannot be taken keeps waiting. *)
Definition attempt (a : Action) (s : Machine) : Machine := default s (act capacity a s).

Definition round (l : list Action) (s : Machine) : Machine := for_each attempt l s.

(** The state after the first [k] rounds. *)
Fixpoint after (rounds : nat -> list Action) (k : nat) (s : Machine) : Machine :=
  match k with
  | O => s
  | S k => after (fun i => rounds (S i)) k (round (rounds 0%nat) s)
  end.
End Rounds.

(** ** What the actions use up, in order of importance

    The main and the signal thread; once the source has been stopped also the
    source, the ring and the rest. *)
Definition main_left (s : Machine) : nat := (4 * (20 - rank (main s)) + 10 * waiter_left s)%nat.

Definition when_stopped (s : Machine) (n : nat) : nat := if source_running s then 0%nat else n.

(** The engine polls an empty ring and nobody has told it to leave. *)
Definition idle (s : Machine) : bool :=
  match ring s with [] => negb (drain s) && engine_running s | _ => false end.

Definition engine_busy (s : Machine) : nat :=
  match engine s with
  | EAbsent | EEnded => 0
  | _ => if idle s then 4 else engine_left s
  end.

Definition pushes_left (s : Machine) : nat := when_stopped s (source_left s).
Definition pops_left (s : Machine) : nat := when_stopped s (length (ring s)).
Definition rest_left (s : Machine) : nat :=
  when_stopped s (alerts s + dispatcher_left s + engine_busy s).

Definition smaller (s' s : Machine) : Prop :=
  (main_left s' < main_left s)%nat \/ main_left s' = main_left s /\
  ((pushes_left s' < pushes_left s)%nat \/ pushes_left s' = pushes_left s /\
   ((pops_left s' < pops_left s)%nat \/ pops_left s' = pops_left s /\
    (rest_left s' < rest_left s)%nat)).

(** Nothing was used up: the main and the signal thread have not moved, and while
    the main thread joins nothing has. *)
Record same (s s' : Machine) : Prop := {
  sa_main_left : main_left s' = main_left s;
  sa_pushes_left : pushes_left s' = pushes_left s;
  sa_pops_left : pops_left s' = pops_left s;
  sa_rest_left : rest_left s' = rest_left s;
  sa_main : main s' = main s;
  sa_waiter : waiter s' = waiter s;
  sa_joining : from 14 s = true -> s' = s;
}.

Lemma smaller_ind (P : Machine -> Prop) :
  (forall s, (forall s', smaller s' s -> P s') -> P s) -> forall s, P s.
Proof.
  intros HP s. remember (main_left s) as a eqn:Ea. revert s Ea.
  induction (lt_wf a) as [a _ IHa]. intros s. remember (pushes_left s) as b eqn:Eb. revert s Eb.
  induction (lt_wf b) as [b _ IHb]. intros s. remember (pops_left s) as c eqn:Ec. revert s Ec.
  induction (lt_wf c) as [c _ IHc]. intros s. remember (rest_left s) as d eqn:Ed. revert s Ed.
  induction (lt_wf d) as [d _ IHd]. intros s -> -> -> ->. apply HP.
  intros s' [H | [E1 [H | [E2 [H | [E3 H]]]]]].
  - by eapply (IHa _ H).
  - by eapply (IHb _ H).
  - by eapply (IHc _ H).
  - by eapply (IHd _ H).
Qed.

Lemma smaller_trans s1 s2 s3 : smaller s3 s2 -> smaller s2 s1 -> smaller s3 s1.
Proof. unfold smaller. lia. Qed.

Lemma same_smaller s1 s2 s3 : same s1 s2 -> smaller s3 s2 -> smaller s3 s1.
Proof. unfold smaller. intros []. lia. Qed.

Lemma smaller_same s1 s2 s3 : smaller s2 s1 -> same s2 s3 -> smaller s3 s1.
Proof. unfold smaller. intros ? []. lia. Qed.

#[export] Instance same_refl : Reflexive same.
Proof. by split. Qed.

Lemma from_main n s s' : main s' = main s -> from n s' = from n s.
Proof. unfold from. by intros ->. Qed.

#[export] Instance same_trans : Transitive same.
Proof.
  intros s1 s2 s3 [] []. split; try congruence.
  intros H. rewrite <- sa_joining0 by done. apply sa_joining1. by rewrite (from_main 14 s1).
Qed.

(** ** One action *)

Lemma act_uses capacity a s s' :
  machine_inv s -> a <> Spurious -> act capacity a s = Some s' -> smaller s' s \/ same s s'.
Proof.
  intros [[Hst Hsf Hef _] _ _ _ _ _ _] Ha H.
  assert (from 14 s = true -> source_running s = false /\ engine_running s = false) as H14.
  { intros H14. rewrite Hsf, Hef. split; apply negb_true_iff; rewrite <- from_upto;
      [by apply (from_le 10 14) | by apply (from_le 13 14)]. }
  clear Hsf Hef. unfold smaller. taken H.
  all: try (destruct Ha; reflexivity).
  all: cbn in Hst, H14.
  all: unfold main_left, pushes_left, pops_left, rest_left, when_stopped, engine_busy, idle,
    waiter_left, source_left, engine_left, dispatcher_left; cbn -[Nat.mul Nat.sub Nat.add].
  (* The main and the signal thread. *)
  all: try (left; left; repeat case_match; simplify_eq; lia).
  (* The workers. *)
  all: clear Hst Ha; generalize (rank m) as rm,
    (match w with Polling => 3 | Store => 2 | Notify => 1 | WaiterDone => 0 end)%nat as wl; intros rm wl.
  all: try destruct sf; try (right; split; cbn; try done; intros T; by destruct (H14 T)).
  all: try destruct e; try destruct ef; try destruct rg as [| x rg]; try destruct dr;
    cbn -[Nat.mul Nat.sub Nat.add] in *; simplify_eq/=.
  all: try (left; right; split; [reflexivity |]; rewrite ?length_app; cbn -[Nat.mul Nat.sub]; clear; lia).
  all: right; split; cbn; try done; intros T; by destruct (H14 T).
Qed.

Section Fairness.
Variable capacity : nat.

(** A state in which a stop has been asked for. *)
Definition asked (s : Machine) : Prop := reachable capacity s /\ waiter s <> Polling.

Lemma asked_act a s s' : asked s -> act capacity a s = Some s' -> asked s'.
Proof.
  intros [Hr Hw] H. split; [eauto using reachable_step |]. clear Hr. taken H. all: done.
Qed.

Lemma attempt_uses a s :
  asked s -> a <> Spurious -> asked (attempt capacity a s) /\
  (smaller (attempt capacity a s) s \/ same s (attempt capacity a s)).
Proof.
  intros Hs Ha. unfold attempt. destruct (act capacity a s) as [s' |] eqn:H; cbn.
  - split; [by eapply asked_act |]. eapply act_uses; [| done | exact H]. by eapply reachable_inv, Hs.
  - split; [done | by right].
Qed.

(** A round uses something up, or none of its attempts did. *)
Lemma round_uses l s :
  asked s -> Forall (fun a => a <> Spurious) l ->
  asked (round capacity l s) /\
  (smaller (round capacity l s) s \/
   same s (round capacity l s) /\
   forall a, a ∈ l -> exists s1, asked s1 /\ same s s1 /\ same s1 (attempt capacity a s1)).
Proof.
  intros Hs Hl. revert s Hs. induction Hl as [| a l Ha _ IH]; intros s Hs.
  { split; [done |]. right. split; [done |]. by intros a ?%elem_of_nil. }
  unfold round. rewrite for_each_cons. fold (round capacity l (attempt capacity a s)).
  destruct (attempt_uses a s Hs Ha) as [Hs1 Huse]. destruct (IH _ Hs1) as [Hs2 Hround].
  split; [done |]. destruct Huse as [Hlt | Hsame], Hround as [Hlt2 | [Hsame2 Hall]].
  - left. by eapply smaller_trans.
  - left. by eapply smaller_same.
  - left. by eapply same_smaller.
  - right. split; [by etransitivity |]. intros b [-> | Hb]%elem_of_cons.
    + by exists s.
    + destruct (Hall b Hb) as (s1 & H1 & H2 & H3). exists s1. split_and!; [done | by etransitivity | done].
Qed.

(** ** A round that uses nothing up *)

Lemma main_step_moves s s' : main_step capacity s = Some s' -> main s' <> main s.
Proof. unfold main_step. intros H. repeat (case_match; simplify_eq/=); congruence. Qed.

(** Every attempt of the round has left the threads where they are. *)
Definition quiet (l : list Action) (s : Machine) : Prop :=
  forall a, a ∈ l -> exists s1, asked s1 /\ same s s1 /\ same s1 (attempt capacity a s1).

Lemma quiet_joining l s a :
  quiet l s -> from 14 s = true -> a ∈ l -> forall s', act capacity a s = Some s' -> s' = s.
Proof.
  intros Hq H14 Ha s' H. destruct (Hq a Ha) as (s1 & _ & Hs1 & Hs2).
  assert (s1 = s) as -> by (by apply (sa_joining _ _ Hs1)).
  unfold attempt in Hs2. rewrite H in Hs2. by apply (sa_joining _ _ Hs2).
Qed.

Lemma quiet_main l s : quiet l s -> MainStep ∈ l -> exists s1,
  asked s1 /\ same s s1 /\ main_step capacity s1 = None.
Proof.
  intros Hq Ha. destruct (Hq _ Ha) as (s1 & H1 & Hs1 & Hs2). exists s1. split_and!; [done..|].
  destruct (main_step capacity s1) as [s2 |] eqn:H; [| done].
  exfalso. unfold attempt in Hs2. cbn in Hs2. rewrite H in Hs2.
  by apply main_step_moves in H; destruct Hs2.
Qed.

Lemma quiet_waiting l s :
  quiet l s -> Forall (fun a => a ∈ l) owed -> waiter s <> Polling -> waiter s = WaiterDone.
Proof.
  intros Hq Hl Hw. rewrite list.Forall_forall in Hl.
  destruct (waiter s) eqn:E; try done; exfalso.
  - destruct (Hq WaiterStore) as (s1 & _ & Hs1 & Hs2); [apply Hl; unfold owed; set_solver |].
    pose proof (sa_waiter _ _ Hs1) as E1. pose proof (sa_waiter _ _ Hs2) as E2.
    unfold attempt in E2. cbn in E2. rewrite E1, E in E2. by cbn in E2.
  - destruct (Hq WaiterNotify) as (s1 & _ & Hs1 & Hs2); [apply Hl; unfold owed; set_solver |].
    pose proof (sa_waiter _ _ Hs1) as E1. pose proof (sa_waiter _ _ Hs2) as E2.
    unfold attempt in E2. cbn in E2. rewrite E1, E in E2. by cbn in E2.
Qed.

Lemma quiet_stopping l s :
  quiet l s -> Forall (fun a => a ∈ l) owed -> main s <> PushPill /\ main s <> AwaitEngine.
Proof.
  intros Hq Hl. rewrite list.Forall_forall in Hl.
  destruct (Hq MainTimeout) as (s1 & _ & Hs1 & Hs2); [apply Hl; unfold owed; set_solver |].
  pose proof (sa_main _ _ Hs1) as E1. pose proof (sa_main _ _ Hs2) as E2.
  unfold attempt in E2. cbn in E2. unfold main_timeout in E2.
  split; intros E; rewrite E in E1; rewrite E1 in E2; by cbn in E2.
Qed.

(** *** While the main thread joins *)

Section Joining.
Variables (l : list Action) (s : Machine).
Hypotheses (Hfair : fair l) (Hq : quiet l s) (Hs : asked s) (H14 : from 14 s = true).

Lemma joining_flags : source_running s = false /\ engine_running s = false.
Proof using Hs H14.
  destruct Hs as [Hr _]. pose proof (reachable_inv _ _ Hr) as [[_ Hsf Hef _] _ _ _ _ _ _].
  rewrite Hsf, Hef. split; apply negb_true_iff; rewrite <- from_upto;
    [by apply (from_le 10 14) | by apply (from_le 13 14)].
Qed.

Lemma joining_owed a s' : a ∈ owed -> act capacity a s = Some s' -> s' = s.
Proof using Hfair Hq H14.
  intros Ha. apply (quiet_joining l s a Hq H14). destruct Hfair as (_ & Hl & _).
  rewrite list.Forall_forall in Hl. by apply Hl.
Qed.

(** The owed action [a] would move a thread whose place [E] tells. *)
Ltac would_move a E :=
  let T := fresh in
  pose proof (joining_owed a) as T; unfold act, source_act, engine_act, dispatcher_act in T;
  rewrite E in T; repeat match goal with F : _ = _ :> bool |- _ => rewrite F in T end;
  specialize (T _ ltac:(unfold owed; set_solver) eq_refl); rewrite <- T in E; cbn in E;
  first [done | injection E; lia].

Lemma joining_engine : engine_gone s.
Proof using Hfair Hq Hs H14.
  destruct joining_flags as [_ Hef]. unfold engine_gone.
  destruct (engine s) eqn:E; auto; exfalso.
  - would_move EngineEnter E.
  - would_move EngineTest E.
  - destruct Hfair as (_ & _ & n & Hn).
    pose proof (quiet_joining l s (EngineBody n) Hq H14 Hn) as T. cbn in T. unfold engine_act in T.
    rewrite E in T. destruct (ring s) as [| [|] rg] eqn:Eg; specialize (T _ eq_refl).
    all: rewrite <- T in E; cbn in E; by destruct (drain s).
Qed.

Lemma joining_source : source_gone s \/ stuck_source capacity s.
Proof using Hfair Hq Hs H14.
  destruct joining_flags as [Hsf _], joining_engine as [He | He].
  { left. left. destruct Hs as [Hr _]. apply (reachable_inv _ _) in Hr as [_ _ Hc _ _ _ _]. apply Hc. by right. }
  unfold source_gone, stuck_source, pops. rewrite He.
  destruct (source s) as [| | | [| logs] |] eqn:E; auto.
  - exfalso. would_move SourceEnter E.
  - exfalso. would_move SourceExit E.
  - exfalso. would_move SourceDone E.
  - right. destruct (has_room capacity s) eqn:Hroom; [exfalso; would_move SourcePush E |].
    unfold has_room in Hroom. apply Nat.ltb_ge in Hroom. lia.
Qed.

Lemma joining_dispatcher : dispatcher_gone s \/ lost_stop s.
Proof using Hfair Hq Hs H14.
  unfold dispatcher_gone, lost_stop. destruct (dispatcher s) eqn:E; auto.
  destruct (dispatcher_running s) eqn:Hdf; [auto |]. exfalso.
  destruct (alerts s) as [| n] eqn:Ha.
  - pose proof (joining_owed DispatcherExit) as T. cbn in T. rewrite E, Ha, Hdf in T.
    specialize (T _ ltac:(unfold owed; set_solver) eq_refl). by rewrite <- T in E.
  - pose proof (joining_owed DispatcherDeliver) as T. cbn in T. rewrite E, Ha in T.
    specialize (T _ ltac:(unfold owed; set_solver) eq_refl). rewrite <- T in Ha. cbn in Ha. lia.
Qed.
End Joining.

(** A fair round that uses nothing up is the last, or stuck. *)
Lemma quiet_stuck l s :
  fair l -> quiet l s -> asked s -> main s = Exited \/ stuck capacity s.
Proof.
  intros Hfair Hq Hs. pose proof Hfair as (_ & Hl & _). destruct Hs as [Hr Hw].
  pose proof (quiet_waiting l s Hq Hl Hw) as Hwd. pose proof (quiet_stopping l s Hq Hl) as [Hpp Hae].
  destruct (quiet_main l s Hq) as (s1 & [Hr1 _] & Hs1 & Hnone).
  { rewrite list.Forall_forall in Hl. apply Hl. unfold owed. set_solver. }
  assert (from 14 s = true -> s1 = s) as Hjoin by apply Hs1.
  unfold main_step in Hnone. rewrite (sa_main _ _ Hs1) in Hnone.
  assert (asked s) as Has by done. unfold stuck.
  destruct (main s) eqn:E; try done; try (by destruct (stopped s1)); try (by destruct (stop_requested s1)).
  - right. left. by split; [| right].
  - unfold from in Hjoin. rewrite E in Hjoin. rewrite (Hjoin eq_refl) in Hnone.
    destruct (joining_source l s Hfair Hq Has) as [[Hg | Hg] | Hg]; [by unfold from; rewrite E | | | auto];
      by rewrite Hg in Hnone.
  - unfold from in Hjoin. rewrite E in Hjoin. rewrite (Hjoin eq_refl) in Hnone.
    destruct (joining_engine l s Hfair Hq Has) as [Hg | Hg]; [by unfold from; rewrite E | |];
      by rewrite Hg in Hnone.
  - unfold from in Hjoin. rewrite E in Hjoin. rewrite (Hjoin eq_refl) in Hnone.
    destruct (joining_dispatcher l s Hfair Hq Has) as [[Hg | Hg] | Hg]; [by unfold from; rewrite E | | | auto];
      by rewrite Hg in Hnone.
  - unfold from in Hjoin. rewrite E in Hjoin. rewrite (Hjoin eq_refl), Hwd in Hnone. done.
  - by left.
Qed.

Lemma fair_rounds_end s : asked s -> forall rounds, (forall i, fair (rounds i)) ->
  exists k, main (after capacity rounds k s) = Exited \/ stuck capacity (after capacity rounds k s).
Proof.
  induction s as [s IH] using smaller_ind. intros Hs rounds Hfair.
  destruct (round_uses (rounds 0%nat) s Hs) as [Hs1 [Hlt | [_ Hq]]]; [by apply Hfair | |].
  - destruct (IH _ Hlt Hs1 (fun i => rounds (S i))) as [k Hk]; [intros i; apply Hfair |]. by exists (S k).
  - exists 0%nat. by apply (quiet_stuck (rounds 0%nat)).
Qed.
End Fairness.

(** * Properties *)

(** C3: Once a stop has been asked for, the service ends under every schedule in
    which every thread keeps getting its turns and the deadlines of the shutdown
    pass, however many logs and alerts there are and in whatever order the threads
    run, unless it comes to one of the three states that block it for good. *)
Theorem fair_service_ends capacity s rounds :
  reachable capacity s -> waiter s <> Polling -> (forall i, fair (rounds i)) ->
  exists k, let s' := after capacity rounds k s in
    main s' = Exited \/ lost_wakeup s' \/ lost_stop s' \/ stuck_source capacity s'.
Proof. intros Hr Hw Hfair. by apply fair_rounds_end. Qed.

(** ** Witness: the same round again and again *)

Definition plain_round : list Action := owed ++ [EngineBody 1].

Lemma plain_round_fair : fair plain_round.
Proof.
  unfold fair, plain_round, owed. split; [repeat constructor; discriminate |].
  split; [| exists 1%nat; set_solver]. apply list.Forall_forall. intros a Ha. apply elem_of_app. by left.
Qed.

Lemma fair_service_ends_witness :
  exists s, acts 2 [MainStep; WaiterSignal] initial = Some s /\
    main (after 2 (fun _ => plain_round) 20 s) = Exited /\
    exists k, let s' := after 2 (fun _ => plain_round) k s in
      main s' = Exited \/ lost_wakeup s' \/ lost_stop s' \/ stuck_source 2 s'.
Proof.
  eexists. split; [vm_compute; reflexivity |]. split; [vm_compute; reflexivity |].
  apply (fair_service_ends 2).
  - eapply (acts_reachable 2 [MainStep; WaiterSignal]); [apply initial_reachable | vm_compute; reflexivity].
  - discriminate.
  - intros _. apply plain_round_fair.
Defined.
