(* ===== verification/ServiceRefinement.v ===== *)
(** * The detailed threads are a run of the transition system

    System.v runs the shutdown over the real engine and dispatcher, a list of
    thread steps at a time; ServiceMachine.v interleaves atomic actions of
    threads that only count.  Every step of the former is a few actions of the
    latter, so a shutdown of System.v ends in a reachable state of the machine,
    and what is proved of those holds of it. *)
From stdpp Require Import relations.
From S2P Require Import Prelude Cxx.
From S2P Require Import ServiceMachine.
From S2P Require Import Signal RuleInterface Health PipelineInterface.
From S2P Require Import Dedup Dispatcher Engine Rules Lifecycle System.

(** ** The abstraction *)

Section Tracks.
Context {R Q C : Type} `{IRiskRule R} `{RingBuffer Q} `{IAlertChannel C}.

(** The machine's engine and dispatcher are those of [r]. *)
Record tracks (capacity : nat) (s : Machine) (r : Threads R Q C) : Prop := {
  tr_capacity : rb_capacity (input_queue (run_pipeline r)) = capacity;
  tr_ring : ring s = is_stop_pill <$> rb_contents (input_queue (run_pipeline r));
  tr_drain : drain s = drain_mode (run_pipeline r);
  tr_engine : ServiceMachine.engine s = if finished (engine (run_pipeline r)) then EEnded else ETest;
  tr_engine_running : engine_running s = Engine.running (engine (run_pipeline r));
  tr_alerts : alerts s = length (queue (run_dispatcher (sink (run_pipeline r))));
  tr_dispatcher : ServiceMachine.dispatcher s = if run_finished (sink (run_pipeline r)) then DEnded else DLoop;
  tr_dispatcher_running : dispatcher_running s = Dispatcher.running (run_dispatcher (sink (run_pipeline r)));
}.

(** The same, with the main thread at [pc] and the event source about to push at
    least [n] logs. *)
Record stands (capacity : nat) (pc : MainPc) (late : bool) (n : nat) (s : Machine) (r : Threads R Q C) : Prop := {
  st_tracks : tracks capacity s r;
  st_main : main s = pc;
  st_stopped : stopped s = (rank StopSource <=? rank pc)%nat;
  st_timed_out : timed_out s = late;
  st_exit : exit_code s = 0;
  st_requested : ServiceMachine.stop_requested s = true;
  st_source : exists more, source s = SPushing more /\ (n <= more)%nat;
}.
End Tracks.

Definition leads (capacity : nat) (s s' : Machine) : Prop := exists l, acts capacity l s = Some s'.

Lemma acts_app capacity l1 l2 s : acts capacity (l1 ++ l2) s = s' ← acts capacity l1 s; acts capacity l2 s'.
Proof.
  revert s; induction l1 as [| a l1 IH]; intros s; [done |]. cbn.
  destruct (act capacity a s); [apply IH | done].
Qed.

#[export] Instance leads_trans capacity : Transitive (leads capacity).
Proof. intros s1 s2 s3 [l1 H1] [l2 H2]. exists (l1 ++ l2). by rewrite acts_app, H1. Qed.

#[export] Instance leads_refl capacity : Reflexive (leads capacity).
Proof. intros s. by exists []. Qed.

Section Facts.
Context {R Q C : Type} `{!IRiskRule R, !RiskRuleLaws R} `{!RingBuffer Q, !RingBufferLaws Q}
  `{!IAlertChannel C, CL : !ChannelLaws C}.
Implicit Types (r : Threads R Q C) (evs : list thread_step).

(** ** A step of a worker *)

Lemma dispatch_length l (dr : Dispatcher.Run C) :
  let dr' := for_each sink_dispatch l dr in
  length (queue (run_dispatcher dr')) = (length (queue (run_dispatcher dr)) + length l)%nat /\
  run_finished dr' = run_finished dr /\
  Dispatcher.running (run_dispatcher dr') = Dispatcher.running (run_dispatcher dr) /\
  Dispatcher.heartbeat (run_dispatcher dr') = Dispatcher.heartbeat (run_dispatcher dr).
Proof.
  revert dr; induction l as [| a l IH]; intros dr; cbn zeta; [cbn; auto with lia |].
  rewrite for_each_cons. destruct (IH (sink_dispatch a dr)) as (-> & -> & -> & ->).
  cbn. rewrite length_app. cbn. auto with lia.
Qed.
Lemma for_each_dispatch l (m : gmap string Z) (dr : Dispatcher.Run C) :
  (for_each (fun a '(m, d) => (alter Z.succ (al_rule_type a) m, sink_dispatch a d)) l (m, dr)).2 =
  for_each sink_dispatch l dr.
Proof. revert m dr; induction l as [| a l IH]; intros m dr; [done |]. rewrite !for_each_cons. apply IH. Qed.

(** One iteration of the engine: the flags stay, and the queues move by one
    signal and by the alerts it raises. *)
Lemma run_iteration_shape env (p : Pipeline R Q (Dispatcher.Run C)) f p' :
  Engine.run_iteration env p = (f, p') ->
  Engine.running (engine p') = Engine.running (engine p) /\
  finished (engine p') = finished (engine p) /\
  rb_capacity (input_queue p') = rb_capacity (input_queue p) /\
  engine_heartbeat (engine p') = record (Engine.hb_now_ms env) <$> engine_heartbeat (engine p) /\
  match rb_contents (input_queue p) with
  | [] => p' = mkPipeline (engine p') (rules p) (input_queue p) (sink p) (drain_mode p) /\
          f = if drain_mode p then Engine.Break else Engine.Continue
  | sig :: sigs =>
      f = Engine.Continue /\ rb_contents (input_queue p') = sigs /\
      if is_stop_pill sig then sink p' = sink p /\ drain_mode p' = true
      else drain_mode p' = drain_mode p /\ exists l, sink p' = for_each sink_dispatch l (sink p)
  end.
Proof using RingBufferLaws0.
  unfold Engine.run_iteration. rewrite rb_front_spec.
  destruct (rb_contents (input_queue p)) as [| sig sigs] eqn:Hc; cbn [head].
  - destruct (drain_mode p); intros [= <- <-]; cbn; auto 10.
  - destruct (rb_pop_spec _ _ _ Hc) as [Hp Hcap]. destruct (is_stop_pill sig); [intros [= <- <-]; cbn; auto 10 |].
    destruct (for_each (evaluate_at sig) _ _) as [rules' l].
    match goal with |- context [for_each _ l (?m, sink p)] =>
      pose proof (for_each_dispatch l m (sink p)) as Hl; destruct (for_each _ l (m, sink p)) as [m' d'] end.
    intros [= <- <-]. cbn in *. split_and!; auto. exists l. by rewrite <- Hl.
Qed.

Lemma engine_step_leads capacity pc late n s r now :
  stands capacity pc late n s r ->
  exists s', leads capacity s s' /\ stands capacity pc late n s' (thread_step_run (EngineStep now) r).
Proof using RingBufferLaws0.
  destruct r as [p pushed]. intros [[Hcap Hring Hdr He Hef Hal Hd Hdf] Hm Hst Hto Hec Hreq Hso].
  destruct s as [m w so e d sr st rd tk sf ef df rg dr al ec tm]. cbn [thread_step_run Engine.step run_pipeline run_pushed] in *.
  cbn in Hring, Hdr, He, Hef, Hal, Hd, Hdf, Hm, Hst, Hto, Hec, Hreq, Hso. subst.
  destruct (finished (engine p)) eqn:Hfin; [eexists; split; [reflexivity |]; split; [split | ..]; cbn; by rewrite ?Hfin |].
  unfold loop_step. destruct (Engine.running (engine p)) eqn:Hrun; cbn [andb negb Engine.stop_requested].
  2: { eexists; split; [exists [EngineTest]; reflexivity |]. split; [split | ..]; cbn; auto. }
  destruct (Engine.run_iteration _ p) as [f p'] eqn:Hit.
  apply run_iteration_shape in Hit as (H1 & H2 & H3 & _ & Hq). rewrite Hfin in H2. rewrite Hrun in H1.
  destruct (rb_contents (input_queue p)) as [| sig sigs] eqn:Hc.
  - destruct Hq as [-> ->]. destruct (drain_mode p) eqn:Hdm;
      (eexists; split; [exists [EngineTest; EngineBody 0]; reflexivity |]);
      (split; [split | ..]); cbn in *; rewrite ?Hc, ?H1, ?H2; auto.
  - destruct Hq as (-> & Hsigs & Hq). destruct (is_stop_pill sig) eqn:Hp.
    + destruct Hq as [Hs Hdm]. eexists; split; [exists [EngineTest; EngineBody 0]; cbn; rewrite Hp; reflexivity |].
      split; [split | ..]; cbn in *; rewrite ?Hsigs, ?H1, ?H2, ?Hs; auto.
    + destruct Hq as [Hdm [l Hl]]. destruct (dispatch_length l (sink p)) as (Hlen & Hrf & Hrr & _).
      eexists; split; [exists [EngineTest; EngineBody (length l)]; cbn; rewrite Hp; reflexivity |].
      split; [split | ..]; cbn in *; rewrite ?Hsigs, ?H1, ?H2, ?Hl, ?Hlen, ?Hrf, ?Hrr; auto.
Qed.

Lemma dispatcher_step_leads capacity pc late n s r e :
  stands capacity pc late n s r ->
  exists s', leads capacity s s' /\ stands capacity pc late n s' (thread_step_run (DispatcherStep e) r).
Proof using CL.
  destruct r as [[en rs q [d f popped] dm] pushed]. intros [[Hcap Hring Hdr He Hef Hal Hd Hdf] Hm Hst Hto Hec Hreq Hso].
  destruct s as [m w so ee dd sr st rd tk sf ef df rg dr al ec tm].
  cbn in *. subst. unfold on_sink. cbn.
  destruct f; [eexists; split; [reflexivity |]; split; [split | ..]; cbn; auto |].
  unfold Dispatcher.run_iteration. cbn. rewrite orb_false_r.
  destruct (queue d) as [| a l] eqn:Hq; [destruct (Dispatcher.running d) eqn:Hrun; cbn [negb] |].
  - eexists; split; [reflexivity |]; split; [split | ..]; cbn; rewrite ?Hq, ?Hrun; auto.
  - eexists; split; [exists [DispatcherExit]; reflexivity |]; split; [split | ..]; cbn; rewrite ?Hq, ?Hrun; auto.
  - match goal with |- context [deliver ?e' a ?d1] =>
      destruct (deliver_spec e' a d1) as (Hdq & Hdr & _); set (d2 := deliver e' a d1) in * end.
    eexists; split; [exists [DispatcherDeliver]; reflexivity |]; split; [split | ..]; cbn in *; rewrite ?Hdq, ?Hdr; auto.
Qed.

Lemma has_room_true capacity s : (length (ring s) < capacity)%nat -> has_room capacity s = true.
Proof. apply Nat.ltb_lt. Qed.

Lemma source_step_leads capacity pc late n s r sig :
  is_stop_pill sig = false -> stands capacity pc late (S n) s r ->
  exists s', leads capacity s s' /\ stands capacity pc late n s' (thread_step_run (SourcePush sig) r).
Proof using RingBufferLaws0.
  destruct r as [p pushed]. intros Hp [[Hcap Hring Hdr He Hef Hal Hd Hdf] Hm Hst Hto Hec Hreq (more & Hso & Hle)].
  destruct s as [m w so ee dd sr st rd tk sf ef df rg dr al ec tm].
  cbn [thread_step_run Engine.step run_pipeline run_pushed] in *.
  cbn in Hring, Hdr, He, Hef, Hal, Hd, Hdf, Hm, Hst, Hto, Hec, Hreq, Hso. subst.
  pose proof (rb_try_push_spec sig (input_queue p)) as Hpush. destruct (rb_try_push sig _) as [q |].
  - destruct Hpush as (Hc & Hcap & Hlt). destruct more as [| more]; [lia |].
    eexists; split.
    { exists [ServiceMachine.SourcePush]. cbn -[has_room]. rewrite has_room_true; [reflexivity |].
      cbn. by rewrite length_fmap. }
    split; [split | ..]; cbn in *; rewrite ?Hc, ?fmap_app; cbn; rewrite ?Hp; auto.
    exists more. split; [done | lia].
  - eexists; split; [reflexivity |]. split; [split | ..]; cbn; auto. exists more. split; [done | lia].
Qed.
(** ** The threads between two actions of the main thread *)

Lemma run_threads_leads capacity pc late n evs : forall s r,
  pill_free evs -> stands capacity pc late (length (source_pushes evs) + n) s r ->
  exists s', leads capacity s s' /\ stands capacity pc late n s' (run_threads evs r).
Proof using CL RingBufferLaws0.
  induction evs as [| ev evs IH]; intros s r Hp Hs; [by exists s |].
  unfold run_threads. rewrite for_each_cons. fold (run_threads evs (thread_step_run ev r)).
  change (ev :: evs) with ([ev] ++ evs) in Hp. apply pushes_in_app_inv in Hp as [Hp1 Hp2].
  assert (exists s1, leads capacity s s1 /\
    stands capacity pc late (length (source_pushes evs) + n) s1 (thread_step_run ev r)) as (s1 & H1 & Hs1).
  { destruct ev as [sig | now | e].
    - apply source_step_leads; [by inversion Hp1 | done].
    - by apply engine_step_leads.
    - by apply dispatcher_step_leads. }
  destruct (IH s1 _ Hp2 Hs1) as (s2 & H2 & Hs2). exists s2. split; [by etransitivity | done].
Qed.

(** The system with the main thread at [pc]. *)
Definition stands_in (capacity : nat) (pc : MainPc) (late : bool) (s : Machine) (sys : System R Q C) : Prop :=
  stands capacity pc late (length (source_pushes (concat (turns sys).*2))) s (threads sys) /\
  pill_free (concat (turns sys).*2).

Lemma turn_leads capacity pc late ms s sys :
  stands_in capacity pc late s sys ->
  exists s', leads capacity s s' /\ stands_in capacity pc late s' (turn ms sys).
Proof using CL RingBufferLaws0.
  intros [Hs Hp]. unfold turn, stands_in. destruct sys as [r clock [| [delay evs] rest]]; cbn [turns threads] in *;
    [by exists s |].
  cbn [fmap list_fmap concat snd] in Hp, Hs. apply pushes_in_app_inv in Hp as [Hp1 Hp2].
  rewrite source_pushes_app, length_app in Hs.
  destruct (run_threads_leads _ _ _ _ _ _ _ Hp1 Hs) as (s' & H1 & H2). exists s'. auto.
Qed.

(** ** The actions of the main thread *)

Lemma pill_leads capacity late s sys sys' b :
  stands_in capacity PushPill late s sys -> push_pill sys = (sys', b) ->
  exists s', leads capacity s s' /\
    stands_in capacity (if b then AwaitEngine else PushPill) late s' sys'.
Proof using CL RingBufferLaws0.
  intros Hs. destruct (turn_leads _ _ _ 0 _ _ Hs) as (s1 & H1 & Hs1 & Hp). unfold push_pill.
  destruct (turn 0 sys) as [[p pushed] clock rest]. cbn [turns threads run_pipeline] in *.
  pose proof (rb_try_push_spec poison_pill (input_queue p)) as Hpush.
  destruct (rb_try_push poison_pill (input_queue p)) as [q |] eqn:Hq; intros [= <- <-]; [| by exists s1].
  destruct Hpush as (Hc & Hcap & Hlt). unfold stands_in. cbn [on_threads threads turns Engine.step run_pipeline run_pushed] in *. rewrite Hq.
  destruct Hs1 as [[Hca Hring Hdr He Hef Hal Hd Hdf] Hm Hst Hto Hec Hreq Hso].
  destruct s1 as [m w so ee dd sr st rd tk sf ef df rg dr al ec tm].
  cbn in Hca, Hring, Hdr, He, Hef, Hal, Hd, Hdf, Hm, Hst, Hto, Hec, Hreq, Hso. subst.
  eexists; split.
  { etransitivity; [exact H1 |]. exists [MainStep]. cbn -[has_room]. rewrite has_room_true; [reflexivity |].
    cbn. by rewrite length_fmap. }
  split; [| done]. split; [split | ..]; cbn in *; rewrite ?Hc, ?fmap_app; auto.
Qed.

Lemma push_loop_leads capacity late fuel start timeout : forall s sys sys' b,
  stands_in capacity PushPill late s sys -> push_loop fuel start timeout sys = Some (sys', b) ->
  exists s', leads capacity s s' /\
    stands_in capacity (if b then AwaitEngine else PushPill) late s' sys'.
Proof using CL RingBufferLaws0.
  induction fuel as [| fuel IH]; intros s sys sys' b Hs; [done |]. cbn [push_loop].
  destruct (_ <? _); [| intros [= <- <-]; by exists s].
  change (try_push_pill sys) with (push_pill sys). destruct (push_pill sys) as [sys1 b1] eqn:E.
  destruct (pill_leads _ _ _ _ _ _ Hs E) as (s1 & H1 & Hs1).
  destruct b1; [intros [= <- <-]; by exists s1 |]. intros Hl.
  destruct (turn_leads _ _ _ 1 _ _ Hs1) as (s2 & H2 & Hs2).
  destruct (IH _ _ _ _ Hs2 Hl) as (s3 & H3 & Hs3). exists s3. split; [| done].
  by do 2 (etransitivity; [eassumption |]).
Qed.

Lemma drain_loop_leads capacity late poll fuel start timeout : forall s sys sys' b,
  stands_in capacity AwaitEngine late s sys -> drain_loop poll fuel start timeout sys = Some (sys', b) ->
  exists s', leads capacity s s' /\ stands_in capacity AwaitEngine late s' sys' /\
    (b = true -> finished (engine (run_pipeline (threads sys'))) = true).
Proof using CL RingBufferLaws0.
  induction fuel as [| fuel IH]; intros s sys sys' b Hs; [done |]. cbn [drain_loop].
  destruct (_ <? _); [| intros [= <- <-]; by exists s].
  change (is_finished sys) with (finished (engine (run_pipeline (threads sys)))).
  destruct (finished _) eqn:E; [intros [= <- <-]; by exists s |]. intros Hl.
  destruct (turn_leads _ _ _ poll _ _ Hs) as (s2 & H2 & Hs2).
  destruct (IH _ _ _ _ Hs2 Hl) as (s3 & H3 & Hs3). exists s3. split; [by etransitivity | done].
Qed.
Ltac by_finished := try match goal with H : finished _ = true |- _ => rewrite H end.

(** One action of the main thread that leaves the workers alone, or clears a
    flag. *)
Ltac main_leads Hs H1 a :=
  let Hp := fresh in let Hst := fresh in
  destruct Hs as [Hst Hp];
  match type of Hst with stands _ _ _ _ ?s1 (threads ?sys1) =>
    destruct sys1 as [[p pushed] clock rest]; cbn [turns threads run_pipeline] in *;
    destruct Hst as [[Hca Hring Hdr He Hef Hal Hd Hdf] Hm Hst Hto Hec Hreq Hso];
    destruct s1 as [m w so ee dd sr st rd tk sf ef df rg dr al ec tm];
    cbn in Hca, Hring, Hdr, He, Hef, Hal, Hd, Hdf, Hm, Hst, Hto, Hec, Hreq, Hso; subst;
    eexists; split; [etransitivity; [exact H1 | exists [a]; cbn; by_finished; reflexivity] |];
    split; [split; [split | ..]; cbn in *; by_finished; auto | done]
  end.

Lemma stop_engine_leads capacity late s sys :
  stands_in capacity StopEngine late s sys ->
  exists s', leads capacity s s' /\ stands_in capacity StopDispatcher late s' (stop_engine sys).
Proof using CL RingBufferLaws0.
  intros Hs. destruct (turn_leads _ _ _ 0 _ _ Hs) as (s1 & H1 & Hs1). cbn [stop_engine System_Process].
  main_leads Hs1 H1 MainStep.
Qed.

Lemma stop_dispatcher_leads capacity late s sys :
  stands_in capacity StopDispatcher late s sys ->
  exists s', leads capacity s s' /\ stands_in capacity JoinSource late s' (stop_dispatcher sys).
Proof using CL RingBufferLaws0.
  intros Hs. destruct (turn_leads _ _ _ 0 _ _ Hs) as (s1 & H1 & Hs1). cbn [stop_dispatcher System_Process].
  main_leads Hs1 H1 MainStep.
Qed.
Lemma stop_source_leads capacity late s sys :
  stands_in capacity StopSource late s sys ->
  exists s', leads capacity s s' /\ stands_in capacity PushPill late s' (stop_source sys).
Proof using CL RingBufferLaws0.
  intros Hs. destruct (turn_leads _ _ _ 0 _ _ Hs) as (s1 & H1 & Hs1). cbn [stop_source System_Process].
  main_leads Hs1 H1 MainStep.
Qed.

Lemma timeout_leads capacity pc late s sys :
  pc = PushPill \/ pc = AwaitEngine -> stands_in capacity pc late s sys ->
  exists s', leads capacity s s' /\ stands_in capacity StopEngine true s' sys.
Proof. intros [-> | ->] Hs; pose proof (leads_refl capacity s) as H1; main_leads Hs H1 MainTimeout. Qed.

Lemma drained_leads capacity late s sys :
  finished (engine (run_pipeline (threads sys))) = true -> stands_in capacity AwaitEngine late s sys ->
  exists s', leads capacity s s' /\ stands_in capacity StopEngine late s' sys.
Proof. intros Hfin Hs; pose proof (leads_refl capacity s) as H1. destruct sys. main_leads Hs H1 MainStep. Qed.

Lemma stop_risk_engine_leads capacity fuel timeout s sys sys' drained :
  stands_in capacity PushPill false s sys ->
  stop_risk_engine fuel timeout sys = Some (sys', drained) ->
  exists s', leads capacity s s' /\ stands_in capacity StopDispatcher (negb drained) s' sys'.
Proof using CL RingBufferLaws0.
  intros Hs. unfold stop_risk_engine.
  destruct (push_loop _ _ _ sys) as [[sys1 pushed] |] eqn:Hpush; [| done]. cbn [mbind option_bind].
  destruct (push_loop_leads _ _ _ _ _ _ _ _ _ Hs Hpush) as (s1 & H1 & Hs1).
  intros ([sys2 b] & Hdrain & [= <- <-])%bind_Some.
  assert (exists s2, leads capacity s1 s2 /\ stands_in capacity StopEngine (negb b) s2 sys2) as (s2 & H2 & Hs2).
  { destruct pushed; [| simplify_eq; eapply (timeout_leads _ PushPill); eauto].
    destruct (drain_loop_leads _ _ _ _ _ _ _ _ _ _ Hs1 Hdrain) as (s2 & H2 & Hs2 & Hfin).
    destruct b.
    - destruct (drained_leads _ _ _ _ (Hfin eq_refl) Hs2) as (s3 & H3 & Hs3). exists s3. split; [by etransitivity | done].
    - destruct (timeout_leads _ AwaitEngine _ _ _ (or_intror eq_refl) Hs2) as (s3 & H3 & Hs3).
      exists s3. split; [by etransitivity | done]. }
  destruct (stop_engine_leads _ _ _ _ Hs2) as (s3 & H3 & Hs3). exists s3. split; [| done].
  by do 2 (etransitivity; [eassumption |]).
Qed.

Lemma stop_orderly_leads capacity fuel hs timeout s sys sys' stopped drained :
  stands_in capacity StopSource false s sys ->
  stop_orderly fuel (mkModules hs true true true) timeout false sys = Some (stopped, sys', drained) ->
  exists s', leads capacity s s' /\ stands_in capacity JoinSource (negb drained) s' sys'.
Proof using CL RingBufferLaws0.
  intros Hs. unfold stop_orderly. cbn [health_server event_source risk_engine dispatcher].
  assert (exists s1, leads capacity s s1 /\
    stands_in capacity StopSource false s1 (if hs then stop_health sys else sys)) as (s0 & H0 & Hs0).
  { destruct hs; [by apply turn_leads | by exists s]. }
  destruct (stop_source_leads _ _ _ _ Hs0) as (s1 & H1 & Hs1).
  destruct (stop_risk_engine _ _ _) as [[sys2 b] |] eqn:Hstop; [| done]. intros [= <- <- <-].
  destruct (stop_risk_engine_leads _ _ _ _ _ _ _ Hs1 Hstop) as (s2 & H2 & Hs2).
  destruct (stop_dispatcher_leads _ _ _ _ Hs2) as (s3 & H3 & Hs3). exists s3. split; [| done].
  by do 3 (etransitivity; [eassumption |]).
Qed.

(** ** From the start to the end of the shutdown *)

(** The threads are started, and a stop is asked for at once. *)
Definition entered (logs : nat) : list Action :=
  [MainStep; MainStep; MainStep; MainStep; DispatcherEnter; EngineEnter; SourceEnter; SourceFetch logs;
   WaiterSignal; WaiterStore; WaiterNotify].

Lemma start_stands metrics hb (rs : list R) (q : Q) (d0 : AlertDispatcher C) n :
  rb_contents q = [] -> queue d0 = [] ->
  exists s, leads (rb_capacity q) initial s /\
    stands (rb_capacity q) TestStop false n s (start_threads metrics hb rs q d0).
Proof.
  intros Hq Hd. destruct (register_all_flags rs (seq 0 (length rs)) (make_engine metrics hb)) as (Hr & Hf & _).
  eexists. split; [exists (entered n); vm_compute; reflexivity |].
  split; [split | ..]; cbn; rewrite ?Hq, ?Hd, ?Hr, ?Hf; auto. by exists n.
Qed.

Lemma begin_leads capacity s sys :
  stands_in capacity TestStop false s sys ->
  exists s', leads capacity s s' /\ stands_in capacity StopSource false s' sys.
Proof.
  intros [[[Hca Hring Hdr He Hef Hal Hd Hdf] Hm Hst Hto Hec Hreq Hso] Hp].
  destruct s as [m w so ee dd sr st rd tk sf ef df rg dr al ec tm].
  cbn in Hca, Hring, Hdr, He, Hef, Hal, Hd, Hdf, Hm, Hst, Hto, Hec, Hreq, Hso; subst.
  eexists; split; [exists [MainStep; MainStep; MainStep]; reflexivity |].
  split; [split; [split | ..]; cbn; auto | done].
Qed.
End Facts.

Section Properties.
Context {R Q C : Type} `{!IRiskRule R, !RiskRuleLaws R} `{!RingBuffer Q, !RingBufferLaws Q}
  `{!IAlertChannel C, CL : !ChannelLaws C}.

(** C8: The shutdown of the real engine and dispatcher is a run of the transition
    system: whatever the threads did before it and do meanwhile, when
    [stop_orderly_] returns some reachable state has the main thread about to
    join, the same pills and number of signals in the ring, the same flags and
    the same number of alerts, and has met a deadline exactly when the shutdown
    says that the engine did not drain. *)
Theorem shutdown_is_a_run (metrics : bool) (hb : option Heartbeat) (rs : list R) (q : Q)
    (d0 : AlertDispatcher C) (before : list thread_step) (clock : Z)
    (meanwhile : list (nat * list thread_step)) (fuel : nat) (hs : bool) (timeout : Z)
    (stopped drained : bool) (sys : System R Q C)
    (Hempty : rb_contents q = [] /\ queue d0 = [])
    (Hsource : pill_free before /\ pill_free (concat meanwhile.*2)) :
  stop_orderly fuel (mkModules hs true true true) timeout false
    (mkSystem (run_threads before (start_threads metrics hb rs q d0)) clock meanwhile) =
    Some (stopped, sys, drained) ->
  exists s, reachable (rb_capacity q) s /\ main s = JoinSource /\
    tracks (rb_capacity q) s (threads sys) /\ timed_out s = negb drained.
Proof using CL RingBufferLaws0.
  intros Hstop. destruct Hempty as [Hq Hd], Hsource as [Hb Hm].
  destruct (start_stands metrics hb rs q d0
    (length (source_pushes before) + length (source_pushes (concat meanwhile.*2))) Hq Hd) as (s0 & H0 & Hs0).
  destruct (run_threads_leads _ _ _ _ _ _ _ Hb Hs0) as (s1 & H1 & Hs1).
  destruct (begin_leads (rb_capacity q) s1 (mkSystem (run_threads before (start_threads metrics hb rs q d0)) clock meanwhile))
    as (s2 & H2 & Hs2); [by split |].
  destruct (stop_orderly_leads _ _ _ _ _ _ _ _ _ Hs2 Hstop) as (s3 & H3 & [Hs3 _]).
  exists s3. destruct Hs3 as [Ht Hmain _ Hto _ _ _]. split_and!; [| done..].
  assert (leads (rb_capacity q) initial s3) as [l Hl] by (by do 3 (etransitivity; [eassumption |])).
  eapply acts_reachable; [apply initial_reachable | exact Hl].
Qed.
End Properties.

Lemma shutdown_is_a_run_witness :
  exists s, reachable 4 s /\ main s = JoinSource /\ tracks 4 s (threads sample_stopped) /\
    timed_out s = false.
Proof.
  destruct (shutdown_is_a_run true None sample_rules (mkListQueue 4 []) sample_dispatcher
    sample_threads_before 0 sample_meanwhile 6000 false 5000 true true sample_stopped)
    as (s & Hs & Hm & Ht & Hto).
  - split; reflexivity.
  - split; repeat constructor.
  - vm_compute. reflexivity.
  - exists s. split; [exact Hs |]. split; [exact Hm |]. split; [exact Ht | exact Hto].
Defined.
