(* ===== verification/AppConfig.v ===== *)
(** * Configuration shared by the service and the backtest

    The service's configuration; the deduplication windows and the rule types, which [App::init_modules_]
    ([src/app/app.cpp]) and [BacktestApp::run] ([src/backtest/backtest_app.cpp])
    write out alike, and the choice of the chain adapter. *)
From S2P Require Import Prelude Cxx Signal EventSource Json Rpc Adapter Dedup.

(** ** The configuration of the service *)

(** The struct of [app.hpp]; of the event source's part the pauses are left
    out. *)
Record AppConfig := mkAppConfig {
  ac_chain : string;
  ac_database_url : string;
  ac_rpc_url : string;
  ac_event_source_cfg : EventSourceConfig;
  ac_debug : bool;
  ac_readiness_file : string;
  ac_shutdown_drain_timeout : Z;
  ac_metrics_listen_address : string;
  ac_health_listen_address : string;
}.

(** The defaults of the event source's part. *)
Definition default_source_config : EventSourceConfig := mkEventSourceConfig 0 1000 1 0.

(** [cfg_.event_source_cfg.start_block = last]. *)
Definition app_source_config (cfg : AppConfig) (start_block : Z) : EventSourceConfig :=
  let c := ac_event_source_cfg cfg in
  mkEventSourceConfig start_block (max_block_range c) (min_block_range c) (backtest_end_block c).

(** A service that follows the head of its chain, in ranges that fit 64 bits. *)
Record live_config (cfg : AppConfig) : Prop := {
  lc_live : backtest_end_block (ac_event_source_cfg cfg) = 0;
  lc_min : min_block_range (ac_event_source_cfg cfg) = 1;
  lc_max : 1 <= max_block_range (ac_event_source_cfg cfg) < 2 ^ 64;
}.

(** ** Deduplication windows, the same in both programs *)

Definition app_dedup_config : DeduplicatorConfig :=
  mkDeduplicatorConfig 60000
    (list_to_map [("large_transfer", 60000); ("governance", 3600000); ("mint_burn", 60000);
                  ("approval", 300000); ("bridge_transfer", 60000); ("oracle_update", 300000)])
    100.

Definition app_rule_types : list string :=
  ["large_transfer"; "governance"; "mint_burn"; "approval"; "bridge_transfer"; "oracle_update"].

(** Every rule type has a window of its own. *)
Lemma app_windows n : n ∈ app_rule_types -> is_Some (per_rule_window_ms app_dedup_config !! n).
Proof.
  intros Hn. eapply (list.Forall_forall (fun n => is_Some (_ !! n))); [|exact Hn].
  repeat constructor; vm_compute; by eexists.
Qed.

(** ** The chain adapter *)

(** [make_unique<JsonRpcClient>] and the chain of tests on the name; [unsupported]
    is what the last branch throws. *)
Definition make_adapter {T : Type} (chain rpc_url unsupported : string) (metrics : bool) (t : T)
    : result (EvmAdapter T) :=
  rpc ← make_client rpc_url metrics;
  if decide (chain = "arbitrum") then Ok (ArbitrumAdapter rpc t)
  else if decide (chain = "ethereum") then Ok (EthereumAdapter rpc t)
  else Throw (RuntimeError unsupported).

Lemma make_adapter_Ok {T : Type} chain rpc_url unsupported metrics (t : T) a :
  make_adapter chain rpc_url unsupported metrics t = Ok a ->
  network a = t /\ chain = chain_name (adapter_chain a) /\ str_empty rpc_url = false.
Proof.
  unfold make_adapter, make_client. intros Ha. apply bind_Ok_inv in Ha as (c & Hc & Ha).
  destruct (str_empty rpc_url); [done|].
  destruct (decide _) as [->|]; [by injection Ha as <-|].
  destruct (decide _) as [->|]; [by injection Ha as <-|done].
Qed.
