(* ===== verification/Backtest.v ===== *)
(** * The backtest application

    Model of [src/backtest/backtest_app.cpp]: the modules [BacktestApp::run]
    builds, in its order, and how it ends once the event source has exited.  The
    threads in between are those of System.v and EventSource.v. *)
From S2P Require Import Prelude Cxx Hex Signal Normalize RuleInterface.
From S2P Require Import LargeTransferRule GovernanceRule MintBurnRule ApprovalRule.
From S2P Require Import BridgeTransferRule OracleUpdateRule Dedup Health PipelineInterface.
From S2P Require Import Dispatcher Engine Rules EventSource Json Rpc Adapter.
From S2P Require Import Database RuleLoaders BacktestConfig Security Formatter Webhooks Channels.
From S2P Require Import Lifecycle System AppConfig.

Definition kRingSize : nat := Z.to_nat 65536.
Definition kDrainTimeout : Z := 30000.

(** ** [BacktestApp::run]: the rules of the sections that are present *)

(** [if (!container.empty())]. *)
Definition list_nonempty {X : Type} (l : list X) : bool :=
  match l with [] => false | _ => true end.
Definition map_nonempty {K C : Type} `{Countable K} (m : gmap K C) : bool :=
  negb (bool_decide (m = ∅)).

Definition active_rule_types (cfg : BacktestConfig) : list string :=
  (if list_nonempty (bc_large_transfers cfg) then ["large_transfer"] else []) ++
  (if map_nonempty (bc_governance cfg) then ["governance"] else []) ++
  (if map_nonempty (bc_mint_burn cfg) then ["mint_burn"] else []) ++
  (if map_nonempty (bc_approvals cfg) then ["approval"] else []) ++
  (if map_nonempty (bt_configs (bc_bridges cfg)) then ["bridge_transfer"] else []) ++
  (if map_nonempty (bc_oracles cfg) then ["oracle_update"] else []).

Definition backtest_rules (cfg : BacktestConfig) : list Rule :=
  (if list_nonempty (bc_large_transfers cfg)
   then [RLargeTransfer (mkLargeTransferRule (bc_large_transfers cfg))] else []) ++
  (if map_nonempty (bc_governance cfg)
   then [RGovernance (mkGovernanceRule (bc_governance cfg))] else []) ++
  (if map_nonempty (bc_mint_burn cfg)
   then [RMintBurn (mkMintBurnRule (bc_mint_burn cfg))] else []) ++
  (if map_nonempty (bc_approvals cfg)
   then [RApproval (mkApprovalRule (bc_approvals cfg))] else []) ++
  (if map_nonempty (bt_configs (bc_bridges cfg))
   then [RBridgeTransfer (mkBridgeTransferRule (bt_configs (bc_bridges cfg))
           (bt_addresses (bc_bridges cfg)) (bt_names (bc_bridges cfg)))] else []) ++
  (if map_nonempty (bc_oracles cfg)
   then [ROracleUpdate (mkOracleUpdateRule (bc_oracles cfg) ∅)] else []).

(** ** The modules *)

Section Setup.
Context {J F T : Type} `{Json J} `{Stream F} `{Network T} `{Evp}.

Record BacktestApp := mkBacktestApp {
  ba_adapter : EvmAdapter T;
  ba_source : EventSource;
  ba_dispatcher : AlertDispatcher (Channel F T);
  ba_rules : list Rule;
}.

Definition source_config (cfg : BacktestConfig) : EventSourceConfig :=
  mkEventSourceConfig (bc_start_block cfg) (bc_max_block_range cfg) 1 (bc_end_block cfg).

(** What the file channel's constructor needs of the file system: the parent of a
    path, [create_directories] and the opening of the file. *)
Variable parent_path : string -> option string.
Variable create_directories : string -> option string.
Variable open_file : string -> option F.

(** [t] is the network the RPC client talks to. *)
Definition backtest_setup (cfg : BacktestConfig) (rpc_url : string) (t : T) : result BacktestApp :=
  adapter ← make_adapter (bc_chain cfg) rpc_url
              ("BacktestApp: unsupported chain '" +:+ bc_chain cfg +:+ "'")%stdpp false t;
  let '(adapter, chain_id) := chainId adapter in
  chain_id ← chain_id;
  let source := make_source (source_config cfg) chain_id in
  let dispatcher := make_dispatcher false app_dedup_config (active_rule_types cfg) None in
  channel ← make_file_channel (bc_output_path cfg) (parent_path (bc_output_path cfg))
              create_directories open_file;
  Ok (mkBacktestApp adapter source (add_channel (Some (CFile channel)) dispatcher)
        (backtest_rules cfg)).

(** The first file channel's count, as it is printed at the end. *)
Definition backtest_alert_count (d : AlertDispatcher (Channel F T)) : Z :=
  match channels d with CFile c :: _ => alert_count c | _ => 0 end.
End Setup.
Arguments BacktestApp : clear implicits.

(** ** The end of [BacktestApp::run] *)

Section Finish.
Context {W : Type} `{Process W}.

(** From the exit of the event source to the stop of the dispatcher: the flags are
    [pushed] and the second [is_finished()].  The joins are left to the steps the
    threads take. *)
Definition backtest_finish (fuel : nat) (w : W) : option (W * bool * bool) :=
  '(w, pushed) ← push_loop fuel (steady_ms w) kDrainTimeout w;
  '(w, _) ← drain_loop 20 fuel (steady_ms w) kDrainTimeout w;
  let finished := is_finished w in
  Some (stop_dispatcher (stop_engine w), pushed, finished).
End Finish.

(** * Facts *)

(** A normalised signal is never a stop pill. *)
Lemma normalize_not_pill raw cid ts u s : normalize raw cid ts u = Ok s -> is_stop_pill s = false.
Proof.
  unfold normalize. intros Hn. invert_result.
  destruct (classify_payload _) as [t p] eqn:Hc. invert_result.
  unfold classify_payload in Hc.
  unfold is_stop_pill. cbn [sig_type sig_payload]. destruct t; try done. destruct p; try done.
  exfalso. repeat (case_match; simplify_eq).
Qed.

Lemma receive_CFile {J F T : Type} `{!Json J, !Stream F, !Network T, !Evp} l : forall c : FileAlertChannel F,
  receive (C := Channel F T) (H := Channel_IAlertChannel (J := J)) (CFile c) l = CFile (receive c l).
Proof.
  induction l as [|a l IH]; intros c; [done|]. unfold receive. rewrite !for_each_cons. apply IH.
Qed.

Section SetupFacts.
Context {J F T : Type} `{!Json J, !Stream F, !Network T, !Evp}.
Variable parent_path : string -> option string.
Variable create_directories : string -> option string.
Variable open_file : string -> option F.

Lemma backtest_setup_Ok cfg rpc_url t (b : BacktestApp F T) :
  backtest_setup (J := J) parent_path create_directories open_file cfg rpc_url t = Ok b ->
  (exists chain_id, ba_source b = make_source (source_config cfg) chain_id) /\
  ba_rules b = backtest_rules cfg /\
  queue (ba_dispatcher b) = [] /\
  exists fc, channels (ba_dispatcher b) = [CFile fc] /\ alert_count fc = 0.
Proof.
  unfold backtest_setup. intros Hb. apply bind_Ok_inv in Hb as (a & _ & Hb).
  destruct (chainId a) as [a' cid]. apply bind_Ok_inv in Hb as (chain_id & _ & Hb).
  apply bind_Ok_inv in Hb as (fc & Hfc & [= <-]). split_and!; [by eexists|done|done|].
  exists fc. split; [done|]. unfold make_file_channel in Hfc.
  destruct (_ ≫= _) as [[p m]|]; [done|]. destruct (open_file _); [by injection Hfc as <-|done].
Qed.

(** The world the event source of a backtest starts in. *)
Definition backtest_world {Q : Type} (b : BacktestApp F T) (out : Q) (consumer : list nat)
    : World (EvmAdapter T) Q :=
  mkWorld (ba_source b) (EventSource.mkInstruments false 0 0 0 None None) None (ba_adapter b) out
    consumer 0 [].

Lemma backtest_world_wf cfg cid {Q : Type} (b : BacktestApp F T) (out : Q) consumer :
  backtest_config_ok cfg -> bc_end_block cfg <= 2 ^ 63 ->
  ba_source b = make_source (source_config cfg) cid -> wf (backtest_world b out consumer).
Proof.
  intros Hcfg Hend Hs. destruct (ok_blocks _ Hcfg), (ok_range _ Hcfg). pose proof (ok_end _ Hcfg).
  unfold wf. cbn [source backtest_world]. rewrite Hs. unfold is_u64. cbn. lia.
Qed.
End SetupFacts.

(** The source has exited after the whole range. *)
Lemma backtest_source_exited {J F T Q : Type} `{!Json J, !JsonLaws J, !Stream F, !Network T}
    `{!RingBuffer Q, !RingBufferLaws Q} (system_ms steady_ms : nat -> Z) (uninit : nat -> list Z)
    (blocks : Z -> list RawLog) cfg cid (b : BacktestApp F T) (out : Q) consumer stops w' :
  backtest_config_ok cfg -> bc_end_block cfg <= 2 ^ 63 ->
  ba_source b = make_source (source_config cfg) cid ->
  serves (ba_adapter b) blocks ->
  logs_normalise uninit blocks cid -> Forall (fun s => s = false) stops ->
  EventSource.run system_ms steady_ms uninit stops (backtest_world b out consumer) = (w', Exited) ->
  Forall2 (signal_of cid) (chain_logs blocks (bc_start_block cfg) (bc_end_block cfg + 1)) (pushed w').
Proof.
  intros Hcfg Hend Hs Hserve Hnorm Hst Hrun. set (w := backtest_world b out consumer) in *.
  assert (wf w) as Hwf by by eapply backtest_world_wf.
  pose proof (ok_blocks _ Hcfg) as [H0 Hlt].
  assert (source w = make_source (source_config cfg) cid) as Hsw by done.
  assert (tracked (ba_adapter b) w) as Htr by (apply (tracked_fresh w); by rewrite Hsw).
  assert (next_block (source w') = bc_end_block cfg + 1) as Hnext.
  { eapply backtest_exit_cursor in Hrun; rewrite ?Hsw in *; cbn in *; try done; lia. }
  apply (run_delivered _ _ _ (ba_adapter b) blocks) in Hrun as (sigs & extra & [_ Hp Hall Hex]);
    [|done|by rewrite Hsw|done|done|right; rewrite Hsw; cbn; lia].
  cbn in Hex. subst extra. rewrite app_nil_r, Hnext, Hsw in Hall. cbn in Hall. by rewrite Hp.
Qed.

Section FinishFacts.
Context {R Q C : Type} `{!IRiskRule R, !RiskRuleLaws R} `{!RingBuffer Q, !RingBufferLaws Q}
  `{!IAlertChannel C, CL : !ChannelLaws C}.

Lemma backtest_finish_drained (P : Signal -> Prop) fuel (s s' : System R Q C) :
  clean P s -> backtest_finish fuel s = Some (s', true, true) ->
  drained_shutdown P (threads s) (threads s').
Proof.
  intros Hc. unfold backtest_finish.
  destruct (push_loop _ _ _ _) as [[s1 pushed]|] eqn:Hpush; cbn [mbind option_bind]; [|done].
  destruct (drain_loop _ _ _ _ _) as [[s2 drained]|] eqn:Hdrain; cbn [mbind option_bind]; [|done].
  intros [= <- -> Hf]. apply (drain_loop_moved P) in Hdrain as [Hm _].
  by eapply drained_shutdown_intro.
Qed.

(** A backtest that drained: exactly the signals of the source, then the pill,
    have been processed. *)
Lemma backtest_finish_delivers metrics hb (rs : list R) (q : Q) (d0 : AlertDispatcher C) r before after
    clock meanwhile fuel (s' : System R Q C) :
  rb_contents q = [] -> queue d0 = [] -> pill_free before ->
  r = run_threads before (start_threads metrics hb rs q d0) ->
  Forall (fun t => pushes_in (fun _ => False) t.2) meanwhile -> pushes_in (fun _ => False) after ->
  backtest_finish fuel (mkSystem r clock meanwhile) = Some (s', true, true) ->
  (length (queue (run_dispatcher (sink (run_pipeline (threads s'))))) <
     length (dispatcher_envs after))%nat ->
  all_delivered rs d0 r (run_threads after (threads s')) (run_pushed r ++ [poison_pill]).
Proof using CL RiskRuleLaws0 RingBufferLaws0.
  intros Hq Hd Hbefore Hr Hmean Hafter Hfin Hjoin.
  pose proof (backtest_finish_drained (fun _ => False) fuel (mkSystem r clock meanwhile) s' Hmean Hfin)
    as Hdrained. cbn [threads] in Hdrained.
  destruct (joined_delivered (fun _ => False) metrics hb rs q d0 r (threads s') before after
    ltac:(done) Hq Hd Hbefore Hr Hdrained Hjoin) as (l & Hok).
  assert (l = run_pushed r ++ [poison_pill]) as <-; [|exact Hok].
  destruct Hok as [[since Hs] Hp _ _ _ _].
  rewrite run_threads_no_pushes, (drained_shutdown_pushed r) in Hp by done.
  apply (anti_symm prefix); [done|].
  destruct since as [|x since]; [by rewrite app_nil_r in Hs|].
  exfalso. pose proof (prefix_length _ _ (transitivity Hs Hp)) as Hlen.
  rewrite !length_app in Hlen. cbn in Hlen. lia.
Qed.

(** A pill raises no alert. *)
Lemma spec_run_pill rs l : (spec_run (R := R) rs (l ++ [poison_pill])).2 = (spec_run rs l).2.
Proof. rewrite spec_run_snoc. by rewrite app_nil_r. Qed.
End FinishFacts.

(** * Properties *)

Section Properties.
Context {J F T Q : Type} `{!Json J, !JsonLaws J, !Stream F, !Network T, !Evp}
  `{!RingBuffer Q, !RingBufferLaws Q}.
Variable parent_path : string -> option string.
Variable create_directories : string -> option string.
Variable open_file : string -> option F.
Context (system_ms steady_ms : nat -> Z) (uninit : nat -> list Z).

(** The two sides of the ring buffer agree: the event source tries to push its
    signals only, and those it has pushed are those the queue has accepted. *)
Definition source_connected {R' C' : Type} `{IAlertChannel C'} (w : World (EvmAdapter T) Q)
    (before : list thread_step) (r : Threads R' Q C') : Prop :=
  pushes_in (fun sig => sig ∈ pushed w) before /\ run_pushed r = pushed w.

(** C5: a backtest whose pill entered the queue and whose engine finished, both before
    their deadlines, has evaluated, for a valid configuration and a node that serves one chain whose
    logs can all be normalised, the signals of exactly the logs of the
    configured block range, each once and in order; the alerts of its rules on them have been taken
    off the dispatcher's queue in order, and the file channel, the only channel, has received those
    the deduplicator let pass; the alert count printed at the end is the number of lines written. *)
Theorem backtest_end_to_end (cfg : BacktestConfig) (rpc_url : string) (t : T) (b : BacktestApp F T)
    (blocks : Z -> list RawLog) (out ring : Q) (consumer : list nat) (stops : list bool)
    (w' : World (EvmAdapter T) Q) (before after : list thread_step) (clock : Z)
    (meanwhile : list (nat * list thread_step)) (fuel : nat) (s' : System Rule Q (Channel F T))
    (Hcfg : backtest_config_ok cfg) (Hblocks : bc_end_block cfg <= 2 ^ 63)
    (Hsetup : backtest_setup (J := J) parent_path create_directories open_file cfg rpc_url t = Ok b)
    (Hnode : node_serves (J := J) (T := T) (endpoint (Adapter.rpc (ba_adapter b))) blocks)
    (Hlogs : logs_normalise uninit blocks (EventSource.chain_id (ba_source b)))
    (Hstops : Forall (fun s => s = false) stops)
    (Hrun : EventSource.run system_ms steady_ms uninit stops (backtest_world b out consumer) =
            (w', Exited))
    (Hring : rb_contents ring = []) :
  let r := run_threads before (start_threads false None (ba_rules b) ring (ba_dispatcher b)) in
  source_connected w' before r ->
  Forall (fun t => pushes_in (fun _ => False) t.2) meanwhile -> pushes_in (fun _ => False) after ->
  backtest_finish fuel (mkSystem r clock meanwhile) = Some (s', true, true) ->
  (length (queue (run_dispatcher (sink (run_pipeline (threads s'))))) <
     length (dispatcher_envs after))%nat ->
  let d := sink (run_pipeline (run_threads after (threads s'))) in
  exists sigs fc,
    Forall2 (signal_of (EventSource.chain_id (ba_source b)))
      (chain_logs blocks (bc_start_block cfg) (bc_end_block cfg + 1)) sigs /\
    (run_popped d).*1 = (spec_run (backtest_rules cfg) sigs).2 /\
    alert_count fc = 0 /\
    channels (run_dispatcher d) =
      [CFile (receive fc (passed (deduplicator (ba_dispatcher b)) (run_popped d)))] /\
    backtest_alert_count (run_dispatcher d) =
      Z.of_nat (length (file_lines (passed (deduplicator (ba_dispatcher b)) (run_popped d)) fc)).
Proof using JsonLaws0 RingBufferLaws0.
  intros r [Htries Hconn] Hmean Hafter Hfin Hjoin d.
  destruct (backtest_setup_Ok parent_path create_directories open_file cfg rpc_url t b Hsetup)
    as ((cid & Hs) & Hrules & Hd & fc & Hfc & Hcount).
  assert (EventSource.chain_id (ba_source b) = cid) as Hcid by by rewrite Hs.
  rewrite Hcid in *. pose proof (evm_serves blocks (ba_adapter b) Hnode) as Hserve.
  pose proof (backtest_source_exited (J := J) system_ms steady_ms uninit blocks cfg cid b out consumer stops w'
    Hcfg Hblocks Hs Hserve Hlogs Hstops Hrun) as Hsigs.
  assert (forall sig, sig ∈ pushed w' -> not_pill sig) as Hnopill.
  { intros sig [i Hi]%list_elem_of_lookup_1.
    destruct (Forall2_lookup_r _ _ _ _ _ Hsigs Hi) as (raw & _ & ts & u & t0 & ev & Hn & ->).
    by apply normalize_not_pill in Hn. }
  destruct (backtest_finish_delivers false None (ba_rules b) ring (ba_dispatcher b) r before after clock
    meanwhile fuel s' Hring Hd (pushes_in_impl _ _ _ Hnopill Htries) eq_refl Hmean Hafter Hfin Hjoin)
    as [_ _ _ _ Halerts Hchan].
  fold d in Halerts, Hchan. rewrite Hconn, spec_run_pill, Hrules in Halerts.
  rewrite Hfc in Hchan. cbn [fmap list_fmap] in Hchan. rewrite receive_CFile in Hchan.
  exists (pushed w'), fc. split_and!; [exact Hsigs|exact Halerts|exact Hcount|exact Hchan|].
  unfold backtest_alert_count. rewrite Hchan, file_receive_count, Hcount. lia.
Qed.
End Properties.

(** A backtest registers exactly one rule for each section that has
    configurations, in the order in which the deduplication counters are registered; every alert it
    ever raises names one of these rules, and every such name has a deduplication window of its own,
    so the default window is never used. *)
Theorem backtest_rules_routed (cfg : BacktestConfig) (sigs : list Signal) :
  rule_type_name <$> backtest_rules cfg = active_rule_types cfg /\
  active_rule_types cfg `sublist_of` app_rule_types /\
  Forall (fun a => al_rule_type a ∈ active_rule_types cfg /\
                   is_Some (per_rule_window_ms app_dedup_config !! al_rule_type a))
    (spec_run (backtest_rules cfg) sigs).2.
Proof.
  assert (rule_type_name <$> backtest_rules cfg = active_rule_types cfg) as Hnames.
  { unfold backtest_rules, active_rule_types. rewrite !fmap_app.
    by repeat (f_equal; [by case_match|]); case_match. }
  assert (active_rule_types cfg `sublist_of` app_rule_types) as Hsub.
  { unfold active_rule_types, app_rule_types. repeat case_match; cbn [app]; repeat constructor. }
  split_and!; [exact Hnames|exact Hsub|].
  pose proof (spec_run_names (backtest_rules cfg) sigs) as Hall. rewrite Hnames in Hall.
  eapply list.Forall_impl; [exact Hall|]. cbn beta. intros a Ha. split; [exact Ha|].
  by eapply app_windows, elem_of_sublist.
Qed.

(** ** Witness: the sample chain, with one mint of 300 units in block 11 *)

#[local] Existing Instance sample_json.
#[local] Existing Instance sample_json_laws.
#[local] Existing Instance EchoNetwork_network.
#[local] Instance memory_stream : Stream (list string) := {
  stream_write s f := (f ++ [s], true);
}.
#[local] Instance no_evp : Evp := {
  evp_encrypt _ _ _ := inl "failed";
  evp_decrypt _ _ _ _ := inl "failed";
  evp_hmac_sha256 _ _ := inl "EVP_MAC_fetch failed";
}.

Definition sample_backtest_contract : string := address_to_hex (replicate 20 253).
Definition sample_backtest_key : MintBurnContractKey :=
  mkMintBurnContractKey 20 sample_backtest_contract.
Definition sample_backtest_rule : MintBurnRuleConfig :=
  mkMintBurnRuleConfig 7 20 sample_backtest_contract (to_be_256 100) (to_be_256 100) true.
Definition sample_backtest_table : gmap MintBurnContractKey (list MintBurnRuleConfig) :=
  push_config (sample_backtest_key, sample_backtest_rule) ∅.
Definition sample_backtest_config : BacktestConfig :=
  mkBacktestConfig "arbitrum" 10 12 "alerts.jsonl" 2 [mkCustomerEntry 7 "acme" "Acme"] [] ∅
    sample_backtest_table ∅ (mkBridgeTables ∅ ∅ ∅) ∅.

Lemma sample_backtest_config_ok : backtest_config_ok sample_backtest_config.
Proof.
  assert (forall P : MintBurnContractKey -> MintBurnRuleConfig -> Prop,
    P sample_backtest_key sample_backtest_rule -> table_ok P sample_backtest_table) as Htable.
  { intros P HP. apply table_ok_push; [done|apply table_ok_empty]. }
  split; cbn -[sample_backtest_table]; try apply table_ok_empty; try done.
  - by right.
  - apply Htable. split_and!; [done|done| | |done].
    + exists (replicate 20 253). split; [decide_by_compute|done].
    + split; decide_by_compute.
  - split; [apply table_ok_empty|]. cbn. set_solver.
  - split_and!; cbn -[sample_backtest_table]; try apply table_ok_empty; [constructor|].
    apply Htable. by apply list_elem_of_singleton.
Qed.

Definition sample_client : JsonRpcClient := mkJsonRpcClient "http://node" false None ∅ ∅.
Definition sample_setup : result (BacktestApp (list string) EchoNetwork) :=
  backtest_setup (J := json) (fun _ => None) (fun _ => None) (fun _ => Some [])
    sample_backtest_config "http://node" mkEchoNetwork.
Definition sample_app : BacktestApp (list string) EchoNetwork :=
  match sample_setup with
  | Ok b => b
  | Throw _ => mkBacktestApp (ArbitrumAdapter sample_client mkEchoNetwork)
      (make_source (source_config sample_backtest_config) 0)
      (make_dispatcher false app_dedup_config [] None) []
  end.
Definition sample_source_run : World (EvmAdapter EchoNetwork) ListQueue * EventSource.status :=
  EventSource.run (A := EvmAdapter EchoNetwork) sample_clock sample_clock (fun _ => zeros 32)
    (replicate 10 false) (backtest_world sample_app (mkListQueue 8 []) (replicate 5 0%nat)).
Definition sample_pushes : list thread_step := SourcePush <$> pushed sample_source_run.1.
Definition sample_backtest_threads : Threads Rule ListQueue (Channel (list string) EchoNetwork) :=
  run_threads sample_pushes
    (start_threads false None (ba_rules sample_app) (mkListQueue 8 []) (ba_dispatcher sample_app)).
Definition sample_drain : list (nat * list thread_step) :=
  [(0%nat, []); (3%nat, EngineStep <$> [1; 2; 3])].
Definition sample_finish : option (System Rule ListQueue (Channel (list string) EchoNetwork) * bool * bool) :=
  backtest_finish 10 (mkSystem sample_backtest_threads 0 sample_drain).
Definition sample_finished : System Rule ListQueue (Channel (list string) EchoNetwork) :=
  match sample_finish with
  | Some (s, _, _) => s
  | None => mkSystem sample_backtest_threads 0 []
  end.
Definition sample_join : list thread_step := DispatcherStep <$> [sample_env 10; sample_env 20].

Lemma source_pushes_SourcePush l : source_pushes (SourcePush <$> l) = l.
Proof. induction l as [|x l IH]; [done|]. unfold source_pushes in *. cbn. by rewrite IH. Qed.

Lemma backtest_end_to_end_witness :
  let d := sink (run_pipeline (run_threads sample_join (threads sample_finished))) in
  backtest_alert_count (run_dispatcher d) = 1 /\
  exists sigs fc,
    Forall2 (signal_of 20) (chain_logs sample_blocks 10 13) sigs /\
    (run_popped d).*1 = (spec_run (backtest_rules sample_backtest_config) sigs).2 /\
    channels (run_dispatcher d) =
      [CFile (receive fc (passed (deduplicator (ba_dispatcher sample_app)) (run_popped d)))].
Proof.
  intros d. split; [vm_compute; reflexivity|].
  destruct (backtest_end_to_end (J := json) (fun _ => None) (fun _ => None) (fun _ => Some [])
    sample_clock sample_clock (fun _ => zeros 32) sample_backtest_config "http://node" mkEchoNetwork
    sample_app sample_blocks (mkListQueue 8 []) (mkListQueue 8 []) (replicate 5 0%nat)
    (replicate 10 false) sample_source_run.1 sample_pushes sample_join 0 sample_drain 10
    sample_finished sample_backtest_config_ok) as (sigs & fc & H1 & H2 & _ & H4 & _).
  - apply Z.leb_le. vm_compute. reflexivity.
  - vm_compute. reflexivity.
  - apply sample_node_serves.
  - apply sample_logs_normalise.
  - apply Forall_replicate. reflexivity.
  - vm_compute. reflexivity.
  - reflexivity.
  - split; [|vm_compute; reflexivity]. unfold pushes_in, sample_pushes.
    rewrite source_pushes_SourcePush. apply list.Forall_forall. intros x Hx. exact Hx.
  - repeat constructor.
  - repeat constructor.
  - vm_compute. reflexivity.
  - apply Nat.ltb_lt. vm_compute. reflexivity.
  - exists sigs, fc. split; [exact H1|]. split; [exact H2|exact H4].
Defined.
