(* ===== verification/App.v ===== *)
(** * The modules of the service

    Model of [App::init_modules_], [register_rules_] and [start_threads_]
    ([src/app/app.cpp]), of the inputs they give to the health checks, and of the
    start and stop of the health server ([src/health/health_server.cpp]).  The
    metrics registry is a third-party object whose constructor may throw. *)
From S2P Require Import Prelude Cxx Hex Signal Normalize RuleInterface.
From S2P Require Import LargeTransferRule GovernanceRule MintBurnRule ApprovalRule.
From S2P Require Import BridgeTransferRule OracleUpdateRule Dedup Health PipelineInterface.
From S2P Require Import Dispatcher Engine Rules EventSource Json Rpc Adapter.
From S2P Require Import Database RuleLoaders Security Formatter Webhooks Channels.
From S2P Require Import Lifecycle System AppConfig.

(** ** The health server *)

(** [hs_thread] is whether the server's thread is joinable. *)
Record HealthServer := mkHealthServer { hs_listen_address : string; hs_thread : bool }.

Definition make_health_server (address : string) : HealthServer := mkHealthServer address false.

(** A port that cannot be bound is only logged, by the server's own thread. *)
Definition health_start (s : HealthServer) : result HealthServer :=
  _ ← parse_address (hs_listen_address s); Ok (mkHealthServer (hs_listen_address s) true).

Definition health_stop (s : HealthServer) : HealthServer :=
  mkHealthServer (hs_listen_address s) false.

Section App.
Context {D R J F T : Type} `{Pqxx D R} `{PqRow R} `{Json J} `{Stream F} `{Network T} `{Evp}.

(** ** [init_modules_] *)

(** The tables the rules and the channels are built from. *)
Record AppTables := mkAppTables {
  customer_id_to_key : gmap Z string;
  token_addresses_to_symbols : gmap TokenKey string;
  governance_rules_by_contract : gmap GovernanceContractKey (list GovernanceRuleConfig);
  mint_burn_rules_by_contract : gmap MintBurnContractKey (list MintBurnRuleConfig);
  approval_rules_by_contract : gmap ApprovalContractKey (list ApprovalRuleConfig);
  bridge_tables : BridgeTables;
  oracle_configs_by_feed : gmap OracleFeedKey (list OracleRuleConfig);
  app_customer_webhooks : gmap Z (list WebhookEndpoint);
}.

Record AppModules := mkAppModules {
  am_adapter : EvmAdapter T;
  am_source : EventSource;
  am_tables : AppTables;
  am_dispatcher : AlertDispatcher (Channel F T);
  am_health : option HealthServer;
}.

(** A loader fills its own table over the shared connection. *)
Definition with_table {S : Type} (loader : Db D S unit) (table : S) : Db D () S := fun w =>
  match loader (w.1, table) with
  | ((d, table), Ok _) => ((d, w.2), Ok table)
  | ((d, _), Throw e) => ((d, w.2), Throw e)
  end.

Definition lift_result {X : Type} (r : result X) : Db D () X := fun w => (w, r).

(** The loaders, in the order of the calls. *)
Definition load_tables (env : string -> option string) : Db D () AppTables :=
  customers ← with_table load_customer_map ∅;
  let tokens := load_token_map ∅ in
  governance ← with_table load_governance_configs ∅;
  mint_burn ← with_table load_mint_burn_configs ∅;
  approvals ← with_table load_approval_configs ∅;
  bridges ← with_table load_bridge_configs (mkBridgeTables ∅ ∅ ∅);
  oracles ← with_table load_oracle_configs ∅;
  webhooks ← with_table (load_webhook_channels (env "SENTINEL_SECRET_MASTER_KEY")) ∅;
  mret (mkAppTables customers tokens governance mint_burn approvals bridges oracles webhooks).

(** The channels added to the dispatcher; [t] is the network they send on. *)
Definition app_channels (env : string -> option string) (tables : AppTables) (t : T)
    : list (Channel F T) :=
  [CConsole (mkConsoleAlertChannel "")] ++
  match env "TELEGRAM_BOT_TOKEN", env "TELEGRAM_CHAT_ID" with
  | Some bot_token, Some chat_id =>
      [CTelegram (mkTelegramAlertChannel bot_token chat_id (Some (customer_id_to_key tables))
         (Some (token_addresses_to_symbols tables)) t)]
  | _, _ => []
  end ++
  (if bool_decide (app_customer_webhooks tables = ∅) then []
   else [CWebhook (mkWebhookAlertChannel (app_customer_webhooks tables) t)]).

(** [metrics] is the outcome of the registry's constructor. *)
Definition init_modules (env : string -> option string) (cfg : AppConfig) (start_block : Z)
    (metrics : result unit) (t : T) : Db D () AppModules :=
  if str_empty (ac_rpc_url cfg) then lift_result (Throw (RuntimeError "RPC_URL is empty"))
  else
    _ ← lift_result metrics;
    adapter ← lift_result (make_adapter (ac_chain cfg) (ac_rpc_url cfg)
                             ("Unknown chain: " +:+ ac_chain cfg)%stdpp true t);
    let '(adapter, chain_id) := chainId adapter in
    chain_id ← lift_result chain_id;
    let source := make_source (app_source_config cfg start_block) chain_id in
    tables ← load_tables env;
    let dispatcher := make_dispatcher true app_dedup_config app_rule_types (Some new_heartbeat) in
    let dispatcher :=
      for_each (fun c d => add_channel (Some c) d) (app_channels env tables t) dispatcher in
    mret (mkAppModules adapter source tables dispatcher
            (Some (make_health_server (ac_health_listen_address cfg)))).

(** ** [register_rules_] *)

Definition register_rules (tables : AppTables) : Db D () (list Rule) :=
  configs ← with_table load_large_transfer_configs [];
  mret (app_rules (mkLargeTransferRule configs)
          (mkGovernanceRule (governance_rules_by_contract tables))
          (mkMintBurnRule (mint_burn_rules_by_contract tables))
          (mkApprovalRule (approval_rules_by_contract tables))
          (mkBridgeTransferRule (bt_configs (bridge_tables tables))
             (bt_addresses (bridge_tables tables)) (bt_names (bridge_tables tables)))
          (mkOracleUpdateRule (oracle_configs_by_feed tables) ∅)).

(** Both, as [run] calls them. *)
Definition init_application (env : string -> option string) (cfg : AppConfig) (start_block : Z)
    (metrics : result unit) (t : T) : Db D () (AppModules * list Rule) :=
  modules ← init_modules env cfg start_block metrics t;
  rules ← register_rules (am_tables modules);
  mret (modules, rules).

(** ** [start_threads_]: the part that can fail *)

Definition start_health_server (m : AppModules) : result AppModules :=
  match am_health m with
  | None => Ok m
  | Some s =>
      started ← skip_std (health_start s);
      Ok (mkAppModules (am_adapter m) (am_source m) (am_tables m) (am_dispatcher m) started)
  end.

(** What [stop_orderly_] finds afterwards. *)
Definition running_modules (m : AppModules) : Modules :=
  mkModules (match am_health m with Some _ => true | None => false end) true true true.

(** ** The inputs of the health checks *)

(** [catch (...)]: any failure of the query is a failed probe. *)
Definition db_probe_query (is_open : D -> bool) (conn : option D) : option D * bool :=
  match conn with
  | None => (None, false)
  | Some d =>
      if negb (is_open d) then (Some d, false)
      else
        match (_ ← work; _ ← exec "SELECT 1"; commit) (d, ()) with
        | ((d, _), Ok _) => (Some d, true)
        | ((d, _), Throw _) => (Some d, false)
        end
  end.

(** The gauge of the last RPC success reads 0 until it is set. *)
Definition health_inputs (source_hb engine_hb dispatcher_hb : Heartbeat) (client : JsonRpcClient)
    (probe : bool) : HealthCheckInputs :=
  mkHealthCheckInputs (Some source_hb) (Some engine_hb) (Some dispatcher_hb)
    (Some (default 0 (last_rpc_success client))) (Some probe).
End App.
Arguments AppModules : clear implicits.

(** * Facts *)

(** The tables as the rules rely on them. *)
Record app_tables_ok (t : AppTables) : Prop := {
  at_governance : table_ok governance_entry_ok (governance_rules_by_contract t);
  at_mint_burn : table_ok mint_burn_entry_ok (mint_burn_rules_by_contract t);
  at_approvals : table_ok approval_entry_ok (approval_rules_by_contract t);
  at_bridges : bridge_tables_ok (bridge_tables t);
  at_oracles : table_ok oracle_entry_ok (oracle_configs_by_feed t);
}.

(** The six rules over some tables and a list of large-transfer configurations. *)
Definition rules_of (t : AppTables) (configs : list LargeTransferRuleConfig) : list Rule :=
  app_rules (mkLargeTransferRule configs)
    (mkGovernanceRule (governance_rules_by_contract t))
    (mkMintBurnRule (mint_burn_rules_by_contract t))
    (mkApprovalRule (approval_rules_by_contract t))
    (mkBridgeTransferRule (bt_configs (bridge_tables t)) (bt_addresses (bridge_tables t))
       (bt_names (bridge_tables t)))
    (mkOracleUpdateRule (oracle_configs_by_feed t) ∅).

(** A loader that only lets exceptions through that are not [std::exception]s. *)
Definition quiet {D S : Type} (m : Db D S unit) : Prop :=
  forall w e, (m w).2 = Throw e -> e = NonStdException.

Lemma quiet_catch_std {D S : Type} (m : Db D S unit) : quiet (catch_std m).
Proof. intros w e. unfold catch_std. destruct (m w) as [w' [|[]]]; cbn; congruence. Qed.

Lemma quiet_webhooks {D R : Type} `{!Pqxx D R, !PqRow R, !Evp} env :
  quiet (load_webhook_channels (D := D) (R := R) env).
Proof.
  unfold load_webhook_channels. destruct (str_empty _); [done|].
  destruct (parse_master_key_hex _) as [|[]]; try done; [apply quiet_catch_std|].
  intros w e. cbn. congruence.
Qed.

Lemma with_table_inv {D S : Type} (m : Db D S unit) s w w' r :
  with_table m s w = (w', r) ->
  match r with
  | Ok s' => s' = (m (w.1, s)).1.2
  | Throw e => quiet m -> e = NonStdException
  end.
Proof.
  unfold with_table. destruct (m (w.1, s)) as [[d s'] [x|e]] eqn:Hm; intros [= <- <-]; [done|].
  intros Hq. apply (Hq (w.1, s)). by rewrite Hm.
Qed.

Lemma db_bind_inv {D X Y : Type} (m : Db D () X) (f : X -> Db D () Y) w w' r :
  (m ≫= f) w = (w', r) ->
  (exists w1 x, m w = (w1, Ok x) /\ f x w1 = (w', r)) \/
  (exists e, m w = (w', Throw e) /\ r = Throw e).
Proof. unfold mbind, Db_bind. destruct (m w) as [w1 [x|e]]; [naive_solver|]. intros [= -> <-]. eauto. Qed.

Section Facts.
Context {D R J F T : Type} `{!Pqxx D R, !PqRow R, !Json J, !JsonLaws J, !Stream F, !Network T, !Evp}.

(** A step of the start-up that loads one table. *)
Ltac load_step :=
  match goal with
  | Hm : mbind _ _ _ = _ |- _ =>
      apply db_bind_inv in Hm as [(? & ? & ?%with_table_inv & Hm)|(? & Hm%with_table_inv & ->)];
        [cbv beta zeta in Hm|apply Hm; first [apply quiet_catch_std|apply quiet_webhooks]]
  end.

Lemma load_tables_inv env (w w' : D * ()) (r : result AppTables) :
  load_tables (R := R) env w = (w', r) ->
  match r with Ok t => app_tables_ok t | Throw e => e = NonStdException end.
Proof.
  unfold load_tables. intros Hm. do 7 load_step. injection Hm as <- <-. subst.
  split; cbn [governance_rules_by_contract mint_burn_rules_by_contract approval_rules_by_contract
    bridge_tables oracle_configs_by_feed]; eapply (loaded_tables_well_formed (J := J)).
Qed.

Lemma load_large_transfers_inv (w w' : D * ()) (r : result (list LargeTransferRuleConfig)) :
  with_table load_large_transfer_configs [] w = (w', r) ->
  match r with
  | Ok configs => Forall large_transfer_entry_ok configs
  | Throw e => e = NonStdException
  end.
Proof.
  intros Hm%with_table_inv. destruct r as [configs|e].
  - rewrite Hm. apply (loaded_tables_well_formed (J := J)).
  - apply Hm, quiet_catch_std.
Qed.

Lemma register_rules_inv tables (w w' : D * ()) (r : result (list Rule)) :
  register_rules (R := R) tables w = (w', r) ->
  match r with
  | Ok rules => exists configs, Forall large_transfer_entry_ok configs /\ rules = rules_of tables configs
  | Throw e => e = NonStdException
  end.
Proof.
  intros [(w1 & configs & Hc%load_large_transfers_inv & [= _ <-])|(e & He%load_large_transfers_inv & ->)]%db_bind_inv;
    [by exists configs|done].
Qed.

(** The counters of a channel, by their map. *)
Definition channel_counters (m : Dispatcher.Instruments -> gmap string Z) : Prop :=
  m = alerts_sent \/ m = alerts_send_failures.

Lemma add_channel_counter (c : Channel F T) (d : AlertDispatcher (Channel F T)) m n :
  Dispatcher.has_metrics d = true -> channel_counters m ->
  m (Dispatcher.instruments (add_channel (Some c) d)) !! n =
    match m (Dispatcher.instruments d) !! n with
    | Some k => Some k
    | None => if decide (n = name c) then Some 0 else None
    end.
Proof.
  intros Hmetrics Hm. cbn [add_channel Dispatcher.instruments]. rewrite Hmetrics.
  destruct Hm as [-> | ->]; cbn [alerts_sent alerts_send_failures];
    destruct (_ !! name c) eqn:Hc;
    (destruct (decide (n = name c)) as [->|Hne];
      [rewrite ?Hc, ?lookup_insert_eq; done
      |rewrite ?lookup_insert_ne by done; by case_match]).
Qed.

Lemma add_channels_counter (cs : list (Channel F T)) (d : AlertDispatcher (Channel F T)) m n :
  Dispatcher.has_metrics d = true -> channel_counters m ->
  m (Dispatcher.instruments (for_each (fun c d => add_channel (Some c) d) cs d)) !! n =
    match m (Dispatcher.instruments d) !! n with
    | Some k => Some k
    | None => if decide (n ∈ name <$> cs) then Some 0 else None
    end.
Proof.
  revert d; induction cs as [|c cs IH]; intros d Hmetrics Hm; [by destruct (m _ !! n)|].
  rewrite for_each_cons, IH, add_channel_counter by done.
  destruct (m _ !! n); [done|]. destruct (decide (n = name c)) as [->|Hne].
  - rewrite decide_True; [done|]. rewrite fmap_cons. left.
  - apply decide_ext. rewrite fmap_cons, elem_of_cons. naive_solver.
Qed.

(** What adding channels leaves alone. *)
Lemma add_channels_frame (cs : list (Channel F T)) (d : AlertDispatcher (Channel F T)) :
  let d' := for_each (fun c d => add_channel (Some c) d) cs d in
  channels d' = channels d ++ cs /\ Dispatcher.queue d' = Dispatcher.queue d /\
  deduplicator d' = deduplicator d /\
  alerts_deduplicated (Dispatcher.instruments d') = alerts_deduplicated (Dispatcher.instruments d).
Proof.
  revert d; induction cs as [|c cs IH]; intros d; [by rewrite app_nil_r|].
  cbv zeta in *. rewrite !for_each_cons.
  destruct (IH (add_channel (Some c) d)) as (-> & -> & -> & ->).
  cbn [add_channel channels Dispatcher.queue deduplicator Dispatcher.instruments].
  rewrite <-app_assoc. by destruct (Dispatcher.has_metrics d).
Qed.

Lemma lift_result_inv {X : Type} (x : result X) (w w' : D * ()) (r : result X) :
  lift_result x w = (w', r) -> r = x /\ w' = w.
Proof. by intros [= <- <-]. Qed.

Lemma make_adapter_Throw cfg (t : T) e :
  str_empty (ac_rpc_url cfg) = false ->
  make_adapter (ac_chain cfg) (ac_rpc_url cfg) ("Unknown chain: " +:+ ac_chain cfg)%stdpp true t = Throw e ->
  ac_chain cfg <> "arbitrum" /\ ac_chain cfg <> "ethereum" /\
  e = RuntimeError ("Unknown chain: " +:+ ac_chain cfg)%stdpp.
Proof.
  intros Hurl. unfold make_adapter, make_client. rewrite Hurl. cbn [mbind result_bind].
  destruct (decide _); [done|]. destruct (decide _); [done|]. by intros [= <-].
Qed.

(** Why a start-up fails. *)
Inductive startup_error (cfg : AppConfig) (metrics : result unit) (t : T) : exn -> Prop :=
  | no_rpc_url : str_empty (ac_rpc_url cfg) = true ->
      startup_error cfg metrics t (RuntimeError "RPC_URL is empty")
  | metrics_failed e : metrics = Throw e -> startup_error cfg metrics t e
  | unknown_chain : ac_chain cfg <> "arbitrum" -> ac_chain cfg <> "ethereum" ->
      startup_error cfg metrics t (RuntimeError ("Unknown chain: " +:+ ac_chain cfg)%stdpp)
  | node_refused (a : EvmAdapter T) e :
      make_adapter (ac_chain cfg) (ac_rpc_url cfg) ("Unknown chain: " +:+ ac_chain cfg)%stdpp true t = Ok a ->
      (chainId a).2 = Throw e -> startup_error cfg metrics t e
  | foreign_exception : startup_error cfg metrics t NonStdException.

(** The dispatcher of a start-up that succeeds. *)
Record dispatcher_ready (env : string -> option string) (tables : AppTables)
    (d : AlertDispatcher (Channel F T)) : Prop := {
  dr_channels : name <$> channels d =
    ["console"] ++
    (match env "TELEGRAM_BOT_TOKEN", env "TELEGRAM_CHAT_ID" with
     | Some _, Some _ => ["telegram"] | _, _ => [] end) ++
    (if bool_decide (app_customer_webhooks tables = ∅) then [] else ["webhook"]);
  dr_counters c counters : c ∈ channels d -> channel_counters counters ->
    counters (Dispatcher.instruments d) !! name c = Some 0;
  dr_dedup_counters n : n ∈ app_rule_types ->
    alerts_deduplicated (Dispatcher.instruments d) !! n = Some 0;
  dr_dedup : deduplicator d = make_deduplicator app_dedup_config;
  dr_queue : Dispatcher.queue d = [];
}.

(** What a start-up that succeeds has built. *)
Record modules_ready (env : string -> option string) (cfg : AppConfig) (start_block : Z)
    (m : AppModules F T) : Prop := {
  mr_url : str_empty (ac_rpc_url cfg) = false;
  mr_chain : ac_chain cfg = chain_name (adapter_chain (am_adapter m));
  mr_source : exists cid, am_source m = make_source (app_source_config cfg start_block) cid;
  mr_tables : app_tables_ok (am_tables m);
  mr_dispatcher : dispatcher_ready env (am_tables m) (am_dispatcher m);
}.

Definition app_dispatcher (env : string -> option string) (tables : AppTables) (t : T)
    : AlertDispatcher (Channel F T) :=
  for_each (fun c d => add_channel (Some c) d) (app_channels env tables t)
    (make_dispatcher true app_dedup_config app_rule_types (Some new_heartbeat)).

Lemma app_dispatcher_ready env tables (t : T) : dispatcher_ready env tables (app_dispatcher env tables t).
Proof.
  pose proof (add_channels_frame (app_channels env tables t)
    (make_dispatcher true app_dedup_config app_rule_types (Some new_heartbeat)))
    as (Hchannels & Hqueue & Hdedup & Hcounts).
  fold (app_dispatcher env tables t) in Hchannels, Hqueue, Hdedup, Hcounts. split.
  - rewrite Hchannels. unfold app_channels. cbn [make_dispatcher channels app].
    destruct (env "TELEGRAM_BOT_TOKEN"); [destruct (env "TELEGRAM_CHAT_ID")|];
      by destruct (bool_decide _).
  - rewrite Hchannels. intros ch m Hin Hm. unfold app_dispatcher. rewrite add_channels_counter by done.
    rewrite (decide_True _ _ (list_elem_of_fmap_2 name _ _ Hin)). by destruct Hm as [-> | ->].
  - rewrite Hcounts. intros n Hn. unfold app_rule_types in Hn.
    repeat (apply elem_of_cons in Hn as [->|Hn]; [vm_compute; reflexivity|]).
    by apply not_elem_of_nil in Hn.
  - by rewrite Hdedup.
  - by rewrite Hqueue.
Qed.

Lemma evm_chainId_chain (a : EvmAdapter T) : adapter_chain (chainId a).1 = adapter_chain a.
Proof.
  rewrite chainId_evm. unfold evm_chainId, rpc_call.
  by destruct (call _ _ _ _) as [[c t] r].
Qed.

Lemma init_modules_inv env cfg start_block metrics (t : T) (w w' : D * ()) (r : result (AppModules F T)) :
  init_modules (J := J) (R := R) env cfg start_block metrics t w = (w', r) ->
  match r with
  | Ok m => modules_ready env cfg start_block m
  | Throw e => startup_error cfg metrics t e
  end.
Proof.
  unfold init_modules. destruct (str_empty (ac_rpc_url cfg)) eqn:Hurl.
  { intros [-> _]%lift_result_inv. by constructor. }
  intros [(w1 & x & _ & Hm)|(e & [He _]%lift_result_inv & ->)]%db_bind_inv; [|by constructor 2].
  apply db_bind_inv in Hm as [(w2 & a & [Ha _]%lift_result_inv & Hm)|(e & [He _]%lift_result_inv & ->)].
  2: { symmetry in He. apply make_adapter_Throw in He as (Hne1 & Hne2 & ->); [|done]. by constructor. }
  symmetry in Ha. pose proof (evm_chainId_chain a) as Hchain.
  destruct (chainId a) as [a' cid] eqn:Hcid.
  apply db_bind_inv in Hm as [(w3 & c & _ & Hm)|(e & [He _]%lift_result_inv & ->)].
  2: { eapply node_refused; [exact Ha|]. by rewrite Hcid. }
  cbv zeta in Hm.
  apply db_bind_inv in Hm as [(w4 & tables & Ht%load_tables_inv & Hm)|(e & He%load_tables_inv & ->)].
  2: { subst e. apply foreign_exception. }
  fold (app_dispatcher env tables t) in Hm.
  pose proof (app_dispatcher_ready env tables t) as Hd. generalize dependent (app_dispatcher env tables t).
  intros d Hm Hd. injection Hm as _ <-. cbn in Hchain.
  apply make_adapter_Ok in Ha as (_ & Hname & _).
  split; cbn [am_adapter am_source am_tables am_dispatcher]; [done|congruence|by eexists|done|done].
Qed.

Lemma init_application_ready env cfg start_block metrics (t : T) (w : D * ()) m rules :
  (init_application (J := J) (R := R) (F := F) env cfg start_block metrics t w).2 = Ok (m, rules) ->
  modules_ready env cfg start_block m.
Proof.
  destruct (init_application _ _ _ _ _ w) as [w' r] eqn:Hr. cbn [snd]. intros ->.
  unfold init_application in Hr.
  apply db_bind_inv in Hr as [(w1 & m' & Hm%init_modules_inv & Hr)|(e & _ & [=])].
  by apply db_bind_inv in Hr as [(w2 & rules' & _ & [= _ <- <-])|(e & _ & [=])].
Qed.
End Facts.

(** * Properties *)

Section Properties.
Context {D R J F T : Type} `{!Pqxx D R, !PqRow R, !Json J, !JsonLaws J, !Stream F, !Network T, !Evp}.

(** C29: what the service has built once its start-up succeeds: an adapter
    for the configured chain, an event source that begins at the checkpoint, well-formed tables, the
    six rules over exactly these tables, a console channel, a Telegram channel exactly when both its
    variables are set, a webhook channel exactly when some endpoint was loaded; every channel has its
    counters and every alert the rules can raise has a deduplication counter and window of its own.
    It fails only without an RPC URL, on an unknown chain, when the metrics registry or the node's
    chain id fails, or on an exception that is not a [std::exception]: no content of the database
    stops it. *)
Theorem init_application_contract (env : string -> option string) (cfg : AppConfig) (start_block : Z)
    (metrics : result unit) (t : T) (w : D * ()) :
  match (init_application (J := J) (R := R) (F := F) env cfg start_block metrics t w).2 with
  | Ok (m, rules) =>
      modules_ready env cfg start_block m /\
      (exists configs, Forall large_transfer_entry_ok configs /\ rules = rules_of (am_tables m) configs) /\
      rule_type_name <$> rules = app_rule_types /\
      (forall sigs a, a ∈ (spec_run rules sigs).2 ->
         is_Some (per_rule_window_ms app_dedup_config !! al_rule_type a) /\
         alerts_deduplicated (Dispatcher.instruments (am_dispatcher m)) !! al_rule_type a = Some 0)
  | Throw e => startup_error cfg metrics t e
  end.
Proof.
  destruct (init_application _ _ _ _ _ w) as [w' r] eqn:Hr. cbn [snd]. unfold init_application in Hr.
  apply db_bind_inv in Hr as [(w1 & m & Hm%init_modules_inv & Hr)|(e & He%init_modules_inv & ->)]; [|done].
  apply db_bind_inv in Hr as [(w2 & rules & Hr%(register_rules_inv (J := J)) & [= _ <-])
    |(e & ->%(register_rules_inv (J := J)) & ->)]; [|apply foreign_exception].
  destruct Hr as (configs & Hconfigs & ->).
  split_and!; [done|by exists configs|done|].
  intros sigs a Ha. pose proof (spec_run_names (rules_of (am_tables m) configs) sigs) as Hall.
  rewrite list.Forall_forall in Hall. specialize (Hall a Ha). split; [|by apply (dr_dedup_counters _ _ _ (mr_dispatcher _ _ _ _ Hm))].
  by apply app_windows.
Qed.
End Properties.

(** ** A concrete start-up *)

#[local] Existing Instance sample_json.
#[local] Existing Instance sample_json_laws.
#[local] Existing Instance EchoNetwork_network.
#[local] Existing Instance sample_row_PqRow.
#[local] Existing Instance sample_db.
#[local] Instance no_stream : Stream () := { stream_write _ f := (f, false) }.
#[local] Instance no_evp : Evp := {
  evp_encrypt _ _ _ := inl "failed";
  evp_decrypt _ _ _ _ := inl "failed";
  evp_hmac_sha256 _ _ := inl "EVP_MAC_fetch failed";
}.

(** Only a chat id: no Telegram channel. *)
Definition sample_app_env (k : string) : option string :=
  if decide (k = "TELEGRAM_CHAT_ID") then Some "42" else None.
Definition sample_app_config (chain : string) : AppConfig :=
  mkAppConfig chain "postgres://" "http://node" default_source_config false "/tmp/sentinel.ready" 5000
    "0.0.0.0:8080" "0.0.0.0:8081".

Definition sample_init (chain : string) : result (list string * list string) :=
  match (init_application (J := json) (R := sample_row) (F := ()) sample_app_env
           (sample_app_config chain) 100 (Ok ()) mkEchoNetwork ([] : list sample_row, ())).2 with
  | Ok (m, rules) => Ok (name <$> channels (am_dispatcher m), rule_type_name <$> rules)
  | Throw e => Throw e
  end.

Example sample_init_ok : sample_init "arbitrum" = Ok (["console"], app_rule_types).
Proof. vm_compute. reflexivity. Qed.
Example sample_init_unknown : sample_init "solana" = Throw (RuntimeError "Unknown chain: solana").
Proof. vm_compute. reflexivity. Qed.

Lemma init_application_contract_witness :
  exists m rules,
    (init_application (J := json) (R := sample_row) (F := ()) sample_app_env
       (sample_app_config "arbitrum") 100 (Ok ()) mkEchoNetwork ([] : list sample_row, ())).2 = Ok (m, rules) /\
    modules_ready sample_app_env (sample_app_config "arbitrum") 100 m.
Proof.
  pose proof (init_application_contract (J := json) (R := sample_row) (F := ()) sample_app_env
    (sample_app_config "arbitrum") 100 (Ok ()) mkEchoNetwork ([] : list sample_row, ())) as H.
  destruct (init_application _ _ _ _ _ _).2 as [[m rules]|e] eqn:Hr.
  - exists m, rules. split; [reflexivity|exact (proj1 H)].
  - exfalso. vm_compute in Hr. discriminate Hr.
Defined.
