(* ===== verification/Restart.v ===== *)
(** * What a restart begins with

    A service reads its checkpoint when it starts ([App::init_db_]) and nothing
    it does afterwards writes one: the loaders of [App::init_modules_] and
    [App::register_rules_] and the health probe only read.  So the lives of a
    service over one database all begin at the same block. *)
From S2P Require Import Prelude Cxx Json Rpc Adapter EventSource.
From S2P Require Import Database RuleLoaders Security Webhooks Channels.
From S2P Require Import CheckpointStore AppConfig App.

(** ** The life of a service, as the database sees it *)

Section Life.
Context {D R J F T : Type} `{Pqxx D R} `{PqParams D R} `{PqRow R} `{Json J} `{Stream F} `{Network T} `{Evp}.

Record Life := mkLife {
  lf_attempt : nat -> result D;      (* the connection attempts *)
  lf_is_open : D -> bool;
  lf_env : string -> option string;
  lf_cfg : AppConfig;
  lf_metrics : result unit;
  lf_network : T;
  lf_probes : nat;                   (* how many readiness requests it answers *)
}.

Fixpoint probes (is_open : D -> bool) (n : nat) (d : D) : D :=
  match n with
  | O => d
  | S n => probes is_open n (default d (db_probe_query (R := R) is_open (Some d)).1)
  end.

(** The database in the end, and the block the source began at. *)
Definition live (l : Life) : result (option (D * Z)) :=
  o ← init_db (R := R) (lf_attempt l) (lf_is_open l) (ac_database_url (lf_cfg l)) (ac_chain (lf_cfg l));
  Ok (match o with
      | None => None
      | Some (d, start) =>
          let '((d, _), r) := init_application (R := R) (F := F) (J := J)
            (lf_env l) (lf_cfg l) start (lf_metrics l) (lf_network l) (d, ()) in
          Some (match r with Ok _ => probes (lf_is_open l) (lf_probes l) d | Throw _ => d end, start)
      end).
End Life.
Arguments Life : clear implicits.

(** ** What the database promises *)

(** A query that only reads. *)
Definition selects (query : string) : Prop := String.prefix "SELECT" query = true.

(** [stored] is the table a new connection finds; [checkpoints] the one the open
    transaction would leave.  Nobody else writes. *)
Class StoredLaws (D R : Type) `{CheckpointLaws D R} := {
  stored : D -> gmap string Z;
  work_stored d : stored (pg_work d).1 = stored d;
  select_stored query d : selects query ->
    stored (pg_exec query d).1 = stored d /\ checkpoints (pg_exec query d).1 = checkpoints d;
  schema_stored d d' rows : pg_exec schema_sql d = (d', Ok rows) ->
    stored d' = stored d /\ checkpoints d' = checkpoints d;
  commit_stored d d' r : pg_commit d = (d', r) ->
    checkpoints d' = stored d' /\
    stored d' = match r with Ok _ => checkpoints d | Throw _ => stored d end;
}.

(** * Facts *)

(** ** Operations that begin, commit and read *)

Section Preserves.
Context {D R J F T : Type} `{!Pqxx D R, !PqRow R, !Json J, !Stream F, !Network T, !Evp}.
Variable P : D -> Prop.
Hypothesis HW : forall d, P d -> P (pg_work d).1.
Hypothesis HX : forall query d, selects query -> P d -> P (pg_exec query d).1.
Hypothesis HC : forall d, P d -> P (pg_commit d).1.

Definition preserves {S X : Type} (m : Db D S X) : Prop := forall w, P w.1 -> P (m w).1.1.

Lemma preserves_ret {S X} (x : X) : preserves (S := S) (mret x).
Proof. by intros w. Qed.

Lemma preserves_get_table {S} : preserves (S := S) get_table.
Proof. by intros w. Qed.

Lemma preserves_lift {X} (r : result X) : preserves (lift_result r).
Proof. by intros w. Qed.

Lemma preserves_bind {S X Y} (m : Db D S X) (f : X -> Db D S Y) :
  preserves m -> (forall x, preserves (f x)) -> preserves (m ≫= f).
Proof.
  intros Hm Hf w Hw. specialize (Hm w Hw). unfold mbind, Db_bind.
  destruct (m w) as [w1 [x | e]]; [by apply Hf | done].
Qed.

Lemma preserves_work {S} : preserves (S := S) work.
Proof. intros [d s] Hd. specialize (HW d Hd). unfold work, with_connection. cbn. by destruct (pg_work d). Qed.

Lemma preserves_commit {S} : preserves (S := S) commit.
Proof. intros [d s] Hd. specialize (HC d Hd). unfold commit, with_connection. cbn. by destruct (pg_commit d). Qed.

Lemma preserves_exec {S} query : selects query -> preserves (S := S) (exec query).
Proof.
  intros Hq [d s] Hd. specialize (HX query d Hq Hd). unfold exec, with_connection. cbn.
  by destruct (pg_exec query d).
Qed.

Lemma preserves_for_rows {S} (body : R -> S -> result S) rows : preserves (for_rows body rows).
Proof.
  induction rows as [| row rows IH]; intros [d s] Hd; [done |]. cbn. by destruct (body row s); [apply IH |].
Qed.

Lemma preserves_catch_std {S} (m : Db D S unit) : preserves m -> preserves (catch_std m).
Proof. intros Hm w Hw. specialize (Hm w Hw). unfold catch_std. by destruct (m w) as [w1 [[] | []]]. Qed.

Lemma preserves_with_table {S} (m : Db D S unit) table : preserves m -> preserves (with_table m table).
Proof.
  intros Hm [d []] Hd. specialize (Hm (d, table) Hd). unfold with_table. cbn.
  by destruct (m (d, table)) as [[d1 s] [x | e]].
Qed.

Lemma preserves_load_rows {S} query (body : R -> S -> result S) :
  selects query -> preserves (load_rows query body).
Proof.
  intros Hq. unfold load_rows.
  repeat (apply preserves_bind; [| intros ?]);
    auto using preserves_work, preserves_exec, preserves_for_rows, preserves_commit.
Qed.
#[local] Hint Resolve preserves_ret preserves_get_table preserves_lift preserves_work preserves_commit
  preserves_for_rows preserves_catch_std preserves_with_table : reading.
#[local] Hint Extern 1 (preserves (exec _)) => (apply preserves_exec; reflexivity) : reading.
#[local] Hint Extern 1 (preserves (load_rows _ _)) => (apply preserves_load_rows; reflexivity) : reading.

Ltac reading := repeat first [solve [auto with reading] | apply preserves_bind; [| intros ?]].

Lemma preserves_load_bridge_configs : preserves load_bridge_configs.
Proof using HW HX HC.
  unfold load_bridge_configs. apply preserves_catch_std. reading.
  case_bool_decide; reading.
Qed.

Lemma preserves_load_webhook_channels key : preserves (load_webhook_channels key).
Proof using HW HX HC.
  unfold load_webhook_channels. destruct (str_empty _); [auto with reading |].
  destruct (parse_master_key_hex _) as [master | []]; auto with reading. by intros w.
Qed.
#[local] Hint Resolve preserves_load_bridge_configs preserves_load_webhook_channels : reading.

Lemma preserves_load_tables env : preserves (load_tables env).
Proof using HW HX HC.
  unfold load_tables, load_customer_map, load_governance_configs, load_mint_burn_configs,
    load_approval_configs, load_oracle_configs. reading.
Qed.
#[local] Hint Resolve preserves_load_tables : reading.

Lemma preserves_init_application env cfg start metrics (t : T) :
  preserves (init_application (F := F) env cfg start metrics t).
Proof using HW HX HC.
  unfold init_application, init_modules, register_rules, load_large_transfer_configs.
  destruct (str_empty _); reading. destruct (chainId _) as [a cid]. reading.
Qed.

Lemma preserves_probes is_open n d : P d -> P (probes (R := R) is_open n d).
Proof using HW HX HC.
  revert d; induction n as [| n IH]; intros d Hd; [done |]. apply IH. unfold db_probe_query.
  destruct (negb _); [done |].
  assert (preserves (S := ()) (_ ← work; _ ← exec (R := R) "SELECT 1"; commit)) as Hp by reading.
  specialize (Hp (d, ()) Hd).
  match goal with |- context [match ?r with _ => _ end] => by destruct r as [[d1 []] []] end.
Qed.
End Preserves.

(** ** The checkpoint over a life *)

Section Restarts.
Context {D R J F T : Type} `{!Pqxx D R, !PqParams D R, CL : !CheckpointLaws D R, SL : !StoredLaws D R}
  `{!PqRow R, !Json J, !Stream F, !Network T, !Evp}.
Implicit Types (d : D) (l : Life D T).

(** The chain's checkpoint is [v], for this connection and the next. *)
Definition holds (chain : string) (v : Z) d : Prop :=
  stored d !! chain = Some v /\ checkpoints d !! chain = Some v.

Lemma holds_work chain v d : holds chain v d -> holds chain v (pg_work d).1.
Proof using SL. unfold holds. by rewrite work_stored, work_checkpoints. Qed.

Lemma holds_select chain v query d : selects query -> holds chain v d -> holds chain v (pg_exec query d).1.
Proof using SL. unfold holds. intros Hq. destruct (select_stored query d Hq) as [-> ->]. done. Qed.

Lemma holds_commit chain v d : holds chain v d -> holds chain v (pg_commit d).1.
Proof using SL.
  intros [Hs Hc]. unfold holds. destruct (pg_commit d) as [d2 r] eqn:E. cbn.
  apply commit_stored in E as [-> ->]. by destruct r.
Qed.

Lemma holds_init_application chain v env cfg start metrics (t : T) d :
  holds chain v d ->
  holds chain v (init_application (R := R) (J := J) (F := F) env cfg start metrics t (d, ())).1.1.
Proof using SL.
  intros Hd. apply (preserves_init_application (holds chain v)); auto using holds_work, holds_select, holds_commit.
Qed.

Lemma holds_probes chain v is_open n d : holds chain v d -> holds chain v (probes (R := R) is_open n d).
Proof using SL.
  apply (preserves_probes (holds chain v)); auto using holds_work, holds_select, holds_commit.
Qed.

(** Reading the checkpoint at the start leaves it stored. *)
Lemma get_or_init_holds chain start (w w' : D * ()) :
  get_or_init_checkpoint (R := R) chain w = (w', Ok start) ->
  exists v, holds chain v w'.1 /\ start = u64 v /\
    forall v0, checkpoints w.1 !! chain = Some v0 -> v = v0.
Proof using SL.
  intros Hg. pose proof (get_or_init_checkpoint_Ok chain start w w' Hg) as Hc.
  assert (checkpoints w'.1 = stored w'.1) as Hs.
  { unfold get_or_init_checkpoint in Hg. apply db_bind_Ok in Hg as (w1 & [] & _ & Hg).
    apply db_bind_Ok in Hg as (w2 & rows & _ & Hg).
    assert (forall (w3 w4 : D * ()) (x y : Z),
      (_ ← commit; mret x : Db D () Z) w3 = (w4, Ok y) -> checkpoints w4.1 = stored w4.1) as Hcommit.
    { intros w3 w4 x y (w5 & [] & H1%with_connection_Ok & [= <- _])%db_bind_Ok. by apply commit_stored in H1 as [-> _]. }
    destruct rows as [| row [| row2 rows]]; apply db_bind_Ok in Hg as (w3 & ? & _ & Hg); by apply Hcommit in Hg. }
  unfold holds. rewrite <- Hs. destruct (checkpoints w.1 !! chain) as [v |] eqn:Hv; destruct Hc as [-> Hc].
  - exists v. rewrite Hc. split_and!; [done..|]. congruence.
  - exists 0. rewrite Hc, lookup_insert_eq. split_and!; [done..|]. congruence.
Qed.

Lemma ensure_schema_Ok w w' :
  ensure_schema (R := R) w = (w', Ok ()) -> checkpoints w'.1 = checkpoints w.1.
Proof using SL.
  unfold ensure_schema. intros (w1 & [] & H1%work_Ok & H2)%db_bind_Ok.
  apply db_bind_Ok in H2 as (w2 & rows & H2%with_connection_Ok & H3%commit_Ok).
  apply schema_stored in H2 as [_ H2]. congruence.
Qed.

Lemma live_holds l d start :
  live (R := R) (J := J) (F := F) l = Ok (Some (d, start)) ->
  exists v, holds (ac_chain (lf_cfg l)) v d /\ start = u64 v /\
    forall v0, (forall n c, lf_attempt l n = Ok c -> checkpoints c !! ac_chain (lf_cfg l) = Some v0) -> v = v0.
Proof using SL.
  unfold live. destruct (init_db _ _ _ _) as [[[d1 s] |] | e] eqn:Hdb; cbn [mbind result_bind]; [| done..].
  apply init_db_inv in Hdb as (_ & n & d0 & d2 & _ & Hn & _ & _ & Hs & Hg).
  destruct (get_or_init_holds _ _ _ _ Hg) as (v & Hv & -> & Hold). cbn [fst] in *.
  pose proof (holds_init_application _ v (lf_env l) (lf_cfg l) (u64 v) (lf_metrics l) (lf_network l) _ Hv) as Hinit.
  destruct (init_application _ _ _ _ _ _) as [[d3 []] r]. cbn [fst] in Hinit.
  intros [= <- <-]. exists v. split_and!; [destruct r; [by apply holds_probes | done] | done |].
  intros v0 H0. apply Hold. apply ensure_schema_Ok in Hs. cbn [fst] in Hs. rewrite Hs. by apply (H0 n).
Qed.

(** A connection that is opened after [d] sees what [d] has stored. *)
Definition follows d l : Prop :=
  forall n c, lf_attempt l n = Ok c -> checkpoints c = stored d.

(** Lives of a service on one chain, one after the other: the blocks their
    sources began at, and the database after the last. *)
Inductive lives (chain : string) : list Z -> D -> Prop :=
  | first_life l d start :
      ac_chain (lf_cfg l) = chain -> live (R := R) (J := J) (F := F) l = Ok (Some (d, start)) ->
      lives chain [start] d
  | next_life starts d l d' start :
      lives chain starts d -> follows d l ->
      ac_chain (lf_cfg l) = chain -> live (R := R) (J := J) (F := F) l = Ok (Some (d', start)) ->
      lives chain (starts ++ [start]) d'.

Lemma lives_hold chain starts d :
  lives chain starts d -> exists v, holds chain v d /\ Forall (fun start => start = u64 v) starts.
Proof using SL.
  induction 1 as [l d start <- Hl | starts d l d' start _ (v & [Hs _] & Hall) Hf <- Hl].
  - apply live_holds in Hl as (v & Hv & -> & _). exists v. split; [done |]. by constructor.
  - apply live_holds in Hl as (v' & Hv' & -> & Hold). exists v'. split; [done |].
    assert (v' = v) as ->.
    { apply Hold. intros n c Hc. by rewrite (Hf n c Hc). }
    apply Forall_app. split; [done |]. by constructor.
Qed.
End Restarts.

(** * Properties *)

Section Properties.
Context {D R J F T : Type} `{!Pqxx D R, !PqParams D R, CL : !CheckpointLaws D R, SL : !StoredLaws D R}
  `{!PqRow R, !Json J, !Stream F, !Network T, !Evp}.

(** C31: However often a service is restarted over a database that nobody else
    writes, whatever its loaders read, whether its start-up succeeds or fails
    after the checkpoint was read, and however many readiness requests it
    answers, every life begins at the block the first one began at: a restart
    does not resume where the last life ended. *)
Theorem restarts_never_resume (chain : string) (starts : list Z) (d : D) :
  lives (R := R) (J := J) (F := F) (T := T) chain starts d ->
  forall first later, first ∈ starts -> later ∈ starts -> later = first.
Proof using SL.
  intros (v & _ & Hall)%lives_hold first later Hf Hl.
  rewrite list.Forall_forall in Hall. by rewrite (Hall _ Hf), (Hall _ Hl).
Qed.
End Properties.

(** ** Witness: two lives over an empty database *)

#[local] Notation SampleDb := (gmap string Z).
#[local] Existing Instance sample_json.
#[local] Existing Instance EchoNetwork_network.
#[local] Existing Instance no_stream.
#[local] Existing Instance no_evp.
#[local] Existing Instance sample_pqxx.
#[local] Existing Instance sample_params.
#[local] Existing Instance sample_checkpoint_laws.
#[local] Instance no_columns : PqRow Z := {
  as_u64 _ _ := Throw (LibraryError "no column");
  as_int _ _ := Throw (LibraryError "no column");
  as_bool _ _ := Throw (LibraryError "no column");
  as_string _ _ := Throw (LibraryError "no column");
  is_null _ _ := true;
}.

#[local] Instance sample_stored_laws : StoredLaws SampleDb Z.
Proof.
  refine {| stored := fun d : SampleDb => d |}; try done.
  - by intros d d' rows [= <- _].
  - by intros d d' r [= <- <-].
Defined.

Definition sample_life (d : SampleDb) (n : nat) : Life SampleDb EchoNetwork :=
  mkLife (fun _ => Ok d) (fun _ => true) sample_app_env (sample_app_config "arbitrum") (Ok ()) mkEchoNetwork n.

Lemma restarts_never_resume_witness :
  exists d : SampleDb,
    lives (R := Z) (J := json) (F := ()) (T := EchoNetwork) "arbitrum" [0; 0] d /\
    forall first later, first ∈ [0; 0] -> later ∈ [0; 0] -> later = first.
Proof.
  assert (lives (R := Z) (J := json) (F := ()) (T := EchoNetwork) "arbitrum" [0; 0]
    ({[ "arbitrum" := 0 ]} : SampleDb)) as H.
  { eapply (next_life _ [0] {[ "arbitrum" := 0 ]} (sample_life {[ "arbitrum" := 0 ]} 3)).
    - apply (first_life _ (sample_life ∅ 2)); [reflexivity | vm_compute; reflexivity].
    - by intros n c [= <-].
    - reflexivity.
    - vm_compute. reflexivity. }
  exists {[ "arbitrum" := 0 ]}. split; [exact H |]. exact (restarts_never_resume "arbitrum" [0; 0] _ H).
Defined.
