(* ===== verification/Vitals.v ===== *)
(** * Readiness of the running threads

    What the readiness probe says of the engine and the dispatcher of System.v
    while they run: their heartbeats are recorded at every turn of their loops,
    so the probe looks at when each last began one. *)
From S2P Require Import Prelude Cxx Signal RuleInterface Health PipelineInterface.
From S2P Require Import Dedup Dispatcher Engine Rules Json Rpc Lifecycle System ServiceRefinement.
From S2P Require Import AppConfig App.

Section Vitals.
Context {R Q C : Type} `{!IRiskRule R, !RiskRuleLaws R} `{!RingBuffer Q, !RingBufferLaws Q}
  `{!IAlertChannel C, CL : !ChannelLaws C}.
Implicit Types (r : Threads R Q C) (evs : list thread_step).

(** When the engine's and the dispatcher's turns began. *)
Definition engine_beats evs : list Z :=
  omap (fun ev => match ev with EngineStep now => Some now | _ => None end) evs.
Definition dispatcher_beats evs : list Z :=
  omap (fun ev => match ev with DispatcherStep e => Some (Dispatcher.hb_now_ms e) | _ => None end) evs.

(** A heartbeat after some turns. *)
Definition beaten (beats : list Z) (hb : option Heartbeat) : option Heartbeat :=
  for_each (fun now hb => record now <$> hb) beats hb.

Lemma beaten_app b1 b2 hb : beaten (b1 ++ b2) hb = beaten b2 (beaten b1 hb).
Proof. apply for_each_app. Qed.

(** The last of them, or zero. *)
Definition latest (beats : list Z) : Z := List.last beats 0.

Lemma beaten_new beats : beaten beats (Some new_heartbeat) = Some (mkHeartbeat (latest beats)).
Proof.
  induction beats as [| b beats IH] using rev_ind; [done |].
  rewrite beaten_app, IH. unfold latest. by rewrite List.last_last.
Qed.

(** Nobody has asked the threads to stop. *)
Record alive r : Prop := {
  al_running : Engine.running (engine (run_pipeline r)) = true;
  al_finished : finished (engine (run_pipeline r)) = false;
  al_drain : drain_mode (run_pipeline r) = false;
  al_queue : Forall not_pill (rb_contents (input_queue (run_pipeline r)));
  al_dispatcher : Dispatcher.running (run_dispatcher (sink (run_pipeline r))) = true;
  al_dispatching : run_finished (sink (run_pipeline r)) = false;
}.

Lemma deliver_heartbeat e a (d : AlertDispatcher C) :
  Dispatcher.heartbeat (deliver e a d) = Dispatcher.heartbeat d.
Proof. unfold deliver. destruct (should_suppress _ _ _) as [dd []]; [done |]. by destruct (send_all _ _ _). Qed.

Lemma step_alive ev r :
  pill_free [ev] -> alive r ->
  let r' := thread_step_run ev r in
  alive r' /\
  engine_heartbeat (engine (run_pipeline r')) =
    beaten (engine_beats [ev]) (engine_heartbeat (engine (run_pipeline r))) /\
  Dispatcher.heartbeat (run_dispatcher (sink (run_pipeline r'))) =
    beaten (dispatcher_beats [ev]) (Dispatcher.heartbeat (run_dispatcher (sink (run_pipeline r)))).
Proof using CL RingBufferLaws0.
  intros Hp [Hr Hf Hd Hq Hdr Hdf]. destruct r as [p pushed]. cbn [run_pipeline] in *.
  destruct ev as [sig | now | e]; cbn [thread_step_run Engine.step run_pipeline run_pushed].
  - pose proof (rb_try_push_spec sig (input_queue p)) as Hpush.
    destruct (rb_try_push _ _) as [q |]; (split; [split; cbn; try done | done]).
    destruct Hpush as [-> _]. apply Forall_app. split; [done | exact Hp].
  - rewrite Hf. unfold loop_step. rewrite Hr. cbn [andb negb Engine.stop_requested].
    destruct (Engine.run_iteration _ p) as [f p'] eqn:Hit.
    apply run_iteration_shape in Hit as (H1 & H2 & _ & H4 & Hshape).
    destruct (rb_contents (input_queue p)) as [| sig sigs] eqn:Hc.
    + destruct Hshape as [Hp' ->], p' as [e' rs' q' sink' dm']. injection Hp' as -> -> -> ->.
      rewrite Hd. cbn in *. split; [split; cbn; by rewrite ?H1, ?H2, ?Hc | by rewrite H4].
    + destruct Hshape as (-> & Hsigs & Hs). apply list.Forall_cons in Hq as [Hsig Hq]. unfold not_pill in Hsig.
      rewrite Hsig in Hs. destruct Hs as [Hdm [l Hl]]. cbn [run_pipeline].
      destruct (dispatch_length l (sink p)) as (_ & Hrf & Hrr & Hhb). split; [split | split]; cbn.
      all: by rewrite ?Hsigs, ?H1, ?H2, ?Hdm, ?Hl, ?Hrf, ?Hrr, ?Hhb.
  - destruct p as [en rs q [d f popped] dm]. cbn in *. subst f.
    unfold on_sink, Dispatcher.step, Dispatcher.run_iteration. cbn.
    rewrite Hdr. cbn [negb orb]. destruct (queue d) as [| a l] eqn:Hqd.
    { split; [split; cbn; auto | split; reflexivity]. }
    match goal with |- context [deliver ?e' a ?d1] =>
      destruct (deliver_spec e' a d1) as (_ & Hdr' & _); pose proof (deliver_heartbeat e' a d1) as Hhb;
      set (d2 := deliver e' a d1) in * end.
    split; [split; cbn; rewrite ?Hdr'; done | split; [done |]]. cbn. by rewrite Hhb.
Qed.

Lemma threads_alive evs : forall r,
  pill_free evs -> alive r ->
  let r' := run_threads evs r in
  engine_heartbeat (engine (run_pipeline r')) =
    beaten (engine_beats evs) (engine_heartbeat (engine (run_pipeline r))) /\
  Dispatcher.heartbeat (run_dispatcher (sink (run_pipeline r'))) =
    beaten (dispatcher_beats evs) (Dispatcher.heartbeat (run_dispatcher (sink (run_pipeline r)))).
Proof using CL RingBufferLaws0.
  induction evs as [| ev evs IH]; intros r Hp Hr; [done |]. cbn zeta.
  change (ev :: evs) with ([ev] ++ evs) in *. apply pushes_in_app_inv in Hp as [Hp1 Hp2].
  unfold engine_beats, dispatcher_beats. rewrite !omap_app, !beaten_app.
  fold (engine_beats [ev]) (engine_beats evs) (dispatcher_beats [ev]) (dispatcher_beats evs).
  destruct (step_alive ev r Hp1 Hr) as (Hr' & <- & <-).
  rewrite run_threads_app. by apply IH.
Qed.

Lemma alive_start metrics hb (rs : list R) (q : Q) (d0 : AlertDispatcher C) :
  rb_contents q = [] -> alive (start_threads metrics hb rs q d0).
Proof.
  intros Hq. destruct (register_all_flags rs (seq 0 (length rs)) (make_engine metrics hb)) as (Hr & Hf & _).
  split; cbn; rewrite ?Hq, ?Hr, ?Hf; done.
Qed.

Lemma register_all_heartbeat rs l e :
  engine_heartbeat (for_each (register_rule (R := R) rs) l e) = engine_heartbeat e.
Proof.
  apply (for_each_inv (fun e' => engine_heartbeat e' = engine_heartbeat e)); [| done].
  intros ptr e' _ <-. unfold register_rule. by destruct (rs !! ptr).
Qed.

(** The heartbeats of threads that were started with new ones. *)
Lemma started_heartbeats metrics (rs : list R) (q : Q) (d0 : AlertDispatcher C) evs :
  rb_contents q = [] -> Dispatcher.heartbeat d0 = Some new_heartbeat -> pill_free evs ->
  let r := run_threads evs (start_threads metrics (Some new_heartbeat) rs q d0) in
  engine_heartbeat (engine (run_pipeline r)) = Some (mkHeartbeat (latest (engine_beats evs))) /\
  Dispatcher.heartbeat (run_dispatcher (sink (run_pipeline r))) =
    Some (mkHeartbeat (latest (dispatcher_beats evs))).
Proof using CL RingBufferLaws0.
  intros Hq Hd Hp. cbn zeta.
  destruct (threads_alive evs (start_threads metrics (Some new_heartbeat) rs q d0) Hp) as [-> ->];
    [by apply alive_start |].
  rewrite <- !beaten_new. split; f_equal; [apply register_all_heartbeat | done].
Qed.

(** ** The probe *)

Definition recent (cfg : HealthChecksConfig) (now_ms last : Z) : Prop :=
  last <> 0 /\ now_ms - last <= heartbeat_max_age_ms cfg.

Lemma recent_fresh cfg now_ms t : heartbeat_fresh cfg now_ms (Some (mkHeartbeat t)) <-> recent cfg now_ms t.
Proof. unfold heartbeat_fresh, recent. split; [by intros (h & [= <-] & ?) | eauto]. Qed.

Lemma latest_u64 beats : Forall is_u64 beats -> is_u64 (latest beats).
Proof.
  intros Hb. destruct (decide (beats = [])) as [-> | Hne]; [unfold is_u64; cbn; lia |].
  unfold latest. rewrite list.Forall_forall in Hb. apply Hb, list_elem_of_In.
  destruct (List.exists_last Hne) as (l & x & ->). rewrite List.last_last. apply in_or_app. right. by left.
Qed.
End Vitals.

Section Properties.
Context {R Q C : Type} `{!IRiskRule R, !RiskRuleLaws R} `{!RingBuffer Q, !RingBufferLaws Q}
  `{!IAlertChannel C, CL : !ChannelLaws C}.

(** While the service runs, whatever its threads do and raise, the readiness
    probe answers 200 exactly when the event source has recorded a recent
    heartbeat, the engine and the dispatcher have each begun a turn of their loop
    recently, the database answers and the last RPC success is recent or there
    has been none; otherwise 503.  So a thread that is stuck, or sending one
    alert for too long, takes the service out of rotation. *)
Theorem readyz_of_running_threads (dump : ReadinessReport -> string) (cfg : HealthChecksConfig)
    (now_ms now_s : Z) (metrics : bool) (rs : list R) (q : Q) (d0 : AlertDispatcher C)
    (evs : list thread_step) (source_hb : Heartbeat) (client : JsonRpcClient) (probe : bool)
    (Hstart : rb_contents q = [] /\ Dispatcher.heartbeat d0 = Some new_heartbeat)
    (Hevs : pill_free evs)
    (Hclocks : is_u64 now_ms /\ is_u64 now_s /\ is_u64 (last_ms source_hb) /\
       Forall is_u64 (engine_beats evs) /\ Forall is_u64 (dispatcher_beats evs) /\
       is_u64 (default 0 (last_rpc_success client)))
    (Hmax : 0 <= heartbeat_max_age_ms cfg < UINT64_MAX) :
  let p := run_pipeline (run_threads evs (start_threads metrics (Some new_heartbeat) rs q d0)) in
  exists engine_hb dispatcher_hb,
    engine_heartbeat (engine p) = Some engine_hb /\
    Dispatcher.heartbeat (run_dispatcher (sink p)) = Some dispatcher_hb /\
    let i := health_inputs source_hb engine_hb dispatcher_hb client probe in
    let answer := status (handle_readyz dump i cfg now_ms now_s) in
    (answer = 200 <->
      recent cfg now_ms (last_ms source_hb) /\
      recent cfg now_ms (latest (engine_beats evs)) /\
      recent cfg now_ms (latest (dispatcher_beats evs)) /\
      probe = true /\ rpc_fresh i cfg now_s) /\
    (answer = 200 \/ answer = 503).
Proof using CL RingBufferLaws0.
  intros p. destruct Hstart as [Hq Hd], Hclocks as (H1 & H2 & H3 & H4 & H5 & H6).
  destruct (started_heartbeats metrics rs q d0 evs Hq Hd Hevs) as [He Hdh].
  exists (mkHeartbeat (latest (engine_beats evs))), (mkHeartbeat (latest (dispatcher_beats evs))).
  split; [exact He |]. split; [exact Hdh |]. intros i answer.
  destruct (readiness_iff dump i cfg now_ms now_s) as [Hiff Hor]; [| done..|].
  { unfold i, inputs_u64, hb_u64.
    cbn [Health.event_source Health.risk_engine Health.dispatcher rpc_last_success_unix_s health_inputs last_ms].
    auto using latest_u64. }
  split; [| exact Hor]. unfold answer. rewrite Hiff. subst i. destruct source_hb as [t].
  cbn [Health.event_source Health.risk_engine Health.dispatcher db_probe health_inputs last_ms]. rewrite !recent_fresh.
  naive_solver.
Qed.
End Properties.

(** ** Witness: the threads of System.v's sample, with a probe in time and one too late *)

Definition sample_beats : list thread_step :=
  [SourcePush (transfer_signal 500); EngineStep 1000; DispatcherStep (sample_env 1200); EngineStep 2000].

Lemma readyz_of_running_threads_witness :
  exists c, make_client "http://node" true = Ok c /\
  let p := run_pipeline (run_threads sample_beats
             (start_threads true (Some new_heartbeat) sample_rules (mkListQueue 4 []) sample_dispatcher)) in
  exists engine_hb dispatcher_hb,
    engine_heartbeat (engine p) = Some engine_hb /\
    status (handle_readyz (fun _ => "") (health_inputs (mkHeartbeat 1500) engine_hb dispatcher_hb c true)
      (mkHealthChecksConfig 5000 120000) 6000 100) = 200.
Proof.
  eexists. split; [reflexivity |].
  match goal with |- context [health_inputs _ _ _ ?c] =>
    destruct (readyz_of_running_threads (fun _ => "") (mkHealthChecksConfig 5000 120000) 6000 100 true
      sample_rules (mkListQueue 4 []) sample_dispatcher sample_beats (mkHeartbeat 1500) c true)
      as (he & hd & H1 & H2 & Hiff & _) end.
  - split; reflexivity.
  - repeat constructor.
  - unfold is_u64. split_and!; cbn; try lia; repeat constructor; cbn; lia.
  - cbn. unfold UINT64_MAX. lia.
  - exists he, hd. split; [exact H1 |]. apply Hiff. unfold recent. cbn. split_and!; (done || lia).
Defined.
