(* ===== verification/Service.v ===== *)
(** * The service from its start to its exit

    [App::run] ([src/app/app.cpp]) over the steps the other files model: the
    database of CheckpointStore.v, the modules, the rules and the threads of
    App.v, in the order of Lifecycle.v. *)
From S2P Require Import Prelude Cxx Signal Json Rpc Adapter EventSource.
From S2P Require Import Database RuleLoaders Security Dispatcher Webhooks Channels.
From S2P Require Import Metrics CheckpointStore Lifecycle AppConfig App.

Section Service.
Context {D R J F T G : Type} `{Pqxx D R} `{PqParams D R} `{PqRow R} `{Json J} `{Stream F}
  `{Network T} `{Evp} `{Prometheus G}.

(** The connection attempts, the test [is_open], the environment, and the
    outcome of creating the three threads. *)
Variables (attempt : nat -> result D) (is_open : D -> bool).
Variables (env : string -> option string) (threads : result unit).

(** How the construction of the metrics registry ends. *)
Definition metrics_outcome (cfg : AppConfig) : result unit :=
  _ ← make_metrics (G := G) (ac_metrics_listen_address cfg) (ac_chain cfg); Ok ().

(** What each step of the start-up does, once the database is up; writing the
    readiness file cannot throw. *)
Definition step_outcome (cfg : AppConfig) (t : T) (d : D) (start : Z) (s : RunStep) : result unit :=
  let '(w, modules) :=
    init_modules (J := J) (R := R) (F := F) env cfg start (metrics_outcome cfg) t (d, ()) in
  match s with
  | InitModules => _ ← modules; Ok ()
  | RegisterRules => m ← modules; _ ← (register_rules (R := R) (am_tables m) w).2; Ok ()
  | StartThreads => m ← modules; _ ← threads; _ ← start_health_server m; Ok ()
  | _ => Ok ()
  end.

Definition service_run (cfg : AppConfig) (t : T) : list RunStep * Z :=
  match init_db (R := R) attempt is_open (ac_database_url cfg) (ac_chain cfg) with
  | Throw e => fatal e
  | Ok None => app_run (Ok false) (fun _ => Ok ())
  | Ok (Some (d, start)) => app_run (Ok true) (step_outcome cfg t d start)
  end.
End Service.

(** * Facts *)

Lemma bind_unit_Throw {X : Type} (r : result X) e : (_ ← r; Ok ()) = Throw e -> r = Throw e.
Proof. by destruct r as [x|e']; cbn; [|intros [= ->]]. Qed.

Lemma start_health_server_Throw {F T : Type} (m : AppModules F T) e :
  start_health_server m = Throw e -> e = NonStdException.
Proof.
  unfold start_health_server. destruct (am_health m) as [s|]; [|done].
  destruct (skip_std (health_start s)) as [x|e'] eqn:Hs; cbn [mbind result_bind]; [done|].
  intros [= ->]. unfold skip_std in Hs. destruct (health_start s) as [|[]]; congruence.
Qed.

Lemma fatal_code e :
  (fatal e).2 ∈ [3; 4] /\ (fatal e).2 <> 0 /\ (fatal e).2 <> 2 /\
  ((fatal e).2 = 3 -> e <> NonStdException).
Proof. destruct e; cbn; split_and!; try done; set_solver. Qed.

Section Facts.
Context {D R J F T G : Type} `{!Pqxx D R, !PqParams D R, !PqRow R, !Json J, !JsonLaws J, !Stream F,
  !Network T, !Evp, !Prometheus G}.

(** Why a step of the start-up throws. *)
Lemma step_outcome_Throw env threads cfg (t : T) (d : D) start s e :
  step_outcome (J := J) (R := R) (F := F) (G := G) env threads cfg t d start s = Throw e ->
  startup_error cfg (metrics_outcome (G := G) cfg) t e \/ threads = Throw e.
Proof.
  unfold step_outcome. destruct (init_modules _ _ _ _ _ _) as [w modules] eqn:Hm.
  apply init_modules_inv in Hm. destruct modules as [m|e'].
  2: { destruct s; cbn [mbind result_bind]; try done; intros [= ->]; by left. }
  destruct s; cbn [mbind result_bind]; try done.
  - intros He%bind_unit_Throw. left. destruct (register_rules (am_tables m) w) as [w2 r] eqn:Hr.
    apply (register_rules_inv (J := J)) in Hr. cbn [snd] in He. subst r e. apply foreign_exception.
  - destruct threads as [x|e']; cbn [mbind result_bind].
    + intros He%bind_unit_Throw%start_health_server_Throw. subst. left. apply foreign_exception.
    + intros [= ->]. by right.
Qed.
End Facts.

(** * Properties *)

Section Properties.
Context {D R J F T G : Type} `{!Pqxx D R, !PqParams D R, !PqRow R, !Json J, !JsonLaws J, !Stream F,
  !Network T, !Evp, !Prometheus G}.

(** C25: a run of the service exits with 0 exactly when the database is up and no step of
    the start-up throws, and then it has announced itself ready, waited for the stop request and
    withdrawn the announcement before shutting down; with 2 exactly when there is no usable database,
    having started nothing; with 3 only for a missing RPC URL, an unknown chain, a failure of the
    metrics registry, the node or the creation of a thread, so neither the content of the database
    nor the health server's address can cause it; otherwise with 4, for an exception that is not a
    [std::exception].  Whatever it started is shut down and joined last, on every path. *)
Theorem service_exit (attempt : nat -> result D) (is_open : D -> bool)
    (env : string -> option string) (threads : result unit) (cfg : AppConfig) (t : T) :
  let db := init_db (R := R) attempt is_open (ac_database_url cfg) (ac_chain cfg) in
  let r := service_run (J := J) (R := R) (F := F) (G := G) attempt is_open env threads cfg t in
  let steps := r.1 in
  let code := r.2 in
  code ∈ [0; 2; 3; 4] /\
  (code = 0 <-> exists d start, db = Ok (Some (d, start)) /\
     Forall (ok_in (step_outcome (J := J) (R := R) (F := F) (G := G) env threads cfg t d start))
       startup_steps) /\
  (code = 0 -> steps = startup_steps ++ [WaitStop; RemoveReadiness; StopOrderly; JoinThreads]) /\
  (code <> 0 -> RemoveReadiness ∉ steps /\ WaitStop ∉ steps) /\
  (code = 2 <-> db = Ok None) /\
  (code = 3 -> exists e, e <> NonStdException /\ (startup_error cfg (metrics_outcome (G := G) cfg) t e \/ threads = Throw e)) /\
  (if decide (code = 2) then steps = [] else exists pre, steps = pre ++ [StopOrderly; JoinThreads]).
Proof.
  intros db r steps code. subst steps code r. unfold service_run. fold db.
  destruct db as [[[d start]|]|e] eqn:Hdb.
  - set (outcome := step_outcome (J := J) (R := R) (F := F) (G := G) env threads cfg t d start).
    pose proof (app_run_exit (Ok true) outcome) as Hexit.
    generalize dependent (app_run (Ok true) outcome). intros [steps code] Hexit. cbn [fst snd] in *.
    destruct Hexit as [_ Hall|[=]|e [=]|pre s post e _ Hsteps Hpre He].
    + split_and!; try done; [set_solver|naive_solver|]. rewrite decide_False by done.
      by exists (startup_steps ++ [WaitStop; RemoveReadiness]).
    + assert (pre ++ [s] ⊆ startup_steps) as Hsub by (rewrite Hsteps; set_solver).
      assert (~ Forall (ok_in outcome) startup_steps) as Hnot.
      { rewrite Hsteps, Forall_app, list.Forall_cons. unfold ok_in. rewrite He. by intros (_ & [=] & _). }
      pose proof (fatal_code e) as (Hcode & Hcode0 & Hcode2 & Hcode3).
      split_and!; [set_solver|naive_solver|done| |naive_solver| |].
      * intros _. rewrite app_assoc. unfold startup_steps in Hsub.
        split; intros [Hin%Hsub|Hin]%elem_of_app; revert Hin; cbn; set_solver.
      * intros H3. exists e. split; [by apply Hcode3|]. by eapply step_outcome_Throw.
      * rewrite decide_False by done. exists (pre ++ [s]). by rewrite <- app_assoc.
  - cbn. split_and!; try done; [set_solver|naive_solver|set_solver].
  - apply init_db_Throw in Hdb as Hfatal. subst e. cbn.
    split_and!; try done; [set_solver|naive_solver|set_solver|]. by exists [].
Qed.
End Properties.

(** ** Concrete runs *)

#[local] Existing Instance sample_json.
#[local] Existing Instance EchoNetwork_network.
#[local] Existing Instance sample_row_PqRow.
#[local] Existing Instance sample_db.
#[local] Existing Instance no_stream.
#[local] Existing Instance no_evp.
#[local] Instance no_checkpoints : PqParams (list sample_row) sample_row := {
  pg_exec_params _ _ d := (d, Ok []);
  first_i64 _ := Ok 0;
}.

#[local] Instance plain_registry : Prometheus (list Family) := {
  make_exposer _ := Ok [];
  register_family f g := Ok (g ++ [f]);
  register_collectable g := Ok g;
  add_instrument _ _ g := Ok g;
}.

Definition sample_service (reachable : bool) (threads : result unit) (chain : string)
    : list RunStep * Z :=
  service_run (J := json) (R := sample_row) (F := ()) (G := list Family)
    (fun _ => if reachable then Ok ([] : list sample_row) else Throw (LibraryError "refused"))
    (fun _ => true) sample_app_env threads (sample_app_config chain) mkEchoNetwork.

Example service_exits_0 : (sample_service true (Ok ()) "arbitrum").2 = 0.
Proof. vm_compute. reflexivity. Qed.
Example service_exits_2 : sample_service false (Ok ()) "arbitrum" = ([], 2).
Proof. vm_compute. reflexivity. Qed.
Example service_exits_3 :
  sample_service true (Ok ()) "solana" = ([InitModules; StopOrderly; JoinThreads], 3) /\
  sample_service true (Throw (LibraryError "Resource temporarily unavailable")) "arbitrum" =
    ([InitModules; RegisterRules; StartThreads; StopOrderly; JoinThreads], 3).
Proof. split; vm_compute; reflexivity. Qed.

#[local] Existing Instance sample_json_laws.

Lemma service_exit_witness :
  (sample_service true (Ok ()) "arbitrum").2 = 0 /\
  (sample_service true (Ok ()) "arbitrum").1 =
    startup_steps ++ [WaitStop; RemoveReadiness; StopOrderly; JoinThreads].
Proof.
  split; [vm_compute; reflexivity|].
  pose proof (service_exit (J := json) (R := sample_row) (F := ()) (G := list Family)
    (fun _ => if true then Ok ([] : list sample_row) else Throw (LibraryError "refused"))
    (fun _ => true) sample_app_env (Ok ()) (sample_app_config "arbitrum") mkEchoNetwork) as H.
  cbv zeta in H. destruct H as (_ & _ & H & _). unfold sample_service. apply H.
  vm_compute. reflexivity.
Defined.
