(* ===== verification/EndToEnd.v ===== *)
(** * The service from its blocks to its alerts

    The event source of the service, cold start included, composed with the
    threads and the shutdown: what the channels have received in the end is what
    the rules say of a range of blocks.  The same for the backtest is in
    Backtest.v. *)
From S2P Require Import Prelude Cxx Hex Signal Normalize RuleInterface Dedup Health.
From S2P Require Import PipelineInterface Dispatcher Engine Rules EventSource Json Rpc Adapter.
From S2P Require Import Database RuleLoaders Security Formatter Webhooks Channels.
From S2P Require Import BacktestConfig Lifecycle System AppConfig Backtest App.

(** ** Signals and pills *)

Section Pills.
Context {R : Type} `{!IRiskRule R, !RiskRuleLaws R}.

(** Pills change nothing in what the rules say. *)
Lemma spec_run_not_pills (rs : list R) l : spec_run rs (filter not_pill l) = spec_run rs l.
Proof.
  revert rs; induction l as [|s l IH]; intros rs; [done|]. rewrite filter_cons.
  destruct (decide (not_pill s)) as [Hs|Hs]; cbn [spec_run]; [by rewrite IH|].
  apply not_false_is_true in Hs. unfold spec_rules, spec_alerts. rewrite Hs, IH.
  by destruct (spec_run rs l).
Qed.

Lemma filter_prefix (l k : list Signal) :
  l `prefix_of` k -> filter not_pill l `prefix_of` filter not_pill k.
Proof. intros [k' ->]. exists (filter not_pill k'). by rewrite list.filter_app. Qed.

Lemma filter_not_pills (l : list Signal) : Forall not_pill l -> filter not_pill l = l.
Proof.
  induction 1 as [|s l Hs _ IH]; [done|]. by rewrite filter_cons, decide_True, IH.
Qed.
End Pills.

(** A shutdown during which the source pushes nothing: the queue has accepted the
    pill only. *)
Lemma quiet_stop_pushed {R Q C : Type} `{!IRiskRule R, !RiskRuleLaws R} `{!RingBuffer Q, !RingBufferLaws Q}
    `{!IAlertChannel C, CL : !ChannelLaws C} (r : Threads R Q C) fuel m timeout clock meanwhile after s' :
  risk_engine m = true -> dispatcher m = true ->
  Forall (fun t => pushes_in (fun _ => False) t.2) meanwhile -> pushes_in (fun _ => False) after ->
  stop_orderly fuel m timeout false (mkSystem r clock meanwhile) = Some (true, s', true) ->
  run_pushed (run_threads after (threads s')) = run_pushed r ++ [poison_pill].
Proof.
  intros Hm1 Hm2 Hmean Hafter Hstop.
  destruct (stop_orderly_drained (fun _ => False) fuel m timeout (mkSystem r clock meanwhile) s'
    Hm1 Hm2 Hmean Hstop) as (evs & Hevs & Hdrained).
  by rewrite run_threads_no_pushes, (drained_shutdown_pushed _ _ Hdrained), run_threads_no_pushes.
Qed.

(** ** The service *)

Section Service.
Context {D R J F T Q : Type} `{!Pqxx D R, !PqRow R, !Json J, !JsonLaws J, !Stream F, !Network T, !Evp}
  `{!RingBuffer Q, !RingBufferLaws Q}.
Context (system_ms steady_ms : nat -> Z) (uninit : nat -> list Z).

(** The world the service's event source starts in. *)
Definition service_world (m : AppModules F T) (out : Q) (consumer : list nat)
    : World (EvmAdapter T) Q :=
  mkWorld (am_source m) (EventSource.mkInstruments true 0 0 0 None None) (Some new_heartbeat)
    (am_adapter m) out consumer 0 [].

Lemma service_world_ready env cfg start_block (m : AppModules F T) (out : Q) consumer :
  modules_ready env cfg start_block m -> 0 <= start_block <= 2 ^ 63 ->
  live_config cfg ->
  let w := service_world m out consumer in
  wf w /\ tracked (am_adapter m) w /\ (no_jump w \/ cold w) /\ next_block (source w) = start_block /\
  (cold w -> start_block = 0).
Proof.
  intros Hm Hstart [Hend Hmin Hmax] w. destruct (mr_source _ _ _ _ Hm) as [cid Hs].
  assert (tracked (am_adapter m) w) by (apply (tracked_fresh w); unfold w; cbn; by rewrite Hs).
  unfold wf, cold, no_jump, is_u64, w. cbn [source service_world]. rewrite Hs. cbn. rewrite ?Hend, ?Hmin.
  split_and!; try done; try lia.
Qed.

(** The two sides of the ring buffer agree: the threads try to push signals of
    the event source only, and what the queue has accepted in the end, the pill
    apart, is what the source has pushed. *)
Record service_connected {R' C' : Type} `{IAlertChannel C'} (w : World (EvmAdapter T) Q)
    (steps : list thread_step) (final : Threads R' Q C') : Prop := {
  sc_tries : pushes_in (fun sig => sig ∈ pushed w) steps;
  sc_accepted : filter not_pill (run_pushed final) = pushed w;
}.

(** C2: the service from the blocks to the alerts.  Once it has started over a
    node that serves one chain whose logs can all be normalised, run, been asked to stop and shut
    down without a timeout, the alerts
    that have been consumed are exactly those its rules raise on an initial part of the signals of a
    range of blocks, each log once and in order; the range begins at the checkpoint (at a head the
    node named, when there was none) and ends before the cursor (a source stuck on a full queue has
    begun a further batch); the part contains every signal the queue had accepted when the shutdown
    began, and it is the whole when the source pushes nothing after that; every channel of the
    start-up has received the alerts the deduplicator let pass. *)
Theorem service_end_to_end (env : string -> option string) (cfg : AppConfig) (start_block : Z)
    (metrics : result unit) (t : T) (d : D * ()) (m : AppModules F T) (rules : list Rule)
    (blocks : Z -> list RawLog) (out ring : Q) (consumer : list nat) (stops : list bool)
    (w' : World (EvmAdapter T) Q) (st : EventSource.status) (before after : list thread_step)
    (clock : Z) (meanwhile : list (nat * list thread_step)) (fuel : nat) (timeout : Z)
    (s' : System Rule Q (Channel F T))
    (Hstart : 0 <= start_block <= 2 ^ 63) (Hlive : live_config cfg)
    (Hinit : (init_application (J := J) (R := R) (F := F) env cfg start_block metrics t d).2 = Ok (m, rules))
    (Hnode : node_serves (J := J) (T := T) (endpoint (Adapter.rpc (am_adapter m))) blocks)
    (Hlogs : logs_normalise uninit blocks (EventSource.chain_id (am_source m)))
    (Hrun : EventSource.run system_ms steady_ms uninit stops (service_world m out consumer) = (w', st))
    (Hring : rb_contents ring = []) :
  let r := run_threads before (start_threads true (Some new_heartbeat) rules ring (am_dispatcher m)) in
  let final := run_threads after (threads s') in
  let sent := run_popped (sink (run_pipeline final)) in
  service_connected w' (before ++ concat meanwhile.*2) final ->
  stop_orderly fuel (running_modules m) timeout false (mkSystem r clock meanwhile) = Some (true, s', true) ->
  (length (queue (run_dispatcher (sink (run_pipeline (threads s'))))) < length (dispatcher_envs after))%nat ->
  exists first extra processed,
    (first = start_block \/ start_block = 0 /\ exists a, announced (am_adapter m) first a) /\
    Forall2 (signal_of (EventSource.chain_id (am_source m)))
      (chain_logs blocks first (next_block (source w')) ++ extra) (pushed w') /\
    (if is_stuck st then unfinished blocks w' extra else extra = []) /\
    run_pushed r `prefix_of` processed /\ processed `prefix_of` pushed w' /\
    (Forall (fun t => pushes_in (fun _ => False) t.2) meanwhile -> pushes_in (fun _ => False) after ->
       processed = pushed w') /\
    sent.*1 = (spec_run rules processed).2 /\
    channels (run_dispatcher (sink (run_pipeline final))) =
      (fun c => receive c (passed (deduplicator (am_dispatcher m)) sent)) <$> channels (am_dispatcher m).
Proof using JsonLaws0 RingBufferLaws0.
  intros r final sent [Htries Haccepted] Hstop Hjoin.
  apply init_application_ready in Hinit as Hm.
  destruct (service_world_ready env cfg start_block m out consumer Hm Hstart Hlive)
    as (Hwf & Htr & Hfirst & Hnext & Hcold).
  pose proof (evm_serves blocks (am_adapter m) Hnode) as Hserve.
  apply (run_delivered_from system_ms steady_ms uninit (am_adapter m) blocks) in Hrun
    as (first & sigs & extra & Hf & [_ Hp Hall Hextra]); [|done..].
  cbn [pushed service_world app] in Hp. subst sigs. unfold begins in Hf. rewrite Hnext in Hf.
  assert (forall sig, sig ∈ pushed w' -> not_pill sig) as Hnopill.
  { intros sig [i Hi]%list_elem_of_lookup_1.
    destruct (Forall2_lookup_r _ _ _ _ _ Hall Hi) as (raw & _ & ts & u & t0 & ev & Hn & ->).
    by apply normalize_not_pill in Hn. }
  assert (pill_free (before ++ concat meanwhile.*2)) as Hfree
    by exact (pushes_in_impl _ _ _ Hnopill Htries).
  apply pushes_in_app_inv in Hfree as [Hbefore Hmean%pushes_in_concat].
  destruct (stopped_delivered true (Some new_heartbeat) rules ring (am_dispatcher m) before after clock
    meanwhile fuel (running_modules m) timeout s') as (processed & [Hacc Hproc _ _ Halerts Hchan]);
    [by split; [|apply (dr_queue _ _ _ (mr_dispatcher _ _ _ _ Hm))]|done|done|exact Hstop|exact Hjoin|].
  assert (run_pushed r `prefix_of` filter not_pill processed) as Hsome.
  { destruct Hacc as [since Hacc]. rewrite <- (filter_not_pills (run_pushed r)).
    + apply filter_prefix. etrans; [|exact Hacc]. rewrite <- app_assoc. by eexists.
    + by apply run_threads_pill_free. }
  assert (filter not_pill processed `prefix_of` pushed w') as Hall'
    by (rewrite <- Haccepted; by apply filter_prefix).
  exists first, extra, (filter not_pill processed). split_and!.
  - destruct Hf as [->|[Hc Hhead]]; [by left|right; auto].
  - exact Hall.
  - exact Hextra.
  - exact Hsome.
  - exact Hall'.
  - intros Hquiet Hafter. apply (anti_symm prefix); [exact Hall'|]. etrans; [|exact Hsome].
    rewrite <- Haccepted. unfold final.
    rewrite (quiet_stop_pushed r fuel (running_modules m) timeout clock meanwhile after s') by done.
    rewrite list.filter_app, filter_not_pills; [by rewrite app_nil_r|by apply run_threads_pill_free].
  - by rewrite spec_run_not_pills.
  - exact Hchan.
Qed.
End Service.

(** ** Witness: the sample chain, with a mint rule in the database *)

#[local] Existing Instance sample_json.
#[local] Existing Instance sample_json_laws.
#[local] Existing Instance EchoNetwork_network.
#[local] Existing Instance sample_row_PqRow.
#[local] Existing Instance sample_db.
#[local] Existing Instance no_stream.
#[local] Existing Instance App.no_evp.

Definition sample_service_rows : list sample_row :=
  [[("customer_id", "7"); ("chain_id", "20"); ("contract_address", address_to_hex (replicate 20 253));
    ("mint_threshold_raw", "100"); ("burn_threshold_raw", "100"); ("enabled", "t")]].
Definition sample_started : result (AppModules () EchoNetwork * list Rule) :=
  (init_application (J := json) (R := sample_row) (F := ()) sample_app_env
     (sample_app_config "arbitrum") 10 (Ok ()) mkEchoNetwork (sample_service_rows, ())).2.
Definition sample_modules : AppModules () EchoNetwork :=
  match sample_started with
  | Ok (m, _) => m
  | Throw _ =>
      mkAppModules (ArbitrumAdapter sample_client mkEchoNetwork)
        (make_source (app_source_config (sample_app_config "arbitrum") 10) 0)
        (mkAppTables ∅ ∅ ∅ ∅ ∅ (mkBridgeTables ∅ ∅ ∅) ∅ ∅)
        (make_dispatcher true app_dedup_config [] None) None
  end.
Definition sample_service_rules : list Rule :=
  match sample_started with Ok (_, rules) => rules | Throw _ => [] end.
Definition sample_service_source : World (EvmAdapter EchoNetwork) ListQueue * EventSource.status :=
  EventSource.run (A := EvmAdapter EchoNetwork) sample_clock sample_clock (fun _ => zeros 32)
    [false; false; true] (service_world sample_modules (mkListQueue 8 []) (replicate 5 0%nat)).
Definition sample_service_before : list thread_step :=
  SourcePush <$> pushed sample_service_source.1.
Definition sample_service_meanwhile : list (nat * list thread_step) :=
  [(0%nat, []); (0%nat, []); (0%nat, []); (3%nat, EngineStep <$> [1; 2; 3])].
Definition sample_service_stop : option (bool * System Rule ListQueue (Channel () EchoNetwork) * bool) :=
  stop_orderly 10 (running_modules sample_modules) 5000 false
    (mkSystem (run_threads sample_service_before (start_threads true (Some new_heartbeat)
       sample_service_rules (mkListQueue 8 []) (am_dispatcher sample_modules))) 0 sample_service_meanwhile).
Definition sample_service_stopped : System Rule ListQueue (Channel () EchoNetwork) :=
  match sample_service_stop with
  | Some (_, s, _) => s
  | None => mkSystem (start_threads true (Some new_heartbeat) sample_service_rules
              (mkListQueue 8 []) (am_dispatcher sample_modules)) 0 []
  end.
Definition sample_service_after : list thread_step := DispatcherStep <$> [sample_env 10; sample_env 20].

Lemma service_end_to_end_witness :
  let final := run_threads sample_service_after (threads sample_service_stopped) in
  let sent := run_popped (sink (run_pipeline final)) in
  length sent = 1%nat /\
  exists first extra,
    (first = 10 \/ 10 = 0 /\ exists a, announced (am_adapter sample_modules) first a) /\
    Forall2 (signal_of (EventSource.chain_id (am_source sample_modules)))
      (chain_logs sample_blocks first (next_block (source sample_service_source.1)) ++ extra)
      (pushed sample_service_source.1) /\
    sent.*1 = (spec_run sample_service_rules (pushed sample_service_source.1)).2.
Proof.
  intros final sent. split; [vm_compute; reflexivity|].
  destruct (service_end_to_end (D := list sample_row) (R := sample_row) (J := json) sample_clock sample_clock
    (fun _ => zeros 32) sample_app_env (sample_app_config "arbitrum") 10 (Ok ()) mkEchoNetwork
    (sample_service_rows, ()) sample_modules sample_service_rules sample_blocks (mkListQueue 8 [])
    (mkListQueue 8 []) (replicate 5 0%nat) [false; false; true] sample_service_source.1 sample_service_source.2
    sample_service_before sample_service_after 0 sample_service_meanwhile 10 5000 sample_service_stopped)
    as (first & extra & processed & H1 & H2 & _ & _ & _ & H6 & H7 & _).
  - lia.
  - split; cbn; lia.
  - vm_compute. reflexivity.
  - apply sample_node_serves.
  - apply sample_logs_normalise.
  - vm_compute. reflexivity.
  - reflexivity.
  - split; [|vm_compute; reflexivity]. unfold pushes_in, sample_service_before.
    rewrite source_pushes_app, source_pushes_SourcePush. apply Forall_app.
    split; [apply list.Forall_forall; intros x Hx; exact Hx|constructor].
  - vm_compute. reflexivity.
  - apply Nat.ltb_lt. vm_compute. reflexivity.
  - exists first, extra. split; [exact H1|]. split; [exact H2|].
    rewrite H6 in H7 by (repeat constructor). exact H7.
Defined.
