(* ===== verification/Programs.v ===== *)
(** * The entry point

    Model of [src/main.cpp]: the environment and the command line to the command
    that is run.  Signal handling and the threads' creation are left to the
    operating system. *)
From S2P Require Import Prelude Cxx Database BacktestConfig Dedup EventSource AppConfig.

(** ** The command line *)

Definition getenv_or (env : string -> option string) (k defv : string) : string :=
  default defv (env k).

Definition env_is_true (env : string -> option string) (k : string) : bool :=
  match env k with
  | None => false
  | Some s => bool_decide (s ∈ ["1"; "true"; "TRUE"; "yes"; "on"])
  end.

Definition app_config (env : string -> option string) : AppConfig :=
  let chain := getenv_or env "CHAIN" "arbitrum" in
  let log_level := getenv_or env "LOG_LEVEL" "info" in
  mkAppConfig chain (getenv_or env "DATABASE_URL" "")
    (if decide (chain = "ethereum") then getenv_or env "ETHEREUM_RPC_URL" ""
     else getenv_or env "ARBITRUM_RPC_URL" "")
    (mkEventSourceConfig 0 1000 1 0)
    (bool_decide (log_level = "debug") || env_is_true env "DEBUG")
    "/tmp/sentinel.ready" 5000 "0.0.0.0:8080"
    (getenv_or env "HEALTH_LISTEN_ADDRESS" "0.0.0.0:8081").

(** Whatever the environment, the event source is one that follows the head. *)
Lemma app_config_live env : live_config (app_config env).
Proof. split; cbn; lia. Qed.

(** What [main] goes on to do; an exception that is not a [std::exception]
    ends the process. *)
Inductive Command :=
  | Exit (code : Z)
  | Terminate
  | EncryptSecret (args : list string)
  | RunBacktest (cfg : BacktestConfig) (rpc_url : string)
  | RunApp (cfg : AppConfig).

Section Main.
Context {Y : Type} `{Yaml Y}.

(** The [backtest] command: the file is read before the URL is looked at. *)
Definition backtest_command (env : string -> option string) (files : string -> option string)
    (path : string) : Command :=
  let ethereum_rpc := getenv_or env "ETHEREUM_RPC_URL" "" in
  let arbitrum_rpc := getenv_or env "ARBITRUM_RPC_URL" "" in
  match load_backtest_config files path with
  | Throw NonStdException => Terminate
  | Throw _ => Exit 4
  | Ok cfg =>
      let rpc_url := if decide (bc_chain cfg = "ethereum") then ethereum_rpc else arbitrum_rpc in
      if str_empty rpc_url then Exit 3 else RunBacktest cfg rpc_url
  end.

(** [argv], the name of the program first. *)
Definition main (env : string -> option string) (files : string -> option string)
    (argv : list string) : Command :=
  match argv with
  | _ :: "admin" :: command :: args =>
      if decide (command = "encrypt-secret") then EncryptSecret args else Exit 1
  | [_; "backtest"] => Exit 2
  | _ :: "backtest" :: path :: _ => backtest_command env files path
  | _ => RunApp (app_config env)
  end.
End Main.
