(* ===== verification/Lifetimes.v ===== *)
(** * Lifetimes and sharing

    A C++ program constructs objects, hands references of them to threads, joins
    the threads and destroys the objects; nothing checks that an object is alive
    when it is used, or that two threads do not use it at the same time.  This
    file is the machine in which both are stated: the main thread runs a list of
    events, a thread that has been started may use any part of the objects it
    can reach at any time and may end at any time.  [scoped] is an executable
    check of such a program, and [scoped_safe] says that what it accepts is safe
    in every interleaving.  AppLifetimes.v and BacktestLifetimes.v hold the
    two programs. *)
From stdpp Require Import relations.
From S2P Require Import Prelude.

(** ** Programs *)

(** What the main thread does that matters to the lifetimes; [Use] is a call that
    may access some parts of objects (their data members). *)
Inductive Event {Obj Part Thread : Type} :=
  | Make (o : Obj)
  | Use (ps : list Part)
  | Spawn (t : Thread)
  | Join (t : Thread)
  | Destroy (o : Obj).
Arguments Event : clear implicits.

(** Which object a part belongs to, which parts a thread may use, and whether
    the thread stands for several that run the same code. *)
Record Layout (Obj Part Thread : Type) := mkLayout {
  owner : Part -> Obj;
  accesses : Thread -> list Part;
  pooled : Thread -> bool;
}.
Arguments owner {Obj Part Thread} l p.
Arguments accesses {Obj Part Thread} l t.
Arguments pooled {Obj Part Thread} l t.

Record Snapshot (Obj Part Thread : Type) := mkSnapshot {
  program : list (Event Obj Part Thread);
  alive : list Obj;
  running : list Thread;
}.
Arguments mkSnapshot {Obj Part Thread} program alive running.
Arguments program {Obj Part Thread} s.
Arguments alive {Obj Part Thread} s.
Arguments running {Obj Part Thread} s.

Section Machine.
Context {Obj Part Thread : Type} `{EqDecision Obj, EqDecision Part, EqDecision Thread}.
Notation Event := (Event Obj Part Thread).
Notation Snapshot := (Snapshot Obj Part Thread).
Implicit Types (w : Snapshot) (o : Obj) (p : Part) (t u : Thread) (l : list Event).

Definition without {A : Type} `{EqDecision A} (x : A) (xs : list A) : list A :=
  filter (fun y => y <> x) xs.

(** A join waits until its thread has ended. *)
Inductive step : Snapshot -> Snapshot -> Prop :=
  | step_make o l a r : step (mkSnapshot (Make o :: l) a r) (mkSnapshot l (o :: a) r)
  | step_use ps l a r : step (mkSnapshot (Use ps :: l) a r) (mkSnapshot l a r)
  | step_spawn t l a r : step (mkSnapshot (Spawn t :: l) a r) (mkSnapshot l a (t :: r))
  | step_join t l a r : t ∉ r -> step (mkSnapshot (Join t :: l) a r) (mkSnapshot l a r)
  | step_destroy o l a r : step (mkSnapshot (Destroy o :: l) a r) (mkSnapshot l (without o a) r)
  | step_end t l a r : t ∈ r -> step (mkSnapshot l a r) (mkSnapshot l a (without t r)).

Definition at_start l : Snapshot := mkSnapshot l [] [].

(** The objects a program has made and not destroyed. *)
Definition made l : list Obj :=
  foldl (fun a e => match e with Make o => o :: a | Destroy o => without o a | _ => a end) [] l.

(** The main thread alone, until it has to wait. *)
Fixpoint advance (n : nat) w : Snapshot :=
  match n, program w with
  | S n, Make o :: l => advance n (mkSnapshot l (o :: alive w) (running w))
  | S n, Use _ :: l => advance n (mkSnapshot l (alive w) (running w))
  | S n, Spawn t :: l => advance n (mkSnapshot l (alive w) (t :: running w))
  | S n, Join t :: l =>
      if decide (t ∈ running w) then w else advance n (mkSnapshot l (alive w) (running w))
  | S n, Destroy o :: l => advance n (mkSnapshot l (without o (alive w)) (running w))
  | _, _ => w
  end.

Section Safety.
Variable lay : Layout Obj Part Thread.

(** Nobody uses an object that is not alive, nothing is made or destroyed twice,
    and at the end every thread has ended and everything has been destroyed. *)
Record lifetimes_ok w : Prop := {
  lt_threads t p : t ∈ running w -> p ∈ accesses lay t -> owner lay p ∈ alive w;
  lt_main ps p l : program w = Use ps :: l -> p ∈ ps -> owner lay p ∈ alive w;
  lt_make o l : program w = Make o :: l -> o ∉ alive w;
  lt_destroy o l : program w = Destroy o :: l -> o ∈ alive w;
  lt_end : program w = [] -> running w = [] /\ alive w = [];
}.

(** Two threads may be using a part at the same time; [None] is the main thread. *)
Inductive contend w : option Thread -> option Thread -> Part -> Prop :=
  | contend_main t ps p l : program w = Use ps :: l -> p ∈ ps -> t ∈ running w -> p ∈ accesses lay t ->
      contend w None (Some t) p
  | contend_threads t u p : t ∈ running w -> u ∈ running w -> t <> u \/ pooled lay t = true ->
      p ∈ accesses lay t -> p ∈ accesses lay u -> contend w (Some t) (Some u) p.

(** ** The check *)

Variable may_share : option Thread -> option Thread -> Part -> bool.

Definition shares (x y : option Thread) (ps : list Part) : bool := forallb (may_share x y) ps.

Definition common t u : list Part := filter (fun p => p ∈ accesses lay u) (accesses lay t).

Definition compatible t u : bool :=
  shares (Some t) (Some u) (common t u) && shares (Some u) (Some t) (common u t).

(** [a] are the objects alive and [ts] the threads that may still be running. *)
Fixpoint scoped l (a : list Obj) (ts : list Thread) : bool :=
  match l with
  | [] => bool_decide (ts = []) && bool_decide (a = [])
  | Make o :: l => bool_decide (o ∉ a) && scoped l (o :: a) ts
  | Use ps :: l =>
      forallb (fun p => bool_decide (owner lay p ∈ a)) ps &&
      forallb (fun t => shares None (Some t) (filter (fun p => p ∈ accesses lay t) ps)) ts &&
      scoped l a ts
  | Spawn t :: l =>
      bool_decide (t ∉ ts) && forallb (fun p => bool_decide (owner lay p ∈ a)) (accesses lay t) &&
      (negb (pooled lay t) || shares (Some t) (Some t) (accesses lay t)) &&
      forallb (compatible t) ts && scoped l a (t :: ts)
  | Join t :: l => scoped l a (without t ts)
  | Destroy o :: l =>
      bool_decide (o ∈ a) &&
      forallb (fun t => forallb (fun p => bool_decide (owner lay p <> o)) (accesses lay t)) ts &&
      scoped l (without o a) ts
  end.

(** * Facts *)

Lemma elem_of_without {A : Type} `{EqDecision A} (x y : A) (xs : list A) :
  y ∈ without x xs <-> y <> x /\ y ∈ xs.
Proof. unfold without. by rewrite list_elem_of_filter. Qed.

(** Every object a thread of [ts] can reach is alive, and two of them share only
    what they may. *)
Record covered w (ts : list Thread) : Prop := {
  cv_running : running w ⊆ ts;
  cv_scoped : scoped (program w) (alive w) ts = true;
  cv_alive t p : t ∈ ts -> p ∈ accesses lay t -> owner lay p ∈ alive w;
  cv_shared t u p : t ∈ ts -> u ∈ ts -> t <> u \/ pooled lay t = true ->
    p ∈ accesses lay t -> p ∈ accesses lay u -> may_share (Some t) (Some u) p = true;
}.

Lemma forallb_elem_of {A : Type} (f : A -> bool) (xs : list A) :
  forallb f xs = true <-> forall x, x ∈ xs -> f x = true.
Proof. rewrite forallb_forall. split; intros Hf x; rewrite ?list_elem_of_In; [|rewrite <- list_elem_of_In]; auto. Qed.

Lemma compatible_spec t u :
  compatible t u = true <->
  forall p, p ∈ accesses lay t -> p ∈ accesses lay u ->
    may_share (Some t) (Some u) p = true /\ may_share (Some u) (Some t) p = true.
Proof.
  unfold compatible, shares, common. rewrite andb_true_iff, !forallb_elem_of.
  setoid_rewrite list_elem_of_filter. naive_solver.
Qed.

Ltac split_scoped H :=
  cbn [scoped program] in H; rewrite ?andb_true_iff, ?forallb_elem_of, ?bool_decide_eq_true in H.

Lemma covered_step w w' ts : covered w ts -> step w w' -> exists ts', covered w' ts'.
Proof.
  intros [Hr Hs Ha Hsh] Hstep. destruct Hstep as [o l a r|ps l a r|t l a r|t l a r Ht|o l a r|t l a r Ht];
    cbn [program alive running] in *.
  - exists ts. split_scoped Hs. split; cbn [program alive running]; [done|naive_solver| |done].
    intros t p Ht Hp. right. by eapply Ha.
  - exists ts. split_scoped Hs. split; cbn [program alive running]; naive_solver.
  - split_scoped Hs. destruct Hs as ((((Hnew & Halive) & Hpool) & Hcomp) & Hs).
    exists (t :: ts). split; cbn [program alive running]; [set_solver|done| |].
    + intros u p [->|Hu]%elem_of_cons Hp; [|by eapply Ha].
      apply Halive in Hp. by apply bool_decide_eq_true in Hp.
    + intros u v p [->|Hu]%elem_of_cons [->|Hv]%elem_of_cons Huv Hp Hp'.
      * destruct Huv as [?|Hpt]; [done|]. rewrite Hpt in Hpool. cbn in Hpool.
        unfold shares in Hpool. rewrite forallb_elem_of in Hpool. auto.
      * apply Hcomp in Hv. rewrite compatible_spec in Hv. naive_solver.
      * apply Hcomp in Hu. rewrite compatible_spec in Hu. naive_solver.
      * naive_solver.
  - split_scoped Hs. exists (without t ts).
    split; cbn [program alive running]; [|done|..].
    + intros u Hu. apply elem_of_without. split; [by intros ->|auto].
    + intros u p [_ Hu]%elem_of_without. by apply Ha.
    + intros u v p [_ Hu]%elem_of_without [_ Hv]%elem_of_without. by apply Hsh.
  - split_scoped Hs. destruct Hs as ((Hin & Hfree) & Hs). exists ts.
    split; cbn [program alive running]; [done|done| |done].
    intros t p Ht Hp. apply elem_of_without. split; [|by eapply Ha].
    apply Hfree in Ht. rewrite forallb_elem_of in Ht. apply Ht in Hp. by apply bool_decide_eq_true in Hp.
  - exists ts. split; cbn [program alive running]; [|done..].
    intros u [_ Hu]%elem_of_without. auto.
Qed.

Lemma covered_reaches w w' :
  rtc step w w' -> (exists ts, covered w ts) -> exists ts, covered w' ts.
Proof.
  induction 1 as [|w1 w2 w3 Hstep _ IH]; [done|]. intros [ts Hts]. apply IH. by eapply covered_step.
Qed.

Lemma scoped_reaches l w :
  scoped l [] [] = true -> rtc step (at_start l) w -> exists ts, covered w ts.
Proof.
  intros Hs Hw. apply (covered_reaches _ _ Hw). exists [].
  split; cbn [at_start program alive running]; [done|done|set_solver..].
Qed.

Lemma covered_ok w ts : covered w ts -> lifetimes_ok w.
Proof.
  destruct w as [l a r]. intros [Hr Hs Ha Hsh]. cbn [program alive running] in *.
  split; cbn [program alive running].
  - intros t p Ht Hp. eapply Ha; [|done]. auto.
  - intros ps p l' -> Hp. split_scoped Hs. destruct Hs as ((Hown & _) & _).
    apply Hown in Hp. by apply bool_decide_eq_true in Hp.
  - intros o l' ->. split_scoped Hs. naive_solver.
  - intros o l' ->. split_scoped Hs. naive_solver.
  - intros ->. split_scoped Hs. destruct Hs as [-> ->]. split; [|done].
    destruct r as [|t r]; [done|]. exfalso. by apply (not_elem_of_nil t), Hr; left.
Qed.

Lemma covered_contend w ts x y p : covered w ts -> contend w x y p -> may_share x y p = true.
Proof.
  destruct w as [l a r]. intros [Hr Hs Ha Hsh] Hc. cbn [program alive running] in *.
  destruct Hc as [t ps p l' Hl Hps Ht Hp|t u p Ht Hu Htu Hp Hp']; cbn [program running] in *; [subst l|naive_solver].
  split_scoped Hs. destruct Hs as ((_ & Hmain) & _).
  apply Hr, Hmain in Ht. unfold shares in Ht. rewrite forallb_elem_of in Ht.
  apply Ht, list_elem_of_filter. done.
Qed.

(** What the check accepts is safe. *)
Lemma scoped_safe l w :
  scoped l [] [] = true -> rtc step (at_start l) w ->
  lifetimes_ok w /\ forall x y p, contend w x y p -> may_share x y p = true.
Proof.
  intros Hs Hw. destruct (scoped_reaches l w Hs Hw) as [ts Hts].
  split; [by eapply covered_ok|]. intros x y p. by eapply covered_contend.
Qed.

Lemma advance_reaches n w : rtc step w (advance n w).
Proof.
  revert w; induction n as [|n IH]; intros [l a r]; [done|].
  destruct l as [|[o|ps|t|t|o] l]; cbn [advance program alive running]; [done|..].
  4: destruct (decide (t ∈ r)) as [Ht|Ht]; [done|].
  all: eapply rtc_l; [by constructor|apply IH].
Qed.

(** The program can always go on: a thread that is being joined may end. *)
Lemma runs_through l a r : exists a' r', rtc step (mkSnapshot l a r) (mkSnapshot [] a' r').
Proof.
  revert a r; induction l as [|e l IH]; intros a r; [by exists a, r|].
  destruct e as [o|ps|t|t|o].
  - destruct (IH (o :: a) r) as (a' & r' & H). exists a', r'. eapply rtc_l; [constructor|done].
  - destruct (IH a r) as (a' & r' & H). exists a', r'. eapply rtc_l; [constructor|done].
  - destruct (IH a (t :: r)) as (a' & r' & H). exists a', r'. eapply rtc_l; [constructor|done].
  - destruct (decide (t ∈ r)) as [Ht|Ht].
    + destruct (IH a (without t r)) as (a' & r' & H). exists a', r'.
      eapply rtc_l; [by apply step_end|]. eapply rtc_l; [|done]. constructor.
      by intros [? _]%elem_of_without.
    + destruct (IH a r) as (a' & r' & H). exists a', r'. eapply rtc_l; [by constructor|done].
  - destruct (IH (without o a) r) as (a' & r' & H). exists a', r'. eapply rtc_l; [constructor|done].
Qed.
End Safety.
End Machine.
