(* ===== verification/Sharing.v ===== *)
(** * What the threads share

    The data members of the classes whose objects several threads reach
    ([EventSource], [AlertDispatcher], [RiskEngine], [JsonRpcClient], the chain
    adapters, [HealthServer]), how each is protected, and which of them each
    method uses.  AppLifetimes.v and BacktestLifetimes.v put them together. *)
From S2P Require Import Prelude.

(** Why several threads may use a member at once, or not. *)
Inductive Protection :=
  | Constant    (* written by the constructor only *)
  | Atomic
  | Guarded     (* used with the mutex of its object held *)
  | ThreadSafe  (* a mutex, a condition variable, the HTTP server, an instrument *)
  | Confined.   (* nothing protects it *)

Definition synchronises (g : Protection) : bool := match g with Confined => false | _ => true end.

(** ** [EventSource] *)

Inductive es_member :=
  | es_adapter_ | es_out_ | es_chain_name_ | es_chain_id_ | es_cfg_ | es_running_
  | es_next_block_ | es_cold_start_
  | es_cached_chain_head_ | es_log_ | es_metrics_ | es_heartbeat_
  | es_metrics_events_ingested_ | es_metrics_signals_normalized_ | es_metrics_ring_buffer_depth_
  | es_metrics_last_seen_block_ | es_metrics_last_processed_block_.

#[export] Instance es_member_eq_dec : EqDecision es_member.
Proof. solve_decision. Defined.

Definition es_protection (m : es_member) : Protection :=
  match m with
  | es_running_ => Atomic
  | es_next_block_ | es_cold_start_ | es_cached_chain_head_ => Confined
  | _ => Constant
  end.

Definition es_push_blocking : list es_member := [es_out_; es_log_; es_cfg_].
Definition es_poll_once : list es_member :=
  [es_cached_chain_head_; es_next_block_; es_adapter_; es_log_; es_metrics_last_seen_block_;
   es_cfg_; es_cold_start_;
   es_metrics_events_ingested_; es_chain_id_; es_metrics_signals_normalized_;
   es_metrics_ring_buffer_depth_;
   es_metrics_last_processed_block_].
Definition es_run : list es_member :=
  [es_log_; es_chain_name_; es_chain_id_; es_next_block_; es_running_; es_cfg_; es_heartbeat_] ++
   es_poll_once ++ es_push_blocking.
Definition es_stop : list es_member := [es_running_].

(** ** [AlertDispatcher] *)

Inductive ad_member :=
  | ad_channels_ | ad_queue_ | ad_mutex_ | ad_cv_ | ad_running_ | ad_chain_name_ | ad_metrics_
  | ad_heartbeat_
  | ad_deduplicator_ | ad_alerts_sent_counters_ | ad_alerts_send_failures_counters_
  | ad_alerts_deduplicated_counters_ | ad_last_alert_success_gauge_ | ad_alert_queue_depth_gauge_
  | ad_alert_send_duration_hist_ | ad_signal_to_alert_hist_.

#[export] Instance ad_member_eq_dec : EqDecision ad_member.
Proof. solve_decision. Defined.

(** [add_channel] writes the channels and their counters. *)
Definition ad_protection (m : ad_member) : Protection :=
  match m with
  | ad_queue_ => Guarded
  | ad_mutex_ | ad_cv_ => ThreadSafe
  | ad_running_ => Atomic
  | ad_channels_ | ad_deduplicator_ | ad_alerts_sent_counters_ | ad_alerts_send_failures_counters_
  | ad_alerts_deduplicated_counters_ => Confined
  | _ => Constant
  end.

Definition ad_add_channel : list ad_member :=
  [ad_running_; ad_metrics_; ad_alerts_sent_counters_; ad_alerts_send_failures_counters_;
   ad_chain_name_; ad_channels_].
Definition ad_stop : list ad_member := [ad_running_; ad_cv_].
Definition ad_dispatch : list ad_member := [ad_mutex_; ad_queue_; ad_alert_queue_depth_gauge_;
ad_cv_].
Definition ad_run : list ad_member :=
  [ad_running_; ad_heartbeat_; ad_mutex_; ad_cv_; ad_queue_; ad_alert_queue_depth_gauge_;
   ad_deduplicator_;
   ad_alerts_deduplicated_counters_; ad_channels_; ad_alerts_sent_counters_;
   ad_alerts_send_failures_counters_;
   ad_metrics_; ad_last_alert_success_gauge_; ad_alert_send_duration_hist_;
   ad_signal_to_alert_hist_].

(** ** [RiskEngine] *)

Inductive re_member :=
  | re_input_queue_ | re_dispatcher_ | re_state_store_ | re_routing_table_ | re_running_
  | re_finished_ | re_chain_name_
  | re_metrics_ | re_heartbeat_ | re_ring_buffer_depth_gauge_ | re_alerts_generated_counters_.

#[export] Instance re_member_eq_dec : EqDecision re_member.
Proof. solve_decision. Defined.

(** [register_rule] writes the routing table and the counters. *)
Definition re_protection (m : re_member) : Protection :=
  match m with
  | re_running_ | re_finished_ => Atomic
  | re_state_store_ | re_routing_table_ | re_alerts_generated_counters_ => Confined
  | _ => Constant
  end.

Definition re_register_rule : list re_member :=
  [re_routing_table_; re_metrics_; re_alerts_generated_counters_; re_chain_name_].
Definition re_stop : list re_member := [re_running_].
Definition re_is_finished : list re_member := [re_finished_].
Definition re_run : list re_member :=
  [re_running_; re_heartbeat_; re_input_queue_; re_ring_buffer_depth_gauge_; re_routing_table_;
   re_state_store_;
   re_alerts_generated_counters_; re_dispatcher_; re_finished_].

(** ** [JsonRpcClient] *)

Inductive jr_member :=
  | jr_endpoint_ | jr_chain_name_ | jr_metrics_ | jr_last_rpc_success_gauge_ | jr_rpc_counters_
  | jr_rpc_histograms_.

#[export] Instance jr_member_eq_dec : EqDecision jr_member.
Proof. solve_decision. Defined.

(** [call] makes a handle of its own for each transfer. *)
Definition jr_protection (m : jr_member) : Protection := Constant.

Definition jr_call : list jr_member :=
  [jr_rpc_counters_; jr_endpoint_; jr_metrics_; jr_last_rpc_success_gauge_; jr_rpc_histograms_].

(** ** [HealthServer] *)

Inductive hs_member := hs_cfg_ | hs_inputs_ | hs_server_ | hs_server_thread_.

#[export] Instance hs_member_eq_dec : EqDecision hs_member.
Proof. solve_decision. Defined.

Definition hs_protection (m : hs_member) : Protection :=
  match m with hs_cfg_ | hs_inputs_ => Constant | hs_server_ => ThreadSafe
  | hs_server_thread_ => Confined end.

Definition hs_start : list hs_member := [hs_cfg_; hs_server_; hs_server_thread_].
Definition hs_stop : list hs_member := [hs_server_; hs_server_thread_].
(** The server thread and the handlers it runs. *)
Definition hs_serve : list hs_member := [hs_server_; hs_inputs_; hs_cfg_].
