(* ===== verification/AppLifetimes.v ===== *)
(** * The objects and threads of the service

    The members of [App] ([include/sentinel/app/app.hpp]) in the order of their
    declaration, what each thread uses of them, and the construction, the
    shutdown and the destruction of [src/app/app.cpp] and [src/main.cpp] as a
    program of Lifetimes.v, cut at any point by an exception.  The health server
    is one of the threads. *)
From stdpp Require Import relations.
From S2P Require Import Prelude Lifetimes Sharing.

(** ** The members *)

(** A [unique_ptr] member stands for the object it owns. *)
Inductive AppMember :=
  | cfg_ | customer_id_to_key_ | token_addresses_to_symbols_ | governance_rules_by_contract_
  | mint_burn_rules_by_contract_ | approval_rules_by_contract_ | bridge_configs_by_key_
  | bridge_addresses_ | bridge_names_ | oracle_configs_by_feed_ | customer_webhooks_
  | stop_requested_ | stopped_ | run_mutex_ | run_cv_
  | event_source_hb_ | risk_engine_hb_ | dispatcher_hb_
  | conn_ | health_server_ | metrics_ | ring_buffer_ | rpc_ | arbitrum_adapter_
  | ethereum_adapter_ | adapter_ | event_source_ | dispatcher_ | risk_engine_
  | event_source_thread_ | dispatcher_thread_ | risk_engine_thread_
  | rules_.

#[export] Instance Member_eq_dec : EqDecision AppMember.
Proof. solve_decision. Defined.

Definition app_members : list AppMember :=
  [cfg_; customer_id_to_key_; token_addresses_to_symbols_; governance_rules_by_contract_;
   mint_burn_rules_by_contract_; approval_rules_by_contract_; bridge_configs_by_key_;
   bridge_addresses_; bridge_names_; oracle_configs_by_feed_; customer_webhooks_;
   stop_requested_; stopped_; run_mutex_; run_cv_;
   event_source_hb_; risk_engine_hb_; dispatcher_hb_;
   conn_; health_server_; metrics_; ring_buffer_; rpc_; arbitrum_adapter_;
   ethereum_adapter_; adapter_; event_source_; dispatcher_; risk_engine_;
   event_source_thread_; dispatcher_thread_; risk_engine_thread_;
   rules_].

(** The members that are null until a module is made. *)
Definition app_is_owner (m : AppMember) : bool :=
  match m with
  | conn_ | health_server_ | metrics_ | ring_buffer_ | rpc_ | arbitrum_adapter_
  | ethereum_adapter_ | event_source_ | dispatcher_ | risk_engine_ => true
  | _ => false
  end.

(** The [i]-th rule of [rules_] is an object of its own. *)
Inductive AppObject := Of (m : AppMember) | RuleObject (i : nat).

#[export] Instance Obj_eq_dec : EqDecision AppObject.
Proof. solve_decision. Defined.

(** ** The parts, and the threads that use them *)

Inductive AppPart :=
  | Whole (m : AppMember)
  | Connection       (* the database connection *)
  | Registry         (* [Metrics] and the instruments taken from it *)
  | RingProducer     (* [try_push] *)
  | RingConsumer     (* [front] and [pop] *)
  | Adapter          (* [rpc_] and [log_] of the chain's adapter *)
  | InClient (m : jr_member)
  | InSource (m : es_member)
  | InDispatcher (m : ad_member)
  | InEngine (m : re_member)
  | InHealth (m : hs_member)
  | RuleState (i : nat).

#[export] Instance Part_eq_dec : EqDecision AppPart.
Proof. solve_decision. Defined.

Inductive AppThread := SignalThread | SourceThread | EngineThread | DispatcherThread | HealthThread.

#[export] Instance Thread_eq_dec : EqDecision AppThread.
Proof. solve_decision. Defined.

(** [CHAIN] is ethereum; the two variables of Telegram are set; the database
    answers; its schema and checkpoint are there; the health server starts. *)
Record AppEnvironment := mkAppEnvironment {
  ethereum : bool;
  telegram : bool;
  db_open : bool;
  db_ready : bool;
  health_starts : bool;
}.

Definition the_adapter (e : AppEnvironment) : AppMember :=
  if ethereum e then ethereum_adapter_ else arbitrum_adapter_.

Definition app_owner (e : AppEnvironment) (p : AppPart) : AppObject :=
  match p with
  | Whole m => Of m
  | Connection => Of conn_
  | Registry => Of metrics_
  | RingProducer | RingConsumer => Of ring_buffer_
  | Adapter => Of (the_adapter e)
  | InClient _ => Of rpc_
  | InSource _ => Of event_source_
  | InDispatcher _ => Of dispatcher_
  | InEngine _ => Of risk_engine_
  | InHealth _ => Of health_server_
  | RuleState i => RuleObject i
  end.

(** Of the members of [App] itself, the flags and heartbeats are atomic. *)
Definition app_protection (p : AppPart) : Protection :=
  match p with
  | Whole (stop_requested_ | stopped_ | event_source_hb_ | risk_engine_hb_ | dispatcher_hb_) => Atomic
  | Whole (run_mutex_ | run_cv_) | Registry => ThreadSafe
  | Whole _ | Connection | RingProducer | RingConsumer | RuleState _ => Confined
  | Adapter => Constant
  | InClient m => jr_protection m
  | InSource m => es_protection m
  | InDispatcher m => ad_protection m
  | InEngine m => re_protection m
  | InHealth m => hs_protection m
  end.

Definition app_synchronised (p : AppPart) : bool := synchronises (app_protection p).

Definition rule_count : nat := 6.

(** The maps of the application that the [i]-th rule holds references to, and
    those that are moved into it. *)
Definition rule_references (i : nat) : list AppMember :=
  match i with
  | 1%nat => [governance_rules_by_contract_]
  | 2%nat => [mint_burn_rules_by_contract_]
  | 3%nat => [approval_rules_by_contract_]
  | 4%nat => [bridge_addresses_; bridge_names_]
  | _ => []
  end.
Definition rule_moves (i : nat) : list AppMember :=
  match i with
  | 4%nat => [bridge_configs_by_key_]
  | 5%nat => [oracle_configs_by_feed_]
  | _ => []
  end.

(** [IRiskRule::evaluate] of every rule. *)
Definition evaluate_uses : list AppPart :=
  seq 0 rule_count ≫= fun i => RuleState i :: (Whole <$> rule_references i).

(** [App::request_stop]. *)
Definition signal_uses : list AppPart := [Whole stop_requested_; Whole run_cv_].

(** A request to the node: the adapter, the client, its instruments. *)
Definition node_uses : list AppPart := [Adapter; Registry] ++ (InClient <$> jr_call).

(** [AlertDispatcher::dispatch]. *)
Definition dispatch_uses : list AppPart := (InDispatcher <$> ad_dispatch) ++ [Registry].

(** What the database probe and the RPC probe of [init_modules_] use. *)
Definition probe_uses : list AppPart := [Connection; Registry].

(** The threads of [start_threads_], the handlers of the health server and the
    signal thread.  The rules hold references to maps of the application, the
    Telegram channel pointers to two others. *)
Definition app_uses (e : AppEnvironment) (t : AppThread) : list AppPart :=
  match t with
  | SignalThread => signal_uses
  | SourceThread =>
      (InSource <$> es_run) ++ [Whole event_source_hb_; Registry; RingProducer] ++ node_uses
  | EngineThread =>
      (InEngine <$> re_run) ++ [Whole risk_engine_hb_; Registry; RingConsumer] ++
      evaluate_uses ++ dispatch_uses
  | DispatcherThread =>
      (InDispatcher <$> ad_run) ++ [Whole dispatcher_hb_; Registry] ++
      (if telegram e then [Whole customer_id_to_key_; Whole token_addresses_to_symbols_] else [])
  | HealthThread =>
      (InHealth <$> hs_serve) ++
      [Whole event_source_hb_; Whole risk_engine_hb_; Whole dispatcher_hb_] ++ probe_uses
  end.

(** The HTTP server runs its handlers on several threads. *)
Definition app_layout (e : AppEnvironment) : Layout AppObject AppPart AppThread :=
  mkLayout AppObject AppPart AppThread (app_owner e) (app_uses e)
    (fun t => match t with HealthThread => true | _ => false end).

(** ** The program of the main thread *)

Notation app_event := (Event AppObject AppPart AppThread).

(** [App::App]: the members that are not null, in order. *)
Definition app_construct : list app_event :=
  (fun m => Make (Of m)) <$> filter (fun m => app_is_owner m = false) app_members.

(** [init_db_]; only the last connection is kept. *)
Definition db_events (e : AppEnvironment) : list app_event :=
  Use [Whole cfg_] :: (if db_open e then [Make (Of conn_); Use [Connection]; Use [Whole cfg_]] else []).

(** The adapter, and the event source, whose constructor asks the node for its
    chain. *)
Definition source_events (e : AppEnvironment) : list app_event :=
  [Use (InClient <$> jr_call); Make (Of (the_adapter e)); Use [Whole adapter_];
   Use ([RingProducer; Whole cfg_] ++ node_uses); Make (Of event_source_)].

(** The loaders: a query each, and the maps they fill; the token map has no
    query. *)
Definition loader_events : list app_event :=
  [Use [Connection; Whole customer_id_to_key_];
   Use [Whole token_addresses_to_symbols_];
   Use [Connection; Whole governance_rules_by_contract_];
   Use [Connection; Whole mint_burn_rules_by_contract_];
   Use [Connection; Whole approval_rules_by_contract_];
   Use [Connection; Whole bridge_configs_by_key_; Whole bridge_addresses_; Whole bridge_names_];
   Use [Connection; Whole oracle_configs_by_feed_];
   Use [Connection; Whole customer_webhooks_]].

Definition module_events (e : AppEnvironment) : list app_event :=
  [Make (Of ring_buffer_); Use [Whole cfg_]; Make (Of metrics_); Use [Registry]; Make (Of rpc_)] ++
  source_events e ++ loader_events ++
  [Use [Registry]; Make (Of dispatcher_);
   Use (Registry :: (InDispatcher <$> ad_add_channel)); Use [Whole customer_webhooks_];
   Use [RingConsumer; Registry]; Use (InDispatcher <$> ad_dispatch); Make (Of risk_engine_);
   Use [Whole cfg_]; Make (Of health_server_)].

(** [register_rules_]: the engine keeps a raw pointer, [rules_] the rule. *)
Definition rule_events : list app_event :=
  Use [Connection] ::
  (seq 0 rule_count ≫= fun i =>
     [Use (Whole <$> rule_moves i); Make (RuleObject i);
      Use (RuleState i :: Registry :: (InEngine <$> re_register_rule));
      Use [Whole rules_]]).

(** A server that cannot start is destroyed. *)
Definition thread_events (e : AppEnvironment) : list app_event :=
  [Spawn DispatcherThread; Use [Whole dispatcher_thread_];
   Spawn EngineThread; Use [Whole risk_engine_thread_];
   Spawn SourceThread; Use [Whole event_source_thread_];
   Use [Whole cfg_]; Use (InHealth <$> hs_start)] ++
  (if health_starts e then [Spawn HealthThread]
   else [Use (InHealth <$> hs_stop); Join HealthThread; Destroy (Of health_server_)]).

Definition ready_events : list app_event := [Use [Whole cfg_]].
Definition unready_events : list app_event := [Use [Whole cfg_]].

Definition wait_events : list app_event :=
  [Use [Whole run_mutex_]; Use [Whole run_cv_; Whole stop_requested_]].

(** [HealthServer::stop]. *)
Definition health_stop_events : list app_event := [Use (InHealth <$> hs_stop); Join HealthThread].

(** [stop_orderly_], by the modules that exist. *)
Definition stop_events (done : list app_event) : list app_event :=
  let exists_ m := bool_decide (Of m ∈ made done) in
  Use [Whole stopped_] ::
  (if exists_ health_server_ then health_stop_events else []) ++
  (if exists_ event_source_ then [Use (InSource <$> es_stop)] else []) ++
  (if exists_ risk_engine_ && exists_ ring_buffer_
   then [Use [Whole cfg_; RingProducer]; Use (InEngine <$> re_is_finished);
         Use (InEngine <$> re_stop)] else []) ++
  (if exists_ dispatcher_ then [Use (InDispatcher <$> ad_stop)] else []).

Definition join_events : list app_event :=
  [Join SourceThread; Join EngineThread; Join DispatcherThread].

(** The destructors of the members: [~HealthServer] and [~jthread] join their
    thread, [~AlertDispatcher] and [~RiskEngine] call [stop]. *)
Definition member_end (done : list app_event) (m : AppMember) : list app_event :=
  match m with
  | health_server_ => health_stop_events
  | event_source_thread_ => [Join SourceThread]
  | dispatcher_thread_ => [Join DispatcherThread]
  | risk_engine_thread_ => [Join EngineThread]
  | dispatcher_ => [Use (InDispatcher <$> ad_stop)]
  | risk_engine_ => [Use (InEngine <$> re_stop)]
  | rules_ => Destroy <$> (RuleObject <$> filter (fun i => RuleObject i ∈ made done) (seq 0 rule_count))
  | _ => []
  end ++ [Destroy (Of m)].

(** [~App] and the members, last declared first; [stopped] is [stopped_]. *)
Definition app_end (stopped : bool) (done : list app_event) : list app_event :=
  (if stopped then [Use [Whole stopped_]] else stop_events done) ++ join_events ++
  (reverse (filter (fun m => app_is_owner m = false \/ Of m ∈ made done) app_members) ≫= member_end done).

(** The body of the [try] of [App::run]; with no database it returns at once. *)
Definition until_ready (e : AppEnvironment) : list app_event :=
  db_events e ++ module_events e ++ rule_events ++ thread_events e ++ ready_events.
Definition body_events (e : AppEnvironment) : list app_event :=
  if db_open e && db_ready e then until_ready e ++ wait_events else db_events e.

(** [App::run] when an exception leaves the body after [n] events (none does when
    [n] is its length): the readiness file is removed on the way out, then the
    service is stopped, unless [run] returned for want of a database. *)
Definition run_stops (e : AppEnvironment) (n : nat) : bool :=
  db_open e && db_ready e || (n <? length (body_events e))%nat.
Definition run_events (e : AppEnvironment) (n : nat) : list app_event :=
  let tried := take n (body_events e) ++
    (if db_open e && db_ready e && (length (until_ready e) <=? n)%nat
     then unready_events else []) in
  tried ++ (if run_stops e n then stop_events tried ++ join_events else []).

(** The end of [main]: the application, the signal thread, which ends before it. *)
Definition service_program (e : AppEnvironment) (n : nat) : list app_event :=
  app_construct ++ [Spawn SignalThread] ++ run_events e n ++ [Join SignalThread] ++
  app_end (run_stops e n) (run_events e n).

(** * Facts *)

(** The two uses that nothing guards: the second producer of the ring, and the
    one connection of the readiness probes. *)
Definition app_may_share (x y : option AppThread) (p : AppPart) : bool :=
  app_synchronised p ||
  match x, y, p with
  | None, Some SourceThread, RingProducer => true
  | Some HealthThread, Some HealthThread, Connection => true
  | _, _, _ => false
  end.

Definition app_scoped (e : AppEnvironment) (n : nat) : bool :=
  scoped (app_layout e) app_may_share (service_program e n) [] [].

Definition all_scoped (e : AppEnvironment) : bool :=
  forallb (app_scoped e) (seq 0 (S (length (body_events e)))).

Lemma environments_scoped e : all_scoped e = true.
Proof. destruct e as [[] [] [] [] []]; vm_compute; reflexivity. Qed.

Lemma app_main_beyond e n : (length (body_events e) <= n)%nat -> service_program e n = service_program e (length (body_events e)).
Proof.
  intros Hn. unfold service_program, run_events, run_stops.
  rewrite !take_ge, (proj2 (Nat.ltb_ge _ _) Hn), Nat.ltb_irrefl by done.
  assert (db_open e && db_ready e = true ->
    (length (until_ready e) <=? n)%nat = (length (until_ready e) <=? length (body_events e))%nat) as Hready.
  { intros He. unfold body_events in *. rewrite He, length_app in *.
    rewrite !(proj2 (Nat.leb_le _ _)) by lia. done. }
  destruct (db_open e && db_ready e); cbn [andb]; [by rewrite Hready|done].
Qed.

Lemma app_main_scoped e n : app_scoped e n = true.
Proof.
  pose proof (environments_scoped e) as H. unfold all_scoped in H. rewrite forallb_elem_of in H.
  destruct (decide (n <= length (body_events e))%nat).
  - apply H, elem_of_seq. lia.
  - unfold app_scoped. rewrite app_main_beyond by lia. apply H, elem_of_seq. lia.
Qed.

(** ** Two runs *)

(** Everything starts but the health server; the signal comes at once. *)
Definition plain : AppEnvironment := mkAppEnvironment false true true true false.
Definition served : AppEnvironment := mkAppEnvironment true false true true true.
Definition whole (e : AppEnvironment) : nat := length (body_events e).

(** The events up to the poison pill, and up to the running health server. *)
Definition at_pill : nat := length (app_construct ++ [Spawn SignalThread] ++
  body_events plain ++ unready_events) + 2.
Definition at_served : nat := length (app_construct ++ [Spawn SignalThread] ++
  db_events served ++ module_events served ++ rule_events ++ thread_events served).

(** * Properties *)

(** C10: whatever interleaving of the threads, and at whatever point an exception
    leaves the body of [App::run]: the main thread, the signal thread, the three workers and the
    handlers of the health server only use objects that are alive, nothing is constructed or
    destroyed twice, and when [main] returns every thread has ended and every object has been
    destroyed. *)
Theorem app_lifetimes (e : AppEnvironment) (n : nat) (w : Snapshot AppObject AppPart AppThread)
    (Hw : rtc step (at_start (service_program e n)) w) :
  lifetimes_ok (app_layout e) w.
Proof. exact (proj1 (scoped_safe _ _ _ _ (app_main_scoped e n) Hw)). Qed.

(** C9: two threads are never in the same part of an object unless it is
    synchronised, with two exceptions, which both occur: the main thread pushes the poison pill
    while the event source may push (the queue allows one producer), and two readiness probes use
    the one database connection. *)
Theorem app_sharing (x y : option AppThread) (p : AppPart) :
  (exists e n w, rtc step (at_start (service_program e n)) w /\ contend (app_layout e) w x y p /\
     app_synchronised p = false) <->
  (x = None /\ y = Some SourceThread /\ p = RingProducer) \/
  (x = Some HealthThread /\ y = Some HealthThread /\ p = Connection).
Proof.
  split.
  - intros (e & n & w & Hw & Hc & Hp).
    apply (scoped_safe _ _ _ _ (app_main_scoped e n) Hw) in Hc.
    unfold app_may_share in Hc. rewrite Hp in Hc. cbn [orb] in Hc.
    destruct x as [[]|], y as [[]|], p; try done; auto.
  - intros [(-> & -> & ->)|(-> & -> & ->)].
    + exists plain, (whole plain), (advance at_pill (at_start (service_program plain (whole plain)))).
      split; [apply advance_reaches|]. split; [|done].
      eapply contend_main; [vm_compute; reflexivity|refine (bool_decide_unpack _ _); vm_compute; exact I..].
    + exists served, (whole served), (advance at_served (at_start (service_program served (whole served)))).
      split; [apply advance_reaches|]. split; [|done].
      apply contend_threads; [refine (bool_decide_unpack _ _); vm_compute; exact I..|by right| |];
        refine (bool_decide_unpack _ _); vm_compute; exact I.
Qed.

(** The main thread alone with a service whose database does not answer. *)
Lemma app_lifetimes_witness :
  let e := mkAppEnvironment false false false false true in
  program (advance 30 (at_start (service_program e 1))) <> [] /\
  lifetimes_ok (app_layout e) (advance 30 (at_start (service_program e 1))).
Proof.
  split; [vm_compute; discriminate|].
  apply (app_lifetimes (mkAppEnvironment false false false false true) 1). apply advance_reaches.
Defined.
