(* ===== verification/BacktestLifetimes.v ===== *)
(** * The objects and threads of a backtest

    The members of [BacktestApp] ([include/sentinel/backtest/backtest_app.hpp])
    and the three threads that [BacktestApp::run]
    ([src/backtest/backtest_app.cpp]) keeps as local variables, as a program of
    Lifetimes.v.  There is no database, no metrics, no health server and no
    signal thread. *)
From stdpp Require Import relations.
From S2P Require Import Prelude Lifetimes Sharing.

(** ** Members, parts and threads *)

Inductive BtMember :=
  | cfg_ | rpc_url_ | rpc_ | adapter_ | ring_buffer_ | event_source_ | dispatcher_
  | risk_engine_ | file_channel_ | rules_.

#[export] Instance Member_eq_dec : EqDecision BtMember.
Proof. solve_decision. Defined.

Definition bt_members : list BtMember :=
  [cfg_; rpc_url_; rpc_; adapter_; ring_buffer_; event_source_; dispatcher_;
   risk_engine_; file_channel_; rules_].

(** The [unique_ptr]s, null until [run] makes their module. *)
Definition bt_is_owner (m : BtMember) : bool :=
  match m with
  | rpc_ | adapter_ | ring_buffer_ | event_source_ | dispatcher_ | risk_engine_ => true
  | _ => false
  end.

(** The file channel belongs to the dispatcher once it is added; [file_channel_]
    is a raw pointer to it. *)
Inductive BtObject := Of (m : BtMember) | FileChannel | RuleObject (i : nat).

#[export] Instance Obj_eq_dec : EqDecision BtObject.
Proof. solve_decision. Defined.

Inductive BtPart :=
  | Whole (m : BtMember)
  | RingProducer | RingConsumer
  | Adapter
  | InClient (m : jr_member)
  | InSource (m : es_member)
  | InDispatcher (m : ad_member)
  | InEngine (m : re_member)
  | ChannelState       (* the stream and [alert_count_] *)
  | RuleState (i : nat).

#[export] Instance Part_eq_dec : EqDecision BtPart.
Proof. solve_decision. Defined.

Inductive BtThread := SourceThread | EngineThread | DispatcherThread.

#[export] Instance Thread_eq_dec : EqDecision BtThread.
Proof. solve_decision. Defined.

Definition bt_owner (p : BtPart) : BtObject :=
  match p with
  | Whole m => Of m
  | RingProducer | RingConsumer => Of ring_buffer_
  | Adapter => Of adapter_
  | InClient _ => Of rpc_
  | InSource _ => Of event_source_
  | InDispatcher _ => Of dispatcher_
  | InEngine _ => Of risk_engine_
  | ChannelState => FileChannel
  | RuleState i => RuleObject i
  end.

Definition bt_protection (p : BtPart) : Protection :=
  match p with
  | Adapter => Constant
  | InClient m => jr_protection m
  | InSource m => es_protection m
  | InDispatcher m => ad_protection m
  | InEngine m => re_protection m
  | _ => Confined
  end.

Definition bt_synchronised (p : BtPart) : bool := synchronises (bt_protection p).

Definition bt_node_uses : list BtPart := Adapter :: (InClient <$> jr_call).

(** The [i]-th rule holds references to maps of the configuration, unless it has
    copied its table. *)
Definition bt_rule_references (i : nat) : list BtPart :=
  match i with 1%nat | 2%nat | 3%nat | 4%nat => [Whole cfg_] | _ => [] end.

(** [active] are the rules the configuration has an entry for, of the six. *)
Definition bt_uses (active : list nat) (t : BtThread) : list BtPart :=
  match t with
  | SourceThread => (InSource <$> es_run) ++ [RingProducer] ++ bt_node_uses
  | EngineThread =>
      (InEngine <$> re_run) ++ [RingConsumer] ++
      (active ≫= fun i => RuleState i :: bt_rule_references i) ++ (InDispatcher <$> ad_dispatch)
  | DispatcherThread => (InDispatcher <$> ad_run) ++ [ChannelState]
  end.

Definition backtest_layout (active : list nat) : Layout BtObject BtPart BtThread :=
  mkLayout BtObject BtPart BtThread bt_owner (bt_uses active) (fun _ => false).

(** ** The program *)

Notation bt_event := (Event BtObject BtPart BtThread).

Definition bt_construct : list bt_event :=
  (fun m => Make (Of m)) <$> filter (fun m => bt_is_owner m = false) bt_members.

Definition bt_module_events : list bt_event :=
  [Use [Whole cfg_; Whole rpc_url_]; Make (Of rpc_);
   Use (InClient <$> jr_call); Make (Of adapter_); Make (Of ring_buffer_);
   Use ([Whole cfg_; RingProducer] ++ bt_node_uses); Make (Of event_source_);
   Use [Whole cfg_]; Make (Of dispatcher_); Use [Whole cfg_]; Make FileChannel;
   Use [Whole file_channel_; ChannelState]; Use (InDispatcher <$> ad_add_channel);
   Use (RingConsumer :: (InDispatcher <$> ad_dispatch)); Make (Of risk_engine_)].

Definition bt_rule_events (active : list nat) : list bt_event :=
  active ≫= fun i =>
    [Use [Whole cfg_]; Make (RuleObject i);
     Use (RuleState i :: (InEngine <$> re_register_rule)); Use [Whole rules_]].

Definition bt_thread_events : list bt_event :=
  [Use [Whole rules_]; Spawn DispatcherThread; Spawn EngineThread; Spawn SourceThread].

(** The end: the event source is joined before the pill is pushed, and the
    dispatcher before its channel is asked for the count. *)
Definition bt_drain_events : list bt_event :=
  [Join SourceThread; Use [RingProducer]; Use (InEngine <$> re_is_finished);
   Use (InEngine <$> re_stop); Join EngineThread;
   Use (InDispatcher <$> ad_stop); Join DispatcherThread;
   Use [Whole file_channel_; ChannelState]; Use [Whole cfg_]].

Definition bt_body_events (active : list nat) : list bt_event :=
  bt_module_events ++ bt_rule_events active ++ bt_thread_events ++ bt_drain_events.

(** The local threads, last declared first. *)
Definition bt_leave_events : list bt_event := [Join SourceThread; Join EngineThread; Join DispatcherThread].

(** The destructor, which only destroys the members. *)
Definition bt_member_end (done : list bt_event) (m : BtMember) : list bt_event :=
  match m with
  | dispatcher_ =>
      Use (InDispatcher <$> ad_stop) ::
      (if bool_decide (FileChannel ∈ made done) then [Use [ChannelState]; Destroy FileChannel] else []) ++
      [Destroy (Of m)]
  | risk_engine_ => [Use (InEngine <$> re_stop); Destroy (Of m)]
  | rules_ =>
      (Destroy <$> (RuleObject <$>
         filter (fun i => RuleObject i ∈ made done) (seq 0 6))) ++ [Destroy (Of m)]
  | _ => [Destroy (Of m)]
  end.
Definition bt_end (done : list bt_event) : list bt_event :=
  reverse (filter (fun m => bt_is_owner m = false \/ Of m ∈ made done) bt_members) ≫= bt_member_end done.

(** The scope of the application in [main], when an exception leaves [run] after
    [n] events. *)
Definition backtest_program (active : list nat) (n : nat) : list bt_event :=
  let tried := take n (bt_body_events active) in
  bt_construct ++ tried ++ bt_leave_events ++ bt_end tried.

(** The rules of a configuration, by whether it has an entry for each. *)
Definition active_rules (b0 b1 b2 b3 b4 b5 : bool) : list nat :=
  filter (fun i => [b0; b1; b2; b3; b4; b5] !! i = Some true) (seq 0 6).

(** * Facts *)

Definition bt_may_share (x y : option BtThread) (p : BtPart) : bool := bt_synchronised p.

Definition bt_all_scoped (active : list nat) : bool :=
  forallb (fun n => scoped (backtest_layout active) bt_may_share (backtest_program active n) [] [])
    (seq 0 (S (length (bt_body_events active)))).

Lemma rules_scoped b0 b1 b2 b3 b4 b5 : bt_all_scoped (active_rules b0 b1 b2 b3 b4 b5) = true.
Proof. destruct b0, b1, b2, b3, b4, b5; vm_compute; reflexivity. Qed.

Lemma backtest_scoped b0 b1 b2 b3 b4 b5 n (active := active_rules b0 b1 b2 b3 b4 b5) :
  scoped (backtest_layout active) bt_may_share (backtest_program active n) [] [] = true.
Proof.
  pose proof (rules_scoped b0 b1 b2 b3 b4 b5) as H. fold active in H.
  unfold bt_all_scoped in H. rewrite forallb_elem_of in H.
  destruct (decide (n <= length (bt_body_events active))%nat).
  - apply H, elem_of_seq. lia.
  - assert (backtest_program active n = backtest_program active (length (bt_body_events active))) as ->.
    { unfold backtest_program. by rewrite !take_ge by lia. }
    apply H, elem_of_seq. lia.
Qed.

(** * Properties *)

(** C27: in a backtest, with any of the rules and at whatever point an exception
    leaves [BacktestApp::run], no interleaving of its threads uses an object that is not alive, and
    no two threads are ever in the same part of an object unless it is synchronised: the poison pill
    is pushed when the only other producer has been joined, and the count of alerts is read when the
    dispatcher has been; in the end every thread has ended and everything is destroyed. *)
Theorem backtest_lifetimes (b0 b1 b2 b3 b4 b5 : bool) (n : nat) (w : Snapshot BtObject BtPart BtThread)
    (Hw : rtc step (at_start (backtest_program (active_rules b0 b1 b2 b3 b4 b5) n)) w) :
  lifetimes_ok (backtest_layout (active_rules b0 b1 b2 b3 b4 b5)) w /\
  (forall x y p, contend (backtest_layout (active_rules b0 b1 b2 b3 b4 b5)) w x y p ->
     bt_synchronised p = true).
Proof. exact (scoped_safe _ _ _ _ (backtest_scoped b0 b1 b2 b3 b4 b5 n) Hw). Qed.

(** A backtest of one rule, as its threads have just started. *)
Definition sample_start : Snapshot BtObject BtPart BtThread :=
  advance (length bt_construct + length bt_module_events + 8)
    (at_start (backtest_program (active_rules true false false false false false) 60)).

Lemma backtest_lifetimes_witness :
  running sample_start = [SourceThread; EngineThread; DispatcherThread] /\
  lifetimes_ok (backtest_layout (active_rules true false false false false false)) sample_start.
Proof.
  split; [vm_compute; reflexivity|].
  apply (backtest_lifetimes true false false false false false 60), advance_reaches.
Defined.
